(** * JarvisRobotHub: view-state and explosion-animation engine

    A shallow embedding of the explosion smoother ([explodeController.ts]),
    the selection controller ([selectionController.ts]) and the keyboard /
    mouse state machine ([SimpleStateMachine.ts]), with the hierarchy tables
    of [mechConfig.ts].

    Numbers.  A JavaScript [number] is read as a real number: [Math.max],
    [Math.min] and [Math.abs] are [Rmax], [Rmin] and [Rabs], a comparison in
    a condition is the decision procedure of the order on [R].  Rounding of
    IEEE doubles and the value NaN are outside this reading.

    Callbacks.  The [on...] callbacks are notifications to observers that
    only read the machine; they are not part of the state below. *)

From Stdlib Require Import Reals Lra List String ZArith Bool Lia.
Import ListNotations.
Open Scope R_scope.

(** [a < b] as a condition *)
Definition Rltb (a b : R) : bool := if Rlt_dec a b then true else false.

(** ** The part of three.js the controllers use *)

Module Three.

Record Vector3 := mkVector3 { x : R; y : R; z : R }.

(** [THREE.Euler]: the three angles; the order tag is never touched. *)
Definition Euler := Vector3.

Definition add (a b : Vector3) : Vector3 :=
  mkVector3 (x a + x b) (y a + y b) (z a + z b).

Definition multiplyScalar (a : Vector3) (s : R) : Vector3 :=
  mkVector3 (x a * s) (y a * s) (z a * s).

Definition length (a : Vector3) : R :=
  sqrt (x a * x a + y a * y a + z a * z a).

(** [normalize()] is [divideScalar(length() || 1)], and [divideScalar(s)]
    is [multiplyScalar(1 / s)]. *)
Definition normalize (a : Vector3) : Vector3 :=
  let l := length a in
  multiplyScalar a (1 / (if Req_dec_T l 0 then 1 else l)).

Definition distanceTo (a b : Vector3) : R :=
  sqrt ((x a - x b) * (x a - x b) + (y a - y b) * (y a - y b)
        + (z a - z b) * (z a - z b)).

(** [MathUtils.lerp(x, y, t)] is [(1 - t) * x + t * y]. *)
Definition lerpScalar (a b t : R) : R := (1 - t) * a + t * b.

(** [Vector3.lerp(v, alpha)]: [this.x += (v.x - this.x) * alpha], ... *)
Definition lerp (a b : Vector3) (alpha : R) : Vector3 :=
  mkVector3 (x a + (x b - x a) * alpha) (y a + (y b - y a) * alpha)
            (z a + (z b - z a) * alpha).

Definition setScalar (s : R) : Vector3 := mkVector3 s s s.

(** An [Object3D] as the controllers see it: its local pose, the number of
    its children, the [isSkinnedMesh] flag and [userData.originalScale]. *)
Record Object3D := mkObject3D {
  position : Vector3;
  rotation : Euler;
  scale : Vector3;
  childCount : nat;
  isSkinnedMesh : bool;
  originalScale : option Vector3
}.

Definition setPosition (o : Object3D) (p : Vector3) : Object3D :=
  mkObject3D p (rotation o) (scale o) (childCount o) (isSkinnedMesh o)
             (originalScale o).

Definition setRotation (o : Object3D) (r : Euler) : Object3D :=
  mkObject3D (position o) r (scale o) (childCount o) (isSkinnedMesh o)
             (originalScale o).

Definition setScale (o : Object3D) (s : Vector3) : Object3D :=
  mkObject3D (position o) (rotation o) s (childCount o) (isSkinnedMesh o)
             (originalScale o).

Definition setOriginalScale (o : Object3D) (s : Vector3) : Object3D :=
  mkObject3D (position o) (rotation o) (scale o) (childCount o)
             (isSkinnedMesh o) (Some s).

End Three.

(** ** A JavaScript [Map] with string keys, in insertion order *)

Module JsMap.

Definition t (A : Type) := list (string * A).

Definition empty {A} : t A := [].

Fixpoint get {A} (m : t A) (k : string) : option A :=
  match m with
  | [] => None
  | (k', v) :: m' => if String.eqb k' k then Some v else get m' k
  end.

Fixpoint set {A} (m : t A) (k : string) (v : A) : t A :=
  match m with
  | [] => [(k, v)]
  | (k', v') :: m' =>
      if String.eqb k' k then (k', v) :: m' else (k', v') :: set m' k v
  end.

End JsMap.

(** ** mechConfig.ts *)

Module MechConfig.

Definition PartId := string.
Definition MajorPartId := string.

Record MechHierarchy := mkMechHierarchy {
  majorParts : list MajorPartId;
  childrenMap : JsMap.t (list PartId)
}.

Definition MECH_HIERARCHY : MechHierarchy :=
  mkMechHierarchy
    ["Head"; "neck"; "mainbody"; "Leftarm"; "Rightarm"; "Leftleg";
     "Rightleg"]%string
    [("Leftarm", ["Leftupperarm"; "Leftdownarm"; "Lefthand"]);
     ("Rightarm", ["Rightupperarm"; "Rightdownarm"; "Righthand"]);
     ("Leftleg", ["Leftupperleg"; "Leftdownleg"; "Leftfeet"]);
     ("Rightleg", ["Rightupperleg"; "Rightdownleg"; "Rightfeet"])]%string.

Record ExplodeOffset := mkOffset {
  direction : Three.Vector3;
  distance : R
}.

Definition off (a b c d : R) : ExplodeOffset :=
  mkOffset (Three.mkVector3 a b c) d.

Definition EXPLODE_OFFSETS : JsMap.t ExplodeOffset :=
  [("Head", off 0 0.8 0.4 0.5);
   ("neck", off 0 0.5 0.3 0.3);
   ("mainbody", off 0 0.1 0.5 0.2);
   ("Leftarm", off 1 0.2 0.3 0.6);
   ("Rightarm", off (-1) 0.2 0.3 0.6);
   ("Leftleg", off 0.15 (-0.65) 0.2 0.55);
   ("Rightleg", off (-0.15) (-0.65) 0.2 0.55);
   ("Leftupperarm", off 0.5 0.2 0.4 0.25);
   ("Leftdownarm", off 0.4 0.1 0.5 0.3);
   ("Lefthand", off 0.3 0 0.6 0.35);
   ("Rightupperarm", off (-0.5) 0.2 0.4 0.25);
   ("Rightdownarm", off (-0.4) 0.1 0.5 0.3);
   ("Righthand", off (-0.3) 0 0.6 0.35);
   ("Leftupperleg", off 0.3 0 0.4 0.25);
   ("Leftdownleg", off 0.2 (-0.1) 0.5 0.3);
   ("Leftfeet", off 0.1 (-0.2) 0.5 0.35);
   ("Rightupperleg", off (-0.3) 0 0.4 0.25);
   ("Rightdownleg", off (-0.2) (-0.1) 0.5 0.3);
   ("Rightfeet", off (-0.1) (-0.2) 0.5 0.35)]%string.

(** [PartConfig]: the display name is a label only and is left out. *)
Record PartConfig := mkPartConfig {
  id : PartId;
  node : option Three.Object3D;
  parentId : option MajorPartId;
  explodeDir : Three.Vector3;
  explodeDistance : R;
  originalPosition : option Three.Vector3;
  originalRotation : option Three.Euler
}.

Definition withNode (c : PartConfig) (n : Three.Object3D) : PartConfig :=
  mkPartConfig (id c) (Some n) (parentId c) (explodeDir c)
               (explodeDistance c) (originalPosition c) (originalRotation c).

(** [MECH_HIERARCHY.childrenMap[partId] || []] *)
Definition getChildParts (partId : PartId) : list PartId :=
  match JsMap.get (childrenMap MECH_HIERARCHY) partId with
  | Some l => l
  | None => []
  end.

(** [Array.prototype.includes] on strings *)
Definition includes (l : list string) (s : string) : bool :=
  existsb (String.eqb s) l.

(** [Array.prototype.indexOf]: the first position, or [-1]. *)
Fixpoint indexOf (l : list string) (s : string) : Z :=
  match l with
  | [] => (-1)%Z
  | a :: l' =>
      if String.eqb a s then 0%Z
      else let i := indexOf l' s in
           if (i <? 0)%Z then (-1)%Z else (i + 1)%Z
  end.

Definition isMajorPart (partId : PartId) : bool :=
  includes (majorParts MECH_HIERARCHY) partId.

Definition hasChildren (partId : PartId) : bool :=
  match JsMap.get (childrenMap MECH_HIERARCHY) partId with
  | Some l => (0 <? List.length l)%nat
  | None => false
  end.

(** [Object.keys(PART_DISPLAY_NAMES)], in the order of the literal. *)
Definition getAllPartIds : list PartId :=
  ["Head"; "neck"; "mainbody"; "Leftarm"; "Rightarm"; "Leftleg"; "Rightleg";
   "Leftupperarm"; "Leftdownarm"; "Lefthand";
   "Rightupperarm"; "Rightdownarm"; "Righthand";
   "Leftupperleg"; "Leftdownleg"; "Leftfeet";
   "Rightupperleg"; "Rightdownleg"; "Rightfeet"]%string.

(** The loop of [createPartConfig] over [Object.entries(childrenMap)], with
    its [break]: the first parent whose list includes the id. *)
Definition parentOf (partId : PartId) : option MajorPartId :=
  option_map fst
    (find (fun e : string * list PartId => includes (snd e) partId)
          (childrenMap MECH_HIERARCHY)).

(** [createPartConfig(id, node)].  Reading [offset.direction] of an id
    without an entry in [EXPLODE_OFFSETS] throws: [None]. *)
Definition createPartConfig (partId : PartId) (n : option Three.Object3D)
    : option PartConfig :=
  match JsMap.get EXPLODE_OFFSETS partId with
  | None => None
  | Some offset =>
      Some (mkPartConfig partId n (parentOf partId)
              (Three.normalize (direction offset)) (distance offset)
              (option_map Three.position n) (option_map Three.rotation n))
  end.

End MechConfig.

(** ** loadMech.ts *)

Module LoadMech.
Import Three.

(** The model is used through its [parts] map only. *)
Record MechModel := mkMechModel { parts : JsMap.t MechConfig.PartConfig }.

(** [MechPart]: [mesh] is the model's node itself. *)
Record MechPart := mkMechPart {
  name : string;
  mesh : Object3D;
  basePosition : Vector3;
  baseRotation : Euler;
  explodeDirection : Vector3;
  explodeDistance : R;
  depth : nat
}.

Definition withMesh (p : MechPart) (m : Object3D) : MechPart :=
  mkMechPart (name p) m (basePosition p) (baseRotation p)
             (explodeDirection p) (explodeDistance p) (depth p).

(** [getPartsArray]: one entry per part that has a node. *)
Definition getPartsArray (model : MechModel) : list MechPart :=
  flat_map
    (fun kc : string * MechConfig.PartConfig =>
       let (partId, config) := kc in
       match MechConfig.node config with
       | Some n =>
           [mkMechPart partId n
              (match MechConfig.originalPosition config with
               | Some p => p | None => position n end)
              (match MechConfig.originalRotation config with
               | Some r => r | None => rotation n end)
              (MechConfig.explodeDir config)
              (MechConfig.explodeDistance config)
              (match MechConfig.parentId config with
               | Some _ => 1%nat | None => 0%nat end)]
       | None => []
       end)
    (parts model).

(** [String.prototype.toLowerCase] is the function of the host: it lowers
    the letters A to Z and follows the Unicode case tables on every other
    character (the Kelvin sign U+212A becomes the letter k).  The traversal
    is embedded over this function; a string is the sequence of the UTF-8
    bytes of the text. *)
Section Lowering.
Variable toLowerCase : string -> string.

(** The body of the traversal of [processLoadedModel] for one scene node,
    given by its name and object: the first part id that matches the name
    without regard to case is bound to the node. *)
Definition bindNode (parts : JsMap.t MechConfig.PartConfig)
    (n : string * Object3D) : option (JsMap.t MechConfig.PartConfig) :=
  match find (fun partId => String.eqb (toLowerCase (fst n)) (toLowerCase partId))
             MechConfig.getAllPartIds with
  | None => Some parts
  | Some partId =>
      match MechConfig.createPartConfig partId (Some (snd n)) with
      | Some config => Some (JsMap.set parts partId config)
      | None => None
      end
  end.

(** The [parts] map [processLoadedModel] builds from the scene nodes in
    traversal order. *)
Fixpoint bindNodes (nodes : list (string * Object3D))
    (parts : JsMap.t MechConfig.PartConfig)
    : option (JsMap.t MechConfig.PartConfig) :=
  match nodes with
  | [] => Some parts
  | n :: rest =>
      match bindNode parts n with
      | Some parts' => bindNodes rest parts'
      | None => None
      end
  end.

Definition processLoadedModel (nodes : list (string * Object3D))
    : option MechModel :=
  option_map mkMechModel (bindNodes nodes JsMap.empty).

End Lowering.

End LoadMech.

(** ** explodeController.ts *)

Module ExplodeController.
Import Three LoadMech.

(** [EXPLODE_CONFIG] *)
Definition SMOOTHING : R := 0.08.
Definition ROTATION_AMOUNT : R := 0.1.
Definition GLOBAL_SCALE : R := 1.0.
Definition PART_SCALE : R := 0.6.
Definition CHANGE_THRESHOLD : R := 0.001.
Definition MAX_CHANGE_PER_FRAME : R := 0.05.

Inductive ExplosionLevel := global | part.

(** [PartData]; the parent handle and its world position are stored by
    [initPartData] and never read, they are left out. *)
Record PartData := mkPartData {
  pd_basePosition : Vector3;
  pd_baseRotation : Euler;
  pd_baseScale : Vector3;
  pd_explodeDirection : Vector3;
  pd_explodeDistance : R;
  pd_isSkinnedMesh : bool
}.

Record t := mkT {
  hasModel : bool;
  partsArray : list MechPart;
  globalFactorCurrent : R;
  globalFactorTarget : R;
  partFactorCurrent : R;
  partFactorTarget : R;
  focusRoot : option Object3D;
  currentLevel : ExplosionLevel;
  partDataCache : JsMap.t PartData
}.

Definition create : t :=
  mkT false [] 0 0 0 0 None global JsMap.empty.

Definition initPartData (parts : list MechPart)
    (cache : JsMap.t PartData) : JsMap.t PartData :=
  match parts with
  | [] => cache
  | _ =>
      fold_left
        (fun c p =>
           JsMap.set c (name p)
             (mkPartData (position (mesh p)) (rotation (mesh p))
                (scale (mesh p)) (explodeDirection p) (explodeDistance p)
                (isSkinnedMesh (mesh p))))
        parts JsMap.empty
  end.

Definition setModel (s : t) (model : MechModel) : t :=
  let parts := getPartsArray model in
  mkT true parts (globalFactorCurrent s) (globalFactorTarget s)
      (partFactorCurrent s) (partFactorTarget s) (focusRoot s)
      (currentLevel s) (initPartData parts (partDataCache s)).

Definition withGlobalTarget (s : t) (v : R) : t :=
  mkT (hasModel s) (partsArray s) (globalFactorCurrent s) v
      (partFactorCurrent s) (partFactorTarget s) (focusRoot s)
      (currentLevel s) (partDataCache s).

Definition withPartTarget (s : t) (v : R) : t :=
  mkT (hasModel s) (partsArray s) (globalFactorCurrent s)
      (globalFactorTarget s) (partFactorCurrent s) v (focusRoot s)
      (currentLevel s) (partDataCache s).

Definition setGlobalExplosionTarget (s : t) (factor : R) : t :=
  withGlobalTarget s (Rmax 0 (Rmin 1 factor)).

Definition increaseGlobalExplosion (s : t) (amount : R) : t :=
  withGlobalTarget s (Rmin 1 (globalFactorTarget s + amount)).

Definition decreaseGlobalExplosion (s : t) (amount : R) : t :=
  withGlobalTarget s (Rmax 0 (globalFactorTarget s - amount)).

Definition setPartExplosionTarget (s : t) (factor : R) : t :=
  withPartTarget s (Rmax 0 (Rmin 1 factor)).

Definition increasePartExplosion (s : t) (amount : R) : t :=
  withPartTarget s (Rmin 1 (partFactorTarget s + amount)).

Definition decreasePartExplosion (s : t) (amount : R) : t :=
  withPartTarget s (Rmax 0 (partFactorTarget s - amount)).

Definition setFocusRoot (s : t) (object : option Object3D) : t :=
  match object with
  | Some _ =>
      mkT (hasModel s) (partsArray s) (globalFactorCurrent s)
          (globalFactorTarget s) 0 0 object part (partDataCache s)
  | None =>
      mkT (hasModel s) (partsArray s) (globalFactorCurrent s)
          (globalFactorTarget s) (partFactorCurrent s) (partFactorTarget s)
          None global (partDataCache s)
  end.

Definition reset (s : t) : t := withPartTarget (withGlobalTarget s 0) 0.

Definition resetGlobal (s : t) : t := withGlobalTarget s 0.

Definition resetPart (s : t) : t := withPartTarget s 0.

Definition setExplosionFactor (s : t) (level : ExplosionLevel)
    (factor : R) : t :=
  match level with
  | global => setGlobalExplosionTarget s factor
  | part => setPartExplosionTarget s factor
  end.

Definition smoothValue (current target smoothing : R) : R :=
  let diff := target - current in
  let clampedDiff :=
    Rmax (- MAX_CHANGE_PER_FRAME)
         (Rmin MAX_CHANGE_PER_FRAME (diff * smoothing)) in
  let newValue := current + clampedDiff in
  if Rltb (Rabs (newValue - target)) CHANGE_THRESHOLD
  then target
  else newValue.

(** The body of the [forEach] of [updatePartPositions] for one part; both
    branches on [isSkinnedMesh] run the same statement. *)
Definition updatePart (cache : JsMap.t PartData) (globalCurrent : R)
    (p : MechPart) : MechPart :=
  match JsMap.get cache (name p) with
  | None => p
  | Some data =>
      let effectiveFactor := globalCurrent * GLOBAL_SCALE in
      let explodeOffset :=
        multiplyScalar (pd_explodeDirection data)
                       (pd_explodeDistance data * effectiveFactor * 2) in
      let m1 := setPosition (mesh p) (add (pd_basePosition data) explodeOffset) in
      let m2 :=
        if Rltb 0.01 effectiveFactor then
          let rotAmount := effectiveFactor * ROTATION_AMOUNT in
          setRotation m1
            (mkVector3
               (x (pd_baseRotation data) + x (pd_explodeDirection data) * rotAmount)
               (y (pd_baseRotation data) + y (pd_explodeDirection data) * rotAmount)
               (z (pd_baseRotation data) + z (pd_explodeDirection data) * rotAmount))
        else setRotation m1 (pd_baseRotation data) in
      withMesh p m2
  end.

Definition updatePartPositions (s : t) : t :=
  match partsArray s with
  | [] => s
  | _ =>
      mkT (hasModel s)
          (map (updatePart (partDataCache s) (globalFactorCurrent s))
               (partsArray s))
          (globalFactorCurrent s) (globalFactorTarget s)
          (partFactorCurrent s) (partFactorTarget s) (focusRoot s)
          (currentLevel s) (partDataCache s)
  end.

Definition update (s : t) : t :=
  if hasModel s then
    let g := smoothValue (globalFactorCurrent s) (globalFactorTarget s) SMOOTHING in
    let p := smoothValue (partFactorCurrent s) (partFactorTarget s) SMOOTHING in
    updatePartPositions
      (mkT (hasModel s) (partsArray s) g (globalFactorTarget s) p
           (partFactorTarget s) (focusRoot s) (currentLevel s)
           (partDataCache s))
  else s.

(** A call of the target-setting surface of the smoother. *)
Inductive TargetCall :=
| SetGlobal (factor : R)
| SetPart (factor : R)
| IncGlobal (amount : R)
| DecGlobal (amount : R)
| IncPart (amount : R)
| DecPart (amount : R)
| Reset
| ResetGlobal
| ResetPart.

Definition call (s : t) (c : TargetCall) : t :=
  match c with
  | SetGlobal f => setGlobalExplosionTarget s f
  | SetPart f => setPartExplosionTarget s f
  | IncGlobal a => increaseGlobalExplosion s a
  | DecGlobal a => decreaseGlobalExplosion s a
  | IncPart a => increasePartExplosion s a
  | DecPart a => decreasePartExplosion s a
  | Reset => reset s
  | ResetGlobal => resetGlobal s
  | ResetPart => resetPart s
  end.

Definition calls (s : t) (l : list TargetCall) : t := fold_left call l s.

Fixpoint updates (n : nat) (s : t) : t :=
  match n with
  | O => s
  | S n' => updates n' (update s)
  end.

(** *** The rest of the public surface *)

Definition getCurrentExplosionFactor (s : t) : R :=
  match currentLevel s with
  | global => globalFactorCurrent s
  | part => partFactorCurrent s
  end.

(** [currentLevel === 'global' || !focusRoot] chooses the global factor. *)
Definition increaseCurrentExplosion (s : t) (amount : R) : t :=
  match currentLevel s with
  | global => increaseGlobalExplosion s amount
  | part =>
      match focusRoot s with
      | None => increaseGlobalExplosion s amount
      | Some _ => increasePartExplosion s amount
      end
  end.

Definition decreaseCurrentExplosion (s : t) (amount : R) : t :=
  match currentLevel s with
  | global => decreaseGlobalExplosion s amount
  | part =>
      match focusRoot s with
      | None => decreaseGlobalExplosion s amount
      | Some _ => decreasePartExplosion s amount
      end
  end.

Definition resetImmediate (s : t) : t :=
  updatePartPositions
    (mkT (hasModel s) (partsArray s) 0 0 0 0 (focusRoot s) (currentLevel s)
         (partDataCache s)).

(** The [isAnimating] field of [getState()]. *)
Definition isAnimating (s : t) : bool :=
  Rltb CHANGE_THRESHOLD (Rabs (globalFactorCurrent s - globalFactorTarget s))
  || Rltb CHANGE_THRESHOLD (Rabs (partFactorCurrent s - partFactorTarget s)).

Definition isFullyAssembled (s : t) : bool :=
  Rltb (globalFactorCurrent s) 0.01 && Rltb (partFactorCurrent s) 0.01.

Definition isFullyExploded (s : t) : bool :=
  match currentLevel s with
  | part => Rltb 0.99 (partFactorCurrent s)
  | global => Rltb 0.99 (globalFactorCurrent s)
  end.

Definition dispose (s : t) : t :=
  mkT false (partsArray s) (globalFactorCurrent s) (globalFactorTarget s)
      (partFactorCurrent s) (partFactorTarget s) None (currentLevel s)
      JsMap.empty.

(** A call of the controller after [setModel]. *)
Inductive Op :=
| Target (c : TargetCall)
| SetFocusRoot (object : option Object3D)
| SetExplosionFactor (level : ExplosionLevel) (factor : R)
| IncreaseCurrent (amount : R)
| DecreaseCurrent (amount : R)
| Update
| ResetImmediate.

Definition step (s : t) (o : Op) : t :=
  match o with
  | Target c => call s c
  | SetFocusRoot object => setFocusRoot s object
  | SetExplosionFactor level factor => setExplosionFactor s level factor
  | IncreaseCurrent amount => increaseCurrentExplosion s amount
  | DecreaseCurrent amount => decreaseCurrentExplosion s amount
  | Update => update s
  | ResetImmediate => resetImmediate s
  end.

Definition run (s : t) (l : list Op) : t := fold_left step l s.

End ExplodeController.

(** ** selectionController.ts *)

Module SelectionController.
Import Three LoadMech.

Inductive FocusMode := global | part.

(** A [MechPart] object is referred to by its name: [partsArray] holds one
    object per key of the model's map, so that [===] on parts of the array
    is equality of names.  [focusRoot] is the mesh of the part it names.
    Materials (highlight colour, opacity) belong to the renderer, and
    [originalTransforms] is written once and never read; neither is part of
    the state. *)
Record t := mkT {
  hasModel : bool;
  partsArray : list MechPart;
  selectedPart : option string;
  focusMode : FocusMode;
  focusRoot : option string;
  navigationStack : list string
}.

Definition create : t := mkT false [] None global None [].

Definition init (s : t) (model : MechModel) : t :=
  mkT true (getPartsArray model) (selectedPart s) (focusMode s)
      (focusRoot s) (navigationStack s).

Definition findPart (s : t) (n : string) : option MechPart :=
  find (fun p => String.eqb (name p) n) (partsArray s).

(** [part.mesh.children.length] *)
Definition childrenLength (s : t) (n : string) : nat :=
  match findPart s n with
  | Some p => childCount (mesh p)
  | None => 0%nat
  end.

Definition withParts (s : t) (l : list MechPart) : t :=
  mkT (hasModel s) l (selectedPart s) (focusMode s) (focusRoot s)
      (navigationStack s).

(** [focusOnPart]: remember the scale of the mesh the first time. *)
Definition focusOnPart (s : t) (n : string) : t :=
  withParts s
    (map (fun p =>
            if String.eqb (name p) n then
              match originalScale (mesh p) with
              | None => withMesh p (setOriginalScale (mesh p) (scale (mesh p)))
              | Some _ => p
              end
            else p)
         (partsArray s)).

(** [restoreAllParts]: opacity apart, copy back the remembered scale. *)
Definition restoreAllParts (s : t) : t :=
  withParts s
    (map (fun p =>
            match originalScale (mesh p) with
            | Some sc => withMesh p (setScale (mesh p) sc)
            | None => p
            end)
         (partsArray s)).

Definition setFocusMode (s : t) (mode : FocusMode) (p : option string) : t :=
  mkT (hasModel s) (partsArray s) (selectedPart s) mode p
      (navigationStack s).

Definition drillDown (s : t) : t :=
  match selectedPart s with
  | None => s
  | Some p =>
      if (0 <? childrenLength s p)%nat then
        mkT (hasModel s) (partsArray s) None (focusMode s) (Some p)
            (navigationStack s ++ [p])
      else s
  end.

Definition sameRef (a b : option string) : bool :=
  match a, b with
  | Some p, Some q => String.eqb p q
  | _, _ => false
  end.

Definition setSelectedPart (s : t) (p : option string) : t :=
  if sameRef p (selectedPart s) then drillDown s
  else
    let s1 := mkT (hasModel s) (partsArray s) p (focusMode s) (focusRoot s)
                  (navigationStack s) in
    match p with
    | Some n => setFocusMode (focusOnPart s1 n) part (Some n)
    | None => restoreAllParts (setFocusMode s1 global None)
    end.

Definition clearSelection (s : t) : t :=
  restoreAllParts (mkT (hasModel s) (partsArray s) None global None []).

Definition goBack (s : t) : t :=
  match rev (navigationStack s) with
  | previousPart :: rest =>
      let stack := rev rest in
      match rest with
      | parent :: _ =>
          restoreAllParts
            (mkT (hasModel s) (partsArray s) (Some previousPart)
                 (focusMode s) (Some parent) stack)
      | [] =>
          restoreAllParts
            (setFocusMode
               (mkT (hasModel s) (partsArray s) (Some previousPart)
                    (focusMode s) None stack)
               global None)
      end
  | [] =>
      match focusMode s with
      | part => clearSelection s
      | global => s
      end
  end.

(** The two affordance flags of [getState()]. *)
Definition canDrillDown (s : t) : bool :=
  match selectedPart s with
  | Some p => (0 <? childrenLength s p)%nat
  | None => false
  end.

Definition canGoBack (s : t) : bool :=
  (0 <? List.length (navigationStack s))%nat
  || match focusMode s with part => true | global => false end.

(** [n] calls of [goBack]. *)
Fixpoint goBacks (n : nat) (s : t) : t :=
  match n with
  | O => s
  | S n' => goBacks n' (goBack s)
  end.

End SelectionController.

(** ** SimpleStateMachine.ts *)

Module SimpleStateMachine.
Import Three MechConfig LoadMech.

Inductive SimpleViewState := Assembled | Exploded | PartView.

Definition state_eqb (a b : SimpleViewState) : bool :=
  match a, b with
  | Assembled, Assembled | Exploded, Exploded | PartView, PartView => true
  | _, _ => false
  end.

(** [null] and [undefined] are both [None]. *)
Record SimpleUIState := mkUI {
  state : SimpleViewState;
  globalExplosion : R;
  partExplosion : R;
  hoveredPart : option PartId;
  selectedMajorPart : option MajorPartId;
  currentPartIndex : Z;
  partList : list PartId
}.

(** The ring decorations are groups of meshes for the renderer; of them
    the machine keeps [ringDecorationVisible] and [selectedSubRingIndex]. *)
Record t := mkT {
  model : option MechModel;
  uiState : SimpleUIState;
  globalExplosionTarget : R;
  partExplosionTarget : R;
  subRingFixedPositions : list Vector3;
  transitionTargets : JsMap.t Vector3;
  transitionScales : JsMap.t R;
  isTransitioning : bool;
  ringDecorationVisible : bool;
  selectedSubRingIndex : Z
}.

Definition mainRingRadius : R := 1.2.
Definition mainRingCenter : Vector3 := mkVector3 0 0.1 2.0.
Definition subRingRadius : R := 0.5.
Definition subRingDistance : R := 4.0.
Definition subRingZ : R := -2.
Definition transitionSpeed : R := 0.08.

Definition partPositionInMainRing : JsMap.t Vector3 :=
  [("Head", mkVector3 (-0.1) (-1.4) (-1));
   ("neck", mkVector3 (-0.2) (-1.4) (-1));
   ("mainbody", mkVector3 (-0.1) (-1) (-1));
   ("Leftarm", mkVector3 (-0.2) (-0.1) (-1));
   ("Rightarm", mkVector3 0.1 (-0.1) (-1));
   ("Leftleg", mkVector3 0 0.1 (-1));
   ("Rightleg", mkVector3 0 0.1 (-1))]%string.

Definition partPositionInSubRing : JsMap.t Vector3 :=
  [("Head", mkVector3 (-0.05) 1.2 1.3);
   ("neck", mkVector3 (-1.8) 0.35 1.3);
   ("mainbody", mkVector3 (-2.25) (-1.55) 1.3);
   ("Leftarm", mkVector3 (-1) (-2.2) 1.3);
   ("Rightarm", mkVector3 1 (-2.2) 1.3);
   ("Leftleg", mkVector3 2.1 (-0.5) 1.3);
   ("Rightleg", mkVector3 1.8 1.5 1.3)]%string.

Definition zeroOffset : Vector3 := mkVector3 0 0 0.

(** [table[key] || { x: 0, y: 0, z: 0 }] *)
Definition offsetOr0 (table : JsMap.t Vector3) (key : option string) : Vector3 :=
  match key with
  | Some k => match JsMap.get table k with Some o => o | None => zeroOffset end
  | None => zeroOffset
  end.

Definition initSubRingPositions : list Vector3 :=
  let count := 7%nat in
  let angleStep := (PI * 2) / INR count in
  let startAngle := - PI / 2 in
  map (fun i : nat =>
         let angle := startAngle + angleStep * INR i in
         mkVector3 (cos angle * subRingDistance)
                   (sin angle * subRingDistance) subRingZ)
      (seq 0 count).

Definition create : t :=
  mkT None
      (mkUI Assembled 0 0 None None 0 (majorParts MECH_HIERARCHY))
      0 0 initSubRingPositions JsMap.empty JsMap.empty false false (-1).

(** *** Field updates *)

Definition with_model (s : t) (m : option MechModel) : t :=
  mkT m (uiState s) (globalExplosionTarget s) (partExplosionTarget s)
      (subRingFixedPositions s) (transitionTargets s) (transitionScales s)
      (isTransitioning s) (ringDecorationVisible s) (selectedSubRingIndex s).

Definition with_ui (s : t) (u : SimpleUIState) : t :=
  mkT (model s) u (globalExplosionTarget s) (partExplosionTarget s)
      (subRingFixedPositions s) (transitionTargets s) (transitionScales s)
      (isTransitioning s) (ringDecorationVisible s) (selectedSubRingIndex s).

Definition with_globalTarget (s : t) (v : R) : t :=
  mkT (model s) (uiState s) v (partExplosionTarget s)
      (subRingFixedPositions s) (transitionTargets s) (transitionScales s)
      (isTransitioning s) (ringDecorationVisible s) (selectedSubRingIndex s).

Definition with_partTarget (s : t) (v : R) : t :=
  mkT (model s) (uiState s) (globalExplosionTarget s) v
      (subRingFixedPositions s) (transitionTargets s) (transitionScales s)
      (isTransitioning s) (ringDecorationVisible s) (selectedSubRingIndex s).

Definition with_layout (s : t) (tt : JsMap.t Vector3) (ts : JsMap.t R)
    (sel : Z) : t :=
  mkT (model s) (uiState s) (globalExplosionTarget s) (partExplosionTarget s)
      (subRingFixedPositions s) tt ts
      (isTransitioning s) (ringDecorationVisible s) sel.

Definition with_isTransitioning (s : t) (b : bool) : t :=
  mkT (model s) (uiState s) (globalExplosionTarget s) (partExplosionTarget s)
      (subRingFixedPositions s) (transitionTargets s) (transitionScales s)
      b (ringDecorationVisible s) (selectedSubRingIndex s).

Definition with_ringVisible (s : t) (b : bool) : t :=
  mkT (model s) (uiState s) (globalExplosionTarget s) (partExplosionTarget s)
      (subRingFixedPositions s) (transitionTargets s) (transitionScales s)
      (isTransitioning s) b (selectedSubRingIndex s).

Definition ui_state (u : SimpleUIState) (v : SimpleViewState) :=
  mkUI v (globalExplosion u) (partExplosion u) (hoveredPart u)
       (selectedMajorPart u) (currentPartIndex u) (partList u).

Definition ui_global (u : SimpleUIState) (v : R) :=
  mkUI (state u) v (partExplosion u) (hoveredPart u)
       (selectedMajorPart u) (currentPartIndex u) (partList u).

Definition ui_part (u : SimpleUIState) (v : R) :=
  mkUI (state u) (globalExplosion u) v (hoveredPart u)
       (selectedMajorPart u) (currentPartIndex u) (partList u).

Definition ui_hovered (u : SimpleUIState) (v : option PartId) :=
  mkUI (state u) (globalExplosion u) (partExplosion u) v
       (selectedMajorPart u) (currentPartIndex u) (partList u).

Definition ui_selected (u : SimpleUIState) (v : option MajorPartId) :=
  mkUI (state u) (globalExplosion u) (partExplosion u) (hoveredPart u)
       v (currentPartIndex u) (partList u).

Definition ui_index (u : SimpleUIState) (v : Z) :=
  mkUI (state u) (globalExplosion u) (partExplosion u) (hoveredPart u)
       (selectedMajorPart u) v (partList u).

(** A part id in a condition: [null], [undefined] and the empty string
    are falsy. *)
Definition truthy (o : option string) : bool :=
  match o with
  | Some k => negb (String.eqb k "")
  | None => false
  end.

(** [a === b] where [b] may be [null] *)
Definition sameId (a : string) (b : option string) : bool :=
  match b with
  | Some k => String.eqb a k
  | None => false
  end.

(** The loops over part ids all start with
    [config = parts.get(id); if (!config || !config.node) return;]
    and then write to the node. *)
Definition onNode (m : MechModel) (partId : PartId)
    (f : PartConfig -> Object3D -> Object3D) : MechModel :=
  match JsMap.get (parts m) partId with
  | Some config =>
      match node config with
      | Some n => mkMechModel (JsMap.set (parts m) partId (withNode config (f config n)))
      | None => m
      end
  | None => m
  end.

Definition forEachNode (ids : list PartId)
    (f : PartId -> PartConfig -> Object3D -> Object3D) (m : MechModel) : MechModel :=
  fold_left (fun m' partId => onNode m' partId (f partId)) ids m.

Definition init (s : t) (m : MechModel) : t := with_model s (Some m).

Definition dispose (s : t) : t := with_model s None.

(** *** Ring layout *)

Definition showRingDecoration (s : t) : t := with_ringVisible s true.
Definition hideRingDecoration (s : t) : t := with_ringVisible s false.

(** One round of the [forEach((partId, fixedIndex) => ...)] of
    [calculateTransitionTargets]. *)
Definition subRingTarget (positions : list Vector3)
    (selectedPart : option MajorPartId)
    (acc : JsMap.t Vector3 * JsMap.t R) (entry : PartId * nat)
    : JsMap.t Vector3 * JsMap.t R :=
  let (partId, fixedIndex) := entry in
  if sameId partId selectedPart then acc
  else
    match nth_error positions fixedIndex with
    | None => acc
    | Some ringPos =>
        let subOffset := offsetOr0 partPositionInSubRing (Some partId) in
        let targetPos :=
          mkVector3 (x ringPos + x subOffset) (y ringPos + y subOffset)
                    (z ringPos + z subOffset) in
        (JsMap.set (fst acc) partId targetPos, JsMap.set (snd acc) partId 0.7)
    end.

(** [selectedPart] is [None] when the caller passes [undefined]; the entry
    that [Map.set(undefined, ...)] would add is under no part id. *)
Definition calculateTransitionTargets (s : t)
    (selectedPart : option MajorPartId) : t :=
  let mainOffset := offsetOr0 partPositionInMainRing selectedPart in
  let selectedTarget :=
    mkVector3 (x mainRingCenter + x mainOffset)
              (y mainRingCenter + y mainOffset)
              (z mainRingCenter + z mainOffset) in
  let start :=
    match selectedPart with
    | Some p => (JsMap.set JsMap.empty p selectedTarget,
                 JsMap.set JsMap.empty p 1.0)
    | None => (JsMap.empty, JsMap.empty)
    end in
  let selectedIndex :=
    match selectedPart with
    | Some p => indexOf (majorParts MECH_HIERARCHY) p
    | None => (-1)%Z
    end in
  let all := majorParts MECH_HIERARCHY in
  let res :=
    fold_left (subRingTarget (subRingFixedPositions s) selectedPart)
              (combine all (seq 0 (List.length all))) start in
  with_layout s (fst res) (snd res) selectedIndex.

Definition applyPartViewLayout (s : t) : t :=
  match model s with
  | None => s
  | Some _ =>
      if truthy (selectedMajorPart (uiState s)) then
        let s1 := calculateTransitionTargets s (selectedMajorPart (uiState s)) in
        if isTransitioning s1 then s1 else with_isTransitioning s1 true
      else s
  end.

(** *** State changes *)

Definition transitionTo (s : t) (newState : SimpleViewState) : t :=
  let oldState := state (uiState s) in
  if state_eqb oldState newState then s
  else
    let s1 := with_ui s (ui_state (uiState s) newState) in
    match newState with
    | PartView =>
        let s2 := showRingDecoration
                    (with_globalTarget s1 (Rmax (globalExplosionTarget s1) 1)) in
        applyPartViewLayout s2
    | _ => hideRingDecoration s1
    end.

Definition adjustExplosion (s : t) (delta : R) : t :=
  if state_eqb (state (uiState s)) PartView then
    with_partTarget s (Rmax 0 (Rmin 1 (partExplosionTarget s + delta)))
  else
    let s1 := with_globalTarget s
                (Rmax 0 (Rmin 1 (globalExplosionTarget s + delta))) in
    if Rltb 0.1 (globalExplosionTarget s1)
       && state_eqb (state (uiState s1)) Assembled
    then transitionTo s1 Exploded
    else if Rltb (globalExplosionTarget s1) 0.05
            && state_eqb (state (uiState s1)) Exploded
    then transitionTo s1 Assembled
    else s1.

(** *** Applying the factors to the nodes *)

Definition explodeNode (factor : R) (partId : PartId) (config : PartConfig)
    (n : Object3D) : Object3D :=
  match JsMap.get EXPLODE_OFFSETS partId with
  | None => n
  | Some offset =>
      let dir := normalize (direction offset) in
      let dist := distance offset * factor in
      match originalPosition config with
      | Some o => setPosition n (add o (multiplyScalar dir dist))
      | None => n
      end
  end.

Definition applyNormalExplosion (s : t) : t :=
  match model s with
  | None => s
  | Some m =>
      with_model s
        (Some (forEachNode (majorParts MECH_HIERARCHY)
                 (explodeNode (globalExplosion (uiState s))) m))
  end.

Definition applyExplosion (s : t) : t :=
  match model s with
  | None => s
  | Some _ =>
      match state (uiState s) with
      | PartView => applyPartViewLayout s
      | _ => applyNormalExplosion s
      end
  end.

Definition applyPartExplosion (s : t) : t :=
  match model s with
  | None => s
  | Some m =>
      if truthy (selectedMajorPart (uiState s)) then
        if Rltb 0 (partExplosion (uiState s)) then
          let children :=
            match selectedMajorPart (uiState s) with
            | Some p => getChildParts p
            | None => []
            end in
          with_model s
            (Some (forEachNode children
                     (explodeNode (partExplosion (uiState s))) m))
        else s
      else s
  end.

(** [this.transitionScales.get(partId) || 1] *)
Definition scaleOr1 (scales : JsMap.t R) (partId : PartId) : R :=
  match JsMap.get scales partId with
  | Some v => if Req_dec_T v 0 then 1 else v
  | None => 1
  end.

(** One round of the [forEach] of [applyTransitionAnimation], with the
    [allReached] flag. *)
Definition transitionNode (targets : JsMap.t Vector3) (scales : JsMap.t R)
    (acc : MechModel * bool) (partId : PartId) : MechModel * bool :=
  let (m, allReached) := acc in
  match JsMap.get (parts m) partId with
  | None => acc
  | Some config =>
      match node config with
      | None => acc
      | Some n =>
          let targetScale := scaleOr1 scales partId in
          match JsMap.get targets partId with
          | None => acc
          | Some targetPos =>
              let currentPos := position n in
              let currentScale := x (scale n) in
              let posDistance := distanceTo currentPos targetPos in
              let near := Rltb posDistance 0.01 in
              let n1 :=
                if near then setPosition n targetPos
                else setPosition n (lerp currentPos targetPos transitionSpeed) in
              let scaleDistance := Rabs (currentScale - targetScale) in
              let nearS := Rltb scaleDistance 0.01 in
              let n2 :=
                if nearS then setScale n1 (setScalar targetScale)
                else setScale n1
                       (setScalar (lerpScalar currentScale targetScale transitionSpeed)) in
              (mkMechModel (JsMap.set (parts m) partId (withNode config n2)),
               allReached && near && nearS)
          end
      end
  end.

Definition applyTransitionAnimation (s : t) : t :=
  match model s with
  | None => s
  | Some m =>
      if isTransitioning s then
        let res :=
          fold_left (transitionNode (transitionTargets s) (transitionScales s))
                    (majorParts MECH_HIERARCHY) (m, true) in
        let s1 := with_model s (Some (fst res)) in
        if snd res then with_isTransitioning s1 false else s1
      else s
  end.

(** *** The frame update *)

Definition smoothing : R := 0.1.

Definition update (s : t) : t :=
  match model s with
  | None => s
  | Some _ =>
      let u := uiState s in
      let changedG :=
        Rltb 0.001 (Rabs (globalExplosion u - globalExplosionTarget s)) in
      let u1 :=
        if changedG then
          ui_global u (globalExplosion u
                       + (globalExplosionTarget s - globalExplosion u) * smoothing)
        else u in
      let changedP :=
        Rltb 0.001 (Rabs (partExplosion u1 - partExplosionTarget s)) in
      let u2 :=
        if changedP then
          ui_part u1 (partExplosion u1
                      + (partExplosionTarget s - partExplosion u1) * smoothing)
        else u1 in
      let explosionChanged := changedG || changedP in
      let s1 := with_ui s u2 in
      if state_eqb (state u2) PartView && isTransitioning s1 then
        let s2 := applyTransitionAnimation s1 in
        if Rltb 0 (partExplosion (uiState s2)) then applyPartExplosion s2
        else s2
      else if explosionChanged then applyExplosion s1
      else s1
  end.

(** *** Mouse interaction *)

Definition optEq (a b : option string) : bool :=
  match a, b with
  | Some p, Some q => String.eqb p q
  | None, None => true
  | _, _ => false
  end.

Definition setHoveredPartId (s : t) (partId : option PartId) : t :=
  if optEq (hoveredPart (uiState s)) partId then s
  else with_ui s (ui_hovered (uiState s) partId).

Definition restorePosition (_ : PartId) (config : PartConfig) (n : Object3D)
    : Object3D :=
  match originalPosition config with
  | Some o => setPosition n o
  | None => n
  end.

(** [this.model?.parts.get(childId)]: nothing happens without a model. *)
Definition resetAllChildrenExcept (s : t) (keepPart : option MajorPartId) : t :=
  match model s with
  | None => s
  | Some m =>
      with_model s
        (Some (fold_left
                 (fun m' parentId =>
                    if sameId parentId keepPart then m'
                    else forEachNode (getChildParts parentId) restorePosition m')
                 (majorParts MECH_HIERARCHY) m))
  end.

Definition selectPart (s : t) (partId : option MajorPartId) : t :=
  let index :=
    match partId with
    | Some p => indexOf (majorParts MECH_HIERARCHY) p
    | None => (-1)%Z
    end in
  let u := ui_index (ui_selected (uiState s) partId) index in
  let s1 := with_ui s u in
  let s2 := with_globalTarget s1 (Rmax (globalExplosionTarget s1) 1) in
  let s3 := with_partTarget s2 0 in
  let s4 := with_ui s3 (ui_part (uiState s3) 0) in
  let s5 := resetAllChildrenExcept s4 partId in
  let s6 := calculateTransitionTargets s5 partId in
  with_isTransitioning s6 true.

Definition selectHoveredPart (s : t) : bool * t :=
  match hoveredPart (uiState s) with
  | None => (false, s)
  | Some hovered =>
      if negb (truthy (Some hovered)) then (false, s)
      else if state_eqb (state (uiState s)) Exploded
              || Rltb 0.1 (globalExplosion (uiState s)) then
        if includes (majorParts MECH_HIERARCHY) hovered then
          let majorPart := hovered in
          let u1 := ui_selected (uiState s) (Some majorPart) in
          let u2 := ui_index u1 (indexOf (majorParts MECH_HIERARCHY) majorPart) in
          let s1 := with_partTarget (with_ui s u2) 0 in
          let s2 := with_ui s1 (ui_part (uiState s1) 0) in
          let s3 := with_ui s2 (ui_global (uiState s2)
                                  (Rmax (globalExplosion (uiState s2)) 0.5)) in
          let s4 := with_globalTarget s3 (Rmax (globalExplosionTarget s3) 1) in
          let s5 := transitionTo s4 PartView in
          (true, applyPartViewLayout s5)
        else (false, s)
      else if state_eqb (state (uiState s)) PartView then
        if includes (majorParts MECH_HIERARCHY) hovered then
          (true, selectPart s (Some hovered))
        else (false, s)
      else (false, s)
  end.

(** *** Navigation *)

Inductive UpDown := up | down.
Inductive LeftRight := left | right.

(** [partList[i]]: [undefined] outside the list. *)
Definition at_index (l : list PartId) (i : Z) : option PartId :=
  if (i <? 0)%Z then None else nth_error l (Z.to_nat i).

(** [%] is the remainder with the sign of the dividend, [Z.rem]. *)
Definition navigateInternal (s : t) (delta : Z) : t :=
  if negb (state_eqb (state (uiState s)) PartView)
     && negb (state_eqb (state (uiState s)) Exploded) then s
  else
    let partList := majorParts MECH_HIERARCHY in
    match partList with
    | [] => s
    | _ =>
        let len := Z.of_nat (List.length partList) in
        let index := Z.rem (currentPartIndex (uiState s) + delta + len) len in
        let s1 := with_ui s (ui_index (uiState s) index) in
        let newPart := at_index partList index in
        if state_eqb (state (uiState s1)) PartView then selectPart s1 newPart
        else with_ui s1 (ui_hovered (uiState s1) newPart)
    end.

Definition navigate (s : t) (direction : UpDown) : t :=
  navigateInternal s (match direction with up => -1 | down => 1 end)%Z.

Definition navigateLeftRight (s : t) (direction : LeftRight) : t :=
  navigateInternal s (match direction with left => -1 | right => 1 end)%Z.

(** *** Going back and resetting *)

Definition resetAllPartPositions (s : t) : t :=
  match model s with
  | None => s
  | Some m =>
      with_model s
        (Some (forEachNode (majorParts MECH_HIERARCHY) restorePosition m))
  end.

Definition resetAllPartScales (s : t) : t :=
  match model s with
  | None => s
  | Some m =>
      with_model s
        (Some (forEachNode (majorParts MECH_HIERARCHY)
                 (fun _ _ n => setScale n (setScalar 1)) m))
  end.

Definition goBack (s : t) : t :=
  match state (uiState s) with
  | PartView =>
      let s1 := resetAllChildrenExcept s None in
      let s2 := with_ui s1 (ui_selected (ui_hovered (uiState s1) None) None) in
      let s3 := with_partTarget s2 0 in
      let s4 := with_ui s3 (ui_part (uiState s3) 0) in
      let s5 := resetAllPartScales s4 in
      let s6 := resetAllPartPositions s5 in
      let s7 := with_globalTarget s6 0 in
      transitionTo s7 Assembled
  | Exploded => with_globalTarget s 0
  | Assembled => s
  end.

Definition reset (s : t) : t :=
  let s1 := with_ui s (mkUI Assembled 0 0 None None 0 (majorParts MECH_HIERARCHY)) in
  let s2 := with_partTarget (with_globalTarget s1 0) 0 in
  match model s2 with
  | None => s2
  | Some m =>
      with_model s2
        (Some (mkMechModel
                 (map (fun kc : string * PartConfig =>
                         let (k, config) := kc in
                         match node config, originalPosition config with
                         | Some n, Some o => (k, withNode config (setPosition n o))
                         | _, _ => kc
                         end)
                      (parts m))))
  end.

Definition getInteractableParts (s : t) : list PartId :=
  let major := majorParts MECH_HIERARCHY in
  if state_eqb (state (uiState s)) PartView
     && truthy (selectedMajorPart (uiState s)) then
    match selectedMajorPart (uiState s) with
    | Some sel =>
        sel :: getChildParts sel
            ++ filter (fun p => negb (String.eqb p sel)) major
    | None => major
    end
  else major.

(** *** Runs of the machine *)

Inductive Op :=
| Init (m : MechModel)
| AdjustExplosion (delta : R)
| Update
| SetHoveredPartId (partId : option PartId)
| SelectHoveredPart
| Navigate (direction : UpDown)
| NavigateLeftRight (direction : LeftRight)
| GoBack
| Reset
| Dispose.

Definition step (s : t) (o : Op) : t :=
  match o with
  | Init m => init s m
  | AdjustExplosion delta => adjustExplosion s delta
  | Update => update s
  | SetHoveredPartId p => setHoveredPartId s p
  | SelectHoveredPart => snd (selectHoveredPart s)
  | Navigate d => navigate s d
  | NavigateLeftRight d => navigateLeftRight s d
  | GoBack => goBack s
  | Reset => reset s
  | Dispose => dispose s
  end.

Definition run (s : t) (l : list Op) : t := fold_left step l s.

Fixpoint updates (n : nat) (s : t) : t :=
  match n with
  | O => s
  | S n' => updates n' (update s)
  end.

End SimpleStateMachine.

(** ** Notions used to state the properties *)

Module Derived.
Import Three MechConfig LoadMech SimpleStateMachine.

(** [n] ticks of the smoother of the explode controller on one factor. *)
Fixpoint smoothN (n : nat) (current target : R) : R :=
  match n with
  | O => current
  | S n' =>
      smoothN n'
        (ExplodeController.smoothValue current target ExplodeController.SMOOTHING)
        target
  end.

Definition stepF (current target : R) : R :=
  if Rltb 0.001 (Rabs (current - target))
  then current + (target - current) * smoothing
  else current.

(** [n] frames of the inline smoothing on one factor. *)
Fixpoint stepN (n : nat) (current target : R) : R :=
  match n with
  | O => current
  | S n' => stepN n' (stepF current target) target
  end.

Definition tickUI (s : t) : SimpleUIState :=
  let u := uiState s in
  mkUI (state u)
       (stepF (globalExplosion u) (globalExplosionTarget s))
       (stepF (partExplosion u) (partExplosionTarget s))
       (hoveredPart u) (selectedMajorPart u) (currentPartIndex u) (partList u).

(** [s'] differs from [s] by node poses, layout targets and flags only. *)
Definition same_control (s s' : t) : Prop :=
  uiState s' = uiState s
  /\ globalExplosionTarget s' = globalExplosionTarget s
  /\ partExplosionTarget s' = partExplosionTarget s
  /\ subRingFixedPositions s' = subRingFixedPositions s
  /\ (model s = None <-> model s' = None).

(** The branch of [selectHoveredPart] that enters the part view. *)
Definition entered (s : t) (h : PartId) (s' : t) : Prop :=
  uiState s'
  = mkUI PartView (Rmax (globalExplosion (uiState s)) 0.5) 0
         (hoveredPart (uiState s)) (Some h)
         (indexOf (majorParts MECH_HIERARCHY) h) (partList (uiState s))
  /\ globalExplosionTarget s' = Rmax (globalExplosionTarget s) 1
  /\ partExplosionTarget s' = 0
  /\ subRingFixedPositions s' = subRingFixedPositions s
  /\ (model s = None <-> model s' = None).

(** The index [navigateInternal] moves to. *)
Definition nextIndex (s : t) (delta : Z) : Z :=
  Z.rem (currentPartIndex (uiState s) + delta + 7) 7.

(** The invariant of the control part of the machine. *)
Definition InvC (u : SimpleUIState) (gT pT : R) : Prop :=
  (selectedMajorPart u <> None <-> state u = PartView)
  /\ (0 <= currentPartIndex u < 7)%Z
  /\ 0 <= gT <= 1 /\ 0 <= pT <= 1
  /\ 0 <= globalExplosion u <= 1 /\ 0 <= partExplosion u <= 1
  /\ (state u = PartView ->
      selectedMajorPart u = at_index (majorParts MECH_HIERARCHY) (currentPartIndex u)
      /\ gT = 1 /\ 0.5 <= globalExplosion u).

Definition Inv (s : t) : Prop :=
  InvC (uiState s) (globalExplosionTarget s) (partExplosionTarget s).

(** The effect of one round of a node loop on the configuration. *)
Definition onConfig (f : PartConfig -> Object3D -> Object3D) (c : PartConfig)
    : PartConfig :=
  match node c with
  | Some n => withNode c (f c n)
  | None => c
  end.

(** What a node loop never changes of a configuration. *)
Definition pose_only (c c' : PartConfig) : Prop :=
  originalPosition c' = originalPosition c
  /\ originalRotation c' = originalRotation c
  /\ explodeDir c' = explodeDir c
  /\ MechConfig.explodeDistance c' = MechConfig.explodeDistance c
  /\ (node c = None <-> node c' = None).

(** The model after the loops of [resetAllChildrenExcept]. *)
Definition childrenReset (keepPart : option MajorPartId) (m : MechModel) : MechModel :=
  fold_left
    (fun m' parentId =>
       if sameId parentId keepPart then m'
       else forEachNode (getChildParts parentId) restorePosition m')
    (majorParts MECH_HIERARCHY) m.

(** The body of the loop of [resetAllPartScales]. *)
Definition unitScale (_ : PartId) (_ : PartConfig) (n : Object3D) : Object3D :=
  setScale n (setScalar 1).

(** The index the [forEach] of the layout pairs with a part id. *)
Definition entryIndex (es : list (PartId * nat)) (p : PartId) : option nat :=
  option_map snd (find (fun e => String.eqb (fst e) p) es).

(** A slot position plus the part's own sub-ring offset. *)
Definition slotTarget (pos : Vector3) (p : PartId) : Vector3 :=
  add pos (offsetOr0 partPositionInSubRing (Some p)).

(** The major parts with their positions in the list. *)
Definition majorEntries : list (PartId * nat) :=
  combine (majorParts MECH_HIERARCHY)
          (seq 0 (List.length (majorParts MECH_HIERARCHY))).

(** The angle and position of slot [i] of [initSubRingPositions]. *)
Definition slotAngle (i : nat) : R := - PI / 2 + PI * 2 / INR 7 * INR i.

Definition slot (i : nat) : Vector3 :=
  mkVector3 (cos (slotAngle i) * subRingDistance)
            (sin (slotAngle i) * subRingDistance) subRingZ.

(** The step [navigateLeftRight] passes to [navigateInternal]. *)
Definition deltaOf (d : LeftRight) : Z :=
  match d with left => (-1)%Z | right => 1%Z end.

(** [n] consecutive cycle steps to the right. *)
Fixpoint cycleNext (n : nat) (s : t) : t :=
  match n with
  | O => s
  | S n' => cycleNext n' (navigateLeftRight s right)
  end.

(** The pose [updatePartPositions] gives a part, from its cached base. *)
Definition explodedPosition (data : ExplodeController.PartData) (factor : R) : Vector3 :=
  add (ExplodeController.pd_basePosition data)
      (multiplyScalar (ExplodeController.pd_explodeDirection data)
                      (ExplodeController.pd_explodeDistance data * factor * 2)).

Definition explodedRotation (data : ExplodeController.PartData) (factor : R) : Euler :=
  if Rltb 0.01 factor then
    add (ExplodeController.pd_baseRotation data)
        (multiplyScalar (ExplodeController.pd_explodeDirection data)
                        (factor * ExplodeController.ROTATION_AMOUNT))
  else ExplodeController.pd_baseRotation data.

(** Every part with a cache entry has the pose derived from the entry. *)
Definition posed (c : ExplodeController.t) : Prop :=
  forall (p : MechPart) (data : ExplodeController.PartData),
    In p (ExplodeController.partsArray c) ->
    JsMap.get (ExplodeController.partDataCache c) (name p) = Some data ->
    position (mesh p) = explodedPosition data (ExplodeController.globalFactorCurrent c)
    /\ rotation (mesh p) = explodedRotation data (ExplodeController.globalFactorCurrent c).

(** The layout [calculateTransitionTargets] computes for the focused part
    [h] over the slot positions [positions], entry by entry: [h] at the
    main-ring centre plus its offset at scale 1.0, every other major part at
    its slot plus its offset at scale 0.7, no entry for any other key, and
    the slot index of [h] recorded. *)
Definition laidOut (positions : list Vector3) (h : PartId) (s' : t) : Prop :=
  JsMap.get (transitionTargets s') h
  = Some (add mainRingCenter (offsetOr0 partPositionInMainRing (Some h)))
  /\ JsMap.get (transitionScales s') h = Some 1.0
  /\ (forall (p : PartId) (pos : Vector3),
        isMajorPart p = true -> p <> h ->
        nth_error positions (Z.to_nat (indexOf (majorParts MECH_HIERARCHY) p))
        = Some pos ->
        JsMap.get (transitionTargets s') p = Some (slotTarget pos p)
        /\ JsMap.get (transitionScales s') p = Some 0.7)
  /\ (forall p : PartId,
        isMajorPart p = false ->
        JsMap.get (transitionTargets s') p = None
        /\ JsMap.get (transitionScales s') p = None)
  /\ selectedSubRingIndex s' = indexOf (majorParts MECH_HIERARCHY) h.

End Derived.

(** ** Notions used to state the further properties *)

Module Derived2.
Import Three MechConfig LoadMech.

(** The cache entry [initPartData] stores for a part. *)
Definition dataOf (p : MechPart) : ExplodeController.PartData :=
  ExplodeController.mkPartData (position (mesh p)) (rotation (mesh p))
    (scale (mesh p)) (explodeDirection p) (LoadMech.explodeDistance p)
    (isSkinnedMesh (mesh p)).

(** [p] is [p0] with its mesh moved and turned. *)
Definition reposed (p p0 : MechPart) : Prop :=
  exists (pos : Vector3) (rot : Euler),
    p = withMesh p0 (setRotation (setPosition (mesh p0) pos) rot).

(** The amounts passed to the increase and decrease calls are not negative. *)
Definition nonneg_call (c : ExplodeController.TargetCall) : Prop :=
  match c with
  | ExplodeController.IncGlobal a | ExplodeController.DecGlobal a
  | ExplodeController.IncPart a | ExplodeController.DecPart a => 0 <= a
  | _ => True
  end.

Definition nonneg_op (o : ExplodeController.Op) : Prop :=
  match o with
  | ExplodeController.Target c => nonneg_call c
  | ExplodeController.IncreaseCurrent a | ExplodeController.DecreaseCurrent a => 0 <= a
  | _ => True
  end.

(** All four factors of the controller lie in [0, 1]. *)
Definition in_range (c : ExplodeController.t) : Prop :=
  0 <= ExplodeController.globalFactorCurrent c <= 1
  /\ 0 <= ExplodeController.globalFactorTarget c <= 1
  /\ 0 <= ExplodeController.partFactorCurrent c <= 1
  /\ 0 <= ExplodeController.partFactorTarget c <= 1.

End Derived2.

Module Derived3.
Import Three MechConfig LoadMech.

(** What [toLowerCase] does to a character of ASCII text: the letters A to
    Z are lowered, every other character is kept. *)
Definition asciiLower (c : Ascii.ascii) : Ascii.ascii :=
  let n := Ascii.nat_of_ascii c in
  if ((65 <=? n) && (n <=? 90))%nat then Ascii.ascii_of_nat (n + 32) else c.

Fixpoint asciiLowerCase (s : string) : string :=
  match s with
  | EmptyString => EmptyString
  | String c s' => String (asciiLower c) (asciiLowerCase s')
  end.

(** ASCII text: every byte is below 128. *)
Fixpoint isAscii (s : string) : bool :=
  match s with
  | EmptyString => true
  | String c s' => (Ascii.nat_of_ascii c <? 128)%nat && isAscii s'
  end.

(** What the embedding uses of [String.prototype.toLowerCase]: on ASCII
    text it lowers the letters A to Z and keeps the rest.  Nothing is said
    about text with other characters. *)
Definition lowersAscii (toLowerCase : string -> string) : Prop :=
  forall s : string, isAscii s = true -> toLowerCase s = asciiLowerCase s.

(** A lowering that knows one character outside ASCII: the Kelvin sign
    U+212A, bytes 226 132 170 in UTF-8, becomes the letter k (byte 107), as
    [toLowerCase] has it. *)
Fixpoint kelvinLowerCase (s : string) : string :=
  match s with
  | EmptyString => EmptyString
  | String c s1 =>
      match s1 with
      | String c2 (String c3 s3) =>
          if (Ascii.eqb c (Ascii.ascii_of_nat 226)
              && Ascii.eqb c2 (Ascii.ascii_of_nat 132)
              && Ascii.eqb c3 (Ascii.ascii_of_nat 170))%bool
          then String (Ascii.ascii_of_nat 107) (kelvinLowerCase s3)
          else String (asciiLower c) (kelvinLowerCase s1)
      | _ => String (asciiLower c) (kelvinLowerCase s1)
      end
  end.

(** The Kelvin sign as text. *)
Definition kelvinSign : string :=
  String (Ascii.ascii_of_nat 226)
    (String (Ascii.ascii_of_nat 132) (String (Ascii.ascii_of_nat 170) EmptyString)).

Section Lowering.
Variable toLowerCase : string -> string.

(** The node bound to a part id: the last node of the traversal whose name
    matches the id without regard to case. *)
Fixpoint lastMatch (nodes : list (string * Object3D)) (partId : PartId)
    : option Object3D :=
  match nodes with
  | [] => None
  | n :: rest =>
      match lastMatch rest partId with
      | Some o => Some o
      | None =>
          if String.eqb (toLowerCase (fst n)) (toLowerCase partId)
          then Some (snd n) else None
      end
  end.

End Lowering.

End Derived3.

(** ** MechStateMachine.ts *)

Module MechStateMachine.
Import Three MechConfig LoadMech.

Inductive MechViewState := Assembled | MajorExploded | PartList | PartDetailExploded.

Inductive GestureType :=
| OPEN_PALM | FIST | PINCH | SWIPE_LEFT | SWIPE_RIGHT | POINTING | NONE.

Inductive Direction := left | right.

(** [STATE_MACHINE_CONFIG] *)
Definition EXPLOSION_SPEED : R := 0.03.
Definition GESTURE_COOLDOWN : R := 300.

Definition state_eqb (a b : MechViewState) : bool :=
  match a, b with
  | Assembled, Assembled | MajorExploded, MajorExploded
  | PartList, PartList | PartDetailExploded, PartDetailExploded => true
  | _, _ => false
  end.

Record MechUIState := mkUI {
  state : MechViewState;
  currentMajorPart : option MajorPartId;
  currentSubPart : option PartId;
  highlightedIndex : Z;
  explosionFactor : R
}.

Definition createInitialUIState : MechUIState := mkUI Assembled None None 0 0.

(** Highlighting and dimming act on materials only; they belong to the
    renderer and are not part of the state. *)
Record t := mkT {
  model : option MechModel;
  uiState : MechUIState;
  globalExplosionFactor : R;
  globalExplosionTarget : R;
  partExplosionFactor : R;
  partExplosionTarget : R;
  lastGestureTime : R;
  lastGestureType : GestureType;
  currentList : list PartId
}.

Definition create : t := mkT None createInitialUIState 0 0 0 0 0 NONE [].

Definition init (s : t) (m : MechModel) : t :=
  mkT (Some m) createInitialUIState 0 0 0 0 (lastGestureTime s)
      (lastGestureType s) (currentList s).

(** *** Field updates *)

Definition with_model (s : t) (m : option MechModel) : t :=
  mkT m (uiState s) (globalExplosionFactor s) (globalExplosionTarget s)
      (partExplosionFactor s) (partExplosionTarget s) (lastGestureTime s)
      (lastGestureType s) (currentList s).

Definition with_ui (s : t) (u : MechUIState) : t :=
  mkT (model s) u (globalExplosionFactor s) (globalExplosionTarget s)
      (partExplosionFactor s) (partExplosionTarget s) (lastGestureTime s)
      (lastGestureType s) (currentList s).

Definition with_globalFactor (s : t) (v : R) : t :=
  mkT (model s) (uiState s) v (globalExplosionTarget s)
      (partExplosionFactor s) (partExplosionTarget s) (lastGestureTime s)
      (lastGestureType s) (currentList s).

Definition with_globalTarget (s : t) (v : R) : t :=
  mkT (model s) (uiState s) (globalExplosionFactor s) v
      (partExplosionFactor s) (partExplosionTarget s) (lastGestureTime s)
      (lastGestureType s) (currentList s).

Definition with_partFactor (s : t) (v : R) : t :=
  mkT (model s) (uiState s) (globalExplosionFactor s) (globalExplosionTarget s)
      v (partExplosionTarget s) (lastGestureTime s)
      (lastGestureType s) (currentList s).

Definition with_partTarget (s : t) (v : R) : t :=
  mkT (model s) (uiState s) (globalExplosionFactor s) (globalExplosionTarget s)
      (partExplosionFactor s) v (lastGestureTime s)
      (lastGestureType s) (currentList s).

Definition with_lastGestureTime (s : t) (v : R) : t :=
  mkT (model s) (uiState s) (globalExplosionFactor s) (globalExplosionTarget s)
      (partExplosionFactor s) (partExplosionTarget s) v
      (lastGestureType s) (currentList s).

Definition with_lastGestureType (s : t) (g : GestureType) : t :=
  mkT (model s) (uiState s) (globalExplosionFactor s) (globalExplosionTarget s)
      (partExplosionFactor s) (partExplosionTarget s) (lastGestureTime s)
      g (currentList s).

Definition with_list (s : t) (l : list PartId) : t :=
  mkT (model s) (uiState s) (globalExplosionFactor s) (globalExplosionTarget s)
      (partExplosionFactor s) (partExplosionTarget s) (lastGestureTime s)
      (lastGestureType s) l.

Definition ui_state (u : MechUIState) (v : MechViewState) :=
  mkUI v (currentMajorPart u) (currentSubPart u) (highlightedIndex u)
       (explosionFactor u).

Definition ui_major (u : MechUIState) (v : option MajorPartId) :=
  mkUI (state u) v (currentSubPart u) (highlightedIndex u) (explosionFactor u).

Definition ui_sub (u : MechUIState) (v : option PartId) :=
  mkUI (state u) (currentMajorPart u) v (highlightedIndex u) (explosionFactor u).

Definition ui_index (u : MechUIState) (v : Z) :=
  mkUI (state u) (currentMajorPart u) (currentSubPart u) v (explosionFactor u).

Definition ui_factor (u : MechUIState) (v : R) :=
  mkUI (state u) (currentMajorPart u) (currentSubPart u) (highlightedIndex u) v.

(** *** Highlight *)

Definition updateHighlight (s : t) : t :=
  match model s with
  | None => s
  | Some _ =>
      match currentList s with
      | [] => s
      | _ =>
          let partId :=
            SimpleStateMachine.at_index (currentList s)
                                        (highlightedIndex (uiState s)) in
          if SimpleStateMachine.truthy partId then
            if state_eqb (state (uiState s)) MajorExploded
            then with_ui s (ui_major (uiState s) partId)
            else with_ui s (ui_sub (uiState s) partId)
          else s
      end
  end.

Definition setHighlightedIndex (s : t) (index : Z) : t :=
  if ((index <? 0) || (Z.of_nat (List.length (currentList s)) <=? index))%Z
  then s
  else updateHighlight (with_ui s (ui_index (uiState s) index)).

(** *** State changes *)

Definition enterState (s : t) (st : MechViewState) : t :=
  match model s with
  | None => s
  | Some _ =>
      match st with
      | Assembled =>
          let u := ui_index (ui_sub (ui_major (uiState s) None) None) 0 in
          with_partTarget (with_globalTarget (with_list (with_ui s u) []) 0) 0
      | MajorExploded =>
          let s1 := with_list s (majorParts MECH_HIERARCHY) in
          let u := ui_major (ui_sub (ui_index (uiState s1) 0) None) None in
          with_partTarget (with_ui s1 u) 0
      | PartList =>
          match currentMajorPart (uiState s) with
          | Some major =>
              if SimpleStateMachine.truthy (Some major) then
                let children := getChildParts major in
                let s1 := with_list s children in
                let s2 := with_ui s1 (ui_index (uiState s1) 0) in
                match children with
                | first :: _ => with_ui s2 (ui_sub (uiState s2) (Some first))
                | [] => s2
                end
              else s
          | None => s
          end
      | PartDetailExploded =>
          if SimpleStateMachine.truthy (currentSubPart (uiState s))
          then updateHighlight s
          else s
      end
  end.

Definition transitionTo (s : t) (newState : MechViewState) : t :=
  let oldState := state (uiState s) in
  if state_eqb oldState newState then s
  else enterState (with_ui s (ui_state (uiState s) newState)) newState.

(** *** Gestures *)

Definition handleOpenPalm (s : t) : t :=
  match state (uiState s) with
  | Assembled =>
      let s1 := with_globalTarget s
                  (Rmin 1 (globalExplosionTarget s + EXPLOSION_SPEED)) in
      if Rltb 0.1 (globalExplosionTarget s1)
         && state_eqb (state (uiState s1)) Assembled
      then transitionTo s1 MajorExploded
      else s1
  | MajorExploded =>
      with_globalTarget s (Rmin 1 (globalExplosionTarget s + EXPLOSION_SPEED))
  | PartList | PartDetailExploded =>
      with_partTarget s (Rmin 1 (partExplosionTarget s + EXPLOSION_SPEED))
  end.

Definition handleFist (s : t) : t :=
  match state (uiState s) with
  | Assembled => s
  | MajorExploded =>
      let s1 := with_globalTarget s
                  (Rmax 0 (globalExplosionTarget s - EXPLOSION_SPEED)) in
      if Rltb (globalExplosionTarget s1) 0.05
      then transitionTo s1 Assembled
      else s1
  | PartList =>
      if Rltb 0.01 (partExplosionTarget s)
      then with_partTarget s (Rmax 0 (partExplosionTarget s - EXPLOSION_SPEED))
      else transitionTo s MajorExploded
  | PartDetailExploded =>
      if Rltb 0.01 (partExplosionTarget s)
      then with_partTarget s (Rmax 0 (partExplosionTarget s - EXPLOSION_SPEED))
      else transitionTo s PartList
  end.

(** [currentList[highlightedIndex]] may be [undefined]; [hasChildren] of
    [undefined] is false. *)
Definition hasChildrenOpt (o : option PartId) : bool :=
  match o with
  | Some k => hasChildren k
  | None => false
  end.

Definition handlePinch (s : t) : t :=
  match state (uiState s) with
  | Assembled => s
  | MajorExploded =>
      match currentList s with
      | [] => s
      | _ =>
          let selectedId :=
            SimpleStateMachine.at_index (currentList s)
                                        (highlightedIndex (uiState s)) in
          let s1 := with_ui s (ui_major (uiState s) selectedId) in
          if hasChildrenOpt selectedId then transitionTo s1 PartList else s1
      end
  | PartList =>
      match currentList s with
      | [] => s
      | _ =>
          let selectedId :=
            SimpleStateMachine.at_index (currentList s)
                                        (highlightedIndex (uiState s)) in
          transitionTo (with_ui s (ui_sub (uiState s) selectedId))
                       PartDetailExploded
      end
  | PartDetailExploded =>
      with_partTarget s (if Rltb 0.5 (partExplosionTarget s) then 0 else 1)
  end.

Definition handleSwipe (s : t) (direction : Direction) : t :=
  match currentList s with
  | [] => s
  | _ =>
      let len := Z.of_nat (List.length (currentList s)) in
      let delta := match direction with right => 1 | left => -1 end%Z in
      let newIndex := (highlightedIndex (uiState s) + delta)%Z in
      let newIndex := if (newIndex <? 0)%Z then (len - 1)%Z else newIndex in
      let newIndex := if (len <=? newIndex)%Z then 0%Z else newIndex in
      setHighlightedIndex s newIndex
  end.

Definition canTriggerGesture (s : t) (now : R) : bool :=
  Rltb GESTURE_COOLDOWN (now - lastGestureTime s).

(** [handleGesture(gesture, gestureJustStarted)]; [now] is the value of
    [performance.now()] at the call. *)
Definition handleGesture (s : t) (gesture : GestureType)
    (gestureJustStarted : bool) (now : R) : t :=
  match model s with
  | None => s
  | Some _ =>
      let s1 :=
        match gesture with
        | OPEN_PALM => handleOpenPalm s
        | FIST => handleFist s
        | PINCH =>
            if gestureJustStarted && canTriggerGesture s now
            then with_lastGestureTime (handlePinch s) now
            else s
        | SWIPE_LEFT =>
            if canTriggerGesture s now
            then with_lastGestureTime (handleSwipe s left) now
            else s
        | SWIPE_RIGHT =>
            if canTriggerGesture s now
            then with_lastGestureTime (handleSwipe s right) now
            else s
        | POINTING | NONE => s
        end in
      with_lastGestureType s1 gesture
  end.

Definition selectCurrentHighlight (s : t) : t :=
  match currentList s with
  | [] => s
  | _ =>
      let selectedId :=
        SimpleStateMachine.at_index (currentList s)
                                    (highlightedIndex (uiState s)) in
      match state (uiState s) with
      | MajorExploded =>
          let s1 := with_ui s (ui_major (uiState s) selectedId) in
          if hasChildrenOpt selectedId then transitionTo s1 PartList else s1
      | PartList =>
          transitionTo (with_ui s (ui_sub (uiState s) selectedId))
                       PartDetailExploded
      | _ => s
      end
  end.

(** *** The frame update *)

(** The body of the loops of [applyGlobalExplosion] and
    [applyPartExplosion] for one node. *)
Definition explodeGlobal (factor : R) (_ : PartId) (config : PartConfig)
    (n : Object3D) : Object3D :=
  match originalPosition config with
  | None => n
  | Some o =>
      let offset :=
        multiplyScalar (explodeDir config)
                       (MechConfig.explodeDistance config * factor * 1.2) in
      let n1 := setPosition n (add o offset) in
      match originalRotation config with
      | Some r =>
          setRotation n1
            (mkVector3 (x r + x (explodeDir config) * factor * 0.02)
                       (y r + y (explodeDir config) * factor * 0.02)
                       (z r + z (explodeDir config) * factor * 0.02))
      | None => n1
      end
  end.

Definition explodePart (factor : R) (_ : PartId) (config : PartConfig)
    (n : Object3D) : Object3D :=
  match originalPosition config with
  | None => n
  | Some o =>
      setPosition n
        (add o (multiplyScalar (explodeDir config)
                  (MechConfig.explodeDistance config * factor * 1.5)))
  end.

Definition applyGlobalExplosion (s : t) : t :=
  match model s with
  | None => s
  | Some m =>
      with_model s
        (Some (SimpleStateMachine.forEachNode (majorParts MECH_HIERARCHY)
                 (explodeGlobal (globalExplosionFactor s)) m))
  end.

Definition applyPartExplosion (s : t) : t :=
  match model s with
  | None => s
  | Some m =>
      match currentMajorPart (uiState s) with
      | Some major =>
          if SimpleStateMachine.truthy (Some major) then
            with_model s
              (Some (SimpleStateMachine.forEachNode (getChildParts major)
                       (explodePart (partExplosionFactor s)) m))
          else s
      | None => s
      end
  end.

Definition smoothing : R := 0.1.

Definition update (s : t) : t :=
  match model s with
  | None => s
  | Some _ =>
      let s1 :=
        if Rltb 0.001 (Rabs (globalExplosionFactor s - globalExplosionTarget s))
        then applyGlobalExplosion
               (with_globalFactor s
                  (globalExplosionFactor s
                   + (globalExplosionTarget s - globalExplosionFactor s) * smoothing))
        else s in
      let s2 :=
        if Rltb 0.001 (Rabs (partExplosionFactor s1 - partExplosionTarget s1))
        then applyPartExplosion
               (with_partFactor s1
                  (partExplosionFactor s1
                   + (partExplosionTarget s1 - partExplosionFactor s1) * smoothing))
        else s1 in
      with_ui s2
        (ui_factor (uiState s2)
           (match state (uiState s2) with
            | PartList | PartDetailExploded => partExplosionFactor s2
            | _ => globalExplosionFactor s2
            end))
  end.

(** *** Resetting *)

Definition reset (s : t) : t :=
  let s1 := transitionTo s Assembled in
  with_partTarget
    (with_partFactor (with_globalTarget (with_globalFactor s1 0) 0) 0) 0.

Definition dispose (s : t) : t := with_list (with_model s None) [].

(** *** Runs of the machine *)

Inductive Op :=
| Init (m : MechModel)
| HandleGesture (gesture : GestureType) (gestureJustStarted : bool) (now : R)
| SelectCurrentHighlight
| Update
| Reset
| Dispose.

Definition step (s : t) (o : Op) : t :=
  match o with
  | Init m => init s m
  | HandleGesture g js now => handleGesture s g js now
  | SelectCurrentHighlight => selectCurrentHighlight s
  | Update => update s
  | Reset => reset s
  | Dispose => dispose s
  end.

Definition run (s : t) (l : list Op) : t := fold_left step l s.

End MechStateMachine.

Module Derived4.
Import Three MechConfig LoadMech MechStateMachine.

(** Frames of a held fist, each with its flag and its time. *)
Definition fistFrames (frames : list (bool * R)) (s : t) : t :=
  fold_left (fun s' f => handleGesture s' FIST (fst f) (snd f)) frames s.

(** The gestures that fire once and are subject to the cooldown. *)
Definition discrete (g : GestureType) : Prop :=
  g = PINCH \/ g = SWIPE_LEFT \/ g = SWIPE_RIGHT.

(** The invariant of the gesture state machine. *)
Definition InvM (s : t) : Prop :=
  0 <= globalExplosionTarget s <= 1
  /\ 0 <= partExplosionTarget s <= 1
  /\ 0 <= globalExplosionFactor s <= 1
  /\ 0 <= partExplosionFactor s <= 1
  /\ (currentList s = []
      \/ (0 <= highlightedIndex (uiState s)
          < Z.of_nat (List.length (currentList s)))%Z)
  /\ (model s <> None ->
      match state (uiState s) with
      | Assembled => True
      | MajorExploded =>
          currentList s = majorParts MECH_HIERARCHY
          /\ currentSubPart (uiState s) = None
          /\ (currentMajorPart (uiState s) = None
              \/ currentMajorPart (uiState s)
                 = SimpleStateMachine.at_index (currentList s)
                     (highlightedIndex (uiState s)))
      | PartList | PartDetailExploded =>
          exists major : MajorPartId,
            currentMajorPart (uiState s) = Some major
            /\ hasChildren major = true
            /\ currentList s = getChildParts major
            /\ currentSubPart (uiState s)
               = SimpleStateMachine.at_index (currentList s)
                   (highlightedIndex (uiState s))
      end).

(** A bound on the number of fist frames that lead back to Assembled. *)
Definition fistsLeftGlobal (g : R) : R := 1 + Rmax 0 ((g - 0.05) / 0.03).

Definition fistsLeftPart (p : R) : R :=
  if Rltb 0.01 p then 1 + Rmax 0 ((p - 0.01) / 0.03) else 0.

Definition fistsLeft (s : t) : R :=
  match state (uiState s) with
  | Assembled => 0
  | MajorExploded => fistsLeftGlobal (globalExplosionTarget s)
  | PartList =>
      fistsLeftPart (partExplosionTarget s) + 1
      + fistsLeftGlobal (globalExplosionTarget s)
  | PartDetailExploded =>
      fistsLeftPart (partExplosionTarget s) + 2
      + fistsLeftGlobal (globalExplosionTarget s)
  end.

(** The step of a swipe. *)
Definition swipeDelta (d : Direction) : Z :=
  match d with right => 1%Z | left => (-1)%Z end.

(** [n] swipes in one direction. *)
Fixpoint swipes (n : nat) (d : Direction) (s : t) : t :=
  match n with
  | O => s
  | S n' => swipes n' d (handleSwipe s d)
  end.

End Derived4.

(** ** keyboardController.ts *)

Module KeyboardController.
Import LoadMech.

(** The callbacks, as the events the controller emits in order. *)
Inductive Callback :=
| OnExplosionChange (delta : R)
| OnMaterialModeChange (direction : SimpleStateMachine.UpDown)
| OnNavigateLeftRight (direction : SimpleStateMachine.LeftRight)
| OnEscape
| OnEnter.

(** [keysPressed] is a [Set]: a list without repetition. *)
Record t := mkT {
  keysPressed : list string;
  enabled : bool
}.

Definition explosionSpeed : R := 0.02.

Definition create : t := mkT [] true.

Definition has (keys : list string) (key : string) : bool :=
  existsb (String.eqb key) keys.

Definition add (keys : list string) (key : string) : list string :=
  if has keys key then keys else keys ++ [key].

Definition delete (keys : list string) (key : string) : list string :=
  filter (fun k => negb (String.eqb key k)) keys.

(** [event.key.toLowerCase()] is the function of the host; the handlers
    are embedded over it. *)
Section Lowering.
Variable toLowerCase : string -> string.

(** [onKeyDown(event)], with [event.key]. *)
Definition onKeyDown (s : t) (eventKey : string) : t * list Callback :=
  if negb (enabled s) then (s, [])
  else
    let key := toLowerCase eventKey in
    let isNewKey := negb (has (keysPressed s) key) in
    let s1 := mkT (add (keysPressed s) key) (enabled s) in
    let once (c : Callback) := if isNewKey then [c] else [] in
    (s1,
     if String.eqb key "a" then [OnExplosionChange (explosionSpeed * 3)]
     else if String.eqb key "s" then [OnExplosionChange (- explosionSpeed * 3)]
     else if String.eqb key "arrowup"
       then once (OnMaterialModeChange SimpleStateMachine.up)
     else if String.eqb key "arrowdown"
       then once (OnMaterialModeChange SimpleStateMachine.down)
     else if String.eqb key "arrowleft"
       then once (OnNavigateLeftRight SimpleStateMachine.left)
     else if String.eqb key "arrowright"
       then once (OnNavigateLeftRight SimpleStateMachine.right)
     else if String.eqb key "escape" then once OnEscape
     else if String.eqb key "enter" then once OnEnter
     else []).

Definition onKeyUp (s : t) (eventKey : string) : t :=
  mkT (delete (keysPressed s) (toLowerCase eventKey)) (enabled s).

End Lowering.

Definition update (s : t) : list Callback :=
  if negb (enabled s) then []
  else
    (if has (keysPressed s) "a" then [OnExplosionChange explosionSpeed] else [])
    ++ (if has (keysPressed s) "s" then [OnExplosionChange (- explosionSpeed)]
        else []).

Definition setEnabled (s : t) (b : bool) : t :=
  mkT (if b then keysPressed s else []) b.

End KeyboardController.

(** ** simpleMouseController.ts: the double-click detection *)

Module SimpleMouseController.

(** Of the controller, the fields [onClick] reads and writes; the hovered
    part is set by the ray cast of [onMouseMove].  Times are the integer
    milliseconds of [Date.now()]. *)
Record t := mkT {
  hoveredPartId : option MechConfig.PartId;
  enabled : bool;
  lastClickTime : Z
}.

Definition doubleClickThreshold : Z := 300.

Definition create : t := mkT None true 0.

(** [onClick]; the result holds the part passed to [onDoubleClick], if the
    callback is called. *)
Definition onClick (s : t) (now : Z) : t * option MechConfig.PartId :=
  if negb (enabled s) then (s, None)
  else
    let timeDiff := (now - lastClickTime s)%Z in
    if (timeDiff <? doubleClickThreshold)%Z
       && SimpleStateMachine.truthy (hoveredPartId s)
    then (mkT (hoveredPartId s) (enabled s) 0, hoveredPartId s)
    else (mkT (hoveredPartId s) (enabled s) now, None).

Definition setEnabled (s : t) (b : bool) : t :=
  if b then mkT (hoveredPartId s) b (lastClickTime s)
  else mkT None b (lastClickTime s).

End SimpleMouseController.

(** ** main.ts: the wiring of the keyboard and mouse callbacks *)

Module Main.

(** The handlers [init] installs on the keyboard controller, applied to the
    state machine.  [cycleMaterialMode] changes materials only. *)
Definition onKeyboard (sm : SimpleStateMachine.t)
    (c : KeyboardController.Callback) : SimpleStateMachine.t :=
  match c with
  | KeyboardController.OnExplosionChange delta =>
      SimpleStateMachine.adjustExplosion sm delta
  | KeyboardController.OnNavigateLeftRight direction =>
      SimpleStateMachine.navigateLeftRight sm direction
  | KeyboardController.OnMaterialModeChange _ => sm
  | KeyboardController.OnEscape => SimpleStateMachine.goBack sm
  | KeyboardController.OnEnter => snd (SimpleStateMachine.selectHoveredPart sm)
  end.

Definition onKeyboardAll (sm : SimpleStateMachine.t)
    (cs : list KeyboardController.Callback) : SimpleStateMachine.t :=
  fold_left onKeyboard cs sm.

(** The part of a frame of [animate] that concerns the state machine: the
    keyboard update, then the update of the machine. *)
Definition animate (k : KeyboardController.t) (sm : SimpleStateMachine.t)
    : SimpleStateMachine.t :=
  SimpleStateMachine.update (onKeyboardAll sm (KeyboardController.update k)).

(** [onDoubleClick]: the part passed is not read. *)
Definition onDoubleClick (sm : SimpleStateMachine.t)
    (_ : MechConfig.PartId) : SimpleStateMachine.t :=
  snd (SimpleStateMachine.selectHoveredPart sm).

End Main.

Module Derived5.

(** [n] frames of [animate] with the keys held as they are. *)
Fixpoint frames (n : nat) (k : KeyboardController.t)
    (sm : SimpleStateMachine.t) : SimpleStateMachine.t :=
  match n with
  | O => sm
  | S n' => frames n' k (Main.animate k sm)
  end.

(** A sequence of clicks at the given times; the result lists the parts
    passed to [onDoubleClick]. *)
Fixpoint clicks (times : list Z) (s : SimpleMouseController.t)
    : SimpleMouseController.t * list MechConfig.PartId :=
  match times with
  | [] => (s, [])
  | now :: rest =>
      let (s1, fired) := SimpleMouseController.onClick s now in
      let (s2, more) := clicks rest s1 in
      (s2, match fired with Some p => p :: more | None => more end)
  end.

End Derived5.

(** ** gestureController.ts *)

Module GestureController.

(** A landmark of MediaPipe; [z] may be missing. *)
Record NormalizedLandmark := mkLandmark {
  lx : R;
  ly : R;
  lz : option R
}.

Inductive HandShape := open | fist | one | two | three | four | pointer | other.

Inductive GestureMode := watch | zoom | explode | component.

Inductive Hand := leftHand | rightHand.

(** The strings passed to [onGestureChange]. *)
Inductive GestureTag :=
| mode_ (mode : GestureMode)
| explosion_start | click_mode_enter | aggregation
| swipe_up | swipe_down | swipe_left | swipe_right.

(** The callbacks, as the events the controller emits in order; the mode
    name passed to [onModeChange] is a label and is left out.
    [ScheduleWatch] is the [setTimeout] that will call
    [setMode('watch', false)]. *)
Inductive Callback :=
| OnModeChange (mode : GestureMode)
| OnRotateView (deltaX deltaY : R)
| OnZoom (delta : R)
| OnExplosion
| OnAggregation
| OnExplosionChange (delta : R)
| OnEscape
| OnMouseMove (x y : R)
| OnClick
| OnNavigateUpDown (direction : SimpleStateMachine.UpDown)
| OnNavigateLeftRight (direction : SimpleStateMachine.LeftRight)
| OnGestureChange (gesture : GestureTag) (hand : Hand)
| ScheduleWatch.

(** *** [CONFIG] *)

Definition MODE_SWITCH_STABLE_TIME : R := 500.
Definition MODE_SWITCH_STABLE_TIME_3 : R := 600.
Definition MODE_SWITCH_STABLE_TIME_4 : R := 800.
Definition MODE_LOCK_DURATION : R := 5000.
Definition AUTO_RESET_TIMEOUT : R := 60000.
Definition NEUTRAL_ZONE_RATIO : R := 0.12.
Definition ROTATION_SENSITIVITY : R := 3.5.
Definition ROTATION_MAX_SPEED : R := 0.06.
Definition ZOOM_SPEED : R := 0.025.
Definition ZOOM_ACCELERATION_TIME : R := 250.
Definition EXPLOSION_SPEED : R := 0.008.
Definition EXPLOSION_COOLDOWN : R := 1500.
Definition AGGREGATION_BLOCK_TIME : R := 3000.
Definition PINCH_THRESHOLD : R := 0.08.
Definition PINCH_RELEASE_THRESHOLD : R := 0.12.
Definition HOVER_CLICK_TIME : R := 2000.
Definition SWIPE_DISTANCE_THRESHOLD : R := 0.12.
Definition SWIPE_SPEED_THRESHOLD : R := 0.008.
Definition MATERIAL_SWIPE_COOLDOWN : R := 3000.
Definition COMPONENT_SWIPE_COOLDOWN : R := 1000.
Definition FINGER_EXTENDED_RATIO : R := 0.75.
Definition FINGER_CURLED_RATIO : R := 0.55.
Definition STABLE_FRAMES : Z := 4.
Definition MOUSE_SMOOTHING : R := 0.25.

(** [LANDMARKS] *)
Definition WRIST : nat := 0.
Definition THUMB_TIP : nat := 4.
Definition INDEX_MCP : nat := 5.
Definition INDEX_TIP : nat := 8.
Definition MIDDLE_MCP : nat := 9.
Definition MIDDLE_TIP : nat := 12.
Definition RING_TIP : nat := 16.
Definition PINKY_MCP : nat := 17.
Definition PINKY_TIP : nat := 20.

(** *** The state, grouped as the fields of the class are *)

Record Core := mkCore {
  currentMode : GestureMode;
  lastModeChangeTime : R;
  lastInteractionTime : R;
  lastFrameTime : R;
  deltaTime : R;
  modeSwitchByGesture : bool
}.

Record LeftState := mkLeft {
  leftShape : HandShape;
  leftShapeStableCount : Z;
  lastLeftShape : HandShape;
  leftModeGestureStartTime : R;
  leftPendingMode : option GestureMode
}.

Record Position := mkPosition { px : R; py : R; pz : R }.

Record RightState := mkRight {
  rightShape : HandShape;
  rightShapeStableCount : Z;
  lastRightShape : HandShape;
  rightHandPosition : Position;
  lastRightHandPosition : Position
}.

Record ZoomState := mkZoom {
  isZooming : bool;
  zoomStartTime : R;
  zoomDirection : Z
}.

(** [aggregationBlockedUntil] may be [Infinity]: [None]. *)
Record ExplodeState := mkExplode {
  isExploding : bool;
  lastExplosionTime : R;
  lastAggregationTime : R;
  isInClickMode : bool;
  aggregationBlockedUntil : option R;
  isPinching : bool;
  pinchStartTime : R;
  smoothedCursorX : R;
  smoothedCursorY : R;
  hoverStartTime : R;
  lastHoverX : R;
  lastHoverY : R
}.

Record Sample := mkSample { sx : R; sy : R; stime : R }.

Record ComponentState := mkComponent {
  swipeStartPosition : R * R;
  swipeStartTime : R;
  lastMaterialSwipeTime : R;
  lastComponentSwipeTime : R;
  rightPositionHistory : list Sample
}.

Record t := mkT {
  core : Core;
  left : LeftState;
  right : RightState;
  isRotating : bool;
  zoomSt : ZoomState;
  explodeSt : ExplodeState;
  componentSt : ComponentState
}.

Definition create : t :=
  mkT (mkCore watch 0 0 0 0 true)
      (mkLeft other 0 other 0 None)
      (mkRight other 0 other (mkPosition 0.5 0.5 0) (mkPosition 0.5 0.5 0))
      false
      (mkZoom false 0 0)
      (mkExplode false 0 0 false (Some 0) false 0 0.5 0.5 0 0 0)
      (mkComponent (0, 0) 0 0 0 []).

(** *** Field updates *)

Definition with_core (s : t) (c : Core) : t :=
  mkT c (left s) (right s) (isRotating s) (zoomSt s) (explodeSt s) (componentSt s).

Definition with_left (s : t) (l : LeftState) : t :=
  mkT (core s) l (right s) (isRotating s) (zoomSt s) (explodeSt s) (componentSt s).

Definition with_right (s : t) (r : RightState) : t :=
  mkT (core s) (left s) r (isRotating s) (zoomSt s) (explodeSt s) (componentSt s).

Definition with_isRotating (s : t) (b : bool) : t :=
  mkT (core s) (left s) (right s) b (zoomSt s) (explodeSt s) (componentSt s).

Definition with_zoom (s : t) (z : ZoomState) : t :=
  mkT (core s) (left s) (right s) (isRotating s) z (explodeSt s) (componentSt s).

Definition with_explode (s : t) (e : ExplodeState) : t :=
  mkT (core s) (left s) (right s) (isRotating s) (zoomSt s) e (componentSt s).

Definition with_component (s : t) (c : ComponentState) : t :=
  mkT (core s) (left s) (right s) (isRotating s) (zoomSt s) (explodeSt s) c.

Definition with_lastInteractionTime (s : t) (now : R) : t :=
  with_core s
    (mkCore (currentMode (core s)) (lastModeChangeTime (core s)) now
            (lastFrameTime (core s)) (deltaTime (core s))
            (modeSwitchByGesture (core s))).

Definition with_pending (s : t) (start : R) (pending : option GestureMode) : t :=
  with_left s
    (mkLeft (leftShape (left s)) (leftShapeStableCount (left s))
            (lastLeftShape (left s)) start pending).

Definition ex_isExploding (e : ExplodeState) (b : bool) : ExplodeState :=
  mkExplode b (lastExplosionTime e) (lastAggregationTime e) (isInClickMode e)
    (aggregationBlockedUntil e) (isPinching e) (pinchStartTime e)
    (smoothedCursorX e) (smoothedCursorY e) (hoverStartTime e)
    (lastHoverX e) (lastHoverY e).

Definition ex_lastExplosionTime (e : ExplodeState) (v : R) : ExplodeState :=
  mkExplode (isExploding e) v (lastAggregationTime e) (isInClickMode e)
    (aggregationBlockedUntil e) (isPinching e) (pinchStartTime e)
    (smoothedCursorX e) (smoothedCursorY e) (hoverStartTime e)
    (lastHoverX e) (lastHoverY e).

Definition ex_lastAggregationTime (e : ExplodeState) (v : R) : ExplodeState :=
  mkExplode (isExploding e) (lastExplosionTime e) v (isInClickMode e)
    (aggregationBlockedUntil e) (isPinching e) (pinchStartTime e)
    (smoothedCursorX e) (smoothedCursorY e) (hoverStartTime e)
    (lastHoverX e) (lastHoverY e).

Definition ex_isInClickMode (e : ExplodeState) (b : bool) : ExplodeState :=
  mkExplode (isExploding e) (lastExplosionTime e) (lastAggregationTime e) b
    (aggregationBlockedUntil e) (isPinching e) (pinchStartTime e)
    (smoothedCursorX e) (smoothedCursorY e) (hoverStartTime e)
    (lastHoverX e) (lastHoverY e).

Definition ex_blockedUntil (e : ExplodeState) (v : option R) : ExplodeState :=
  mkExplode (isExploding e) (lastExplosionTime e) (lastAggregationTime e)
    (isInClickMode e) v (isPinching e) (pinchStartTime e)
    (smoothedCursorX e) (smoothedCursorY e) (hoverStartTime e)
    (lastHoverX e) (lastHoverY e).

Definition ex_pinch (e : ExplodeState) (b : bool) (start : R) : ExplodeState :=
  mkExplode (isExploding e) (lastExplosionTime e) (lastAggregationTime e)
    (isInClickMode e) (aggregationBlockedUntil e) b start
    (smoothedCursorX e) (smoothedCursorY e) (hoverStartTime e)
    (lastHoverX e) (lastHoverY e).

Definition ex_cursor (e : ExplodeState) (cx cy : R) : ExplodeState :=
  mkExplode (isExploding e) (lastExplosionTime e) (lastAggregationTime e)
    (isInClickMode e) (aggregationBlockedUntil e) (isPinching e)
    (pinchStartTime e) cx cy (hoverStartTime e) (lastHoverX e) (lastHoverY e).

Definition ex_hoverStartTime (e : ExplodeState) (v : R) : ExplodeState :=
  mkExplode (isExploding e) (lastExplosionTime e) (lastAggregationTime e)
    (isInClickMode e) (aggregationBlockedUntil e) (isPinching e)
    (pinchStartTime e) (smoothedCursorX e) (smoothedCursorY e) v
    (lastHoverX e) (lastHoverY e).

Definition ex_hover (e : ExplodeState) (start hx hy : R) : ExplodeState :=
  mkExplode (isExploding e) (lastExplosionTime e) (lastAggregationTime e)
    (isInClickMode e) (aggregationBlockedUntil e) (isPinching e)
    (pinchStartTime e) (smoothedCursorX e) (smoothedCursorY e) start hx hy.

(** [hideCursor()]: the cursor element apart, it clears the hover time. *)
Definition hideCursor (s : t) : t :=
  with_explode s (ex_hoverStartTime (explodeSt s) 0).

(** *** Geometry of a hand *)

Definition bind {A B} (o : option A) (f : A -> option B) : option B :=
  match o with
  | Some a => f a
  | None => None
  end.

(** [landmarks[i]]; using a missing landmark throws, which is [None]. *)
Definition landmark (landmarks : list NormalizedLandmark) (i : nat)
    : option NormalizedLandmark :=
  nth_error landmarks i.

(** [Math.pow(v, 2)] is [v * v]. *)
Definition dist2D (a b : NormalizedLandmark) : R :=
  sqrt ((lx a - lx b) * (lx a - lx b) + (ly a - ly b) * (ly a - ly b)).

Definition getPalmWidth (landmarks : list NormalizedLandmark) : option R :=
  bind (landmark landmarks WRIST) (fun w =>
  bind (landmark landmarks MIDDLE_MCP) (fun m =>
  Some (dist2D w m))).

(** [z || 0] *)
Definition zOr0 (a : NormalizedLandmark) : R :=
  match lz a with
  | Some v => v
  | None => 0
  end.

Definition getPalmCenter (landmarks : list NormalizedLandmark)
    : option Position :=
  bind (landmark landmarks WRIST) (fun wrist =>
  bind (landmark landmarks INDEX_MCP) (fun indexMcp =>
  bind (landmark landmarks MIDDLE_MCP) (fun middleMcp =>
  bind (landmark landmarks PINKY_MCP) (fun pinkyMcp =>
  Some (mkPosition
          ((lx wrist + lx indexMcp + lx middleMcp + lx pinkyMcp) / 4)
          ((ly wrist + ly indexMcp + ly middleMcp + ly pinkyMcp) / 4)
          (zOr0 wrist + zOr0 indexMcp + zOr0 middleMcp + zOr0 pinkyMcp / 4)))))).

Definition getFingerTipRatio (landmarks : list NormalizedLandmark)
    (tipIndex : nat) : option R :=
  bind (getPalmWidth landmarks) (fun palmWidth =>
  if Rltb palmWidth 0.01 then Some 0
  else
    bind (landmark landmarks tipIndex) (fun tip =>
    bind (landmark landmarks WRIST) (fun wrist =>
    Some (dist2D tip wrist / palmWidth)))).

Definition getPinchRatio (landmarks : list NormalizedLandmark) : option R :=
  bind (getPalmWidth landmarks) (fun palmWidth =>
  if Rltb palmWidth 0.01 then Some 1
  else
    bind (landmark landmarks THUMB_TIP) (fun thumb =>
    bind (landmark landmarks INDEX_TIP) (fun index =>
    Some (dist2D thumb index / palmWidth)))).

Definition isFingerExtended (landmarks : list NormalizedLandmark)
    (tipIndex : nat) : option bool :=
  bind (getFingerTipRatio landmarks tipIndex) (fun r =>
  Some (Rltb FINGER_EXTENDED_RATIO r)).

Definition isFingerCurled (landmarks : list NormalizedLandmark)
    (tipIndex : nat) : option bool :=
  bind (getFingerTipRatio landmarks tipIndex) (fun r =>
  Some (Rltb r FINGER_CURLED_RATIO)).

(** [[a, b, c, d].filter(Boolean).length] *)
Definition countTrue (l : list bool) : nat :=
  List.length (filter (fun b => b) l).

(** The decision of [getHandShape] from the eight flags. *)
Definition shapeOf (indexExtended middleExtended ringExtended pinkyExtended
    indexCurled middleCurled ringCurled pinkyCurled : bool) : HandShape :=
  let extendedCount :=
    countTrue [indexExtended; middleExtended; ringExtended; pinkyExtended] in
  if (3 <=? extendedCount)%nat then open
  else if indexCurled && middleCurled && ringCurled && pinkyCurled then fist
  else if indexExtended && middleCurled && ringCurled && pinkyCurled then one
  else if indexExtended && middleExtended && ringCurled && pinkyCurled then two
  else if indexExtended && middleExtended && ringExtended && pinkyCurled
    then three
  else if indexExtended && middleExtended && ringExtended && pinkyExtended
    then four
  else if indexExtended && negb middleExtended && negb ringExtended
          && negb pinkyExtended
    then pointer
  else other.

Definition getHandShape (landmarks : list NormalizedLandmark)
    : option HandShape :=
  bind (getPalmWidth landmarks) (fun palmWidth =>
  if Rltb palmWidth 0.01 then Some other
  else
    bind (isFingerExtended landmarks INDEX_TIP) (fun indexExtended =>
    bind (isFingerExtended landmarks MIDDLE_TIP) (fun middleExtended =>
    bind (isFingerExtended landmarks RING_TIP) (fun ringExtended =>
    bind (isFingerExtended landmarks PINKY_TIP) (fun pinkyExtended =>
    bind (isFingerCurled landmarks INDEX_TIP) (fun indexCurled =>
    bind (isFingerCurled landmarks MIDDLE_TIP) (fun middleCurled =>
    bind (isFingerCurled landmarks RING_TIP) (fun ringCurled =>
    bind (isFingerCurled landmarks PINKY_TIP) (fun pinkyCurled =>
    Some (shapeOf indexExtended middleExtended ringExtended pinkyExtended
                  indexCurled middleCurled ringCurled pinkyCurled)))))))))).

Definition isLooseFist (landmarks : list NormalizedLandmark) : option bool :=
  bind (isFingerExtended landmarks INDEX_TIP) (fun indexExtended =>
  bind (isFingerExtended landmarks MIDDLE_TIP) (fun middleExtended =>
  bind (isFingerExtended landmarks RING_TIP) (fun ringExtended =>
  bind (isFingerExtended landmarks PINKY_TIP) (fun pinkyExtended =>
  Some (countTrue [indexExtended; middleExtended; ringExtended; pinkyExtended]
        <=? 2)%nat)))).

Definition shape_eqb (a b : HandShape) : bool :=
  match a, b with
  | open, open | fist, fist | one, one | two, two | three, three
  | four, four | pointer, pointer | other, other => true
  | _, _ => false
  end.

Definition mode_eqb (a b : GestureMode) : bool :=
  match a, b with
  | watch, watch | zoom, zoom | explode, explode | component, component => true
  | _, _ => false
  end.

Definition updateShapeStability (currentShape lastShape : HandShape)
    (stableCount : Z) : HandShape * Z :=
  if shape_eqb currentShape lastShape
  then (currentShape, Z.min (stableCount + 1) (STABLE_FRAMES * 3))
  else (currentShape, 1%Z).

Definition isShapeStable (stableCount : Z) : bool :=
  (STABLE_FRAMES <=? stableCount)%Z.

(** *** Modes *)

Definition resetModeSubStates (s : t) : t :=
  let s1 := with_isRotating s false in
  let s2 := with_zoom s1 (mkZoom false (zoomStartTime (zoomSt s1)) 0) in
  let e := explodeSt s2 in
  let s3 := with_explode s2
              (ex_pinch (ex_isInClickMode e false) false (pinchStartTime e)) in
  let c := componentSt s3 in
  let s4 := with_component s3
              (mkComponent (0.5, 0.5) 0 (lastMaterialSwipeTime c)
                           (lastComponentSwipeTime c) []) in
  hideCursor s4.

(** [setMode(mode, byGesture)]; [now] is its [Date.now()]. *)
Definition setMode (s : t) (mode : GestureMode) (byGesture : bool) (now : R)
    : t * list Callback :=
  if byGesture && Rltb (now - lastModeChangeTime (core s)) MODE_LOCK_DURATION
     && modeSwitchByGesture (core s)
  then (s, [])
  else if negb (mode_eqb (currentMode (core s)) mode) then
    let c := core s in
    let s1 := with_core s
                (mkCore mode now now (lastFrameTime c) (deltaTime c) byGesture) in
    (resetModeSubStates s1,
     [OnModeChange mode; OnGestureChange (mode_ mode) leftHand])
  else (s, []).

(** [checkLeftHandModeSwitch(now)]; [nowSet] is the [Date.now()] of the
    [setMode] it may call. *)
Definition checkLeftHandModeSwitch (s : t) (now nowSet : R)
    : t * list Callback :=
  if modeSwitchByGesture (core s)
     && Rltb (now - lastModeChangeTime (core s)) MODE_LOCK_DURATION
  then (with_pending s 0 None, [])
  else
    let stable := isShapeStable (leftShapeStableCount (left s)) in
    let target : option GestureMode * R :=
      if shape_eqb (leftShape (left s)) one && stable
        then (Some watch, MODE_SWITCH_STABLE_TIME)
      else if shape_eqb (leftShape (left s)) two && stable
        then (Some zoom, MODE_SWITCH_STABLE_TIME)
      else if shape_eqb (leftShape (left s)) three && stable
        then (Some explode, MODE_SWITCH_STABLE_TIME_3)
      else if shape_eqb (leftShape (left s)) four && stable
        then (Some component, MODE_SWITCH_STABLE_TIME_4)
      else (None, MODE_SWITCH_STABLE_TIME) in
    match fst target with
    | Some targetMode =>
        if negb (mode_eqb targetMode (currentMode (core s))) then
          match leftPendingMode (left s) with
          | Some pending =>
              if mode_eqb pending targetMode then
                if Rltb (now - leftModeGestureStartTime (left s)) (snd target)
                then (s, [])
                else
                  let (s1, cbs) := setMode s targetMode true nowSet in
                  (with_pending s1 0 None, cbs)
              else (with_pending s now (Some targetMode), [])
          | None => (with_pending s now (Some targetMode), [])
          end
        else (with_pending s 0 None, [])
    | None => (with_pending s 0 None, [])
    end.

(** [checkAutoReset(now)]; [nowSet] as above. *)
Definition checkAutoReset (s : t) (now nowSet : R) : t * list Callback :=
  if negb (mode_eqb (currentMode (core s)) watch)
     && Rltb AUTO_RESET_TIMEOUT (now - lastInteractionTime (core s))
  then setMode s watch false nowSet
  else (s, []).

(** *** Hand shapes *)

Definition updateHandShapes (s : t)
    (leftLandmarks rightLandmarks : option (list NormalizedLandmark))
    : option t :=
  bind
    (match leftLandmarks with
     | Some landmarks =>
         bind (getHandShape landmarks) (fun shape =>
         let result :=
           updateShapeStability shape (lastLeftShape (left s))
                                (leftShapeStableCount (left s)) in
         Some (with_left s
                 (mkLeft (fst result) (snd result) shape
                         (leftModeGestureStartTime (left s))
                         (leftPendingMode (left s)))))
     | None =>
         Some (with_left s
                 (mkLeft other 0 (lastLeftShape (left s))
                         (leftModeGestureStartTime (left s))
                         (leftPendingMode (left s))))
     end)
    (fun s1 =>
       match rightLandmarks with
       | Some landmarks =>
           bind (getHandShape landmarks) (fun shape =>
           let result :=
             updateShapeStability shape (lastRightShape (right s1))
                                  (rightShapeStableCount (right s1)) in
           bind (getPalmCenter landmarks) (fun center =>
           Some (with_right s1
                   (mkRight (fst result) (snd result) shape center
                            (rightHandPosition (right s1))))))
       | None =>
           Some (with_right s1
                   (mkRight other 0 (lastRightShape (right s1))
                            (rightHandPosition (right s1))
                            (lastRightHandPosition (right s1))))
       end).

(** *** Watch mode *)

Definition processRotation (landmarks : list NormalizedLandmark)
    : option (list Callback) :=
  bind (getPalmCenter landmarks) (fun palm =>
  let x := 1 - px palm in
  let y := py palm in
  let offsetX := x - 0.5 in
  let offsetY := y - 0.5 in
  let distance := sqrt (offsetX * offsetX + offsetY * offsetY) in
  if Rltb NEUTRAL_ZONE_RATIO distance then
    let normalizedOffset :=
      (distance - NEUTRAL_ZONE_RATIO) / (0.5 - NEUTRAL_ZONE_RATIO) in
    let rotationSpeed := Rmin normalizedOffset 1 * ROTATION_SENSITIVITY in
    let dirX := offsetX / distance in
    let dirY := offsetY / distance in
    Some [OnRotateView (dirX * rotationSpeed * ROTATION_MAX_SPEED)
                       (dirY * rotationSpeed * ROTATION_MAX_SPEED)]
  else Some []).

Definition rightOpenStable (s : t) : bool :=
  shape_eqb (rightShape (right s)) open
  && isShapeStable (rightShapeStableCount (right s)).

Definition processWatchMode (s : t) (landmarks : list NormalizedLandmark)
    (now : R) : option (t * list Callback) :=
  if rightOpenStable s then
    bind (processRotation landmarks) (fun cbs =>
    Some (with_lastInteractionTime (with_isRotating s true) now, cbs))
  else Some (with_isRotating s false, []).

(** *** Zoom mode *)

Definition processZoomMode (s : t) (landmarks : list NormalizedLandmark)
    (now : R) : option (t * list Callback) :=
  bind
    (if rightOpenStable s then Some 1%Z
     else
       bind (isLooseFist landmarks) (fun loose =>
       Some (if loose && isShapeStable (rightShapeStableCount (right s))
             then (-1)%Z else 0%Z)))
    (fun newZoomDirection =>
       let z := zoomSt s in
       let z1 :=
         if negb (newZoomDirection =? zoomDirection z)%Z then
           if negb (newZoomDirection =? 0)%Z
           then mkZoom true now newZoomDirection
           else mkZoom false (zoomStartTime z) newZoomDirection
         else z in
       let s1 := with_zoom s z1 in
       if isZooming z1 && negb (zoomDirection z1 =? 0)%Z then
         let elapsed := now - zoomStartTime z1 in
         let acceleration := Rmin 1 (elapsed / ZOOM_ACCELERATION_TIME) in
         let speed := ZOOM_SPEED * acceleration in
         let zoomDelta := - IZR (zoomDirection z1) * speed in
         Some (with_lastInteractionTime s1 now, [OnZoom zoomDelta])
       else Some (s1, [])).

(** *** Explode mode *)

(** [now > aggregationBlockedUntil] *)
Definition afterBlock (now : R) (blockedUntil : option R) : bool :=
  match blockedUntil with
  | Some v => Rltb v now
  | None => false
  end.

Definition processClickMode (s : t) (landmarks : list NormalizedLandmark)
    (now : R) : option (t * list Callback) :=
  bind (landmark landmarks INDEX_TIP) (fun indexTip =>
  let targetX := 1 - lx indexTip in
  let targetY := ly indexTip in
  let e := explodeSt s in
  let cx := smoothedCursorX e + (targetX - smoothedCursorX e) * MOUSE_SMOOTHING in
  let cy := smoothedCursorY e + (targetY - smoothedCursorY e) * MOUSE_SMOOTHING in
  let e1 := ex_cursor e cx cy in
  let moved := [OnMouseMove cx cy] in
  let moveDist :=
    sqrt ((cx - lastHoverX e1) * (cx - lastHoverX e1)
          + (cy - lastHoverY e1) * (cy - lastHoverY e1)) in
  let pinchStep (s1 : t) : option (t * list Callback) :=
    bind (getPinchRatio landmarks) (fun pinchRatio =>
    let e2 := explodeSt s1 in
    if Rltb pinchRatio PINCH_THRESHOLD then
      if negb (isPinching e2)
      then Some (with_explode s1 (ex_pinch e2 true now), moved)
      else Some (s1, moved)
    else if Rltb PINCH_RELEASE_THRESHOLD pinchRatio then
      if isPinching e2 then
        let holdTime := now - pinchStartTime e2 in
        if Rltb holdTime 100 then
          Some (with_explode s1 (ex_pinch e2 false (pinchStartTime e2)), moved)
        else
          let s2 := with_lastInteractionTime s1 now in
          let e3 := ex_hoverStartTime (explodeSt s2) 0 in
          Some (with_explode s2 (ex_pinch e3 false (pinchStartTime e3)),
                moved ++ [OnClick; ScheduleWatch])
      else Some (s1, moved)
    else Some (s1, moved)) in
  if Rltb 0.03 moveDist then
    pinchStep (with_explode s (ex_hover e1 now cx cy))
  else if Req_dec_T (hoverStartTime e1) 0 then
    pinchStep (with_explode s (ex_hover e1 now cx cy))
  else if Rltb (now - hoverStartTime e1) HOVER_CLICK_TIME then
    pinchStep (with_explode s e1)
  else
    let s1 := with_lastInteractionTime (with_explode s e1) now in
    Some (with_explode s1 (ex_hoverStartTime (explodeSt s1) 0),
          moved ++ [OnClick; ScheduleWatch])).

Definition processExplodeMode (s : t) (landmarks : list NormalizedLandmark)
    (now : R) : option (t * list Callback) :=
  let stable := isShapeStable (rightShapeStableCount (right s)) in
  let shape := rightShape (right s) in
  if shape_eqb shape open && stable then
    let e := explodeSt s in
    let e1 := if isInClickMode e then ex_isInClickMode e false else e in
    let started := negb (isExploding e1) in
    let e2 := if started then ex_isExploding e1 true else e1 in
    let e3 := ex_lastExplosionTime e2 now in
    let s1 := with_lastInteractionTime (with_explode s e3) now in
    let s2 := with_explode s1
                (ex_blockedUntil (explodeSt s1)
                                 (Some (now + AGGREGATION_BLOCK_TIME))) in
    Some (hideCursor s2,
          (if started then [OnGestureChange explosion_start rightHand] else [])
          ++ [OnExplosionChange EXPLOSION_SPEED])
  else if (shape_eqb shape one || shape_eqb shape pointer) && stable then
    let e := explodeSt s in
    let e1 := if isExploding e then ex_isExploding e false else e in
    let entered := negb (isInClickMode e1) in
    let e2 :=
      if entered
      then ex_blockedUntil
             (ex_hoverStartTime (ex_isInClickMode e1 true) 0) None
      else e1 in
    bind (processClickMode (with_explode s e2) landmarks now) (fun r =>
    Some (with_lastInteractionTime (fst r) now,
          (if entered then [OnGestureChange click_mode_enter rightHand] else [])
          ++ snd r))
  else if shape_eqb shape fist && stable then
    let s1 := hideCursor s in
    let e := explodeSt s1 in
    let e1 := if isExploding e then ex_isExploding e false else e in
    let e2 :=
      if isInClickMode e1
      then ex_blockedUntil (ex_isInClickMode e1 false) (Some 0)
      else e1 in
    let canAggregate :=
      afterBlock now (aggregationBlockedUntil e2)
      && Rltb EXPLOSION_COOLDOWN (now - lastAggregationTime e2) in
    if canAggregate then
      Some (with_lastInteractionTime
              (with_explode s1 (ex_lastAggregationTime e2 now)) now,
            [OnAggregation; OnEscape; OnGestureChange aggregation rightHand])
    else Some (with_explode s1 e2, [])
  else
    let s1 := hideCursor s in
    let e := explodeSt s1 in
    let e1 := if isExploding e then ex_isExploding e false else e in
    let e2 :=
      if isInClickMode e1
      then ex_blockedUntil (ex_isInClickMode e1 false) (Some 0)
      else e1 in
    Some (with_explode s1 e2, []).

(** *** Component mode *)

(** [history[i]] for an index inside the list *)
Definition sampleAt (history : list Sample) (i : nat) : Sample :=
  nth i history (mkSample 0 0 0).

Definition processComponentMode (s : t) (landmarks : list NormalizedLandmark)
    (now : R) : option (t * list Callback) :=
  let c := componentSt s in
  if negb (rightOpenStable s) then
    Some (with_component s
            (mkComponent (0.5, 0.5) 0 (lastMaterialSwipeTime c)
                         (lastComponentSwipeTime c) []), [])
  else
    bind (getPalmCenter landmarks) (fun palm =>
    let x := 1 - px palm in
    let y := py palm in
    let pushed := rightPositionHistory c ++ [mkSample x y now] in
    let history :=
      if (15 <? List.length pushed)%nat then tl pushed else pushed in
    if Req_dec_T (swipeStartTime c) 0 then
      Some (with_component s
              (mkComponent (x, y) now (lastMaterialSwipeTime c)
                           (lastComponentSwipeTime c) history), [])
    else
      let dx := x - fst (swipeStartPosition c) in
      let dy := y - snd (swipeStartPosition c) in
      let distance := sqrt (dx * dx + dy * dy) in
      let speed :=
        if (2 <=? List.length history)%nat then
          let recent := sampleAt history (List.length history - 1) in
          let older := sampleAt history (List.length history - 5) in
          let dt := stime recent - stime older in
          if Rltb 0 dt then
            sqrt ((sx recent - sx older) * (sx recent - sx older)
                  + (sy recent - sy older) * (sy recent - sy older))
            / dt * 1000
          else 0
        else 0 in
      let c1 := mkComponent (swipeStartPosition c) (swipeStartTime c)
                            (lastMaterialSwipeTime c)
                            (lastComponentSwipeTime c) history in
      let swiped : Core * ComponentState * list Callback :=
        if Rltb SWIPE_DISTANCE_THRESHOLD distance
           && Rltb SWIPE_SPEED_THRESHOLD speed then
          let absX := Rabs dx in
          let absY := Rabs dy in
          if Rltb (absX * 1.5) absY then
            if Rltb MATERIAL_SWIPE_COOLDOWN (now - lastMaterialSwipeTime c1) then
              (core (with_lastInteractionTime s now),
               mkComponent (x, y) now now (lastComponentSwipeTime c1) history,
               if Rltb dy 0
               then [OnNavigateUpDown SimpleStateMachine.up;
                     OnGestureChange swipe_up rightHand]
               else [OnNavigateUpDown SimpleStateMachine.down;
                     OnGestureChange swipe_down rightHand])
            else (core s, c1, [])
          else if Rltb (absY * 1.5) absX then
            if Rltb COMPONENT_SWIPE_COOLDOWN (now - lastComponentSwipeTime c1) then
              (core (with_lastInteractionTime s now),
               mkComponent (x, y) now (lastMaterialSwipeTime c1) now history,
               if Rltb dx 0
               then [OnNavigateLeftRight SimpleStateMachine.left;
                     OnGestureChange swipe_left rightHand]
               else [OnNavigateLeftRight SimpleStateMachine.right;
                     OnGestureChange swipe_right rightHand])
            else (core s, c1, [])
          else (core s, c1, [])
        else (core s, c1, []) in
      let c2 := snd (fst swiped) in
      let c3 :=
        if Rltb 800 (now - swipeStartTime c2)
           && Rltb distance (SWIPE_DISTANCE_THRESHOLD * 0.5)
        then mkComponent (x, y) now (lastMaterialSwipeTime c2)
                         (lastComponentSwipeTime c2) (rightPositionHistory c2)
        else c2 in
      Some (with_component (with_core s (fst (fst swiped))) c3, snd swiped)).

(** *** A frame *)

Definition processRightHandByMode (s : t)
    (landmarks : list NormalizedLandmark) (now : R)
    : option (t * list Callback) :=
  match currentMode (core s) with
  | watch => processWatchMode s landmarks now
  | zoom => processZoomMode s landmarks now
  | explode => processExplodeMode s landmarks now
  | component => processComponentMode s landmarks now
  end.

Definition resetRightHandState (s : t) : t :=
  let s1 := with_isRotating s false in
  let s2 := with_zoom s1 (mkZoom false (zoomStartTime (zoomSt s1)) 0) in
  let e := explodeSt s2 in
  hideCursor (with_explode s2 (ex_pinch e false (pinchStartTime e))).

(** The hands of a result: a hand labelled 'Left' is the right hand (the
    image is mirrored); of several, the last one counts. *)
Fixpoint resolveHands (hands : list (bool * list NormalizedLandmark))
    (leftLandmarks rightLandmarks : option (list NormalizedLandmark))
    : option (list NormalizedLandmark) * option (list NormalizedLandmark) :=
  match hands with
  | [] => (leftLandmarks, rightLandmarks)
  | (labelledLeft, landmarks) :: rest =>
      if labelledLeft
      then resolveHands rest leftLandmarks (Some landmarks)
      else resolveHands rest (Some landmarks) rightLandmarks
  end.

(** The frame time: [deltaTime] and [lastFrameTime]. *)
Definition frameClock (s : t) (now : R) : t :=
  let c := core s in
  with_core s
    (mkCore (currentMode c) (lastModeChangeTime c) (lastInteractionTime c)
            now (now - lastFrameTime c) (modeSwitchByGesture c)).

(** [drawHand] draws the connections between the landmarks 0 to 20: it
    returns when they are all there ([true]) and throws otherwise. *)
Definition drawHand (landmarks : list NormalizedLandmark) : bool :=
  (21 <=? List.length landmarks)%nat.

(** [onResults(results)] once the canvas is there.  [hands] are the pairs
    of [multiHandedness[i].label === 'Left'] and [multiHandLandmarks[i]];
    a hand [drawHand] throws on makes the frame throw ([None]).  [now] is the [Date.now()] of the frame, [nowReset] and
    [nowSwitch] those of the [setMode] calls of [checkAutoReset] and
    [checkLeftHandModeSwitch]. *)
Definition onResults (s : t) (hands : list (bool * list NormalizedLandmark))
    (now nowReset nowSwitch : R) : option (t * list Callback) :=
  if forallb drawHand (map snd hands) then
    let s0 := frameClock s now in
    let resolved := resolveHands hands None None in
    bind (updateHandShapes s0 (fst resolved) (snd resolved)) (fun s1 =>
    let (s2, cbs2) := checkAutoReset s1 now nowReset in
    let (s3, cbs3) :=
      match fst resolved with
      | Some _ => checkLeftHandModeSwitch s2 now nowSwitch
      | None => (s2, [])
      end in
    match snd resolved with
    | Some landmarks =>
        bind (processRightHandByMode s3 landmarks now) (fun r =>
        Some (fst r, cbs2 ++ cbs3 ++ snd r))
    | None => Some (resetRightHandState s3, cbs2 ++ cbs3)
    end)
  else None.

(** [setEnabled(enabled)]; the flag itself only stops the camera from
    sending frames. *)
Definition setEnabled (s : t) (enabled : bool) : t :=
  if enabled then s else resetRightHandState s.

Inductive GestureType := open_palm | closed_fist | pinch | pointing | none.

Definition getCurrentGesture (s : t) : GestureType :=
  if shape_eqb (rightShape (right s)) open then open_palm
  else if shape_eqb (rightShape (right s)) fist then closed_fist
  else if isPinching (explodeSt s) then pinch
  else if shape_eqb (rightShape (right s)) pointer
          || shape_eqb (rightShape (right s)) one then pointing
  else none.

(** The callback of the [setTimeout] of the click mode. *)
Definition timeoutWatch (s : t) (now : R) : t * list Callback :=
  setMode s watch false now.

(** [init()], from the three readings of [Date.now()] on; the mode is
    'watch' already, so that its [setMode('watch', false)] changes nothing. *)
Definition init (s : t) (now1 now2 now3 nowSet : R) : t :=
  let c := core s in
  fst (setMode
         (with_core s
            (mkCore (currentMode c) now3 now2 now1 (deltaTime c)
                    (modeSwitchByGesture c)))
         watch false nowSet).

(** What reaches the controller from outside. *)
Inductive Op :=
| Results (hands : list (bool * list NormalizedLandmark))
          (now nowReset nowSwitch : R)
| Timeout (now : R)
| SetMode (mode : GestureMode) (byGesture : bool) (now : R)
| SetEnabled (enabled : bool).

(** A step; a frame that throws has set the frame time only. *)
Definition step (s : t) (o : Op) : t * list Callback :=
  match o with
  | Results hands now nowReset nowSwitch =>
      match onResults s hands now nowReset nowSwitch with
      | Some r => r
      | None => (frameClock s now, [])
      end
  | Timeout now => timeoutWatch s now
  | SetMode mode byGesture now => setMode s mode byGesture now
  | SetEnabled enabled => (setEnabled s enabled, [])
  end.

Fixpoint run (s : t) (l : list Op) : t * list Callback :=
  match l with
  | [] => (s, [])
  | o :: rest =>
      let (s1, cbs) := step s o in
      let (s2, more) := run s1 rest in
      (s2, cbs ++ more)
  end.

End GestureController.

Module Derived6.
Import GestureController.

Definition mode (s : t) : GestureMode := currentMode (core s).

(** The state after a change of mode. *)
Definition switched (s : t) (m : GestureMode) (b : bool) (now : R) : t :=
  resetModeSubStates
    (with_core s
       (mkCore m now now (lastFrameTime (core s)) (deltaTime (core s)) b)).

(** The core after an interaction at [now]. *)
Definition touched (c : Core) (now : R) : Core :=
  mkCore (currentMode c) (lastModeChangeTime c) now (lastFrameTime c)
         (deltaTime c) (modeSwitchByGesture c).

(** The callbacks of a change of mode. *)
Definition modeCallback (c : Callback) : bool :=
  match c with
  | OnModeChange _ | OnGestureChange (mode_ _) _ => true
  | _ => false
  end.

(** What may come during the lock that starts at [T]: frames, calls of
    [setMode] by gesture and enabling calls. *)
Definition inLock (T : R) (o : Op) : Prop :=
  match o with
  | Results _ now _ _ => T <= now < T + MODE_LOCK_DURATION
  | SetMode _ byGesture now =>
      byGesture = true /\ T <= now < T + MODE_LOCK_DURATION
  | SetEnabled _ => True
  | Timeout _ => False
  end.

(** The state during the lock that starts at [T] in the mode [m]. *)
Definition Locked (T : R) (m : GestureMode) (s : t) : Prop :=
  modeSwitchByGesture (core s) = true
  /\ lastModeChangeTime (core s) = T
  /\ T <= lastInteractionTime (core s)
  /\ mode s = m.

(** The bounds of the steps the callbacks carry. *)
Definition bounded (c : Callback) : Prop :=
  match c with
  | OnRotateView deltaX deltaY =>
      deltaX * deltaX + deltaY * deltaY
      <= (ROTATION_SENSITIVITY * ROTATION_MAX_SPEED)
         * (ROTATION_SENSITIVITY * ROTATION_MAX_SPEED)
  | OnZoom delta => - ZOOM_SPEED <= delta <= ZOOM_SPEED
  | OnExplosionChange delta => delta = EXPLOSION_SPEED
  | _ => True
  end.

(** The frames come at times that do not decrease, from [t] on. *)
Fixpoint ticking (t : R) (ops : list Op) : Prop :=
  match ops with
  | [] => True
  | Results _ now _ _ :: rest => t <= now /\ ticking now rest
  | _ :: rest => ticking t rest
  end.

(** The callbacks of an aggregation. *)
Definition aggregationCallback (c : Callback) : bool :=
  match c with
  | OnAggregation | OnEscape | OnGestureChange aggregation _ => true
  | _ => false
  end.

(** The shapes of the right hand other than the open hand and the
    pointing finger. *)
Definition quietShape (sh : HandShape) : bool :=
  match sh with
  | open | one | pointer => false
  | _ => true
  end.

Definition quietShape' (sh : option HandShape) : bool :=
  match sh with
  | Some sh => quietShape sh
  | None => true
  end.

(** The shape of the right hand of a frame; 'other' without a right
    hand. *)
Definition rightShapeOf (hands : list (bool * list NormalizedLandmark))
    : option HandShape :=
  match snd (resolveHands hands None None) with
  | Some landmarks => getHandShape landmarks
  | None => Some other
  end.

(** Anything but a frame with an open or a pointing right hand. *)
Definition closedOp (o : Op) : bool :=
  match o with
  | Results hands _ _ _ => quietShape' (rightShapeOf hands)
  | _ => true
  end.

(** Outside the click mode, with the aggregation blocked without end. *)
Definition Blocked (s : t) : Prop :=
  isInClickMode (explodeSt s) = false
  /\ aggregationBlockedUntil (explodeSt s) = None.

(** In the click mode the aggregation is blocked without end. *)
Definition clickBlocks (s : t) : bool :=
  implb (isInClickMode (explodeSt s))
        (match aggregationBlockedUntil (explodeSt s) with
         | None => true
         | Some _ => false
         end).

(** The calls that have a cooldown. *)
Inductive Kind := Aggregate | MaterialSwipe | ComponentSwipe.

Definition cooldown (k : Kind) : R :=
  match k with
  | Aggregate => EXPLOSION_COOLDOWN
  | MaterialSwipe => MATERIAL_SWIPE_COOLDOWN
  | ComponentSwipe => COMPONENT_SWIPE_COOLDOWN
  end.

Definition isKind (k : Kind) (c : Callback) : bool :=
  match k, c with
  | Aggregate, OnAggregation => true
  | MaterialSwipe, OnNavigateUpDown _ => true
  | ComponentSwipe, OnNavigateLeftRight _ => true
  | _, _ => false
  end.

(** The time the controller keeps of the last call of a kind. *)
Definition lastOf (k : Kind) (s : t) : R :=
  match k with
  | Aggregate => lastAggregationTime (explodeSt s)
  | MaterialSwipe => lastMaterialSwipeTime (componentSt s)
  | ComponentSwipe => lastComponentSwipeTime (componentSt s)
  end.

(** The times of the frames of a run that make a call of the kind. *)
Fixpoint emissions (k : Kind) (s : t) (ops : list Op) : list R :=
  match ops with
  | [] => []
  | o :: rest =>
      let (s1, cbs) := step s o in
      match o with
      | Results _ now _ _ =>
          if existsb (isKind k) cbs then now :: emissions k s1 rest
          else emissions k s1 rest
      | _ => emissions k s1 rest
      end
  end.

(** Each time comes more than [gap] after the one before, from [prev]
    on. *)
Fixpoint spaced (gap prev : R) (times : list R) : Prop :=
  match times with
  | [] => True
  | e :: rest => prev + gap < e /\ spaced gap e rest
  end.

(** A frame at [now] that makes a call of the kind comes more than the
    cooldown after the time kept and keeps its own time; another frame
    keeps the time. *)
Definition kindStep (k : Kind) (s : t) (now : R) (r : t * list Callback)
    : Prop :=
  if existsb (isKind k) (snd r)
  then lastOf k s + cooldown k < now /\ lastOf k (fst r) = now
  else lastOf k (fst r) = lastOf k s.

(** The mode a shape of the left hand asks for, for the shapes a hand can
    show. *)
Definition modeOfShape (sh : HandShape) : option GestureMode :=
  match sh with
  | one => Some watch
  | two => Some zoom
  | _ => None
  end.

(** The shape of the left hand of a frame. *)
Definition leftShapeOf (hands : list (bool * list NormalizedLandmark))
    : option HandShape :=
  match fst (resolveHands hands None None) with
  | Some landmarks => getHandShape landmarks
  | None => None
  end.

(** Frames only, of complete hands, the left hand showing [sh] in each, at
    times that do not decrease from [t] on. *)
Fixpoint holding (sh : HandShape) (t : R) (ops : list Op) : Prop :=
  match ops with
  | [] => True
  | Results hands now _ nowSwitch :: rest =>
      forallb drawHand (map snd hands) = true
      /\ leftShapeOf hands = Some sh
      /\ t <= now /\ now <= nowSwitch
      /\ holding sh now rest
  | _ :: _ => False
  end.

(** The time of the last frame, [t] without one. *)
Fixpoint endTime (t : R) (ops : list Op) : R :=
  match ops with
  | [] => t
  | Results _ now _ _ :: rest => endTime now rest
  | _ :: rest => endTime t rest
  end.

(** A hand that shows a two: the wrist and the tips of the ring and the
    little finger at one point, the knuckle of the middle finger and the
    tips of the index and the middle finger at the distance 1 from it. *)
Definition shownTwo : list NormalizedLandmark :=
  map (fun i =>
         if (i =? INDEX_TIP)%nat || (i =? MIDDLE_MCP)%nat
            || (i =? MIDDLE_TIP)%nat
         then mkLandmark 1 0 None
         else mkLandmark 0 0 None)
      (seq 0 21).

(** The lock of the mode is over at [t]. *)
Definition Unlocked (s : t) (t : R) : Prop :=
  modeSwitchByGesture (core s) = false
  \/ lastModeChangeTime (core s) + MODE_LOCK_DURATION <= t.

(** Before the change to [m]: the left hand has shown [sh] in the last [c]
    frames. *)
Definition Ready (m : GestureMode) (sh : HandShape) (s : t) (t : R) (c : Z)
    : Prop :=
  mode s <> m
  /\ Unlocked s t
  /\ (leftPendingMode (left s) = Some m ->
      leftModeGestureStartTime (left s) <= t)
  /\ (c <= leftShapeStableCount (left s))%Z
  /\ ((0 < c)%Z -> lastLeftShape (left s) = sh).

(** The mode is [m] after some of the calls. *)
Definition reaches (m : GestureMode) (s : t) (ops : list Op) : Prop :=
  exists k : nat, mode (fst (run s (firstn k ops))) = m.

(** The modes of the camera: watching and zooming. *)
Definition viewMode (m : GestureMode) : bool :=
  match m with
  | watch | zoom => true
  | explode | component => false
  end.

(** What the hands and the timers do; of the calls of the page, a
    [setMode] to a mode of the camera. *)
Definition gestureOp (o : Op) : bool :=
  match o with
  | Results _ _ _ _ | Timeout _ | SetEnabled _ => true
  | SetMode mode _ _ => viewMode mode
  end.

(** The callbacks that concern the camera and the mode display. *)
Definition viewCallback (c : Callback) : bool :=
  match c with
  | OnModeChange mode => viewMode mode
  | OnGestureChange (mode_ mode) leftHand => viewMode mode
  | OnRotateView _ _ | OnZoom _ => true
  | _ => false
  end.

(** A hand held flat at the height 0.5 of the image: the wrist at 0, the
    knuckle of the middle finger at 1, the tip of a finger at 1 when [up]
    has it and at the wrist when not. *)
Definition shown (up : list nat) : list NormalizedLandmark :=
  map (fun i =>
         if (i =? MIDDLE_MCP)%nat || existsb (Nat.eqb i) up
         then mkLandmark 1 0.5 None
         else mkLandmark 0 0.5 None)
      (seq 0 21).

(** The open hand and the fist. *)
Definition shownOpen : list NormalizedLandmark :=
  shown [INDEX_TIP; MIDDLE_TIP; RING_TIP; PINKY_TIP].

Definition shownFist : list NormalizedLandmark := shown [].

(** The right hand has shown the open hand in three frames or more, and
    the last interaction is not in the future of the clock that starts at
    0. *)
Definition openSeen (s : t) : Prop :=
  lastRightShape (right s) = open
  /\ (3 <= rightShapeStableCount (right s))%Z
  /\ 0 <= lastInteractionTime (core s).

End Derived6.

(** * Properties *)

(** ** Conditions on reals *)

Lemma Rltb_true (a b : R) : a < b -> Rltb a b = true.
Proof. intros H. unfold Rltb. destruct (Rlt_dec a b); [reflexivity | contradiction]. Qed.

Lemma Rltb_false (a b : R) : b <= a -> Rltb a b = false.
Proof. intros H. unfold Rltb. destruct (Rlt_dec a b); [lra | reflexivity]. Qed.

Lemma Rltb_spec (a b : R) : (Rltb a b = true /\ a < b) \/ (Rltb a b = false /\ b <= a).
Proof.
  destruct (Rlt_dec a b) as [H | H].
  - left. split; [apply Rltb_true |]; exact H.
  - right. assert (b <= a) by lra. split; [apply Rltb_false |]; assumption.
Qed.

(** Case analysis on every [Rmax], [Rmin], [Rabs] and [Rltb] in sight. *)
Ltac real_cases :=
  unfold Rmax, Rmin, Rabs, Rltb in *;
  repeat match goal with
         | |- context [Rle_dec ?a ?b] => destruct (Rle_dec a b)
         | |- context [Rlt_dec ?a ?b] => destruct (Rlt_dec a b)
         | |- context [Rcase_abs ?a] => destruct (Rcase_abs a)
         | H : context [Rle_dec ?a ?b] |- _ => destruct (Rle_dec a b)
         | H : context [Rlt_dec ?a ?b] |- _ => destruct (Rlt_dec a b)
         | H : context [Rcase_abs ?a] |- _ => destruct (Rcase_abs a)
         end.

Lemma clamp01_range (v : R) : 0 <= Rmax 0 (Rmin 1 v) <= 1.
Proof. real_cases; lra. Qed.

(** Every real lies below some multiple of a positive step. *)
Lemma below_multiple (d c : R) : 0 < c -> exists n : nat, d < INR n * c.
Proof.
  intros Hc.
  destruct (archimed (d / c)) as [Hup _].
  exists (Z.to_nat (Z.max 0 (up (d / c)))).
  rewrite INR_IZR_INZ, Z2Nat.id by lia.
  assert (Hle : IZR (up (d / c)) <= IZR (Z.max 0 (up (d / c)))) by (apply IZR_le; lia).
  assert (Hd : d = d / c * c) by (field; lra).
  rewrite Hd at 1.
  apply Rmult_lt_compat_r; lra.
Qed.

(** ** The smoother of explodeController.ts *)

Module SmootherFacts.
Import ExplodeController Derived.

Lemma smoothValue_fixed (target k : R) : smoothValue target target k = target.
Proof.
  unfold smoothValue, CHANGE_THRESHOLD, MAX_CHANGE_PER_FRAME.
  real_cases; lra.
Qed.

Lemma smoothN_fixed (n : nat) (target : R) : smoothN n target target = target.
Proof.
  induction n as [|n IH]; simpl; [reflexivity |].
  rewrite smoothValue_fixed. exact IH.
Qed.

(** One tick either snaps onto the target or moves at least 0.00008
    closer to it. *)
Lemma smoothValue_progress (current target : R) :
  smoothValue current target SMOOTHING = target
  \/ Rabs (target - smoothValue current target SMOOTHING)
     <= Rabs (target - current) - 0.00008.
Proof.
  unfold smoothValue, SMOOTHING, CHANGE_THRESHOLD, MAX_CHANGE_PER_FRAME.
  real_cases; try (left; reflexivity); right; lra.
Qed.

Lemma smoothN_reaches (n : nat) : forall current target : R,
  Rabs (target - current) < INR n * 0.00008 ->
  smoothN n current target = target.
Proof.
  induction n as [|n IH]; intros current target Hd.
  - simpl in Hd. pose proof (Rabs_pos (target - current)). lra.
  - simpl smoothN.
    destruct (smoothValue_progress current target) as [Hsnap | Hstep].
    + rewrite Hsnap. apply smoothN_fixed.
    + apply IH. rewrite S_INR in Hd. lra.
Qed.

Lemma smoothN_plus (n k : nat) (current target : R) :
  smoothN (n + k) current target = smoothN k (smoothN n current target) target.
Proof.
  revert current. induction n as [|n IH]; intros current; simpl; [reflexivity |].
  apply IH.
Qed.

Lemma smoothN_converges (current target : R) :
  exists N : nat, forall n : nat, (N <= n)%nat -> smoothN n current target = target.
Proof.
  destruct (below_multiple (Rabs (target - current)) 0.00008) as [N HN]; [lra |].
  exists N. intros n Hn.
  replace n with (N + (n - N))%nat by lia.
  rewrite smoothN_plus, (smoothN_reaches N) by exact HN.
  apply smoothN_fixed.
Qed.

Lemma updatePartPositions_factors (s : t) :
  hasModel (updatePartPositions s) = hasModel s
  /\ globalFactorCurrent (updatePartPositions s) = globalFactorCurrent s
  /\ globalFactorTarget (updatePartPositions s) = globalFactorTarget s
  /\ partFactorCurrent (updatePartPositions s) = partFactorCurrent s
  /\ partFactorTarget (updatePartPositions s) = partFactorTarget s
  /\ partDataCache (updatePartPositions s) = partDataCache s.
Proof.
  unfold updatePartPositions. destruct (partsArray s); simpl; auto 10.
Qed.

Lemma updates_factors (n : nat) : forall s : t,
  hasModel s = true ->
  hasModel (updates n s) = true
  /\ globalFactorTarget (updates n s) = globalFactorTarget s
  /\ partFactorTarget (updates n s) = partFactorTarget s
  /\ globalFactorCurrent (updates n s)
     = smoothN n (globalFactorCurrent s) (globalFactorTarget s)
  /\ partFactorCurrent (updates n s)
     = smoothN n (partFactorCurrent s) (partFactorTarget s)
  /\ partDataCache (updates n s) = partDataCache s.
Proof.
  induction n as [|n IH]; intros s Hm; simpl; [auto 10 |].
  assert (Hu : hasModel (update s) = true
               /\ globalFactorTarget (update s) = globalFactorTarget s
               /\ partFactorTarget (update s) = partFactorTarget s
               /\ globalFactorCurrent (update s)
                  = smoothValue (globalFactorCurrent s) (globalFactorTarget s) SMOOTHING
               /\ partFactorCurrent (update s)
                  = smoothValue (partFactorCurrent s) (partFactorTarget s) SMOOTHING
               /\ partDataCache (update s) = partDataCache s).
  { unfold update. rewrite Hm.
    match goal with
    | |- context [updatePartPositions ?a] =>
        destruct (updatePartPositions_factors a) as (-> & -> & -> & -> & -> & ->)
    end.
    simpl. auto 10. }
  destruct Hu as (H1 & H2 & H3 & H4 & H5 & H6).
  destruct (IH (update s) H1) as (I1 & I2 & I3 & I4 & I5 & I6).
  rewrite I1, I2, I3, I4, I5, I6, H2, H3, H4, H5, H6. auto 10.
Qed.

End SmootherFacts.

(** ** The state machine: what each helper leaves alone *)

Module MachineFacts.
Import Three MechConfig LoadMech SimpleStateMachine Derived.

Lemma same_control_refl (s : t) : same_control s s.
Proof. unfold same_control. tauto. Qed.

Lemma same_control_trans (a b c : t) :
  same_control a b -> same_control b c -> same_control a c.
Proof.
  unfold same_control.
  intros (A1 & A2 & A3 & A4 & A5) (B1 & B2 & B3 & B4 & B5).
  rewrite B1, B2, B3, B4, A1, A2, A3, A4. tauto.
Qed.

Ltac frame :=
  unfold same_control; simpl;
  repeat split; auto; try discriminate; try tauto.

Lemma calculateTransitionTargets_control (s : t) (p : option MajorPartId) :
  same_control s (calculateTransitionTargets s p).
Proof. unfold calculateTransitionTargets. frame. Qed.

Lemma with_isTransitioning_control (s : t) (b : bool) :
  same_control s (with_isTransitioning s b).
Proof. frame. Qed.

Lemma with_ringVisible_control (s : t) (b : bool) :
  same_control s (with_ringVisible s b).
Proof. frame. Qed.

Lemma applyPartViewLayout_control (s : t) :
  same_control s (applyPartViewLayout s).
Proof.
  unfold applyPartViewLayout.
  destruct (model s) eqn:Hm; [| apply same_control_refl].
  destruct (truthy _); [| apply same_control_refl].
  destruct (isTransitioning _).
  - apply calculateTransitionTargets_control.
  - eapply same_control_trans;
      [apply calculateTransitionTargets_control | apply with_isTransitioning_control].
Qed.

Lemma with_model_control (s : t) (m : MechModel) :
  model s <> None -> same_control s (with_model s (Some m)).
Proof. intros H. frame. Qed.

Lemma applyNormalExplosion_control (s : t) :
  same_control s (applyNormalExplosion s).
Proof.
  unfold applyNormalExplosion.
  destruct (model s) eqn:Hm; [| apply same_control_refl].
  apply with_model_control. congruence.
Qed.

Lemma applyExplosion_control (s : t) : same_control s (applyExplosion s).
Proof.
  unfold applyExplosion.
  destruct (model s); [| apply same_control_refl].
  destruct (state (uiState s));
    auto using applyNormalExplosion_control, applyPartViewLayout_control.
Qed.

Lemma applyPartExplosion_control (s : t) :
  same_control s (applyPartExplosion s).
Proof.
  unfold applyPartExplosion.
  destruct (model s) eqn:Hm; [| apply same_control_refl].
  destruct (truthy _); [| apply same_control_refl].
  destruct (Rltb _ _); [| apply same_control_refl].
  apply with_model_control. congruence.
Qed.

Lemma applyTransitionAnimation_control (s : t) :
  same_control s (applyTransitionAnimation s).
Proof.
  unfold applyTransitionAnimation.
  destruct (model s) eqn:Hm; [| apply same_control_refl].
  destruct (isTransitioning s); [| apply same_control_refl].
  destruct (snd _).
  - eapply same_control_trans;
      [apply with_model_control; congruence | apply with_isTransitioning_control].
  - apply with_model_control. congruence.
Qed.

Lemma resetAllChildrenExcept_control (s : t) (k : option MajorPartId) :
  same_control s (resetAllChildrenExcept s k).
Proof.
  unfold resetAllChildrenExcept.
  destruct (model s) eqn:Hm; [| apply same_control_refl].
  apply with_model_control. congruence.
Qed.

Lemma resetAllPartPositions_control (s : t) :
  same_control s (resetAllPartPositions s).
Proof.
  unfold resetAllPartPositions.
  destruct (model s) eqn:Hm; [| apply same_control_refl].
  apply with_model_control. congruence.
Qed.

Lemma resetAllPartScales_control (s : t) :
  same_control s (resetAllPartScales s).
Proof.
  unfold resetAllPartScales.
  destruct (model s) eqn:Hm; [| apply same_control_refl].
  apply with_model_control. congruence.
Qed.

Lemma ui_state_same (u : SimpleUIState) : ui_state u (state u) = u.
Proof. destruct u; reflexivity. Qed.

Lemma state_eqb_eq (a b : SimpleViewState) : state_eqb a b = true <-> a = b.
Proof. destruct a, b; simpl; split; congruence. Qed.

(** [transitionTo] sets the tag; on entering [PartView] it also raises the
    global target to at least 1. *)
Lemma transitionTo_ui (s : t) (st : SimpleViewState) :
  uiState (transitionTo s st) = ui_state (uiState s) st
  /\ partExplosionTarget (transitionTo s st) = partExplosionTarget s
  /\ subRingFixedPositions (transitionTo s st) = subRingFixedPositions s
  /\ (model s = None <-> model (transitionTo s st) = None)
  /\ globalExplosionTarget (transitionTo s st)
     = (if state_eqb (state (uiState s)) st then globalExplosionTarget s
        else match st with
             | PartView => Rmax (globalExplosionTarget s) 1
             | _ => globalExplosionTarget s
             end).
Proof.
  unfold transitionTo.
  destruct (state_eqb (state (uiState s)) st) eqn:He.
  - apply state_eqb_eq in He. subst st. rewrite ui_state_same. tauto.
  - destruct st; simpl; try tauto.
    match goal with
    | |- context [applyPartViewLayout ?a] =>
        destruct (applyPartViewLayout_control a) as (-> & -> & -> & -> & <-)
    end.
    simpl. tauto.
Qed.

(** *** Lists of part ids *)

Lemma indexOf_range (l : list string) (k : string) :
  includes l k = true -> (0 <= indexOf l k < Z.of_nat (List.length l))%Z.
Proof.
  unfold includes. induction l as [|a l IH]; simpl; [discriminate |].
  rewrite String.eqb_sym.
  destruct (String.eqb a k) eqn:Hk; simpl; intros H.
  - lia.
  - specialize (IH H). destruct (Z.ltb_spec (indexOf l k) 0); lia.
Qed.

Lemma indexOf_at_index (l : list string) (k : string) :
  includes l k = true -> at_index l (indexOf l k) = Some k.
Proof.
  intros H. pose proof (indexOf_range l k H) as Hr. revert H Hr.
  unfold includes, at_index.
  induction l as [|a l IH]; simpl; [discriminate |].
  rewrite String.eqb_sym.
  destruct (String.eqb a k) eqn:Hk; simpl; intros H Hr.
  - apply String.eqb_eq in Hk. subst. reflexivity.
  - pose proof (indexOf_range l k H) as Hr'.
    specialize (IH H Hr').
    destruct (Z.ltb_spec (indexOf l k) 0); [lia |].
    destruct (Z.ltb_spec (indexOf l k + 1) 0); [lia |].
    destruct (Z.ltb_spec (indexOf l k) 0); [lia |].
    replace (Z.to_nat (indexOf l k + 1)) with (S (Z.to_nat (indexOf l k))) by lia.
    exact IH.
Qed.

Lemma at_index_includes (l : list string) (i : Z) (k : string) :
  at_index l i = Some k -> includes l k = true.
Proof.
  unfold at_index, includes. destruct (i <? 0)%Z; [discriminate |].
  intros H. apply nth_error_In in H.
  apply existsb_exists. exists k. split; [exact H | apply String.eqb_refl].
Qed.

Lemma at_index_in_range (l : list string) (i : Z) :
  (0 <= i < Z.of_nat (List.length l))%Z -> exists k, at_index l i = Some k.
Proof.
  intros H. unfold at_index.
  destruct (Z.ltb_spec i 0); [lia |].
  destruct (nth_error l (Z.to_nat i)) eqn:Hn; [eauto |].
  apply nth_error_None in Hn. lia.
Qed.

Lemma indexOf_of_at_index (l : list string) :
  NoDup l -> forall (i : Z) (k : string),
  at_index l i = Some k -> indexOf l k = i.
Proof.
  unfold at_index. induction 1 as [|a l Hnotin Hnd IH]; intros i k.
  - destruct (i <? 0)%Z; [discriminate |]. destruct (Z.to_nat i); discriminate.
  - destruct (Z.ltb_spec i 0); [discriminate |].
    destruct (Z.to_nat i) as [|n] eqn:Hi; simpl; intros Hk.
    + injection Hk as ->. rewrite String.eqb_refl. lia.
    + destruct (String.eqb a k) eqn:Hak.
      * apply String.eqb_eq in Hak. subst. apply nth_error_In in Hk. contradiction.
      * specialize (IH (Z.of_nat n) k).
        destruct (Z.ltb_spec (Z.of_nat n) 0); [lia |].
        rewrite Nat2Z.id in IH. rewrite (IH Hk).
        destruct (Z.ltb_spec (Z.of_nat n) 0); lia.
Qed.

Lemma majorParts_NoDup : NoDup (majorParts MECH_HIERARCHY).
Proof.
  simpl. repeat constructor; simpl; intuition discriminate.
Qed.

Lemma majorParts_length : List.length (majorParts MECH_HIERARCHY) = 7%nat.
Proof. reflexivity. Qed.

(** *** One frame of [update] on the two factors *)

Lemma update_loaded (s : t) :
  model s <> None -> same_control (with_ui s (tickUI s)) (update s).
Proof.
  intros Hm. unfold update.
  destruct (model s) eqn:Hmodel; [| congruence].
  set (u2 := if Rltb 0.001 (Rabs (partExplosion _ - _)) then _ else _).
  assert (Hu : u2 = tickUI s).
  { unfold u2, tickUI, stepF.
    destruct (uiState s) as [st g p h sel i pl]; simpl.
    destruct (Rltb 0.001 (Rabs (g - _))); simpl;
      destruct (Rltb 0.001 (Rabs (p - _))); reflexivity. }
  rewrite Hu.
  assert (Hm1 : model (with_ui s (tickUI s)) <> None) by (simpl; congruence).
  destruct (_ && isTransitioning _).
  - destruct (Rltb 0 _).
    + eapply same_control_trans;
        [apply applyTransitionAnimation_control | apply applyPartExplosion_control].
    + apply applyTransitionAnimation_control.
  - destruct (_ || _); [apply applyExplosion_control | apply same_control_refl].
Qed.

Lemma update_unloaded (s : t) : model s = None -> update s = s.
Proof. intros Hm. unfold update. rewrite Hm. reflexivity. Qed.

Lemma stepF_range (current target : R) :
  0 <= current <= 1 -> 0 <= target <= 1 -> 0 <= stepF current target <= 1.
Proof. unfold stepF, smoothing. intros Hc Ht. destruct (Rltb _ _); lra. Qed.

(** *** What the commands do to the control part of the state *)

Ltac if_cases :=
  repeat match goal with
         | |- context [if ?b then _ else _] => destruct b
         end;
  try reflexivity.

Lemma selectPart_control (s : t) (p : option MajorPartId) :
  uiState (selectPart s p)
  = mkUI (state (uiState s)) (globalExplosion (uiState s)) 0
         (hoveredPart (uiState s)) p
         (match p with
          | Some k => indexOf (majorParts MECH_HIERARCHY) k
          | None => (-1)%Z
          end)
         (partList (uiState s))
  /\ globalExplosionTarget (selectPart s p) = Rmax (globalExplosionTarget s) 1
  /\ partExplosionTarget (selectPart s p) = 0
  /\ subRingFixedPositions (selectPart s p) = subRingFixedPositions s
  /\ (model s = None <-> model (selectPart s p) = None)
  /\ isTransitioning (selectPart s p) = true.
Proof.
  unfold selectPart.
  match goal with
  | |- context [resetAllChildrenExcept ?a ?k] =>
      pose proof (resetAllChildrenExcept_control a k) as Hr;
      set (s5 := resetAllChildrenExcept a k) in *
  end.
  pose proof (calculateTransitionTargets_control s5 p) as Hc.
  destruct (same_control_trans _ _ _ Hr Hc) as (H1 & H2 & H3 & H4 & H5).
  cbn [uiState globalExplosionTarget partExplosionTarget subRingFixedPositions
       model isTransitioning with_isTransitioning].
  rewrite H1, H2, H3, H4, <- H5. simpl. tauto.
Qed.

Lemma Rmax_1_idem (a : R) : Rmax (Rmax a 1) 1 = Rmax a 1.
Proof. real_cases; lra. Qed.

Lemma selectHoveredPart_cases (s : t) :
  (selectHoveredPart s = (false, s))
  \/ (exists h,
        hoveredPart (uiState s) = Some h
        /\ includes (majorParts MECH_HIERARCHY) h = true
        /\ fst (selectHoveredPart s) = true
        /\ ((state_eqb (state (uiState s)) Exploded
             || Rltb 0.1 (globalExplosion (uiState s)) = true
             /\ entered s h (snd (selectHoveredPart s)))
            \/ (state_eqb (state (uiState s)) Exploded
                || Rltb 0.1 (globalExplosion (uiState s)) = false
                /\ state (uiState s) = PartView
                /\ snd (selectHoveredPart s) = selectPart s (Some h)))).
Proof.
  unfold selectHoveredPart.
  destruct (hoveredPart (uiState s)) as [h |] eqn:Hh; [| left; reflexivity].
  destruct (negb (truthy (Some h))); [left; reflexivity |].
  destruct (state_eqb (state (uiState s)) Exploded
            || Rltb 0.1 (globalExplosion (uiState s))) eqn:Hc.
  - destruct (includes (majorParts MECH_HIERARCHY) h) eqn:Hi; [| left; reflexivity].
    right. exists h. repeat split; auto. left. split; [reflexivity |].
    cbn [snd].
    match goal with
    | |- entered _ _ (applyPartViewLayout (transitionTo ?a PartView)) =>
        destruct (applyPartViewLayout_control (transitionTo a PartView))
          as (E1 & E2 & E3 & E4 & E5);
        destruct (transitionTo_ui a PartView) as (T1 & T2 & T3 & T4 & T5)
    end.
    unfold entered. rewrite E1, E2, E3, E4, <- E5, T1, T2, T3, <- T4, T5.
    simpl. rewrite Rmax_1_idem.
    repeat split; try tauto; if_cases.
  - destruct (state_eqb (state (uiState s)) PartView) eqn:Hp; [| left; reflexivity].
    destruct (includes (majorParts MECH_HIERARCHY) h) eqn:Hi; [| left; reflexivity].
    right. exists h. repeat split; auto. right.
    apply state_eqb_eq in Hp. auto.
Qed.

Lemma selectHoveredPart_true (s : t) (h : PartId) :
  hoveredPart (uiState s) = Some h ->
  truthy (Some h) = true ->
  includes (majorParts MECH_HIERARCHY) h = true ->
  state_eqb (state (uiState s)) Exploded
  || Rltb 0.1 (globalExplosion (uiState s)) = true
  \/ state (uiState s) = PartView ->
  fst (selectHoveredPart s) = true.
Proof.
  intros Hh Ht Hi Hc. unfold selectHoveredPart. rewrite Hh, Ht, Hi.
  cbn [negb].
  destruct (state_eqb (state (uiState s)) Exploded
            || Rltb 0.1 (globalExplosion (uiState s))); [reflexivity |].
  destruct Hc as [Hc | Hc]; [discriminate |].
  rewrite Hc. reflexivity.
Qed.

Lemma adjustExplosion_partView (s : t) (delta : R) :
  state (uiState s) = PartView ->
  adjustExplosion s delta
  = with_partTarget s (Rmax 0 (Rmin 1 (partExplosionTarget s + delta))).
Proof. intros H. unfold adjustExplosion. rewrite H. reflexivity. Qed.

(** Outside the part view: the new global target and the new tag. *)
Lemma adjustExplosion_global (s : t) (delta : R) :
  state (uiState s) <> PartView ->
  let target := Rmax 0 (Rmin 1 (globalExplosionTarget s + delta)) in
  let tag :=
    if Rltb 0.1 target && state_eqb (state (uiState s)) Assembled then Exploded
    else if Rltb target 0.05 && state_eqb (state (uiState s)) Exploded then Assembled
    else state (uiState s) in
  uiState (adjustExplosion s delta) = ui_state (uiState s) tag
  /\ globalExplosionTarget (adjustExplosion s delta) = target
  /\ partExplosionTarget (adjustExplosion s delta) = partExplosionTarget s
  /\ subRingFixedPositions (adjustExplosion s delta) = subRingFixedPositions s
  /\ (model s = None <-> model (adjustExplosion s delta) = None).
Proof.
  intros Hs target tag. unfold adjustExplosion.
  destruct (state_eqb (state (uiState s)) PartView) eqn:Hp.
  { apply state_eqb_eq in Hp. contradiction. }
  cbn [globalExplosionTarget with_globalTarget uiState].
  fold target. subst tag.
  destruct (Rltb 0.1 target && state_eqb (state (uiState s)) Assembled).
  - match goal with
    | |- context [transitionTo ?a ?b] =>
        destruct (transitionTo_ui a b) as (T1 & T2 & T3 & T4 & T5)
    end.
    rewrite T1, T2, T3, <- T4, T5. simpl.
    repeat split; try tauto; if_cases.
  - destruct (Rltb target 0.05 && state_eqb (state (uiState s)) Exploded).
    + match goal with
      | |- context [transitionTo ?a ?b] =>
          destruct (transitionTo_ui a b) as (T1 & T2 & T3 & T4 & T5)
      end.
      rewrite T1, T2, T3, <- T4, T5. simpl.
      repeat split; try tauto; if_cases.
    + simpl. rewrite ui_state_same. tauto.
Qed.

Lemma goBack_partView (s : t) :
  state (uiState s) = PartView ->
  uiState (goBack s)
  = mkUI Assembled (globalExplosion (uiState s)) 0 None None
         (currentPartIndex (uiState s)) (partList (uiState s))
  /\ globalExplosionTarget (goBack s) = 0
  /\ partExplosionTarget (goBack s) = 0
  /\ subRingFixedPositions (goBack s) = subRingFixedPositions s
  /\ (model s = None <-> model (goBack s) = None).
Proof.
  intros Hs. unfold goBack. rewrite Hs.
  match goal with
  | |- context [transitionTo ?a ?b] =>
      destruct (transitionTo_ui a b) as (T1 & T2 & T3 & T4 & T5)
  end.
  rewrite T1, T2, T3, <- T4, T5.
  cbn [uiState globalExplosionTarget partExplosionTarget subRingFixedPositions
       model with_globalTarget].
  match goal with
  | |- context [resetAllPartPositions ?a] =>
      destruct (resetAllPartPositions_control a) as (P1 & P2 & P3 & P4 & P5);
      rewrite P1, P3, P4, <- P5
  end.
  match goal with
  | |- context [resetAllPartScales ?a] =>
      destruct (resetAllPartScales_control a) as (S1 & S2 & S3 & S4 & S5);
      rewrite S1, S3, S4, <- S5
  end.
  cbn [uiState globalExplosionTarget partExplosionTarget subRingFixedPositions
       model with_partTarget with_ui].
  destruct (resetAllChildrenExcept_control s None) as (K1 & K2 & K3 & K4 & K5).
  rewrite K1, K4, <- K5. simpl.
  repeat split; try tauto; if_cases.
Qed.

Lemma navigateInternal_idle (s : t) (delta : Z) :
  state (uiState s) = Assembled -> navigateInternal s delta = s.
Proof. intros H. unfold navigateInternal. rewrite H. reflexivity. Qed.

Lemma navigateInternal_exploded (s : t) (delta : Z) :
  state (uiState s) = Exploded ->
  navigateInternal s delta
  = with_ui s (ui_hovered (ui_index (uiState s) (nextIndex s delta))
                          (at_index (majorParts MECH_HIERARCHY) (nextIndex s delta))).
Proof.
  intros H. unfold navigateInternal. rewrite H.
  cbn -[Z.rem Z.add at_index]. rewrite H. reflexivity.
Qed.

Lemma navigateInternal_partView (s : t) (delta : Z) :
  state (uiState s) = PartView ->
  navigateInternal s delta
  = selectPart (with_ui s (ui_index (uiState s) (nextIndex s delta)))
               (at_index (majorParts MECH_HIERARCHY) (nextIndex s delta)).
Proof.
  intros H. unfold navigateInternal. rewrite H.
  cbn -[Z.rem Z.add at_index selectPart]. rewrite H. reflexivity.
Qed.

Lemma nextIndex_range (s : t) (delta : Z) :
  (0 <= currentPartIndex (uiState s) < 7)%Z -> (-1 <= delta <= 1)%Z ->
  (0 <= nextIndex s delta < 7)%Z.
Proof.
  intros Hi Hd. unfold nextIndex.
  rewrite Z.rem_mod_nonneg by lia.
  apply Z.mod_pos_bound. lia.
Qed.

(** *** The invariant of the control part *)

Lemma Inv_same_control (s s' : t) : same_control s s' -> Inv s -> Inv s'.
Proof. unfold Inv. intros (-> & -> & -> & _). auto. Qed.

Lemma Inv_create : Inv create.
Proof.
  unfold Inv, InvC. simpl.
  repeat split; try lra; try lia; try congruence; try discriminate.
Qed.

Lemma Inv_update (s : t) : Inv s -> Inv (update s).
Proof.
  intros HI. destruct (model s) eqn:Hm.
  - apply (Inv_same_control (with_ui s (tickUI s))).
    + apply update_loaded. congruence.
    + unfold Inv, InvC in *. simpl.
      destruct HI as (H1 & H2 & H3 & H4 & H5 & H6 & H7).
      pose proof (stepF_range _ _ H5 H3). pose proof (stepF_range _ _ H6 H4).
      repeat split; try tauto; try lia; try lra.
      match goal with Hpv : state _ = PartView |- _ =>
        destruct (H7 Hpv) as (_ & HT & Hg) end.
      unfold stepF, smoothing. destruct (Rltb _ _); lra.
  - rewrite update_unloaded by exact Hm. exact HI.
Qed.

Lemma Inv_adjustExplosion (s : t) (delta : R) : Inv s -> Inv (adjustExplosion s delta).
Proof.
  intros HI. destruct (state_eqb (state (uiState s)) PartView) eqn:Hp.
  - apply state_eqb_eq in Hp. rewrite adjustExplosion_partView by exact Hp.
    unfold Inv, InvC in *. simpl.
    pose proof (clamp01_range (partExplosionTarget s + delta)).
    tauto.
  - assert (Hn : state (uiState s) <> PartView).
    { intros E. rewrite E in Hp. discriminate. }
    destruct (adjustExplosion_global s delta Hn) as (U & G & P & _).
    unfold Inv, InvC in *. rewrite U, G, P. simpl.
    pose proof (clamp01_range (globalExplosionTarget s + delta)).
    destruct HI as (H1 & H2 & H3 & H4 & H5 & H6 & H7).
    assert (Htag : forall st, st <> PartView ->
              (selectedMajorPart (uiState s) <> None <-> st = PartView)) by tauto.
    destruct (state (uiState s)) eqn:Hs; try contradiction;
      repeat match goal with
             | |- context [if ?b then _ else _] => destruct b
             end;
      repeat split; try tauto; try lia; try lra; try discriminate;
      try (apply Htag; discriminate).
Qed.

Lemma InvC_select (pl : list PartId) (gT g : R) (h : PartId) (hov : option PartId) :
  gT <= 1 -> includes (majorParts MECH_HIERARCHY) h = true ->
  0.5 <= g <= 1 ->
  InvC (mkUI PartView g 0 hov (Some h)
             (indexOf (majorParts MECH_HIERARCHY) h) pl)
       (Rmax gT 1) 0.
Proof.
  intros HT Hi Hg.
  pose proof (indexOf_range _ _ Hi) as Hr.
  change (Z.of_nat (List.length (majorParts MECH_HIERARCHY))) with 7%Z in Hr.
  unfold InvC. cbn [selectedMajorPart state currentPartIndex globalExplosion partExplosion].
  assert (Rmax gT 1 = 1) as -> by (real_cases; lra).
  rewrite (indexOf_at_index _ _ Hi).
  repeat split; try lra; try lia; try congruence; try discriminate.
Qed.

Lemma Inv_selectPart_major (s : t) (h : PartId) :
  state (uiState s) = PartView ->
  globalExplosionTarget s <= 1 -> 0.5 <= globalExplosion (uiState s) <= 1 ->
  includes (majorParts MECH_HIERARCHY) h = true ->
  Inv (selectPart s (Some h)).
Proof.
  intros Hs HT Hg Hi. destruct (selectPart_control s (Some h)) as (U & G & P & _).
  unfold Inv. rewrite U, G, P, Hs.
  apply InvC_select; auto.
Qed.

Lemma Inv_selectHoveredPart (s : t) : Inv s -> Inv (snd (selectHoveredPart s)).
Proof.
  intros HI.
  pose proof HI as (H1 & H2 & H3 & H4 & H5 & H6 & H7).
  destruct (selectHoveredPart_cases s)
    as [-> | (h & Hh & Hi & _ & [(_ & E) | (_ & Hs & ->)])].
  - exact HI.
  - destruct E as (U & G & P & _). unfold Inv. rewrite U, G, P.
    apply InvC_select; auto; real_cases; lra.
  - destruct (H7 Hs) as (_ & _ & Hg).
    apply Inv_selectPart_major; auto; lra.
Qed.

Lemma Inv_navigateInternal (s : t) (delta : Z) :
  (-1 <= delta <= 1)%Z -> Inv s -> Inv (navigateInternal s delta).
Proof.
  intros Hd HI.
  pose proof HI as (H1 & H2 & H3 & H4 & H5 & H6 & H7).
  pose proof (nextIndex_range s delta H2 Hd) as Hr.
  destruct (state (uiState s)) eqn:Hs.
  - rewrite navigateInternal_idle by exact Hs. exact HI.
  - rewrite navigateInternal_exploded by exact Hs.
    unfold Inv, InvC in *. simpl. rewrite Hs in *.
    repeat split; try tauto; try lia; try lra; try discriminate.
  - rewrite navigateInternal_partView by exact Hs.
    destruct (at_index_in_range (majorParts MECH_HIERARCHY) (nextIndex s delta))
      as (k & Hk);
      [change (Z.of_nat (List.length (majorParts MECH_HIERARCHY))) with 7%Z; lia |].
    rewrite Hk. destruct (H7 eq_refl) as (_ & _ & Hg).
    apply Inv_selectPart_major;
      [exact Hs | simpl; lra | simpl; lra | eapply at_index_includes; eauto].
Qed.

Lemma Inv_goBack (s : t) : Inv s -> Inv (goBack s).
Proof.
  intros HI. pose proof HI as (H1 & H2 & H3 & H4 & H5 & H6 & H7).
  destruct (state (uiState s)) eqn:Hs.
  - unfold goBack. rewrite Hs. exact HI.
  - unfold goBack. rewrite Hs. unfold Inv, InvC in *. simpl. rewrite Hs in *.
    repeat split; try tauto; try lia; try lra; try discriminate.
  - destruct (goBack_partView s Hs) as (U & G & P & _).
    unfold Inv, InvC. rewrite U, G, P. simpl.
    repeat split; try tauto; try lia; try lra; try congruence; try discriminate.
Qed.

Lemma Inv_reset (s : t) : Inv (reset s).
Proof.
  unfold reset.
  match goal with
  | |- Inv (match model ?a with _ => _ end) =>
      assert (Inv a) as HI
        by (unfold Inv, InvC; simpl;
            repeat split; try lra; try lia; try congruence; try discriminate);
      destruct (model a); [| exact HI]
  end.
  exact HI.
Qed.

Lemma Inv_setHoveredPartId (s : t) (p : option PartId) :
  Inv s -> Inv (setHoveredPartId s p).
Proof.
  intros HI. unfold setHoveredPartId. destruct (optEq _ _); [exact HI |].
  exact HI.
Qed.

Lemma Inv_step (s : t) (o : Op) : Inv s -> Inv (step s o).
Proof.
  intros HI. destruct o as [m | delta | | p | | d | d | | |]; simpl.
  - exact HI.
  - apply Inv_adjustExplosion, HI.
  - apply Inv_update, HI.
  - apply Inv_setHoveredPartId, HI.
  - apply Inv_selectHoveredPart, HI.
  - apply Inv_navigateInternal; [destruct d; lia | exact HI].
  - apply Inv_navigateInternal; [destruct d; lia | exact HI].
  - apply Inv_goBack, HI.
  - apply Inv_reset.
  - exact HI.
Qed.

Lemma Inv_run (l : list Op) : forall s : t, Inv s -> Inv (run s l).
Proof.
  induction l as [|o l IH]; intros s HI; simpl; [exact HI |].
  apply IH, Inv_step, HI.
Qed.

End MachineFacts.

(** ** Maps and loops over part ids *)

Module MapFacts.
Import Three MechConfig LoadMech SimpleStateMachine Derived.

Lemma get_set_same {A} (m : JsMap.t A) (k : string) (v : A) :
  JsMap.get (JsMap.set m k v) k = Some v.
Proof.
  induction m as [|[k' v'] m IH]; simpl.
  - rewrite String.eqb_refl. reflexivity.
  - destruct (String.eqb k' k) eqn:E; simpl; rewrite E; [reflexivity | exact IH].
Qed.

Lemma get_set_other {A} (m : JsMap.t A) (k k' : string) (v : A) :
  k <> k' -> JsMap.get (JsMap.set m k v) k' = JsMap.get m k'.
Proof.
  intros Hk. induction m as [|[k0 v0] m IH]; simpl.
  - destruct (String.eqb k k') eqn:E; [apply String.eqb_eq in E; contradiction | reflexivity].
  - destruct (String.eqb k0 k) eqn:E; simpl.
    + apply String.eqb_eq in E. subst k0.
      destruct (String.eqb k k') eqn:E'; [apply String.eqb_eq in E'; contradiction | reflexivity].
    + destruct (String.eqb k0 k'); [reflexivity | exact IH].
Qed.

Lemma onNode_get_same (m : MechModel) (k : PartId)
    (f : PartConfig -> Object3D -> Object3D) :
  JsMap.get (parts (onNode m k f)) k = option_map (onConfig f) (JsMap.get (parts m) k).
Proof.
  unfold onNode, onConfig.
  destruct (JsMap.get (parts m) k) as [c |] eqn:Hc; simpl; [| exact Hc].
  destruct (node c) eqn:Hn; simpl; [apply get_set_same | exact Hc].
Qed.

Lemma onNode_get_other (m : MechModel) (k k' : PartId)
    (f : PartConfig -> Object3D -> Object3D) :
  k <> k' -> JsMap.get (parts (onNode m k f)) k' = JsMap.get (parts m) k'.
Proof.
  intros Hk. unfold onNode.
  destruct (JsMap.get (parts m) k) as [c |]; [| reflexivity].
  destruct (node c); [| reflexivity].
  simpl. apply get_set_other, Hk.
Qed.

Lemma forEachNode_get_notin (ids : list PartId)
    (f : PartId -> PartConfig -> Object3D -> Object3D) (k : PartId) :
  ~ In k ids -> forall m : MechModel,
  JsMap.get (parts (forEachNode ids f m)) k = JsMap.get (parts m) k.
Proof.
  unfold forEachNode.
  induction ids as [|a ids IH]; intros Hk m; simpl; [reflexivity |].
  rewrite IH by (intros Hin; apply Hk; right; exact Hin).
  apply onNode_get_other. intros ->. apply Hk. left. reflexivity.
Qed.

(** Over pairwise different ids, a node loop runs its body once on each. *)
Lemma forEachNode_get_in (ids : list PartId)
    (f : PartId -> PartConfig -> Object3D -> Object3D) (k : PartId) :
  NoDup ids -> In k ids -> forall m : MechModel,
  JsMap.get (parts (forEachNode ids f m)) k
  = option_map (onConfig (f k)) (JsMap.get (parts m) k).
Proof.
  unfold forEachNode.
  induction 1 as [|a ids Ha Hnd IH]; intros Hin m; simpl; [contradiction |].
  destruct Hin as [-> | Hin].
  - fold (forEachNode ids f (onNode m k (f k))).
    rewrite forEachNode_get_notin by exact Ha.
    apply onNode_get_same.
  - rewrite IH by exact Hin.
    rewrite onNode_get_other; [reflexivity |].
    intros ->. contradiction.
Qed.

Lemma pose_only_refl (c : PartConfig) : pose_only c c.
Proof. unfold pose_only. tauto. Qed.

Lemma pose_only_trans (a b c : PartConfig) :
  pose_only a b -> pose_only b c -> pose_only a c.
Proof.
  unfold pose_only. intros (A1 & A2 & A3 & A4 & A5) (B1 & B2 & B3 & B4 & B5).
  rewrite B1, B2, B3, B4, A1, A2, A3, A4. tauto.
Qed.

Lemma pose_only_onConfig (f : PartConfig -> Object3D -> Object3D) (c : PartConfig) :
  pose_only c (onConfig f c).
Proof.
  unfold onConfig, pose_only. destruct (node c) eqn:Hn; simpl; rewrite ?Hn;
    repeat split; auto; discriminate.
Qed.

Lemma onNode_pose_only (m : MechModel) (a k : PartId)
    (f : PartConfig -> Object3D -> Object3D) (c : PartConfig) :
  JsMap.get (parts m) k = Some c ->
  exists c', JsMap.get (parts (onNode m a f)) k = Some c' /\ pose_only c c'.
Proof.
  intros Hc. destruct (string_dec a k) as [-> | Hne].
  - rewrite onNode_get_same, Hc. simpl. eauto using pose_only_onConfig.
  - rewrite onNode_get_other by exact Hne. eauto using pose_only_refl.
Qed.

Lemma forEachNode_pose_only (ids : list PartId)
    (f : PartId -> PartConfig -> Object3D -> Object3D) (k : PartId) :
  forall (m : MechModel) (c : PartConfig),
  JsMap.get (parts m) k = Some c ->
  exists c', JsMap.get (parts (forEachNode ids f m)) k = Some c' /\ pose_only c c'.
Proof.
  unfold forEachNode.
  induction ids as [|a ids IH]; intros m c Hc; simpl.
  - eauto using pose_only_refl.
  - destruct (onNode_pose_only m a k (f a) c Hc) as (c1 & H1 & P1).
    destruct (IH _ _ H1) as (c2 & H2 & P2).
    eauto using pose_only_trans.
Qed.

End MapFacts.

(** ** The inline smoothing of [SimpleStateMachine.update] *)

Module TickFacts.
Import SimpleStateMachine MachineFacts Derived.

Lemma stepF_rest (current target : R) :
  Rabs (current - target) <= 0.001 -> stepF current target = current.
Proof. intros H. unfold stepF. rewrite Rltb_false by exact H. reflexivity. Qed.

Lemma stepN_rest (n : nat) (current target : R) :
  Rabs (current - target) <= 0.001 -> stepN n current target = current.
Proof.
  intros H. induction n as [|n IH]; simpl; [reflexivity |].
  rewrite stepF_rest by exact H. exact IH.
Qed.

(** A frame either is inside the dead band or gets 0.0001 closer. *)
Lemma stepF_progress (current target : R) :
  Rabs (current - target) <= 0.001
  \/ Rabs (stepF current target - target) <= Rabs (current - target) - 0.0001.
Proof.
  unfold stepF, smoothing.
  destruct (Rltb_spec 0.001 (Rabs (current - target))) as [[-> H] | [-> H]];
    [right | left; exact H].
  real_cases; lra.
Qed.

Lemma stepN_reaches (n : nat) : forall current target : R,
  Rabs (current - target) < INR n * 0.0001 ->
  Rabs (stepN n current target - target) <= 0.001.
Proof.
  induction n as [|n IH]; intros current target Hd.
  - simpl in Hd. pose proof (Rabs_pos (current - target)). lra.
  - simpl stepN.
    destruct (stepF_progress current target) as [Hin | Hstep].
    + rewrite stepF_rest by exact Hin. rewrite stepN_rest by exact Hin. exact Hin.
    + apply IH. rewrite S_INR in Hd. lra.
Qed.

Lemma stepN_plus (n k : nat) (current target : R) :
  stepN (n + k) current target = stepN k (stepN n current target) target.
Proof.
  revert current. induction n as [|n IH]; intros current; simpl; [reflexivity |].
  apply IH.
Qed.

Lemma stepN_settles (current target : R) :
  exists N : nat, forall n : nat, (N <= n)%nat ->
    Rabs (stepN n current target - target) <= 0.001
    /\ stepN n current target = stepN N current target.
Proof.
  destruct (below_multiple (Rabs (current - target)) 0.0001) as [N HN]; [lra |].
  exists N. intros n Hn.
  replace n with (N + (n - N))%nat by lia.
  rewrite stepN_plus.
  pose proof (stepN_reaches N current target HN) as Hr.
  rewrite stepN_rest by exact Hr. auto.
Qed.

(** The inline smoothing never lands on the target from elsewhere. *)
Lemma stepF_exact (current target : R) :
  stepF current target = target -> current = target.
Proof. unfold stepF, smoothing. destruct (Rltb _ _); lra. Qed.

Lemma stepN_exact (n : nat) : forall current target : R,
  stepN n current target = target -> current = target.
Proof.
  induction n as [|n IH]; intros current target H; simpl in H; [exact H |].
  apply stepF_exact, IH, H.
Qed.

(** [n] frames of a loaded machine: tag, selection and targets stay, the
    two factors take [n] smoothing steps. *)
Lemma updates_loaded (n : nat) : forall s : t,
  model s <> None ->
  model (updates n s) <> None
  /\ globalExplosionTarget (updates n s) = globalExplosionTarget s
  /\ partExplosionTarget (updates n s) = partExplosionTarget s
  /\ uiState (updates n s)
     = mkUI (state (uiState s))
            (stepN n (globalExplosion (uiState s)) (globalExplosionTarget s))
            (stepN n (partExplosion (uiState s)) (partExplosionTarget s))
            (hoveredPart (uiState s)) (selectedMajorPart (uiState s))
            (currentPartIndex (uiState s)) (partList (uiState s)).
Proof.
  induction n as [|n IH]; intros s Hm; simpl.
  - destruct (uiState s); auto.
  - destruct (update_loaded s Hm) as (U & G & P & _ & M).
    simpl in U, G, P, M.
    assert (Hm' : model (update s) <> None) by tauto.
    destruct (IH (update s) Hm') as (I1 & I2 & I3 & I4).
    rewrite I2, I3, I4, U, G, P. simpl. auto.
Qed.

End TickFacts.

(** ** The ring layout *)

Module LayoutFacts.
Import Three MechConfig LoadMech SimpleStateMachine MachineFacts MapFacts Derived.

Lemma major_cases (h : PartId) :
  isMajorPart h = true ->
  h = "Head"%string \/ h = "neck"%string \/ h = "mainbody"%string
  \/ h = "Leftarm"%string \/ h = "Rightarm"%string \/ h = "Leftleg"%string
  \/ h = "Rightleg"%string.
Proof.
  unfold isMajorPart, includes. simpl.
  repeat match goal with
         | |- context [String.eqb h ?k] =>
             destruct (String.eqb_spec h k); [subst; tauto |]
         end.
  discriminate.
Qed.

Lemma major_truthy (h : PartId) : isMajorPart h = true -> truthy (Some h) = true.
Proof.
  intros H. destruct (major_cases h H) as [-> | [-> | [-> | [-> | [-> | [-> | ->]]]]]];
    reflexivity.
Qed.

(** The rounds of the loop of [calculateTransitionTargets] write one entry
    for each part that is not the selected one and has a slot. *)
Lemma subRing_fold (positions : list Vector3) (sel : option MajorPartId)
    (p : PartId) (es : list (PartId * nat)) :
  NoDup (map fst es) -> forall acc : JsMap.t Vector3 * JsMap.t R,
  let r := fold_left (subRingTarget positions sel) es acc in
  (JsMap.get (fst r) p, JsMap.get (snd r) p)
  = match entryIndex es p with
    | Some i =>
        if sameId p sel then (JsMap.get (fst acc) p, JsMap.get (snd acc) p)
        else match nth_error positions i with
             | Some pos => (Some (slotTarget pos p), Some 0.7)
             | None => (JsMap.get (fst acc) p, JsMap.get (snd acc) p)
             end
    | None => (JsMap.get (fst acc) p, JsMap.get (snd acc) p)
    end.
Proof.
  unfold entryIndex.
  induction es as [|[k i] es IH]; intros Hnd acc; cbv zeta; [reflexivity |].
  cbn [fold_left find fst map] in *.
  inversion Hnd as [|? ? Hk Hnd']; subst.
  specialize (IH Hnd' (subRingTarget positions sel acc (k, i))).
  cbv zeta in IH. rewrite IH. clear IH.
  destruct (String.eqb_spec k p) as [-> | Hne]; cbn [option_map snd].
  - assert (Hf : find (fun e : string * nat => String.eqb (fst e) p) es = None).
    { destruct (find (fun e : string * nat => String.eqb (fst e) p) es)
        as [[k' i'] |] eqn:Hf; [| reflexivity].
      apply find_some in Hf. destruct Hf as (Hin & He). cbn [fst] in He.
      apply String.eqb_eq in He. subst k'.
      exfalso. apply Hk. change p with (fst (p, i')). apply in_map, Hin. }
    rewrite Hf. cbn [option_map]. unfold subRingTarget.
    destruct (sameId p sel); [reflexivity |].
    destruct (nth_error positions i); [| reflexivity].
    cbn [fst snd]. rewrite !get_set_same. reflexivity.
  - assert (Hacc : JsMap.get (fst (subRingTarget positions sel acc (k, i))) p
                   = JsMap.get (fst acc) p
                   /\ JsMap.get (snd (subRingTarget positions sel acc (k, i))) p
                      = JsMap.get (snd acc) p).
    { unfold subRingTarget. destruct (sameId k sel); [auto |].
      destruct (nth_error positions i); [| auto].
      cbn [fst snd]. rewrite !get_set_other by exact Hne. auto. }
    destruct Hacc as (-> & ->). reflexivity.
Qed.

Lemma sameId_false (p a : PartId) : p <> a -> sameId p (Some a) = false.
Proof. intros H. simpl. destruct (String.eqb_spec p a); [contradiction | reflexivity]. Qed.

Lemma sameId_true (a : PartId) : sameId a (Some a) = true.
Proof. simpl. apply String.eqb_refl. Qed.

Lemma majorEntries_NoDup : NoDup (map fst majorEntries).
Proof. exact majorParts_NoDup. Qed.

(** A major part is paired with its position in the list. *)
Lemma majorEntries_index (p : PartId) :
  isMajorPart p = true ->
  entryIndex majorEntries p
  = Some (Z.to_nat (indexOf (majorParts MECH_HIERARCHY) p)).
Proof.
  intros H. destruct (major_cases p H) as [-> | [-> | [-> | [-> | [-> | [-> | ->]]]]]];
    reflexivity.
Qed.

(** The layout a selection computes, entry by entry. *)
Lemma layout_other (s : t) (a p : PartId) :
  isMajorPart p = true -> p <> a ->
  let l := calculateTransitionTargets s (Some a) in
  let i := Z.to_nat (indexOf (majorParts MECH_HIERARCHY) p) in
  forall pos : Vector3,
  nth_error (subRingFixedPositions s) i = Some pos ->
  JsMap.get (transitionTargets l) p = Some (slotTarget pos p)
  /\ JsMap.get (transitionScales l) p = Some 0.7.
Proof.
  intros Hp Hne l i pos Hpos. subst l. unfold calculateTransitionTargets.
  cbn [transitionTargets transitionScales with_layout].
  match goal with
  | |- context [fold_left ?f ?es ?acc] =>
      pose proof (subRing_fold (subRingFixedPositions s) (Some a) p majorEntries
                    majorEntries_NoDup acc) as Hf
  end.
  cbv zeta in Hf. rewrite (majorEntries_index p Hp) in Hf.
  rewrite (sameId_false p a Hne) in Hf. fold i in Hf. rewrite Hpos in Hf.
  apply pair_equal_spec in Hf. exact Hf.
Qed.

Lemma layout_selected (s : t) (a : PartId) :
  isMajorPart a = true ->
  let l := calculateTransitionTargets s (Some a) in
  JsMap.get (transitionTargets l) a
  = Some (add mainRingCenter (offsetOr0 partPositionInMainRing (Some a)))
  /\ JsMap.get (transitionScales l) a = Some 1.0
  /\ selectedSubRingIndex l = indexOf (majorParts MECH_HIERARCHY) a.
Proof.
  intros Ha l. subst l. unfold calculateTransitionTargets.
  cbn [transitionTargets transitionScales selectedSubRingIndex with_layout].
  match goal with
  | |- context [fold_left ?f ?es ?acc] =>
      pose proof (subRing_fold (subRingFixedPositions s) (Some a) a majorEntries
                    majorEntries_NoDup acc) as Hf
  end.
  cbv zeta in Hf. rewrite (majorEntries_index a Ha) in Hf.
  rewrite sameId_true in Hf.
  apply pair_equal_spec in Hf. destruct Hf as (H1 & H2).
  cbn [fst snd] in H1, H2.
  rewrite get_set_same in H1. rewrite get_set_same in H2.
  repeat split; assumption.
Qed.

(** *** The seven slots *)

Lemma slots_nth (i : nat) :
  (i < 7)%nat -> nth_error initSubRingPositions i = Some (slot i).
Proof.
  intros Hi. unfold initSubRingPositions.
  rewrite nth_error_map, nth_error_seq.
  destruct (Nat.ltb_spec i 7); [reflexivity | lia].
Qed.

Lemma slot_on_circle (i : nat) :
  x (slot i) * x (slot i) + y (slot i) * y (slot i)
  = subRingDistance * subRingDistance
  /\ z (slot i) = subRingZ.
Proof.
  split; [| reflexivity]. simpl.
  pose proof (sin2_cos2 (slotAngle i)) as H. unfold Rsqr in H.
  unfold subRingDistance. nra.
Qed.

Lemma slot_first : slot 0 = mkVector3 0 (- subRingDistance) subRingZ.
Proof.
  unfold slot, slotAngle.
  replace (- PI / 2 + PI * 2 / INR 7 * INR 0) with (- (PI / 2)) by (simpl; lra).
  rewrite cos_neg, sin_neg, cos_PI2, sin_PI2.
  f_equal; lra.
Qed.

Lemma applyPartViewLayout_layout (s : t) (h : PartId) :
  model s <> None -> selectedMajorPart (uiState s) = Some h ->
  truthy (Some h) = true ->
  transitionTargets (applyPartViewLayout s)
  = transitionTargets (calculateTransitionTargets s (Some h))
  /\ transitionScales (applyPartViewLayout s)
     = transitionScales (calculateTransitionTargets s (Some h))
  /\ selectedSubRingIndex (applyPartViewLayout s)
     = indexOf (majorParts MECH_HIERARCHY) h
  /\ isTransitioning (applyPartViewLayout s) = true.
Proof.
  intros Hm Hsel Ht. unfold applyPartViewLayout.
  destruct (model s); [| congruence].
  rewrite Hsel, Ht.
  destruct (isTransitioning (calculateTransitionTargets s (Some h))) eqn:Hi.
  - repeat split; try reflexivity. exact Hi.
  - repeat split; reflexivity.
Qed.

Lemma layout_positions_only (s s' : t) (p : option MajorPartId) :
  subRingFixedPositions s' = subRingFixedPositions s ->
  transitionTargets (calculateTransitionTargets s' p)
  = transitionTargets (calculateTransitionTargets s p)
  /\ transitionScales (calculateTransitionTargets s' p)
     = transitionScales (calculateTransitionTargets s p).
Proof.
  intros H. unfold calculateTransitionTargets.
  cbn [transitionTargets transitionScales with_layout]. rewrite H. auto.
Qed.

(** A key that is no major part has no entry in the layout. *)
Lemma layout_absent (s : t) (a p : PartId) :
  isMajorPart p = false -> p <> a ->
  let l := calculateTransitionTargets s (Some a) in
  JsMap.get (transitionTargets l) p = None
  /\ JsMap.get (transitionScales l) p = None.
Proof.
  intros Hp Hne l. subst l. unfold calculateTransitionTargets.
  cbn [transitionTargets transitionScales with_layout].
  match goal with
  | |- context [fold_left ?f ?es ?acc] =>
      pose proof (subRing_fold (subRingFixedPositions s) (Some a) p majorEntries
                    majorEntries_NoDup acc) as Hf
  end.
  cbv zeta in Hf.
  assert (E : entryIndex majorEntries p = None).
  { unfold isMajorPart, includes in Hp. cbn in Hp.
    unfold entryIndex, majorEntries.
    cbn [majorParts MECH_HIERARCHY combine seq List.length find fst].
    repeat match goal with
           | |- context [String.eqb ?k p] =>
               rewrite (String.eqb_sym k p);
               destruct (String.eqb p k) eqn:?;
               [rewrite ?orb_true_r in Hp; cbn in Hp; discriminate Hp |]
           end.
    reflexivity. }
  rewrite E in Hf. apply pair_equal_spec in Hf. destruct Hf as (H1 & H2).
  cbn [fst snd] in H1, H2.
  rewrite get_set_other in H1 by congruence.
  rewrite get_set_other in H2 by congruence.
  split; assumption.
Qed.

Lemma applyPartViewLayout_ring (s : t) :
  ringDecorationVisible (applyPartViewLayout s) = ringDecorationVisible s.
Proof.
  unfold applyPartViewLayout.
  destruct (model s); [| reflexivity].
  destruct (truthy _); [| reflexivity].
  destruct (isTransitioning _); reflexivity.
Qed.

Lemma laidOut_intro (s s' : t) (h : PartId) :
  isMajorPart h = true ->
  transitionTargets s' = transitionTargets (calculateTransitionTargets s (Some h)) ->
  transitionScales s' = transitionScales (calculateTransitionTargets s (Some h)) ->
  selectedSubRingIndex s' = indexOf (majorParts MECH_HIERARCHY) h ->
  laidOut (subRingFixedPositions s) h s'.
Proof.
  intros Hh Et Es Ei. unfold laidOut. rewrite Et, Es.
  destruct (layout_selected s h Hh) as (S1 & S2 & _).
  split; [exact S1 |]. split; [exact S2 |].
  split; [| split; [| exact Ei]].
  - intros p pos Hp Hne Hpos. exact (layout_other s h p Hp Hne pos Hpos).
  - intros p Hp. apply layout_absent; [exact Hp |].
    intros E. subst p. congruence.
Qed.

End LayoutFacts.

(** * The claims *)

(** C2.  In every state the machine reaches from its initial state through
    its public operations (init, adjustExplosion, update, setHoveredPartId,
    selectHoveredPart, navigate, navigateLeftRight, goBack, reset, dispose),
    the selected major part is non-null exactly when the state tag is
    PartView. *)
Theorem C2_focus_iff_partview (l : list SimpleStateMachine.Op) :
  let s := SimpleStateMachine.run SimpleStateMachine.create l in
  SimpleStateMachine.selectedMajorPart (SimpleStateMachine.uiState s) <> None
  <-> SimpleStateMachine.state (SimpleStateMachine.uiState s)
      = SimpleStateMachine.PartView.
Proof.
  intros s.
  destruct (MachineFacts.Inv_run l _ MachineFacts.Inv_create) as (H & _).
  exact H.
Qed.


(** C7.  In Assembled, an [adjustExplosion] that leaves the global target
    above 0.1 moves the machine to Exploded; in Exploded, one that leaves it
    below 0.05 moves it back to Assembled.  A freshly initialised machine is
    Exploded after one [adjustExplosion(0.2)], with target 0.2, and from some
    frame on it is still Exploded with the current global factor within
    0.001 of 0.2. *)
Theorem C7_threshold_transitions :
  (forall (s : SimpleStateMachine.t) (delta : R),
     SimpleStateMachine.state (SimpleStateMachine.uiState s) = SimpleStateMachine.Assembled ->
     0.1 < Rmax 0 (Rmin 1 (SimpleStateMachine.globalExplosionTarget s + delta)) ->
     SimpleStateMachine.state
       (SimpleStateMachine.uiState (SimpleStateMachine.adjustExplosion s delta))
     = SimpleStateMachine.Exploded)
  /\ (forall (s : SimpleStateMachine.t) (delta : R),
        SimpleStateMachine.state (SimpleStateMachine.uiState s) = SimpleStateMachine.Exploded ->
        Rmax 0 (Rmin 1 (SimpleStateMachine.globalExplosionTarget s + delta)) < 0.05 ->
        SimpleStateMachine.state
          (SimpleStateMachine.uiState (SimpleStateMachine.adjustExplosion s delta))
        = SimpleStateMachine.Assembled)
  /\ (forall m : LoadMech.MechModel,
        let s := SimpleStateMachine.adjustExplosion
                   (SimpleStateMachine.init SimpleStateMachine.create m) 0.2 in
        SimpleStateMachine.state (SimpleStateMachine.uiState s) = SimpleStateMachine.Exploded
        /\ SimpleStateMachine.globalExplosionTarget s = 0.2
        /\ exists N : nat, forall n : nat, (N <= n)%nat ->
             let s' := SimpleStateMachine.updates n s in
             SimpleStateMachine.state (SimpleStateMachine.uiState s')
             = SimpleStateMachine.Exploded
             /\ Rabs (SimpleStateMachine.globalExplosion (SimpleStateMachine.uiState s') - 0.2)
                <= 0.001).
Proof.
  split; [| split].
  - intros s delta Hs Ht.
    destruct (MachineFacts.adjustExplosion_global s delta) as (U & _); [congruence |].
    rewrite U, Hs. simpl. rewrite Rltb_true by exact Ht. reflexivity.
  - intros s delta Hs Ht.
    destruct (MachineFacts.adjustExplosion_global s delta) as (U & _); [congruence |].
    rewrite U, Hs. simpl. rewrite andb_false_r.
    rewrite (Rltb_true _ 0.05) by exact Ht. reflexivity.
  - intros m s.
    destruct (MachineFacts.adjustExplosion_global
                (SimpleStateMachine.init SimpleStateMachine.create m) 0.2)
      as (U & G & _ & _ & M); [simpl; congruence |].
    fold s in U, G, M. simpl in U, G, M.
    assert (HG : SimpleStateMachine.globalExplosionTarget s = 0.2).
    { rewrite G. real_cases; lra. }
    assert (HU : SimpleStateMachine.state (SimpleStateMachine.uiState s)
                 = SimpleStateMachine.Exploded).
    { rewrite U. simpl. rewrite Rltb_true by (real_cases; lra). reflexivity. }
    split; [exact HU |]. split; [exact HG |].
    assert (Hm : SimpleStateMachine.model s <> None).
    { intros E. apply M in E. discriminate. }
    destruct (TickFacts.stepN_settles
                (SimpleStateMachine.globalExplosion (SimpleStateMachine.uiState s)) 0.2)
      as (N & HN).
    exists N. intros n Hn s'.
    destruct (TickFacts.updates_loaded n s Hm) as (_ & _ & _ & Hu).
    subst s'. rewrite Hu. simpl. rewrite HG.
    split; [exact HU | apply HN, Hn].
Qed.

Lemma C7_threshold_transitions_witness :
  SimpleStateMachine.state
    (SimpleStateMachine.uiState
       (SimpleStateMachine.adjustExplosion SimpleStateMachine.create 0.2))
  = SimpleStateMachine.Exploded.
Proof.
  apply (proj1 C7_threshold_transitions).
  - reflexivity.
  - simpl. real_cases; lra.
Defined.
(** C1, as the code has it.  The smoother of the explode controller converges
    exactly: after any sequence of target-setting calls on a controller that
    has a model, from some tick on the current global and part factors are
    equal to their targets.  The frame update of the state machine has no
    step limit and does not snap: it moves a factor by a tenth of the
    remaining difference only while that difference exceeds 0.001, so from
    some frame on each factor stays put within 0.001 of its target, and it is
    equal to the target only if it was equal before the frames. *)
Theorem C1_smoother_convergence :
  (forall (c : ExplodeController.t) (l : list ExplodeController.TargetCall),
     ExplodeController.hasModel c = true ->
     let c0 := ExplodeController.calls c l in
     exists N : nat, forall n : nat, (N <= n)%nat ->
       let c' := ExplodeController.updates n c0 in
       ExplodeController.globalFactorCurrent c' = ExplodeController.globalFactorTarget c0
       /\ ExplodeController.partFactorCurrent c' = ExplodeController.partFactorTarget c0
       /\ ExplodeController.globalFactorTarget c' = ExplodeController.globalFactorTarget c0
       /\ ExplodeController.partFactorTarget c' = ExplodeController.partFactorTarget c0)
  /\ (forall s : SimpleStateMachine.t,
        SimpleStateMachine.model s <> None ->
        (exists N : nat, forall n : nat, (N <= n)%nat ->
           let s' := SimpleStateMachine.updates n s in
           Rabs (SimpleStateMachine.globalExplosion (SimpleStateMachine.uiState s')
                 - SimpleStateMachine.globalExplosionTarget s) <= 0.001
           /\ Rabs (SimpleStateMachine.partExplosion (SimpleStateMachine.uiState s')
                    - SimpleStateMachine.partExplosionTarget s) <= 0.001
           /\ SimpleStateMachine.uiState s'
              = SimpleStateMachine.uiState (SimpleStateMachine.updates N s))
        /\ (forall n : nat,
              let s' := SimpleStateMachine.updates n s in
              (SimpleStateMachine.globalExplosion (SimpleStateMachine.uiState s')
               = SimpleStateMachine.globalExplosionTarget s ->
               SimpleStateMachine.globalExplosion (SimpleStateMachine.uiState s)
               = SimpleStateMachine.globalExplosionTarget s)
              /\ (SimpleStateMachine.partExplosion (SimpleStateMachine.uiState s')
                  = SimpleStateMachine.partExplosionTarget s ->
                  SimpleStateMachine.partExplosion (SimpleStateMachine.uiState s)
                  = SimpleStateMachine.partExplosionTarget s))).
Proof.
  split.
  - intros c l Hm c0.
    assert (Hm0 : ExplodeController.hasModel c0 = true).
    { subst c0. revert c Hm. unfold ExplodeController.calls.
      induction l as [|a l IH]; intros c Hm; simpl; [exact Hm |].
      apply IH. destruct a; exact Hm. }
    destruct (SmootherFacts.smoothN_converges
                (ExplodeController.globalFactorCurrent c0)
                (ExplodeController.globalFactorTarget c0)) as (N1 & H1).
    destruct (SmootherFacts.smoothN_converges
                (ExplodeController.partFactorCurrent c0)
                (ExplodeController.partFactorTarget c0)) as (N2 & H2).
    exists (Nat.max N1 N2). intros n Hn c'.
    destruct (SmootherFacts.updates_factors n c0 Hm0) as (_ & G & P & GC & PC & _).
    subst c'. rewrite G, P, GC, PC, H1, H2 by lia. auto.
  - intros s Hm. split.
    + destruct (TickFacts.stepN_settles
                  (SimpleStateMachine.globalExplosion (SimpleStateMachine.uiState s))
                  (SimpleStateMachine.globalExplosionTarget s)) as (N1 & H1).
      destruct (TickFacts.stepN_settles
                  (SimpleStateMachine.partExplosion (SimpleStateMachine.uiState s))
                  (SimpleStateMachine.partExplosionTarget s)) as (N2 & H2).
      exists (Nat.max N1 N2). intros n Hn s'.
      destruct (TickFacts.updates_loaded n s Hm) as (_ & _ & _ & U).
      destruct (TickFacts.updates_loaded (Nat.max N1 N2) s Hm) as (_ & _ & _ & U').
      subst s'. rewrite U, U'. simpl.
      destruct (H1 n) as (A1 & E1); [lia |].
      destruct (H2 n) as (A2 & E2); [lia |].
      destruct (H1 (Nat.max N1 N2)) as (_ & E1'); [lia |].
      destruct (H2 (Nat.max N1 N2)) as (_ & E2'); [lia |].
      rewrite E1', E2'. rewrite <- E1, <- E2. auto.
    + intros n s'.
      destruct (TickFacts.updates_loaded n s Hm) as (_ & _ & _ & U).
      subst s'. rewrite U. simpl.
      split; apply TickFacts.stepN_exact.
Qed.

Lemma C1_smoother_convergence_witness :
  exists N : nat, forall n : nat, (N <= n)%nat ->
    ExplodeController.globalFactorCurrent
      (ExplodeController.updates n
         (ExplodeController.calls
            (ExplodeController.setModel ExplodeController.create
               (LoadMech.mkMechModel []))
            [ExplodeController.SetGlobal 1]))
    = 1.
Proof.
  destruct (proj1 C1_smoother_convergence
              (ExplodeController.setModel ExplodeController.create
                 (LoadMech.mkMechModel []))
              [ExplodeController.SetGlobal 1] eq_refl) as (N & HN).
  exists N. intros n Hn. destruct (HN n Hn) as (H & _).
  rewrite H. simpl. real_cases; lra.
Defined.

(** C1 fails for the frame update of the state machine: with the global
    target driven to 1 from a current factor of 0, no number of frames makes
    the current factor equal to the target. *)
Lemma C1_counterexample :
  let s := SimpleStateMachine.adjustExplosion
             (SimpleStateMachine.init SimpleStateMachine.create
                (LoadMech.mkMechModel [])) 1 in
  SimpleStateMachine.globalExplosionTarget s = 1
  /\ ~ (exists N : nat, forall n : nat, (N <= n)%nat ->
          SimpleStateMachine.globalExplosion
            (SimpleStateMachine.uiState (SimpleStateMachine.updates n s))
          = SimpleStateMachine.globalExplosionTarget (SimpleStateMachine.updates n s)).
Proof.
  intros s.
  destruct (MachineFacts.adjustExplosion_global
              (SimpleStateMachine.init SimpleStateMachine.create
                 (LoadMech.mkMechModel [])) 1)
    as (U & G & _ & _ & M); [simpl; congruence |].
  fold s in U, G, M. simpl in U, G, M.
  assert (HG : SimpleStateMachine.globalExplosionTarget s = 1).
  { rewrite G. real_cases; lra. }
  assert (Hm : SimpleStateMachine.model s <> None).
  { intros E. apply M in E. discriminate. }
  split; [exact HG |].
  intros (N & HN). specialize (HN N (Nat.le_refl N)).
  destruct (TickFacts.updates_loaded N s Hm) as (_ & GT & _ & UN).
  rewrite GT, UN, HG in HN. simpl in HN.
  apply TickFacts.stepN_exact in HN.
  rewrite U in HN. simpl in HN. lra.
Qed.
(** C3.  With the seven slot positions the constructor computes, focus
    selections [a] and [b] and a major part [p] that is neither: the target
    of [p] is the same in both layouts, namely the slot at [p]'s position in
    the major-parts list plus [p]'s own sub-ring offset, at scale 0.7; the
    focused part is sent to the main-ring centre plus its own main-ring
    offset at scale 1.0.  Slot [i] lies at angle [-PI/2 + i * 2PI/7] on the
    circle of radius [subRingDistance] in the plane [z = subRingZ].  The
    ring does not start at the top: slot 0, which [initSubRingPositions]
    computes first, is [(0, -subRingDistance, subRingZ)], below the centre
    of the circle in a scene whose y axis points up, and no slot lies lower;
    the comments of [initSubRingPositions] and of [subRingFixedPositions]
    say that the ring starts at the top. *)
Theorem C3_slot_stability (s : SimpleStateMachine.t) (a b p : MechConfig.PartId) :
  SimpleStateMachine.subRingFixedPositions s = SimpleStateMachine.initSubRingPositions ->
  MechConfig.isMajorPart a = true -> MechConfig.isMajorPart b = true ->
  MechConfig.isMajorPart p = true ->
  a <> b -> p <> a -> p <> b ->
  let la := SimpleStateMachine.calculateTransitionTargets s (Some a) in
  let lb := SimpleStateMachine.calculateTransitionTargets s (Some b) in
  let i := Z.to_nat (MechConfig.indexOf (MechConfig.majorParts MechConfig.MECH_HIERARCHY) p) in
  let target :=
    Three.add (Derived.slot i)
      (SimpleStateMachine.offsetOr0 SimpleStateMachine.partPositionInSubRing (Some p)) in
  nth_error (SimpleStateMachine.subRingFixedPositions s) i = Some (Derived.slot i)
  /\ JsMap.get (SimpleStateMachine.transitionTargets la) p = Some target
  /\ JsMap.get (SimpleStateMachine.transitionTargets lb) p = Some target
  /\ JsMap.get (SimpleStateMachine.transitionScales la) p = Some 0.7
  /\ JsMap.get (SimpleStateMachine.transitionScales lb) p = Some 0.7
  /\ JsMap.get (SimpleStateMachine.transitionTargets la) a
     = Some (Three.add SimpleStateMachine.mainRingCenter
               (SimpleStateMachine.offsetOr0 SimpleStateMachine.partPositionInMainRing (Some a)))
  /\ JsMap.get (SimpleStateMachine.transitionScales la) a = Some 1.0
  /\ (forall k : nat,
        Three.x (Derived.slot k) * Three.x (Derived.slot k)
        + Three.y (Derived.slot k) * Three.y (Derived.slot k)
        = SimpleStateMachine.subRingDistance * SimpleStateMachine.subRingDistance
        /\ Three.z (Derived.slot k) = SimpleStateMachine.subRingZ
        /\ Derived.slotAngle (S k) - Derived.slotAngle k = 2 * PI / 7)
  /\ nth_error SimpleStateMachine.initSubRingPositions 0
     = Some (Three.mkVector3 0 (- SimpleStateMachine.subRingDistance)
               SimpleStateMachine.subRingZ)
  /\ Derived.slot 0
     = Three.mkVector3 0 (- SimpleStateMachine.subRingDistance) SimpleStateMachine.subRingZ
  /\ (forall k : nat, Three.y (Derived.slot 0) <= Three.y (Derived.slot k))
  /\ Three.y (Derived.slot 0) < 0.
Proof.
  intros Hpos Ha Hb Hp Hab Hpa Hpb la lb i target.
  assert (Hi : (i < 7)%nat).
  { pose proof (MachineFacts.indexOf_range _ _ Hp) as Hr.
    change (Z.of_nat (List.length (MechConfig.majorParts MechConfig.MECH_HIERARCHY)))
      with 7%Z in Hr.
    subst i. lia. }
  assert (Hslot : nth_error (SimpleStateMachine.subRingFixedPositions s) i
                  = Some (Derived.slot i)).
  { rewrite Hpos. apply LayoutFacts.slots_nth, Hi. }
  destruct (LayoutFacts.layout_other s a p Hp Hpa _ Hslot) as (A1 & A2).
  destruct (LayoutFacts.layout_other s b p Hp Hpb _ Hslot) as (B1 & B2).
  destruct (LayoutFacts.layout_selected s a Ha) as (S1 & S2 & _).
  assert (H0 : Derived.slot 0
               = Three.mkVector3 0 (- SimpleStateMachine.subRingDistance)
                   SimpleStateMachine.subRingZ)
    by apply LayoutFacts.slot_first.
  repeat split; try assumption.
  - apply LayoutFacts.slot_on_circle.
  - unfold Derived.slotAngle. rewrite (S_INR k).
    replace (INR 7) with 7 by (simpl; lra). field.
  - rewrite LayoutFacts.slots_nth by lia. rewrite H0. reflexivity.
  - intros k. rewrite H0. cbn [Three.y Derived.slot].
    pose proof (SIN_bound (Derived.slotAngle k)) as (Hs & _).
    unfold SimpleStateMachine.subRingDistance. nra.
  - rewrite H0. cbn [Three.y]. unfold SimpleStateMachine.subRingDistance. lra.
Qed.

Lemma C3_slot_stability_witness :
  JsMap.get
    (SimpleStateMachine.transitionTargets
       (SimpleStateMachine.calculateTransitionTargets SimpleStateMachine.create
          (Some "Head"%string)))
    "Leftarm"%string
  = JsMap.get
      (SimpleStateMachine.transitionTargets
         (SimpleStateMachine.calculateTransitionTargets SimpleStateMachine.create
            (Some "neck"%string)))
      "Leftarm"%string.
Proof.
  destruct (C3_slot_stability SimpleStateMachine.create
              "Head"%string "neck"%string "Leftarm"%string
              eq_refl eq_refl eq_refl eq_refl
              ltac:(discriminate) ltac:(discriminate) ltac:(discriminate))
    as (_ & A & B & _).
  exact (eq_trans A (eq_sym B)).
Defined.
Lemma optEq_eq (a b : option string) : SimpleStateMachine.optEq a b = true -> a = b.
Proof.
  destruct a as [p |], b as [q |]; simpl; try discriminate; try reflexivity.
  intros H. apply String.eqb_eq in H. congruence.
Qed.

Lemma setHoveredPartId_spec (s : SimpleStateMachine.t) (p : option MechConfig.PartId) :
  SimpleStateMachine.setHoveredPartId s p
  = SimpleStateMachine.with_ui s
      (SimpleStateMachine.ui_hovered (SimpleStateMachine.uiState s) p).
Proof.
  unfold SimpleStateMachine.setHoveredPartId.
  destruct (SimpleStateMachine.optEq _ p) eqn:E; [| reflexivity].
  apply optEq_eq in E. destruct s as [m u gt pt sr tt ts it rv si].
  destruct u as [st g pe h sel i pl]. simpl in *. subst. reflexivity.
Qed.

(** The slot positions are those of the constructor in every state the
    machine reaches. *)
Lemma subRing_step (s : SimpleStateMachine.t) (o : SimpleStateMachine.Op) :
  SimpleStateMachine.subRingFixedPositions (SimpleStateMachine.step s o)
  = SimpleStateMachine.subRingFixedPositions s.
Proof.
  destruct o as [m | delta | | p | | d | d | | |]; cbn [SimpleStateMachine.step].
  - reflexivity.
  - destruct (SimpleStateMachine.state (SimpleStateMachine.uiState s)) eqn:Hs.
    + apply (MachineFacts.adjustExplosion_global s delta). congruence.
    + apply (MachineFacts.adjustExplosion_global s delta). congruence.
    + rewrite MachineFacts.adjustExplosion_partView by exact Hs. reflexivity.
  - destruct (SimpleStateMachine.model s) eqn:Hm.
    + destruct (MachineFacts.update_loaded s) as (_ & _ & _ & H & _); [congruence |].
      exact H.
    + rewrite MachineFacts.update_unloaded by exact Hm. reflexivity.
  - rewrite setHoveredPartId_spec. reflexivity.
  - destruct (MachineFacts.selectHoveredPart_cases s)
      as [-> | (h & _ & _ & _ & [(_ & En) | (_ & _ & ->)])].
    + reflexivity.
    + apply En.
    + apply (MachineFacts.selectPart_control s (Some h)).
  - unfold SimpleStateMachine.navigate.
    destruct (SimpleStateMachine.state (SimpleStateMachine.uiState s)) eqn:Hs.
    + rewrite MachineFacts.navigateInternal_idle by exact Hs. reflexivity.
    + rewrite MachineFacts.navigateInternal_exploded by exact Hs. reflexivity.
    + rewrite MachineFacts.navigateInternal_partView by exact Hs.
      match goal with
      | |- context [SimpleStateMachine.selectPart ?a ?b] =>
          destruct (MachineFacts.selectPart_control a b) as (_ & _ & _ & H & _)
      end.
      rewrite H. reflexivity.
  - unfold SimpleStateMachine.navigateLeftRight.
    destruct (SimpleStateMachine.state (SimpleStateMachine.uiState s)) eqn:Hs.
    + rewrite MachineFacts.navigateInternal_idle by exact Hs. reflexivity.
    + rewrite MachineFacts.navigateInternal_exploded by exact Hs. reflexivity.
    + rewrite MachineFacts.navigateInternal_partView by exact Hs.
      match goal with
      | |- context [SimpleStateMachine.selectPart ?a ?b] =>
          destruct (MachineFacts.selectPart_control a b) as (_ & _ & _ & H & _)
      end.
      rewrite H. reflexivity.
  - destruct (SimpleStateMachine.state (SimpleStateMachine.uiState s)) eqn:Hs.
    + unfold SimpleStateMachine.goBack. rewrite Hs. reflexivity.
    + unfold SimpleStateMachine.goBack. rewrite Hs. reflexivity.
    + apply (MachineFacts.goBack_partView s Hs).
  - unfold SimpleStateMachine.reset.
    cbn [SimpleStateMachine.model SimpleStateMachine.with_partTarget
         SimpleStateMachine.with_globalTarget SimpleStateMachine.with_ui].
    destruct (SimpleStateMachine.model s); reflexivity.
  - reflexivity.
Qed.

Lemma subRing_run (l : list SimpleStateMachine.Op) : forall s : SimpleStateMachine.t,
  SimpleStateMachine.subRingFixedPositions (SimpleStateMachine.run s l)
  = SimpleStateMachine.subRingFixedPositions s.
Proof.
  induction l as [|o l IH]; intros s; [reflexivity |].
  unfold SimpleStateMachine.run in *. cbn [fold_left].
  rewrite IH. apply subRing_step.
Qed.

(** C4.  With a model loaded and the global target within its range, for
    every major part [h]: hovering [h] and selecting it in Exploded or
    Assembled while the current global factor is above 0.1 returns true,
    moves the machine to PartView with [h] selected, leaves the global target
    at 1, the part factor and its target at 0, and installs the ring layout
    computed for [h] with the transition running: [h] has the main-ring
    centre plus its main-ring offset as target at scale 1.0, every other
    major part its slot plus its sub-ring offset at scale 0.7, no other key
    has a target or a scale, the slot index of [h] is recorded, the ring
    decoration is shown and the slot positions are kept. *)
Theorem C4_select_enters_part_view (s : SimpleStateMachine.t) (h : MechConfig.PartId) :
  SimpleStateMachine.model s <> None ->
  SimpleStateMachine.globalExplosionTarget s <= 1 ->
  MechConfig.isMajorPart h = true ->
  SimpleStateMachine.state (SimpleStateMachine.uiState s) = SimpleStateMachine.Exploded
  \/ SimpleStateMachine.state (SimpleStateMachine.uiState s) = SimpleStateMachine.Assembled ->
  0.1 < SimpleStateMachine.globalExplosion (SimpleStateMachine.uiState s) ->
  let r := SimpleStateMachine.selectHoveredPart
             (SimpleStateMachine.setHoveredPartId s (Some h)) in
  let s' := snd r in
  fst r = true
  /\ SimpleStateMachine.state (SimpleStateMachine.uiState s') = SimpleStateMachine.PartView
  /\ SimpleStateMachine.selectedMajorPart (SimpleStateMachine.uiState s') = Some h
  /\ SimpleStateMachine.globalExplosionTarget s' = 1
  /\ SimpleStateMachine.partExplosion (SimpleStateMachine.uiState s') = 0
  /\ SimpleStateMachine.partExplosionTarget s' = 0
  /\ SimpleStateMachine.transitionTargets s'
     = SimpleStateMachine.transitionTargets
         (SimpleStateMachine.calculateTransitionTargets s (Some h))
  /\ SimpleStateMachine.transitionScales s'
     = SimpleStateMachine.transitionScales
         (SimpleStateMachine.calculateTransitionTargets s (Some h))
  /\ SimpleStateMachine.isTransitioning s' = true
  /\ JsMap.get (SimpleStateMachine.transitionTargets s') h
     = Some (Three.add SimpleStateMachine.mainRingCenter
               (SimpleStateMachine.offsetOr0
                  SimpleStateMachine.partPositionInMainRing (Some h)))
  /\ JsMap.get (SimpleStateMachine.transitionScales s') h = Some 1.0
  /\ (forall (p : MechConfig.PartId) (pos : Three.Vector3),
        MechConfig.isMajorPart p = true -> p <> h ->
        nth_error (SimpleStateMachine.subRingFixedPositions s)
          (Z.to_nat (MechConfig.indexOf
                       (MechConfig.majorParts MechConfig.MECH_HIERARCHY) p))
        = Some pos ->
        JsMap.get (SimpleStateMachine.transitionTargets s') p
        = Some (Three.add pos
                  (SimpleStateMachine.offsetOr0
                     SimpleStateMachine.partPositionInSubRing (Some p)))
        /\ JsMap.get (SimpleStateMachine.transitionScales s') p = Some 0.7)
  /\ (forall p : MechConfig.PartId,
        MechConfig.isMajorPart p = false ->
        JsMap.get (SimpleStateMachine.transitionTargets s') p = None
        /\ JsMap.get (SimpleStateMachine.transitionScales s') p = None)
  /\ SimpleStateMachine.selectedSubRingIndex s'
     = MechConfig.indexOf (MechConfig.majorParts MechConfig.MECH_HIERARCHY) h
  /\ SimpleStateMachine.ringDecorationVisible s' = true
  /\ SimpleStateMachine.subRingFixedPositions s'
     = SimpleStateMachine.subRingFixedPositions s.
Proof.
  intros Hm HT Hmaj Hst Hg r s'.
  pose proof (LayoutFacts.major_truthy h Hmaj) as Htr.
  assert (K : fst r = true
    /\ SimpleStateMachine.state (SimpleStateMachine.uiState s') = SimpleStateMachine.PartView
    /\ SimpleStateMachine.selectedMajorPart (SimpleStateMachine.uiState s') = Some h
    /\ SimpleStateMachine.globalExplosionTarget s' = 1
    /\ SimpleStateMachine.partExplosion (SimpleStateMachine.uiState s') = 0
    /\ SimpleStateMachine.partExplosionTarget s' = 0
    /\ SimpleStateMachine.transitionTargets s'
       = SimpleStateMachine.transitionTargets
           (SimpleStateMachine.calculateTransitionTargets s (Some h))
    /\ SimpleStateMachine.transitionScales s'
       = SimpleStateMachine.transitionScales
           (SimpleStateMachine.calculateTransitionTargets s (Some h))
    /\ SimpleStateMachine.isTransitioning s' = true
    /\ SimpleStateMachine.selectedSubRingIndex s'
       = MechConfig.indexOf (MechConfig.majorParts MechConfig.MECH_HIERARCHY) h
    /\ SimpleStateMachine.ringDecorationVisible s' = true
    /\ SimpleStateMachine.subRingFixedPositions s'
       = SimpleStateMachine.subRingFixedPositions s).
  { subst s' r. rewrite setHoveredPartId_spec.
    unfold SimpleStateMachine.selectHoveredPart.
    cbn [SimpleStateMachine.hoveredPart SimpleStateMachine.uiState
         SimpleStateMachine.with_ui SimpleStateMachine.ui_hovered
         SimpleStateMachine.state SimpleStateMachine.globalExplosion].
    rewrite Htr. cbn [negb].
    rewrite (Rltb_true _ _ Hg), orb_true_r.
    unfold MechConfig.isMajorPart in Hmaj. rewrite Hmaj.
    cbn [fst snd].
    match goal with
    | |- context [SimpleStateMachine.applyPartViewLayout
                    (SimpleStateMachine.transitionTo ?a SimpleStateMachine.PartView)] =>
        set (s4 := a);
        destruct (MachineFacts.transitionTo_ui s4 SimpleStateMachine.PartView)
          as (T1 & T2 & T3 & T4 & T5);
        set (s5 := SimpleStateMachine.transitionTo s4 SimpleStateMachine.PartView) in *
    end.
    assert (Hm5 : SimpleStateMachine.model s5 <> None).
    { intros E. apply T4 in E. subst s4. simpl in E. contradiction. }
    assert (Hsel5 : SimpleStateMachine.selectedMajorPart (SimpleStateMachine.uiState s5)
                    = Some h) by (rewrite T1; reflexivity).
    destruct (MachineFacts.applyPartViewLayout_control s5) as (E1 & E2 & E3 & E4 & E5).
    destruct (LayoutFacts.applyPartViewLayout_layout s5 h Hm5 Hsel5 Htr)
      as (L1 & L2 & L3 & L4).
    destruct (LayoutFacts.layout_positions_only s s5 (Some h)) as (P1 & P2).
    { rewrite T3. reflexivity. }
    assert (Hne : SimpleStateMachine.state_eqb
                    (SimpleStateMachine.state (SimpleStateMachine.uiState s4))
                    SimpleStateMachine.PartView = false).
    { subst s4. simpl. destruct Hst as [-> | ->]; reflexivity. }
    assert (Hring : SimpleStateMachine.ringDecorationVisible s5 = true).
    { unfold s5, SimpleStateMachine.transitionTo. rewrite Hne.
      rewrite LayoutFacts.applyPartViewLayout_ring. reflexivity. }
    rewrite LayoutFacts.applyPartViewLayout_ring, Hring.
    rewrite E1, E2, E3, E4, L1, L2, L3, L4, P1, P2, T1, T2, T3, T5.
    rewrite Hne. subst s4.
    cbn [SimpleStateMachine.with_ui SimpleStateMachine.with_partTarget
         SimpleStateMachine.with_globalTarget SimpleStateMachine.ui_state
         SimpleStateMachine.ui_global SimpleStateMachine.ui_part
         SimpleStateMachine.ui_hovered SimpleStateMachine.ui_selected
         SimpleStateMachine.ui_index SimpleStateMachine.uiState
         SimpleStateMachine.state SimpleStateMachine.selectedMajorPart
         SimpleStateMachine.partExplosion SimpleStateMachine.globalExplosion
         SimpleStateMachine.globalExplosionTarget
         SimpleStateMachine.partExplosionTarget
         SimpleStateMachine.subRingFixedPositions].
    rewrite MachineFacts.Rmax_1_idem.
    repeat split; try reflexivity.
    real_cases; lra. }
  destruct K as (K1 & K2 & K3 & K4 & K5 & K6 & K7 & K8 & K9 & K10 & K11 & K12).
  destruct (LayoutFacts.laidOut_intro s s' h Hmaj K7 K8 K10)
    as (A1 & A2 & A3 & A4 & _).
  repeat split; try assumption.
  - apply (A3 p pos); assumption.
  - apply (A3 p pos); assumption.
  - apply (A4 p); assumption.
  - apply (A4 p); assumption.
Qed.

Lemma C4_select_enters_part_view_witness :
  let n := Three.mkObject3D (Three.mkVector3 0 1 0) (Three.mkVector3 0 0 0)
             (Three.mkVector3 1 1 1) 3 false None in
  let c := MechConfig.mkPartConfig "Leftarm"%string (Some n) None
             (Three.mkVector3 (-1) 0 0) 0.5
             (Some (Three.mkVector3 0 1 0)) (Some (Three.mkVector3 0 0 0)) in
  let s := SimpleStateMachine.mkT
             (Some (LoadMech.mkMechModel [("Leftarm"%string, c)]))
             (SimpleStateMachine.mkUI SimpleStateMachine.Exploded 1 0 None None 0
                (MechConfig.majorParts MechConfig.MECH_HIERARCHY))
             1 0 SimpleStateMachine.initSubRingPositions JsMap.empty JsMap.empty
             false false (-1) in
  let s' := snd (SimpleStateMachine.selectHoveredPart
                   (SimpleStateMachine.setHoveredPartId s (Some "Leftarm"%string))) in
  SimpleStateMachine.selectedMajorPart (SimpleStateMachine.uiState s')
  = Some "Leftarm"%string
  /\ JsMap.get (SimpleStateMachine.transitionTargets s') "Leftarm"%string
     = Some (Three.add SimpleStateMachine.mainRingCenter
               (Three.mkVector3 (-0.2) (-0.1) (-1)))
  /\ JsMap.get (SimpleStateMachine.transitionScales s') "Leftarm"%string = Some 1.0
  /\ JsMap.get (SimpleStateMachine.transitionTargets s') "Head"%string
     = Some (Three.add (Derived.slot 0) (Three.mkVector3 (-0.05) 1.2 1.3))
  /\ JsMap.get (SimpleStateMachine.transitionScales s') "Head"%string = Some 0.7
  /\ SimpleStateMachine.selectedSubRingIndex s' = 3%Z.
Proof.
  intros n c s s'.
  destruct (C4_select_enters_part_view s "Leftarm"%string)
    as (_ & _ & W3 & _ & _ & _ & _ & _ & _ & W10 & W11 & W12 & _ & W14 & _).
  - discriminate.
  - simpl. lra.
  - reflexivity.
  - left. reflexivity.
  - simpl. lra.
  - destruct (W12 "Head"%string (Derived.slot 0)) as (H1 & H2).
    + reflexivity.
    + discriminate.
    + exact (LayoutFacts.slots_nth 0 ltac:(lia)).
    + repeat split; assumption.
Defined.
(** ** Going back: the nodes *)

Module GoBackFacts.
Import Three MechConfig LoadMech SimpleStateMachine MachineFacts MapFacts Derived.

Lemma childrenReset_pose_only (keepPart : option MajorPartId) (k : PartId) :
  forall (m : MechModel) (c : PartConfig),
  JsMap.get (parts m) k = Some c ->
  exists c', JsMap.get (parts (childrenReset keepPart m)) k = Some c'
             /\ pose_only c c'.
Proof.
  unfold childrenReset.
  induction (majorParts MECH_HIERARCHY) as [|a l IH]; intros m c Hc;
    cbn [fold_left].
  - eauto using pose_only_refl.
  - destruct (sameId a keepPart).
    + apply IH, Hc.
    + destruct (forEachNode_pose_only (getChildParts a) restorePosition k m c Hc)
        as (c1 & H1 & P1).
      destruct (IH _ _ H1) as (c2 & H2 & P2).
      eauto using pose_only_trans.
Qed.

Lemma goBack_model (s : t) (m : MechModel) :
  state (uiState s) = PartView -> model s = Some m ->
  model (goBack s)
  = Some (forEachNode (majorParts MECH_HIERARCHY) restorePosition
            (forEachNode (majorParts MECH_HIERARCHY) unitScale
               (childrenReset None m))).
Proof.
  intros Hs Hm. unfold goBack. rewrite Hs.
  unfold transitionTo, resetAllPartPositions, resetAllPartScales,
    resetAllChildrenExcept.
  rewrite Hm.
  cbn [model uiState state with_model with_ui with_partTarget with_globalTarget
       ui_part ui_selected ui_hovered ui_state state_eqb hideRingDecoration
       with_ringVisible].
  rewrite Hs.
  cbn [model uiState state with_model with_ui with_partTarget with_globalTarget
       ui_part ui_selected ui_hovered ui_state state_eqb hideRingDecoration
       with_ringVisible].
  unfold childrenReset, unitScale. reflexivity.
Qed.

(** After [goBack], the node of a major part is at its original position
    with scale 1. *)
Lemma goBack_major_node (s : t) (m : MechModel) (k : PartId)
    (c : PartConfig) (n : Object3D) (o : Vector3) :
  state (uiState s) = PartView -> model s = Some m ->
  isMajorPart k = true ->
  JsMap.get (parts m) k = Some c -> node c = Some n ->
  originalPosition c = Some o ->
  exists (m' : MechModel) (c' : PartConfig) (n' : Object3D),
    model (goBack s) = Some m'
    /\ JsMap.get (parts m') k = Some c'
    /\ node c' = Some n'
    /\ position n' = o
    /\ scale n' = setScalar 1
    /\ rotation n' = rotation
         match JsMap.get (parts (childrenReset None m)) k with
         | Some c1 => match node c1 with Some n1 => n1 | None => n end
         | None => n
         end.
Proof.
  intros Hs Hm Hk Hc Hn Ho.
  assert (Hin : In k (majorParts MECH_HIERARCHY)).
  { unfold isMajorPart, includes in Hk. apply existsb_exists in Hk.
    destruct Hk as (k' & Hin & He). apply String.eqb_eq in He. subst. exact Hin. }
  destruct (childrenReset_pose_only None k m c Hc) as (c1 & H1 & P1).
  destruct P1 as (PO & _ & _ & _ & PN).
  destruct (node c1) as [n1 |] eqn:Hn1; [| exfalso; destruct PN as [_ PN];
                                            specialize (PN eq_refl); congruence].
  set (n' := setPosition (unitScale k c1 n1) o).
  set (c' := withNode (withNode c1 (unitScale k c1 n1)) n').
  exists (forEachNode (majorParts MECH_HIERARCHY) restorePosition
            (forEachNode (majorParts MECH_HIERARCHY) unitScale
               (childrenReset None m))), c', n'.
  split; [apply goBack_model; assumption |].
  split.
  - rewrite (forEachNode_get_in _ _ k majorParts_NoDup Hin).
    rewrite (forEachNode_get_in _ _ k majorParts_NoDup Hin).
    rewrite H1. cbn [option_map]. unfold onConfig at 2. rewrite Hn1.
    unfold onConfig. cbn [node withNode]. unfold restorePosition.
    cbn [originalPosition withNode]. rewrite PO, Ho. reflexivity.
  - rewrite H1, Hn1. repeat split; reflexivity.
Qed.

End GoBackFacts.

(** C5.  [goBack()] in PartView leaves the machine in Assembled with no
    selected part, the part factor and its target at 0 and the global target
    at 0; and, with a model loaded, the node of every major part that has an
    original position stands at that position with scale 1. *)
Theorem C5_go_back (s : SimpleStateMachine.t) :
  SimpleStateMachine.state (SimpleStateMachine.uiState s) = SimpleStateMachine.PartView ->
  let s' := SimpleStateMachine.goBack s in
  SimpleStateMachine.state (SimpleStateMachine.uiState s') = SimpleStateMachine.Assembled
  /\ SimpleStateMachine.selectedMajorPart (SimpleStateMachine.uiState s') = None
  /\ SimpleStateMachine.partExplosion (SimpleStateMachine.uiState s') = 0
  /\ SimpleStateMachine.partExplosionTarget s' = 0
  /\ SimpleStateMachine.globalExplosionTarget s' = 0
  /\ (forall (m : LoadMech.MechModel) (k : MechConfig.PartId)
             (c : MechConfig.PartConfig) (n : Three.Object3D) (o : Three.Vector3),
        SimpleStateMachine.model s = Some m ->
        MechConfig.isMajorPart k = true ->
        JsMap.get (LoadMech.parts m) k = Some c ->
        MechConfig.node c = Some n ->
        MechConfig.originalPosition c = Some o ->
        exists (m' : LoadMech.MechModel) (c' : MechConfig.PartConfig)
               (n' : Three.Object3D),
          SimpleStateMachine.model s' = Some m'
          /\ JsMap.get (LoadMech.parts m') k = Some c'
          /\ MechConfig.node c' = Some n'
          /\ Three.position n' = o
          /\ Three.scale n' = Three.mkVector3 1 1 1).
Proof.
  intros Hs s'.
  destruct (MachineFacts.goBack_partView s Hs) as (U & G & P & _).
  subst s'. rewrite U, G, P. cbn.
  repeat split; try reflexivity.
  intros m k c n o Hm Hk Hc Hn Ho.
  destruct (GoBackFacts.goBack_major_node s m k c n o Hs Hm Hk Hc Hn Ho)
    as (m' & c' & n' & H1 & H2 & H3 & H4 & H5 & _).
  exists m', c', n'. auto.
Qed.
Lemma C5_go_back_witness :
  let n := Three.mkObject3D (Three.mkVector3 (-3) 1 2) (Three.mkVector3 0 0 0)
             (Three.mkVector3 1 1 1) 3 false None in
  let c := MechConfig.mkPartConfig "Leftarm"%string (Some n) None
             (Three.mkVector3 (-1) 0 0) 0.5
             (Some (Three.mkVector3 0 1 0)) (Some (Three.mkVector3 0 0 0)) in
  let s := SimpleStateMachine.mkT
             (Some (LoadMech.mkMechModel [("Leftarm"%string, c)]))
             (SimpleStateMachine.mkUI SimpleStateMachine.PartView 1 0.3
                (Some "Leftarm"%string) (Some "Leftarm"%string) 3
                (MechConfig.majorParts MechConfig.MECH_HIERARCHY))
             1 0.5 SimpleStateMachine.initSubRingPositions JsMap.empty JsMap.empty
             false true 3 in
  SimpleStateMachine.state (SimpleStateMachine.uiState (SimpleStateMachine.goBack s))
  = SimpleStateMachine.Assembled
  /\ SimpleStateMachine.globalExplosionTarget (SimpleStateMachine.goBack s) = 0
  /\ exists (m' : LoadMech.MechModel) (c' : MechConfig.PartConfig)
            (n' : Three.Object3D),
       SimpleStateMachine.model (SimpleStateMachine.goBack s) = Some m'
       /\ JsMap.get (LoadMech.parts m') "Leftarm"%string = Some c'
       /\ MechConfig.node c' = Some n'
       /\ Three.position n' = Three.mkVector3 0 1 0
       /\ Three.scale n' = Three.mkVector3 1 1 1.
Proof.
  intros n c s.
  destruct (C5_go_back s eq_refl) as (H1 & _ & _ & _ & H5 & H6).
  split; [exact H1 |]. split; [exact H5 |].
  exact (H6 _ "Leftarm"%string c n (Three.mkVector3 0 1 0)
            eq_refl eq_refl eq_refl eq_refl eq_refl).
Defined.
(** ** Cycling *)

Module CycleFacts.
Import MechConfig LoadMech SimpleStateMachine MachineFacts Derived.

Lemma navigateLeftRight_internal (s : t) (d : LeftRight) :
  navigateLeftRight s d = navigateInternal s (deltaOf d).
Proof. destruct d; reflexivity. Qed.

Lemma navigate_internal (s : t) (d : UpDown) :
  navigate s d = navigateInternal s (match d with up => -1 | down => 1 end)%Z.
Proof. reflexivity. Qed.

Lemma nextIndex_mod (s : t) (delta : Z) :
  (0 <= currentPartIndex (uiState s) < 7)%Z -> (-1 <= delta <= 1)%Z ->
  nextIndex s delta = ((currentPartIndex (uiState s) + delta) mod 7)%Z.
Proof.
  intros Hi Hd. unfold nextIndex.
  rewrite Z.rem_mod_nonneg by lia.
  replace (currentPartIndex (uiState s) + delta + 7)%Z
    with (currentPartIndex (uiState s) + delta + 1 * 7)%Z by lia.
  apply Z_mod_plus_full.
Qed.

(** One cycle step in PartView. *)
Lemma cycle_partView (s : t) (delta : Z) :
  state (uiState s) = PartView ->
  (0 <= currentPartIndex (uiState s) < 7)%Z -> (-1 <= delta <= 1)%Z ->
  let i := ((currentPartIndex (uiState s) + delta) mod 7)%Z in
  let s' := navigateInternal s delta in
  exists newPart : PartId,
    at_index (majorParts MECH_HIERARCHY) i = Some newPart
    /\ s' = selectPart (with_ui s (ui_index (uiState s) i)) (Some newPart)
    /\ state (uiState s') = PartView
    /\ currentPartIndex (uiState s') = i
    /\ selectedMajorPart (uiState s') = Some newPart.
Proof.
  intros Hs Hi Hd i s'.
  pose proof (nextIndex_range s delta Hi Hd) as Hr.
  pose proof (nextIndex_mod s delta Hi Hd) as Hn. fold i in Hn.
  destruct (at_index_in_range (majorParts MECH_HIERARCHY) i) as (k & Hk).
  { change (Z.of_nat (List.length (majorParts MECH_HIERARCHY))) with 7%Z.
    rewrite <- Hn. exact Hr. }
  exists k. split; [exact Hk |].
  subst s'. rewrite navigateInternal_partView by exact Hs.
  rewrite Hn, Hk. split; [reflexivity |].
  destruct (selectPart_control (with_ui s (ui_index (uiState s) i)) (Some k))
    as (U & _).
  rewrite U. cbn [state currentPartIndex selectedMajorPart uiState with_ui ui_index].
  rewrite (indexOf_of_at_index _ majorParts_NoDup i k Hk).
  auto.
Qed.

Lemma cycleNext_partView (n : nat) : forall s : t,
  state (uiState s) = PartView ->
  (0 <= currentPartIndex (uiState s) < 7)%Z ->
  state (uiState (cycleNext n s)) = PartView
  /\ currentPartIndex (uiState (cycleNext n s))
     = ((currentPartIndex (uiState s) + Z.of_nat n) mod 7)%Z
  /\ ((0 < n)%nat ->
      selectedMajorPart (uiState (cycleNext n s))
      = at_index (majorParts MECH_HIERARCHY)
          ((currentPartIndex (uiState s) + Z.of_nat n) mod 7)%Z).
Proof.
  induction n as [|n IH]; intros s Hs Hi.
  - cbn [cycleNext]. rewrite Z.add_0_r, Z.mod_small by lia.
    repeat split; auto. intros H. lia.
  - cbn [cycleNext]. rewrite navigateLeftRight_internal.
    destruct (cycle_partView s 1 Hs Hi) as (k & Hk & _ & S1 & I1 & Sel1); [lia |].
    cbv zeta in S1, I1, Sel1. cbn [deltaOf].
    assert (Hr : (0 <= currentPartIndex (uiState (navigateInternal s 1)) < 7)%Z).
    { rewrite I1. apply Z.mod_pos_bound. lia. }
    destruct (IH _ S1 Hr) as (A & B & C).
    assert (E : ((currentPartIndex (uiState (navigateInternal s 1)) + Z.of_nat n) mod 7
                 = (currentPartIndex (uiState s) + Z.of_nat (S n)) mod 7)%Z).
    { rewrite I1, Zplus_mod_idemp_l. f_equal. lia. }
    rewrite <- E. split; [exact A |]. split; [exact B |].
    intros _. destruct n as [|n].
    + cbn [cycleNext]. rewrite Z.add_0_r, Z.mod_small by lia.
      rewrite Sel1, I1. symmetry. exact Hk.
    + apply C. lia.
Qed.

End CycleFacts.

(** C9, as the code has it.  In PartView and in Exploded, a cycle step replaces the
    navigation index [i] by [(i + 1) mod 7] or [(i - 1) mod 7].  In PartView
    it runs the part selection on the major part at the new index, which
    becomes the selected part, and seven consecutive steps to the right
    bring the index and the selected part back.  In Exploded it only sets the
    hovered part to the part at the new index; tag and selection stay.  In
    Assembled a cycle step changes nothing, the index included. *)
Theorem C9_cycling (s : SimpleStateMachine.t) (d : SimpleStateMachine.LeftRight) :
  (0 <= SimpleStateMachine.currentPartIndex (SimpleStateMachine.uiState s) < 7)%Z ->
  let u := SimpleStateMachine.uiState s in
  let i := ((SimpleStateMachine.currentPartIndex u + Derived.deltaOf d) mod 7)%Z in
  let s' := SimpleStateMachine.navigateLeftRight s d in
  let u' := SimpleStateMachine.uiState s' in
  (SimpleStateMachine.state u = SimpleStateMachine.PartView ->
   exists newPart : MechConfig.PartId,
     SimpleStateMachine.at_index (MechConfig.majorParts MechConfig.MECH_HIERARCHY) i
     = Some newPart
     /\ s' = SimpleStateMachine.selectPart
               (SimpleStateMachine.with_ui s (SimpleStateMachine.ui_index u i))
               (Some newPart)
     /\ SimpleStateMachine.state u' = SimpleStateMachine.PartView
     /\ SimpleStateMachine.currentPartIndex u' = i
     /\ SimpleStateMachine.selectedMajorPart u' = Some newPart)
  /\ (SimpleStateMachine.state u = SimpleStateMachine.PartView ->
      SimpleStateMachine.selectedMajorPart u
      = SimpleStateMachine.at_index (MechConfig.majorParts MechConfig.MECH_HIERARCHY)
          (SimpleStateMachine.currentPartIndex u) ->
      let s7 := Derived.cycleNext 7 s in
      SimpleStateMachine.state (SimpleStateMachine.uiState s7) = SimpleStateMachine.PartView
      /\ SimpleStateMachine.currentPartIndex (SimpleStateMachine.uiState s7)
         = SimpleStateMachine.currentPartIndex u
      /\ SimpleStateMachine.selectedMajorPart (SimpleStateMachine.uiState s7)
         = SimpleStateMachine.selectedMajorPart u)
  /\ (SimpleStateMachine.state u = SimpleStateMachine.Exploded ->
      s' = SimpleStateMachine.with_ui s
             (SimpleStateMachine.ui_hovered (SimpleStateMachine.ui_index u i)
                (SimpleStateMachine.at_index
                   (MechConfig.majorParts MechConfig.MECH_HIERARCHY) i))
      /\ SimpleStateMachine.state u' = SimpleStateMachine.Exploded
      /\ SimpleStateMachine.currentPartIndex u' = i
      /\ SimpleStateMachine.selectedMajorPart u' = SimpleStateMachine.selectedMajorPart u)
  /\ (SimpleStateMachine.state u = SimpleStateMachine.Assembled -> s' = s).
Proof.
  intros Hi u i s' u'.
  assert (Hd : (-1 <= Derived.deltaOf d <= 1)%Z) by (destruct d; simpl; lia).
  subst u' s'. rewrite CycleFacts.navigateLeftRight_internal.
  split; [| split; [| split]].
  - intros Hs. exact (CycleFacts.cycle_partView s _ Hs Hi Hd).
  - intros Hs Hsel s7.
    destruct (CycleFacts.cycleNext_partView 7 s Hs Hi) as (A & B & C).
    subst s7. rewrite A, B, C by lia.
    replace ((SimpleStateMachine.currentPartIndex (SimpleStateMachine.uiState s)
              + Z.of_nat 7) mod 7)%Z
      with (SimpleStateMachine.currentPartIndex (SimpleStateMachine.uiState s)).
    + subst u. auto.
    + change (Z.of_nat 7) with (1 * 7)%Z.
      rewrite Z_mod_plus_full, Z.mod_small by lia. reflexivity.
  - intros Hs. rewrite MachineFacts.navigateInternal_exploded by exact Hs.
    rewrite (CycleFacts.nextIndex_mod s _ Hi Hd). fold u i.
    cbn. auto.
  - intros Hs. apply MachineFacts.navigateInternal_idle, Hs.
Qed.

Lemma C9_cycling_witness :
  let s := SimpleStateMachine.mkT (Some (LoadMech.mkMechModel []))
             (SimpleStateMachine.mkUI SimpleStateMachine.PartView 1 0
                None (Some "Leftarm"%string) 3
                (MechConfig.majorParts MechConfig.MECH_HIERARCHY))
             1 0 SimpleStateMachine.initSubRingPositions JsMap.empty JsMap.empty
             false true 3 in
  SimpleStateMachine.selectedMajorPart
    (SimpleStateMachine.uiState (Derived.cycleNext 7 s))
  = Some "Leftarm"%string.
Proof.
  intros s.
  assert (Hi : (0 <= SimpleStateMachine.currentPartIndex
                       (SimpleStateMachine.uiState s) < 7)%Z) by (simpl; lia).
  destruct (C9_cycling s SimpleStateMachine.right Hi) as (_ & H & _).
  destruct (H eq_refl eq_refl) as (_ & _ & H3). exact H3.
Defined.

(** C9 fails in Assembled: a cycle step on the initial machine leaves the
    navigation index at 0 instead of moving it to 1, and highlights
    nothing. *)
Lemma C9_counterexample :
  let s := SimpleStateMachine.navigateLeftRight SimpleStateMachine.create
             SimpleStateMachine.right in
  SimpleStateMachine.currentPartIndex (SimpleStateMachine.uiState s)
  <> ((SimpleStateMachine.currentPartIndex
         (SimpleStateMachine.uiState SimpleStateMachine.create) + 1) mod 7)%Z
  /\ SimpleStateMachine.hoveredPart (SimpleStateMachine.uiState s) = None.
Proof.
  split; [discriminate | reflexivity].
Qed.
(** ** Poses written by the two explosion paths *)

Module PoseFacts.
Import Three MechConfig LoadMech MapFacts Derived.

Lemma updatePart_pose (cache : JsMap.t ExplodeController.PartData) (g : R)
    (p : MechPart) (data : ExplodeController.PartData) :
  JsMap.get cache (name p) = Some data ->
  name (ExplodeController.updatePart cache g p) = name p
  /\ position (mesh (ExplodeController.updatePart cache g p)) = explodedPosition data g
  /\ rotation (mesh (ExplodeController.updatePart cache g p)) = explodedRotation data g.
Proof.
  intros Hd. unfold ExplodeController.updatePart. rewrite Hd.
  unfold explodedPosition, explodedRotation, ExplodeController.GLOBAL_SCALE.
  replace (g * 1.0) with g by lra.
  destruct (Rltb 0.01 g); repeat split; reflexivity.
Qed.

Lemma updatePart_name (cache : JsMap.t ExplodeController.PartData) (g : R)
    (p : MechPart) : name (ExplodeController.updatePart cache g p) = name p.
Proof.
  unfold ExplodeController.updatePart.
  destruct (JsMap.get cache (name p)); [| reflexivity].
  destruct (Rltb 0.01 _); reflexivity.
Qed.

Lemma updatePartPositions_posed (c : ExplodeController.t) :
  posed (ExplodeController.updatePartPositions c).
Proof.
  unfold posed, ExplodeController.updatePartPositions.
  destruct (ExplodeController.partsArray c) as [|q l] eqn:Hl.
  - intros p data Hin. rewrite Hl in Hin. contradiction.
  - rewrite <- Hl.
    cbn [ExplodeController.partsArray ExplodeController.partDataCache
         ExplodeController.globalFactorCurrent].
    intros p data Hin Hd. apply in_map_iff in Hin.
    destruct Hin as (p0 & <- & _).
    rewrite updatePart_name in Hd.
    destruct (updatePart_pose _ (ExplodeController.globalFactorCurrent c) p0 data Hd)
      as (_ & H1 & H2).
    auto.
Qed.

Lemma update_posed (c : ExplodeController.t) :
  ExplodeController.hasModel c = true -> posed (ExplodeController.update c).
Proof.
  intros Hm. unfold ExplodeController.update. rewrite Hm.
  apply updatePartPositions_posed.
Qed.

(** The frame of the state machine outside PartView, when the global
    factor moves: the major nodes are placed by [explodeNode]. *)
Lemma update_normal_model (s : SimpleStateMachine.t) (m : MechModel) :
  SimpleStateMachine.model s = Some m ->
  SimpleStateMachine.state (SimpleStateMachine.uiState s) <> SimpleStateMachine.PartView ->
  0.001 < Rabs (SimpleStateMachine.globalExplosion (SimpleStateMachine.uiState s)
                - SimpleStateMachine.globalExplosionTarget s) ->
  let g := SimpleStateMachine.globalExplosion
             (SimpleStateMachine.uiState (SimpleStateMachine.update s)) in
  g = SimpleStateMachine.globalExplosion (SimpleStateMachine.uiState s)
      + (SimpleStateMachine.globalExplosionTarget s
         - SimpleStateMachine.globalExplosion (SimpleStateMachine.uiState s))
        * SimpleStateMachine.smoothing
  /\ SimpleStateMachine.model (SimpleStateMachine.update s)
     = Some (SimpleStateMachine.forEachNode (majorParts MECH_HIERARCHY)
               (SimpleStateMachine.explodeNode g) m).
Proof.
  intros Hm Hs Hd g.
  assert (Hg : g = SimpleStateMachine.globalExplosion (SimpleStateMachine.uiState s)
                   + (SimpleStateMachine.globalExplosionTarget s
                      - SimpleStateMachine.globalExplosion (SimpleStateMachine.uiState s))
                     * SimpleStateMachine.smoothing).
  { subst g.
    destruct (MachineFacts.update_loaded s) as (U & _); [congruence |].
    rewrite U. cbn. unfold Derived.stepF. rewrite Rltb_true by exact Hd.
    reflexivity. }
  split; [exact Hg |]. rewrite Hg. clear g Hg.
  unfold SimpleStateMachine.update. rewrite Hm.
  rewrite (Rltb_true _ _ Hd).
  cbn [SimpleStateMachine.state SimpleStateMachine.ui_global
       SimpleStateMachine.ui_part SimpleStateMachine.partExplosion orb].
  match goal with
  | |- context [if Rltb 0.001 ?a then SimpleStateMachine.ui_part ?u ?v else ?u] =>
      assert (Hst : SimpleStateMachine.state
                      (if Rltb 0.001 a then SimpleStateMachine.ui_part u v else u)
                    = SimpleStateMachine.state (SimpleStateMachine.uiState s))
        by (destruct (Rltb 0.001 a); reflexivity);
      assert (Hge : SimpleStateMachine.globalExplosion
                      (if Rltb 0.001 a then SimpleStateMachine.ui_part u v else u)
                    = SimpleStateMachine.globalExplosion u)
        by (destruct (Rltb 0.001 a); reflexivity);
      set (u2 := if Rltb 0.001 a then SimpleStateMachine.ui_part u v else u) in *
  end.
  rewrite Hst.
  destruct (SimpleStateMachine.state (SimpleStateMachine.uiState s)) eqn:Est;
    try contradiction; cbn [SimpleStateMachine.state_eqb andb];
    unfold SimpleStateMachine.applyExplosion;
    cbn [SimpleStateMachine.model SimpleStateMachine.with_ui
         SimpleStateMachine.uiState];
    rewrite Hm, Hst;
    unfold SimpleStateMachine.applyNormalExplosion;
    cbn [SimpleStateMachine.model SimpleStateMachine.with_ui
         SimpleStateMachine.uiState SimpleStateMachine.with_model];
    rewrite Hm, Hge; reflexivity.
Qed.

(** What [explodeNode] writes for a part with an offset entry and an
    original position. *)
Lemma explodeNode_pose (g : R) (k : PartId) (c : PartConfig) (n : Object3D)
    (o : Vector3) (e : ExplodeOffset) :
  JsMap.get EXPLODE_OFFSETS k = Some e -> originalPosition c = Some o ->
  position (SimpleStateMachine.explodeNode g k c n)
  = add o (multiplyScalar (normalize (direction e)) (distance e * g))
  /\ rotation (SimpleStateMachine.explodeNode g k c n) = rotation n
  /\ scale (SimpleStateMachine.explodeNode g k c n) = scale n.
Proof.
  intros He Ho. unfold SimpleStateMachine.explodeNode. rewrite He, Ho.
  repeat split; reflexivity.
Qed.

(** The pose of a major part after such a frame. *)
Lemma update_normal_pose (s : SimpleStateMachine.t) (m : MechModel)
    (k : PartId) (cfg : PartConfig) (n : Object3D) (o : Vector3)
    (e : ExplodeOffset) :
  SimpleStateMachine.model s = Some m ->
  SimpleStateMachine.state (SimpleStateMachine.uiState s) <> SimpleStateMachine.PartView ->
  0.001 < Rabs (SimpleStateMachine.globalExplosion (SimpleStateMachine.uiState s)
                - SimpleStateMachine.globalExplosionTarget s) ->
  isMajorPart k = true ->
  JsMap.get (parts m) k = Some cfg ->
  node cfg = Some n ->
  originalPosition cfg = Some o ->
  JsMap.get EXPLODE_OFFSETS k = Some e ->
  let s' := SimpleStateMachine.update s in
  let factor := SimpleStateMachine.globalExplosion (SimpleStateMachine.uiState s') in
  exists (m' : MechModel) (cfg' : PartConfig) (n' : Object3D),
    SimpleStateMachine.model s' = Some m'
    /\ JsMap.get (parts m') k = Some cfg'
    /\ node cfg' = Some n'
    /\ position n'
       = add o (multiplyScalar (normalize (direction e)) (distance e * factor))
    /\ rotation n' = rotation n
    /\ scale n' = scale n.
Proof.
  intros Hm Hs Hd Hk Hc Hn Ho He s' factor.
  destruct (update_normal_model s m Hm Hs Hd) as (_ & Hmodel).
  fold s' in Hmodel. fold factor in Hmodel.
  assert (Hin : In k (majorParts MECH_HIERARCHY)).
  { unfold isMajorPart, includes in Hk.
    apply existsb_exists in Hk. destruct Hk as (k' & Hin & E).
    apply String.eqb_eq in E. subst. exact Hin. }
  destruct (explodeNode_pose factor k cfg n o e He Ho) as (P1 & P2 & P3).
  eexists _, (withNode cfg (SimpleStateMachine.explodeNode factor k cfg n)),
    (SimpleStateMachine.explodeNode factor k cfg n).
  split; [exact Hmodel |]. split.
  - rewrite (forEachNode_get_in _ _ k MachineFacts.majorParts_NoDup Hin).
    rewrite Hc. cbn [option_map]. unfold onConfig. rewrite Hn. reflexivity.
  - auto.
Qed.

Lemma normalize_head_y :
  0 < y (normalize (mkVector3 0 0.8 0.4)).
Proof.
  unfold normalize, length. cbn [x y z multiplyScalar].
  assert (Hl : 0 < sqrt (0 * 0 + 0.8 * 0.8 + 0.4 * 0.4)) by (apply sqrt_lt_R0; lra).
  destruct (Req_dec_T _ 0) as [E | _]; [lra |].
  apply Rmult_lt_0_compat; [lra |].
  unfold Rdiv. rewrite Rmult_1_l. apply Rinv_0_lt_compat, Hl.
Qed.

End PoseFacts.
Lemma adjustExplosion_model (s : SimpleStateMachine.t) (delta : R) :
  SimpleStateMachine.model (SimpleStateMachine.adjustExplosion s delta)
  = SimpleStateMachine.model s.
Proof.
  unfold SimpleStateMachine.adjustExplosion, SimpleStateMachine.transitionTo.
  repeat match goal with
         | |- context [if ?b then _ else _] => destruct b
         end; reflexivity.
Qed.

(** C10, as the code has it.  In the explode controller, after [updatePartPositions]
    (and so after every [update] of a controller with a model) each part with
    a cache entry stands at
    [basePosition + explodeDirection * (explodeDistance * factor * 2)], with
    rotation [baseRotation + explodeDirection * (factor * ROTATION_AMOUNT)]
    when [factor > 0.01] and [baseRotation] otherwise, [factor] being the
    current global factor; the cache itself is not written.  In the state
    machine, a frame outside PartView that moves the global factor places
    each major part that has a node, an original position and an offset entry
    at [originalPosition + normalize(direction) * (distance * factor)], with
    no factor 2, and leaves its rotation and scale as they were.  Both paths
    compute the pose from the stored base, not from the previous pose. *)
Theorem C10_part_transforms :
  (forall (c : ExplodeController.t) (p : LoadMech.MechPart)
          (data : ExplodeController.PartData),
     let c' := ExplodeController.updatePartPositions c in
     let factor := ExplodeController.globalFactorCurrent c' in
     In p (ExplodeController.partsArray c') ->
     JsMap.get (ExplodeController.partDataCache c') (LoadMech.name p) = Some data ->
     Three.position (LoadMech.mesh p)
     = Three.add (ExplodeController.pd_basePosition data)
         (Three.multiplyScalar (ExplodeController.pd_explodeDirection data)
            (ExplodeController.pd_explodeDistance data * factor * 2))
     /\ Three.rotation (LoadMech.mesh p)
        = (if Rltb 0.01 factor
           then Three.add (ExplodeController.pd_baseRotation data)
                  (Three.multiplyScalar (ExplodeController.pd_explodeDirection data)
                     (factor * ExplodeController.ROTATION_AMOUNT))
           else ExplodeController.pd_baseRotation data)
     /\ ExplodeController.partDataCache c' = ExplodeController.partDataCache c)
  /\ (forall (c : ExplodeController.t) (p : LoadMech.MechPart)
             (data : ExplodeController.PartData),
        ExplodeController.hasModel c = true ->
        let c' := ExplodeController.update c in
        let factor := ExplodeController.globalFactorCurrent c' in
        In p (ExplodeController.partsArray c') ->
        JsMap.get (ExplodeController.partDataCache c') (LoadMech.name p) = Some data ->
        Three.position (LoadMech.mesh p)
        = Three.add (ExplodeController.pd_basePosition data)
            (Three.multiplyScalar (ExplodeController.pd_explodeDirection data)
               (ExplodeController.pd_explodeDistance data * factor * 2))
        /\ Three.rotation (LoadMech.mesh p)
           = (if Rltb 0.01 factor
              then Three.add (ExplodeController.pd_baseRotation data)
                     (Three.multiplyScalar (ExplodeController.pd_explodeDirection data)
                        (factor * ExplodeController.ROTATION_AMOUNT))
              else ExplodeController.pd_baseRotation data)
        /\ ExplodeController.partDataCache c' = ExplodeController.partDataCache c)
  /\ (forall (s : SimpleStateMachine.t) (m : LoadMech.MechModel)
             (k : MechConfig.PartId) (cfg : MechConfig.PartConfig)
             (n : Three.Object3D) (o : Three.Vector3) (e : MechConfig.ExplodeOffset),
        SimpleStateMachine.model s = Some m ->
        SimpleStateMachine.state (SimpleStateMachine.uiState s)
        <> SimpleStateMachine.PartView ->
        0.001 < Rabs (SimpleStateMachine.globalExplosion (SimpleStateMachine.uiState s)
                      - SimpleStateMachine.globalExplosionTarget s) ->
        MechConfig.isMajorPart k = true ->
        JsMap.get (LoadMech.parts m) k = Some cfg ->
        MechConfig.node cfg = Some n ->
        MechConfig.originalPosition cfg = Some o ->
        JsMap.get MechConfig.EXPLODE_OFFSETS k = Some e ->
        let s' := SimpleStateMachine.update s in
        let factor := SimpleStateMachine.globalExplosion (SimpleStateMachine.uiState s') in
        exists (m' : LoadMech.MechModel) (cfg' : MechConfig.PartConfig)
               (n' : Three.Object3D),
          SimpleStateMachine.model s' = Some m'
          /\ JsMap.get (LoadMech.parts m') k = Some cfg'
          /\ MechConfig.node cfg' = Some n'
          /\ Three.position n'
             = Three.add o
                 (Three.multiplyScalar (Three.normalize (MechConfig.direction e))
                    (MechConfig.distance e * factor))
          /\ Three.rotation n' = Three.rotation n
          /\ Three.scale n' = Three.scale n).
Proof.
  split; [| split].
  - intros c p data c' factor Hin Hd.
    destruct (PoseFacts.updatePartPositions_posed c p data Hin Hd) as (H1 & H2).
    split; [exact H1 |]. split; [exact H2 |].
    apply (SmootherFacts.updatePartPositions_factors c).
  - intros c p data Hm c' factor Hin Hd.
    destruct (PoseFacts.update_posed c Hm p data Hin Hd) as (H1 & H2).
    split; [exact H1 |]. split; [exact H2 |].
    apply (SmootherFacts.updates_factors 1 c Hm).
  - intros s m k cfg n o e Hm Hs Hd Hk Hc Hn Ho He s' factor.
    exact (PoseFacts.update_normal_pose s m k cfg n o e Hm Hs Hd Hk Hc Hn Ho He).
Qed.

Lemma C10_part_transforms_witness :
  let data := ExplodeController.mkPartData
                (Three.mkVector3 0 0 0) (Three.mkVector3 0 0 0) (Three.mkVector3 1 1 1)
                (Three.mkVector3 0 1 0) 0.5 false in
  let part := LoadMech.mkMechPart "Head"%string
                (Three.mkObject3D (Three.mkVector3 3 3 3) (Three.mkVector3 0 0 0)
                   (Three.mkVector3 1 1 1) 0 false None)
                (Three.mkVector3 0 0 0) (Three.mkVector3 0 0 0)
                (Three.mkVector3 0 1 0) 0.5 0 in
  let c := ExplodeController.mkT true [part] 1 1 0 0 None ExplodeController.global
             [("Head"%string, data)] in
  Three.position
    (LoadMech.mesh (ExplodeController.updatePart [("Head"%string, data)] 1 part))
  = Three.mkVector3 0 1 0.
Proof.
  intros data part c.
  destruct (proj1 C10_part_transforms c
              (ExplodeController.updatePart [("Head"%string, data)] 1 part) data)
    as (H & _).
  - left. reflexivity.
  - reflexivity.
  - rewrite H. unfold Three.add, Three.multiplyScalar. simpl.
    f_equal; lra.
Defined.

(** C10 fails on the state machine's path: after one frame that moves the
    global factor to 0.1, the head stands at
    [original + dir * (0.5 * 0.1)], not at [original + dir * (0.5 * 0.1 * 2)]. *)
Lemma C10_counterexample :
  let origin := Three.mkVector3 0 0 0 in
  let head := MechConfig.mkPartConfig "Head"%string
                (Some (Three.mkObject3D origin origin (Three.mkVector3 1 1 1) 0 false None))
                None (Three.normalize (Three.mkVector3 0 0.8 0.4)) 0.5
                (Some origin) (Some origin) in
  let m := LoadMech.mkMechModel [("Head"%string, head)] in
  let s := SimpleStateMachine.update
             (SimpleStateMachine.adjustExplosion
                (SimpleStateMachine.init SimpleStateMachine.create m) 1) in
  let factor := SimpleStateMachine.globalExplosion (SimpleStateMachine.uiState s) in
  exists (m' : LoadMech.MechModel) (cfg : MechConfig.PartConfig) (n : Three.Object3D),
    SimpleStateMachine.model s = Some m'
    /\ JsMap.get (LoadMech.parts m') "Head"%string = Some cfg
    /\ MechConfig.node cfg = Some n
    /\ factor = 0.1
    /\ Three.position n
       <> Three.add origin
            (Three.multiplyScalar (MechConfig.explodeDir cfg)
               (MechConfig.explodeDistance cfg * factor * 2)).
Proof.
  intros origin head m s factor.
  set (s0 := SimpleStateMachine.adjustExplosion
               (SimpleStateMachine.init SimpleStateMachine.create m) 1) in *.
  assert (Hm0 : SimpleStateMachine.model s0 = Some m).
  { unfold s0. rewrite adjustExplosion_model. reflexivity. }
  destruct (MachineFacts.adjustExplosion_global
              (SimpleStateMachine.init SimpleStateMachine.create m) 1)
    as (U & G & _); [simpl; congruence |].
  fold s0 in U, G. simpl in U, G.
  assert (HG : SimpleStateMachine.globalExplosionTarget s0 = 1).
  { rewrite G. real_cases; lra. }
  assert (Hge : SimpleStateMachine.globalExplosion (SimpleStateMachine.uiState s0) = 0).
  { rewrite U. reflexivity. }
  assert (Hst : SimpleStateMachine.state (SimpleStateMachine.uiState s0)
                <> SimpleStateMachine.PartView).
  { rewrite U. simpl. repeat match goal with
                             | |- context [if ?b then _ else _] => destruct b
                             end; discriminate. }
  assert (Hd : 0.001 < Rabs (SimpleStateMachine.globalExplosion
                               (SimpleStateMachine.uiState s0)
                             - SimpleStateMachine.globalExplosionTarget s0)).
  { rewrite Hge, HG. real_cases; lra. }
  destruct (PoseFacts.update_normal_pose s0 m "Head"%string head
              (Three.mkObject3D origin origin (Three.mkVector3 1 1 1) 0 false None)
              origin (MechConfig.off 0 0.8 0.4 0.5)
              Hm0 Hst Hd eq_refl eq_refl eq_refl eq_refl eq_refl)
    as (m' & cfg & n & M & Gt & Nd & Pos & _).
  destruct (PoseFacts.update_normal_model s0 m Hm0 Hst Hd) as (Hf & Hmodel).
  fold s in M, Pos, Hf, Hmodel. fold factor in Pos, Hf, Hmodel.
  assert (Hfac : factor = 0.1).
  { rewrite Hf, Hge, HG. unfold SimpleStateMachine.smoothing. lra. }
  assert (Hcfg : MechConfig.explodeDir cfg = Three.normalize (Three.mkVector3 0 0.8 0.4)
                 /\ MechConfig.explodeDistance cfg = 0.5).
  { assert (Hmm : m' = SimpleStateMachine.forEachNode
                          (MechConfig.majorParts MechConfig.MECH_HIERARCHY)
                          (SimpleStateMachine.explodeNode factor) m) by congruence.
    subst m'.
    rewrite (MapFacts.forEachNode_get_in _ _ "Head"%string MachineFacts.majorParts_NoDup)
      in Gt by (left; reflexivity).
    cbn [LoadMech.parts m JsMap.get String.eqb Ascii.eqb Bool.eqb option_map] in Gt.
    injection Gt as <-. split; reflexivity. }
  destruct Hcfg as (Hdir & Hdist).
  exists m', cfg, n. repeat split; try assumption.
  rewrite Pos, Hdir, Hdist, Hfac.
  pose proof PoseFacts.normalize_head_y as Hy.
  cbn [MechConfig.direction MechConfig.distance MechConfig.off].
  set (nv := Three.normalize (Three.mkVector3 0 0.8 0.4)) in *.
  intros E. apply (f_equal Three.y) in E.
  cbn [Three.y Three.add Three.multiplyScalar origin] in E. nra.
Qed.
(** ** Selecting the selected part again *)

Module ReselectFacts.
Import MechConfig LoadMech SimpleStateMachine MachineFacts Derived LayoutFacts.

(** In PartView, selecting the hovered major part, whichever branch of
    [selectHoveredPart] runs. *)
Lemma reselect_control (s : t) (h : PartId) :
  state (uiState s) = PartView ->
  hoveredPart (uiState s) = Some h ->
  isMajorPart h = true ->
  let r := selectHoveredPart s in
  fst r = true
  /\ state (uiState (snd r)) = PartView
  /\ selectedMajorPart (uiState (snd r)) = Some h
  /\ partExplosion (uiState (snd r)) = 0
  /\ partExplosionTarget (snd r) = 0
  /\ globalExplosionTarget (snd r) = Rmax (globalExplosionTarget s) 1.
Proof.
  intros Hs Hh Hmaj r.
  assert (Hfst : fst r = true).
  { apply (selectHoveredPart_true s h); auto using LayoutFacts.major_truthy. }
  split; [exact Hfst |].
  destruct (selectHoveredPart_cases s)
    as [E | (h' & Hh' & Hi & _ & [(_ & En) | (_ & _ & Esel)])].
  - subst r. rewrite E in Hfst. discriminate.
  - assert (h' = h) by congruence. subst h'.
    destruct En as (U & G & P & _). subst r. rewrite U, G, P. auto.
  - assert (h' = h) by congruence. subst h'.
    destruct (selectPart_control s (Some h)) as (U & G & P & _).
    subst r. rewrite Esel, U, G, P. cbn. auto.
Qed.

(** In PartView with a model, selecting the hovered major part computes the
    layout for it, whichever branch of [selectHoveredPart] runs. *)
Lemma reselect_layout (s : t) (h : PartId) :
  state (uiState s) = PartView ->
  hoveredPart (uiState s) = Some h ->
  isMajorPart h = true ->
  model s <> None ->
  laidOut (subRingFixedPositions s) h (snd (selectHoveredPart s))
  /\ isTransitioning (snd (selectHoveredPart s)) = true.
Proof.
  intros Hs Hh Hmaj Hm.
  pose proof (major_truthy h Hmaj) as Htr.
  unfold selectHoveredPart. rewrite Hh, Htr. cbn [negb].
  unfold isMajorPart in Hmaj. rewrite Hmaj.
  destruct (state_eqb (state (uiState s)) Exploded
            || Rltb 0.1 (globalExplosion (uiState s))).
  - cbn [snd].
    match goal with
    | |- context [applyPartViewLayout (transitionTo ?a PartView)] => set (s4 := a)
    end.
    assert (E4 : transitionTo s4 PartView = s4).
    { unfold transitionTo. subst s4. cbn. rewrite Hs. reflexivity. }
    rewrite E4.
    assert (Hm4 : model s4 <> None) by exact Hm.
    assert (Hsel4 : selectedMajorPart (uiState s4) = Some h) by reflexivity.
    destruct (applyPartViewLayout_layout s4 h Hm4 Hsel4 Htr) as (L1 & L2 & L3 & L4).
    destruct (layout_positions_only s s4 (Some h) eq_refl) as (P1 & P2).
    split; [| exact L4].
    apply laidOut_intro; [exact Hmaj | congruence | congruence | exact L3].
  - rewrite Hs. cbn [state_eqb snd]. unfold selectPart.
    match goal with
    | |- context [resetAllChildrenExcept ?a ?k] =>
        destruct (resetAllChildrenExcept_control a k) as (_ & _ & _ & R4 & _);
        set (s5 := resetAllChildrenExcept a k) in *
    end.
    cbn [subRingFixedPositions with_ui with_globalTarget with_partTarget] in R4.
    destruct (layout_positions_only s s5 (Some h) R4) as (P1 & P2).
    destruct (layout_selected s5 h Hmaj) as (_ & _ & S3).
    split; [| reflexivity].
    apply laidOut_intro; [exact Hmaj | exact P1 | exact P2 | exact S3].
Qed.

End ReselectFacts.

(** C8, as the code has it.  In the selection controller, selecting a part [x] that
    is not the selected one makes it the selected part and the focus root;
    selecting [x] again calls [drillDown]: the focus root stays [x]; if the
    mesh of [x] has children, [x] is pushed on the navigation stack and the
    selected part is cleared, and if it has none the controller is unchanged.
    In the state machine there is no drill-down: selecting in PartView the
    hovered major part, the selected one included, returns true, keeps or
    makes it the selected part, puts the part factor and its target back to
    0, keeps the global target at least 1 and, with a model loaded, computes
    the ring layout for it again with the transition running, whether or not
    the part has children. *)
Theorem C8_reselect :
  (forall (c : SelectionController.t) (x : string),
     SelectionController.sameRef (Some x) (SelectionController.selectedPart c) = false ->
     let c1 := SelectionController.setSelectedPart c (Some x) in
     let c2 := SelectionController.setSelectedPart c1 (Some x) in
     SelectionController.selectedPart c1 = Some x
     /\ SelectionController.focusRoot c1 = Some x
     /\ c2 = SelectionController.drillDown c1
     /\ SelectionController.focusRoot c2 = Some x
     /\ (if (0 <? SelectionController.childrenLength c1 x)%nat
         then SelectionController.selectedPart c2 = None
              /\ SelectionController.navigationStack c2
                 = SelectionController.navigationStack c1 ++ [x]
              /\ SelectionController.partsArray c2 = SelectionController.partsArray c1
              /\ SelectionController.focusMode c2 = SelectionController.focusMode c1
         else c2 = c1))
  /\ (forall (s : SimpleStateMachine.t) (x : MechConfig.PartId),
        SimpleStateMachine.state (SimpleStateMachine.uiState s) = SimpleStateMachine.PartView ->
        SimpleStateMachine.selectedMajorPart (SimpleStateMachine.uiState s) = Some x ->
        SimpleStateMachine.hoveredPart (SimpleStateMachine.uiState s) = Some x ->
        MechConfig.isMajorPart x = true ->
        let r := SimpleStateMachine.selectHoveredPart s in
        fst r = true
        /\ SimpleStateMachine.state (SimpleStateMachine.uiState (snd r))
           = SimpleStateMachine.PartView
        /\ SimpleStateMachine.selectedMajorPart (SimpleStateMachine.uiState (snd r)) = Some x
        /\ SimpleStateMachine.partExplosion (SimpleStateMachine.uiState (snd r)) = 0
        /\ SimpleStateMachine.partExplosionTarget (snd r) = 0
        /\ SimpleStateMachine.globalExplosionTarget (snd r)
           = Rmax (SimpleStateMachine.globalExplosionTarget s) 1
        /\ (SimpleStateMachine.model s <> None ->
            Derived.laidOut (SimpleStateMachine.subRingFixedPositions s) x (snd r)
            /\ SimpleStateMachine.isTransitioning (snd r) = true)).
Proof.
  split.
  - intros c x Hnew c1 c2.
    assert (H1 : c1 = SelectionController.setFocusMode
                        (SelectionController.focusOnPart
                           (SelectionController.mkT (SelectionController.hasModel c)
                              (SelectionController.partsArray c) (Some x)
                              (SelectionController.focusMode c)
                              (SelectionController.focusRoot c)
                              (SelectionController.navigationStack c)) x)
                        SelectionController.part (Some x)).
    { subst c1. unfold SelectionController.setSelectedPart. rewrite Hnew. reflexivity. }
    assert (Hsel : SelectionController.selectedPart c1 = Some x) by (rewrite H1; reflexivity).
    assert (Hroot : SelectionController.focusRoot c1 = Some x) by (rewrite H1; reflexivity).
    assert (H2 : c2 = SelectionController.drillDown c1).
    { subst c2. unfold SelectionController.setSelectedPart at 1.
      rewrite Hsel. cbn [SelectionController.sameRef]. rewrite String.eqb_refl.
      reflexivity. }
    split; [exact Hsel |]. split; [exact Hroot |]. split; [exact H2 |].
    rewrite H2. unfold SelectionController.drillDown. rewrite Hsel.
    destruct (0 <? SelectionController.childrenLength c1 x)%nat.
    + cbn. auto.
    + auto.
  - intros s x Hs _ Hh Hmaj r.
    destruct (ReselectFacts.reselect_control s x Hs Hh Hmaj)
      as (R1 & R2 & R3 & R4 & R5 & R6).
    split; [exact R1 |]. split; [exact R2 |]. split; [exact R3 |].
    split; [exact R4 |]. split; [exact R5 |]. split; [exact R6 |].
    intros Hm. exact (ReselectFacts.reselect_layout s x Hs Hh Hmaj Hm).
Qed.

Lemma C8_reselect_witness :
  let arm := LoadMech.mkMechPart "Leftarm"%string
               (Three.mkObject3D (Three.mkVector3 0 0 0) (Three.mkVector3 0 0 0)
                  (Three.mkVector3 1 1 1) 3 false None)
               (Three.mkVector3 0 0 0) (Three.mkVector3 0 0 0)
               (Three.mkVector3 1 0 0) 0.6 0 in
  let c := SelectionController.mkT true [arm] None SelectionController.global None [] in
  let c1 := SelectionController.setSelectedPart c (Some "Leftarm"%string) in
  let c2 := SelectionController.setSelectedPart c1 (Some "Leftarm"%string) in
  SelectionController.focusRoot c2 = Some "Leftarm"%string
  /\ SelectionController.navigationStack c2 = ["Leftarm"%string].
Proof.
  intros arm c c1 c2.
  destruct (proj1 C8_reselect c "Leftarm"%string eq_refl) as (_ & _ & _ & H4 & H5).
  fold c1 c2 in H4, H5. split; [exact H4 |].
  change (0 <? SelectionController.childrenLength c1 "Leftarm")%nat with true in H5.
  destruct H5 as (_ & H & _). exact H.
Defined.

(** C8 fails on the state machine: the left arm has three children; selected
    a second time right after it was selected, the machine answers true and
    stays exactly as it is: nothing descends into the children. *)
Lemma C8_counterexample :
  let n := Three.mkObject3D (Three.mkVector3 0 1 0) (Three.mkVector3 0 0 0)
             (Three.mkVector3 1 1 1) 3 false None in
  let c := MechConfig.mkPartConfig "Leftarm"%string (Some n) None
             (Three.mkVector3 (-1) 0 0) 0.5
             (Some (Three.mkVector3 0 1 0)) (Some (Three.mkVector3 0 0 0)) in
  let s := SimpleStateMachine.run SimpleStateMachine.create
             [SimpleStateMachine.Init (LoadMech.mkMechModel [("Leftarm"%string, c)]);
              SimpleStateMachine.AdjustExplosion 0.2;
              SimpleStateMachine.SetHoveredPartId (Some "Leftarm"%string);
              SimpleStateMachine.SelectHoveredPart] in
  SimpleStateMachine.state (SimpleStateMachine.uiState s) = SimpleStateMachine.PartView
  /\ SimpleStateMachine.selectedMajorPart (SimpleStateMachine.uiState s)
     = Some "Leftarm"%string
  /\ SimpleStateMachine.hoveredPart (SimpleStateMachine.uiState s)
     = Some "Leftarm"%string
  /\ MechConfig.getChildParts "Leftarm"%string
     = ["Leftupperarm"; "Leftdownarm"; "Lefthand"]%string
  /\ MechConfig.hasChildren "Leftarm"%string = true
  /\ SimpleStateMachine.selectHoveredPart s = (true, s).
Proof.
  intros n c s.
  set (m := LoadMech.mkMechModel [("Leftarm"%string, c)]) in *.
  set (lay := SimpleStateMachine.calculateTransitionTargets
                (SimpleStateMachine.init SimpleStateMachine.create m)
                (Some "Leftarm"%string)).
  set (N := SimpleStateMachine.mkT (Some m)
              (SimpleStateMachine.mkUI SimpleStateMachine.PartView 0.5 0
                 (Some "Leftarm"%string) (Some "Leftarm"%string) 3
                 (MechConfig.majorParts MechConfig.MECH_HIERARCHY))
              1 0 SimpleStateMachine.initSubRingPositions
              (SimpleStateMachine.transitionTargets lay)
              (SimpleStateMachine.transitionScales lay) true true 3).
  assert (R1 : Rmax 0 0.5 = 0.5) by (real_cases; lra).
  assert (R2 : Rmax 0.5 0.5 = 0.5) by (real_cases; lra).
  assert (R3 : Rmax 1 1 = 1) by (real_cases; lra).
  assert (R4 : Rmax 0 (Rmin 1 (0 + 0.2)) = 0.2) by (real_cases; lra).
  assert (R5 : Rmax 0.2 1 = 1) by (real_cases; lra).
  assert (R6 : Rltb 0.1 0.2 = true) by (apply Rltb_true; lra).
  assert (R7 : Rltb 0.1 0.5 = true) by (apply Rltb_true; lra).
  assert (EN : SimpleStateMachine.selectHoveredPart N = (true, N)).
  { unfold SimpleStateMachine.selectHoveredPart, N.
    cbn [SimpleStateMachine.hoveredPart SimpleStateMachine.uiState
         SimpleStateMachine.state SimpleStateMachine.globalExplosion
         SimpleStateMachine.truthy negb String.eqb Ascii.eqb Bool.eqb
         SimpleStateMachine.state_eqb orb].
    rewrite R7.
    change (MechConfig.includes (MechConfig.majorParts MechConfig.MECH_HIERARCHY)
              "Leftarm"%string) with true.
    cbv iota zeta.
    unfold SimpleStateMachine.transitionTo.
    cbn [SimpleStateMachine.with_ui SimpleStateMachine.with_partTarget
         SimpleStateMachine.with_globalTarget SimpleStateMachine.ui_state
         SimpleStateMachine.ui_global SimpleStateMachine.ui_part
         SimpleStateMachine.ui_selected SimpleStateMachine.ui_index
         SimpleStateMachine.uiState SimpleStateMachine.state
         SimpleStateMachine.selectedMajorPart SimpleStateMachine.partExplosion
         SimpleStateMachine.globalExplosion SimpleStateMachine.hoveredPart
         SimpleStateMachine.currentPartIndex SimpleStateMachine.partList
         SimpleStateMachine.globalExplosionTarget
         SimpleStateMachine.partExplosionTarget SimpleStateMachine.model
         SimpleStateMachine.subRingFixedPositions
         SimpleStateMachine.transitionTargets SimpleStateMachine.transitionScales
         SimpleStateMachine.isTransitioning SimpleStateMachine.ringDecorationVisible
         SimpleStateMachine.selectedSubRingIndex SimpleStateMachine.state_eqb].
    rewrite R2, R3.
    change (MechConfig.indexOf (MechConfig.majorParts MechConfig.MECH_HIERARCHY)
              "Leftarm"%string) with 3%Z.
    unfold SimpleStateMachine.applyPartViewLayout.
    cbn [SimpleStateMachine.model SimpleStateMachine.uiState
         SimpleStateMachine.selectedMajorPart SimpleStateMachine.truthy
         negb String.eqb Ascii.eqb Bool.eqb].
    reflexivity. }
  assert (ES : s = N).
  { unfold s, SimpleStateMachine.run.
    cbn [fold_left SimpleStateMachine.step].
    set (s1 := SimpleStateMachine.init SimpleStateMachine.create m).
    assert (E2 : SimpleStateMachine.adjustExplosion s1 0.2
                 = SimpleStateMachine.hideRingDecoration
                     (SimpleStateMachine.with_ui
                        (SimpleStateMachine.with_globalTarget s1 0.2)
                        (SimpleStateMachine.ui_state (SimpleStateMachine.uiState s1)
                           SimpleStateMachine.Exploded))).
    { unfold SimpleStateMachine.adjustExplosion.
      change (SimpleStateMachine.state (SimpleStateMachine.uiState s1))
        with SimpleStateMachine.Assembled.
      cbn [SimpleStateMachine.state_eqb].
      change (SimpleStateMachine.globalExplosionTarget s1) with 0.
      rewrite R4.
      cbn [SimpleStateMachine.globalExplosionTarget SimpleStateMachine.with_globalTarget].
      rewrite R6. reflexivity. }
    rewrite E2.
    match goal with
    | |- snd (SimpleStateMachine.selectHoveredPart ?a) = _ => set (s3 := a)
    end.
    unfold SimpleStateMachine.selectHoveredPart.
    change (SimpleStateMachine.hoveredPart (SimpleStateMachine.uiState s3))
      with (Some "Leftarm"%string).
    change (SimpleStateMachine.state (SimpleStateMachine.uiState s3))
      with SimpleStateMachine.Exploded.
    cbn [SimpleStateMachine.truthy negb String.eqb Ascii.eqb Bool.eqb
         SimpleStateMachine.state_eqb orb].
    change (MechConfig.includes (MechConfig.majorParts MechConfig.MECH_HIERARCHY)
              "Leftarm"%string) with true.
    cbv iota zeta. cbn [snd].
    match goal with
    | |- SimpleStateMachine.applyPartViewLayout
           (SimpleStateMachine.transitionTo ?a _) = _ => set (s4 := a)
    end.
    unfold SimpleStateMachine.transitionTo.
    change (SimpleStateMachine.state (SimpleStateMachine.uiState s4))
      with SimpleStateMachine.Exploded.
    cbn [SimpleStateMachine.state_eqb]. cbv zeta.
    match goal with
    | |- SimpleStateMachine.applyPartViewLayout
           (SimpleStateMachine.applyPartViewLayout ?a) = _ => set (s5 := a)
    end.
    assert (E5 : s5 = SimpleStateMachine.mkT (Some m)
                   (SimpleStateMachine.mkUI SimpleStateMachine.PartView 0.5 0
                      (Some "Leftarm"%string) (Some "Leftarm"%string) 3
                      (MechConfig.majorParts MechConfig.MECH_HIERARCHY))
                   1 0 SimpleStateMachine.initSubRingPositions
                   (SimpleStateMachine.transitionTargets SimpleStateMachine.create)
                   (SimpleStateMachine.transitionScales SimpleStateMachine.create)
                   (SimpleStateMachine.isTransitioning SimpleStateMachine.create)
                   true
                   (SimpleStateMachine.selectedSubRingIndex SimpleStateMachine.create)).
    { rewrite <- R1 at 1. rewrite <- R3 at 1. rewrite <- R5 at 1. reflexivity. }
    rewrite E5. reflexivity. }
  rewrite ES.
  split; [reflexivity |]. split; [reflexivity |]. split; [reflexivity |].
  split; [reflexivity |]. split; [reflexivity |]. exact EN.
Qed.
(** * Further properties of the code *)

(** ** The keyboard and mouse state machine *)

Module MachineProps.
Import Three MechConfig LoadMech SimpleStateMachine Derived.

Lemma uiState_update (s : t) :
  uiState (update s) = tickUI s \/ update s = s.
Proof.
  destruct (model s) eqn:Hm.
  - left. destruct (MachineFacts.update_loaded s) as (U & _); [congruence |].
    exact U.
  - right. apply MachineFacts.update_unloaded, Hm.
Qed.

Lemma uiState_reset (s : t) :
  uiState (reset s) = mkUI Assembled 0 0 None None 0 (majorParts MECH_HIERARCHY)
  /\ globalExplosionTarget (reset s) = 0
  /\ partExplosionTarget (reset s) = 0
  /\ isTransitioning (reset s) = isTransitioning s
  /\ ringDecorationVisible (reset s) = ringDecorationVisible s
  /\ transitionTargets (reset s) = transitionTargets s
  /\ transitionScales (reset s) = transitionScales s.
Proof.
  unfold reset.
  cbn [model with_ui with_partTarget with_globalTarget].
  destruct (model s); cbn; repeat split; reflexivity.
Qed.

Lemma partList_step (s : t) (o : Op) :
  partList (uiState s) = majorParts MECH_HIERARCHY ->
  partList (uiState (step s o)) = majorParts MECH_HIERARCHY.
Proof.
  intros H.
  destruct o as [m | delta | | p | | d | d | | |]; cbn [step].
  - exact H.
  - destruct (state (uiState s)) eqn:Hs.
    + destruct (MachineFacts.adjustExplosion_global s delta) as (U & _);
        [congruence |].
      rewrite U. exact H.
    + destruct (MachineFacts.adjustExplosion_global s delta) as (U & _);
        [congruence |].
      rewrite U. exact H.
    + rewrite MachineFacts.adjustExplosion_partView by exact Hs. exact H.
  - destruct (uiState_update s) as [U | U]; rewrite U; exact H.
  - rewrite setHoveredPartId_spec. exact H.
  - destruct (MachineFacts.selectHoveredPart_cases s)
      as [E | (h & _ & _ & _ & [(_ & (U & _)) | (_ & _ & E)])].
    + rewrite E. exact H.
    + rewrite U. exact H.
    + rewrite E.
      destruct (MachineFacts.selectPart_control s (Some h)) as (U & _).
      rewrite U. exact H.
  - unfold navigate. set (dl := match d with up => _ | down => _ end).
    destruct (state (uiState s)) eqn:Hs.
    + rewrite MachineFacts.navigateInternal_idle by exact Hs. exact H.
    + rewrite MachineFacts.navigateInternal_exploded by exact Hs. exact H.
    + rewrite MachineFacts.navigateInternal_partView by exact Hs.
      match goal with
      | |- context [selectPart ?a ?b] =>
          destruct (MachineFacts.selectPart_control a b) as (U & _); rewrite U
      end.
      exact H.
  - unfold navigateLeftRight. set (dl := match d with left => _ | right => _ end).
    destruct (state (uiState s)) eqn:Hs.
    + rewrite MachineFacts.navigateInternal_idle by exact Hs. exact H.
    + rewrite MachineFacts.navigateInternal_exploded by exact Hs. exact H.
    + rewrite MachineFacts.navigateInternal_partView by exact Hs.
      match goal with
      | |- context [selectPart ?a ?b] =>
          destruct (MachineFacts.selectPart_control a b) as (U & _); rewrite U
      end.
      exact H.
  - destruct (state (uiState s)) eqn:Hs.
    + unfold goBack. rewrite Hs. exact H.
    + unfold goBack. rewrite Hs. exact H.
    + destruct (MachineFacts.goBack_partView s Hs) as (U & _). rewrite U. exact H.
  - destruct (uiState_reset s) as (U & _). rewrite U. reflexivity.
  - exact H.
Qed.

Lemma partList_run (l : list Op) : forall s : t,
  partList (uiState s) = majorParts MECH_HIERARCHY ->
  partList (uiState (run s l)) = majorParts MECH_HIERARCHY.
Proof.
  induction l as [| o l IH]; intros s H; [exact H |].
  apply IH, partList_step, H.
Qed.

(** The run used to exhibit a reachable part view: load a model, explode to
    0.2, hover a part and select it. *)
Lemma enter_partView (m : MechModel) (h : PartId) :
  isMajorPart h = true ->
  state (uiState (run create [Init m; AdjustExplosion 0.2;
                              SetHoveredPartId (Some h); SelectHoveredPart]))
  = PartView.
Proof.
  intros Hmaj.
  cbn [run fold_left step].
  set (s1 := adjustExplosion (init create m) 0.2).
  assert (H1 : state (uiState s1) = Exploded).
  { destruct (MachineFacts.adjustExplosion_global (init create m) 0.2) as (U & _).
    - simpl. discriminate.
    - fold s1 in U. rewrite U.
      cbn [init with_model create uiState globalExplosionTarget state ui_state
           state_eqb andb].
      rewrite Rltb_true; [reflexivity |].
      real_cases; lra. }
  rewrite setHoveredPartId_spec.
  set (s2 := with_ui s1 (ui_hovered (uiState s1) (Some h))).
  assert (H2 : state (uiState s2) = Exploded) by exact H1.
  destruct (MachineFacts.selectHoveredPart_cases s2)
    as [E | (h' & Hh & _ & _ & [(_ & (U & _)) | (C & _)])].
  - assert (F : fst (selectHoveredPart s2) = true).
    { apply (MachineFacts.selectHoveredPart_true s2 h).
      - reflexivity.
      - apply LayoutFacts.major_truthy, Hmaj.
      - exact Hmaj.
      - left. rewrite H2. reflexivity. }
    rewrite E in F. discriminate.
  - rewrite U. reflexivity.
  - rewrite H2 in C. discriminate.
Qed.

(** X1.  In every state the machine reaches from its initial state, while
    the state tag is PartView a major part is selected, the navigation index
    is the position of that part in the part list (the list of the seven
    major parts), the global target is held at 1 and the current global
    factor is at least 0.5. *)
Theorem partView_selection_consistent (l : list Op) :
  let s := run create l in
  state (uiState s) = PartView ->
  exists h : PartId,
    selectedMajorPart (uiState s) = Some h
    /\ isMajorPart h = true
    /\ currentPartIndex (uiState s) = indexOf (majorParts MECH_HIERARCHY) h
    /\ at_index (partList (uiState s)) (currentPartIndex (uiState s)) = Some h
    /\ globalExplosionTarget s = 1
    /\ 0.5 <= globalExplosion (uiState s) <= 1.
Proof.
  intros s Hs.
  destruct (MachineFacts.Inv_run l _ MachineFacts.Inv_create)
    as (_ & Hi & _ & _ & Hg & _ & Hpv).
  fold s in Hi, Hg, Hpv.
  destruct (Hpv Hs) as (Hsel & HT & Hlow).
  pose proof (partList_run l create eq_refl) as Hpl. fold s in Hpl.
  destruct (MachineFacts.at_index_in_range (majorParts MECH_HIERARCHY)
              (currentPartIndex (uiState s))) as (h & Hh).
  { change (Z.of_nat (List.length (majorParts MECH_HIERARCHY))) with 7%Z. exact Hi. }
  exists h.
  split; [rewrite Hsel; exact Hh |].
  split; [exact (MachineFacts.at_index_includes _ _ _ Hh) |].
  split.
  { symmetry. exact (MachineFacts.indexOf_of_at_index _ MachineFacts.majorParts_NoDup _ _ Hh). }
  split; [rewrite Hpl; exact Hh |].
  split; [exact HT | lra].
Qed.

Lemma partView_selection_consistent_witness :
  exists h : PartId,
    selectedMajorPart
      (uiState (run create [Init (mkMechModel []); AdjustExplosion 0.2;
                            SetHoveredPartId (Some "Head"%string);
                            SelectHoveredPart]))
    = Some h.
Proof.
  destruct (partView_selection_consistent
              [Init (mkMechModel []); AdjustExplosion 0.2;
               SetHoveredPartId (Some "Head"%string); SelectHoveredPart]
              (enter_partView (mkMechModel []) "Head"%string eq_refl))
    as (h & H & _).
  exists h. exact H.
Defined.

(** X2.  [selectHoveredPart()] returns true exactly when the hovered part is
    one of the seven major parts and the machine is Exploded, or in PartView,
    or its current global factor exceeds 0.1; then the machine is in PartView
    with the hovered part selected.  When it returns false the machine is
    left as it was. *)
Theorem selectHoveredPart_success_iff (s : t) :
  (fst (selectHoveredPart s) = true
   <-> exists h : PartId,
         hoveredPart (uiState s) = Some h
         /\ isMajorPart h = true
         /\ (state (uiState s) = Exploded
             \/ 0.1 < globalExplosion (uiState s)
             \/ state (uiState s) = PartView))
  /\ (fst (selectHoveredPart s) = true ->
      state (uiState (snd (selectHoveredPart s))) = PartView
      /\ selectedMajorPart (uiState (snd (selectHoveredPart s)))
         = hoveredPart (uiState s))
  /\ (fst (selectHoveredPart s) = false -> snd (selectHoveredPart s) = s).
Proof.
  pose proof (MachineFacts.selectHoveredPart_cases s) as C.
  split; [split |].
  - intros F.
    destruct C as [E | (h & Hh & Hmaj & _ & [(G & _) | (_ & Hpv & _)])].
    + rewrite E in F. discriminate.
    + exists h. split; [exact Hh |]. split; [exact Hmaj |].
      apply orb_true_iff in G. destruct G as [G | G].
      * left. apply MachineFacts.state_eqb_eq, G.
      * right. left.
        destruct (Rltb_spec 0.1 (globalExplosion (uiState s))) as [(_ & L) | (L & _)];
          [exact L | congruence].
    + exists h. auto.
  - intros (h & Hh & Hmaj & Hst).
    apply (MachineFacts.selectHoveredPart_true s h Hh
             (LayoutFacts.major_truthy h Hmaj) Hmaj).
    destruct Hst as [Hst | [Hst | Hst]].
    + left. rewrite Hst. reflexivity.
    + left. rewrite (Rltb_true _ _ Hst). apply orb_true_r.
    + right. exact Hst.
  - split.
    + intros F.
      destruct C as [E | (h & Hh & _ & _ & [(_ & (U & _)) | (_ & Hpv & E)])].
      * rewrite E in F. discriminate.
      * rewrite U, Hh. split; reflexivity.
      * rewrite E, Hh.
        destruct (MachineFacts.selectPart_control s (Some h)) as (U & _).
        rewrite U. split; [exact Hpv | reflexivity].
    + intros F.
      destruct C as [E | (h & _ & _ & T & _)].
      * rewrite E. reflexivity.
      * congruence.
Qed.

(** X3.  [goBack()] in Exploded only puts the global target to 0.  The frame
    update never changes the state tag: however many frames follow, the
    machine is still Exploded, with the current global factor within 0.001
    of 0 from some frame on; it is the next [adjustExplosion] with a delta
    below 0.05 that returns it to Assembled. *)
Theorem goBack_exploded_stays (s : t) :
  model s <> None ->
  state (uiState s) = Exploded ->
  (forall n : nat,
     let s' := updates n (goBack s) in
     state (uiState s') = Exploded
     /\ globalExplosionTarget s' = 0
     /\ selectedMajorPart (uiState s') = selectedMajorPart (uiState s)
     /\ forall delta : R, delta < 0.05 ->
          state (uiState (adjustExplosion s' delta)) = Assembled)
  /\ exists N : nat, forall n : nat, (N <= n)%nat ->
       Rabs (globalExplosion (uiState (updates n (goBack s)))) <= 0.001.
Proof.
  intros Hm Hs.
  assert (Hg : goBack s = with_globalTarget s 0).
  { unfold goBack. rewrite Hs. reflexivity. }
  assert (Hm' : model (goBack s) <> None) by (rewrite Hg; exact Hm).
  split.
  - intros n s'.
    destruct (TickFacts.updates_loaded n (goBack s) Hm') as (_ & T & _ & U).
    fold s' in T, U.
    assert (Hst : state (uiState s') = Exploded)
      by (rewrite U, Hg; exact Hs).
    split; [exact Hst |].
    split; [rewrite T, Hg; reflexivity |].
    split; [rewrite U, Hg; reflexivity |].
    intros delta Hd.
    destruct (MachineFacts.adjustExplosion_global s' delta) as (A & _);
      [congruence |].
    rewrite A, T, Hg, Hst.
    cbn [with_globalTarget globalExplosionTarget state_eqb andb ui_state state].
    rewrite andb_false_r.
    rewrite Rltb_true; [reflexivity |].
    real_cases; lra.
  - destruct (TickFacts.stepN_settles (globalExplosion (uiState s)) 0) as (N & HN).
    exists N. intros n Hn.
    destruct (TickFacts.updates_loaded n (goBack s) Hm') as (_ & _ & _ & U).
    rewrite U, Hg.
    cbn [with_globalTarget globalExplosionTarget uiState globalExplosion].
    destruct (HN n Hn) as (A & _).
    rewrite Rminus_0_r in A. exact A.
Qed.

Lemma goBack_exploded_stays_witness :
  let s := mkT (Some (mkMechModel []))
               (mkUI Exploded 1 0 None None 0 (majorParts MECH_HIERARCHY))
               1 0 initSubRingPositions JsMap.empty JsMap.empty false false (-1) in
  state (uiState (updates 100 (goBack s))) = Exploded.
Proof.
  intros s.
  refine (proj1 (proj1 (goBack_exploded_stays s _ eq_refl) 100%nat)).
  discriminate.
Defined.

Lemma get_map_values {A} (f : string -> A -> A) (m : JsMap.t A) (k : string) :
  JsMap.get (map (fun kv : string * A => (fst kv, f (fst kv) (snd kv))) m) k
  = option_map (f k) (JsMap.get m k).
Proof.
  induction m as [| [k' v] m IH]; [reflexivity |].
  cbn [map JsMap.get fst snd].
  destruct (String.eqb k' k) eqn:E.
  - apply String.eqb_eq in E. subst. reflexivity.
  - exact IH.
Qed.

(** What [reset()] does to one configuration of the model. *)
Lemma reset_model (s : t) (m : MechModel) :
  model s = Some m ->
  exists m', model (reset s) = Some m'
    /\ forall k : PartId,
         JsMap.get (parts m') k
         = option_map (onConfig (restorePosition k)) (JsMap.get (parts m) k).
Proof.
  intros Hm. unfold reset.
  cbn [model with_ui with_partTarget with_globalTarget].
  rewrite Hm. eexists. split; [reflexivity |].
  intros k. cbn [parts].
  rewrite <- (get_map_values (fun k c => onConfig (restorePosition k) c)).
  f_equal. apply map_ext. intros [k' c]. cbn [fst snd].
  unfold onConfig, restorePosition.
  destruct c as [i [n |] pa d di [o |] r]; reflexivity.
Qed.

(** X4.  [reset()] puts the machine in Assembled with both factors and both
    targets at 0 and nothing hovered or selected, and moves the node of
    every part that has an original position back to it.  It leaves the
    scale and rotation of every node, the transition flag, the layout
    targets and the visibility of the ring decoration as they were. *)
Theorem reset_restores_positions_only (s : t) :
  let s' := reset s in
  uiState s' = mkUI Assembled 0 0 None None 0 (majorParts MECH_HIERARCHY)
  /\ globalExplosionTarget s' = 0
  /\ partExplosionTarget s' = 0
  /\ isTransitioning s' = isTransitioning s
  /\ ringDecorationVisible s' = ringDecorationVisible s
  /\ transitionTargets s' = transitionTargets s
  /\ (forall (m : MechModel) (k : PartId) (c : PartConfig) (n : Object3D),
        model s = Some m ->
        JsMap.get (parts m) k = Some c ->
        node c = Some n ->
        exists (m' : MechModel) (c' : PartConfig) (n' : Object3D),
          model s' = Some m'
          /\ JsMap.get (parts m') k = Some c'
          /\ node c' = Some n'
          /\ position n' = match originalPosition c with
                           | Some o => o
                           | None => position n
                           end
          /\ scale n' = scale n
          /\ rotation n' = rotation n
          /\ originalPosition c' = originalPosition c).
Proof.
  intros s'. subst s'.
  destruct (uiState_reset s) as (U & G & P & T & V & L & _).
  repeat (split; [assumption |]).
  intros m k c n Hm Hc Hn.
  destruct (reset_model s m Hm) as (m' & Hm' & Hget).
  exists m', (onConfig (restorePosition k) c).
  unfold onConfig. rewrite Hn.
  exists (restorePosition k c n).
  split; [exact Hm' |].
  split; [rewrite Hget, Hc; cbn [option_map]; unfold onConfig; rewrite Hn; reflexivity |].
  split; [reflexivity |].
  unfold restorePosition.
  destruct (originalPosition c) eqn:E; cbn; rewrite ?E; repeat split; reflexivity.
Qed.

Lemma major_in (h : PartId) :
  isMajorPart h = true <-> In h (majorParts MECH_HIERARCHY).
Proof.
  unfold isMajorPart, includes. rewrite existsb_exists. split.
  - intros (k & Hin & E). apply String.eqb_eq in E. subst. exact Hin.
  - intros Hin. exists h. split; [exact Hin | apply String.eqb_refl].
Qed.

(** X5.  In every state the machine reaches, [getInteractableParts()] has no
    part twice and holds every major part; outside PartView it is the list
    of the major parts, and in PartView it starts with the selected part,
    followed by the children of that part. *)
Theorem interactable_parts (l : list Op) :
  let s := run create l in
  NoDup (getInteractableParts s)
  /\ (forall p : PartId, isMajorPart p = true -> In p (getInteractableParts s))
  /\ match selectedMajorPart (uiState s) with
     | Some sel =>
         exists rest : list PartId,
           getInteractableParts s = sel :: getChildParts sel ++ rest
           /\ forall p : PartId, In p rest -> isMajorPart p = true /\ p <> sel
     | None => getInteractableParts s = majorParts MECH_HIERARCHY
     end.
Proof.
  intros s.
  destruct (MachineFacts.Inv_run l _ MachineFacts.Inv_create)
    as (Hiff & Hi & _ & _ & _ & _ & Hpv).
  fold s in Hiff, Hi, Hpv.
  unfold getInteractableParts.
  destruct (selectedMajorPart (uiState s)) as [sel |] eqn:Hsel.
  - assert (Hs : state (uiState s) = PartView) by (apply Hiff; discriminate).
    destruct (Hpv Hs) as (Hat & _).
    try rewrite Hsel in Hat. symmetry in Hat.
    pose proof (MachineFacts.at_index_includes _ _ _ Hat) as Hmaj.
    rewrite Hs.
    destruct (LayoutFacts.major_cases sel Hmaj)
      as [-> | [-> | [-> | [-> | [-> | [-> | ->]]]]]];
      cbn [state_eqb andb truthy String.eqb Ascii.eqb Bool.eqb negb];
      (split; [cbn; repeat constructor; cbn; intuition discriminate |]);
      (split;
       [intros p Hp;
        destruct (LayoutFacts.major_cases p Hp)
          as [-> | [-> | [-> | [-> | [-> | [-> | ->]]]]]];
        cbn; tauto |]);
      eexists; (split; [reflexivity |]);
      intros p Hp; cbn in Hp;
      repeat (destruct Hp as [<- | Hp]; [split; [reflexivity | discriminate] |]);
      contradiction.
  - assert (Hs : state_eqb (state (uiState s)) PartView = false).
    { destruct (state (uiState s)) eqn:E; try reflexivity.
      exfalso. destruct Hiff as (_ & Hiff).
      apply Hiff; reflexivity. }
    rewrite Hs. cbn [andb].
    split; [exact MachineFacts.majorParts_NoDup |].
    split; [intros p Hp; apply major_in, Hp | reflexivity].
Qed.

End MachineProps.

(** ** The explode controller *)

Module ExplodeProps.
Import Three MechConfig LoadMech ExplodeController Derived Derived2.

Lemma reposed_refl (p : MechPart) : reposed p p.
Proof.
  exists (position (mesh p)), (rotation (mesh p)).
  destruct p as [nm [po ro sc cc sk os] bp br ed edist de]. reflexivity.
Qed.

Lemma updatePart_reposed (cache : JsMap.t PartData) (g : R) (p p0 : MechPart) :
  reposed p p0 -> reposed (updatePart cache g p) p0.
Proof.
  intros (pos & rot & ->). unfold updatePart.
  destruct (JsMap.get cache _); [| eexists; eexists; reflexivity].
  destruct (Rltb 0.01 _); eexists; eexists; reflexivity.
Qed.

Lemma map_updatePart_reposed (cache : JsMap.t PartData) (g : R)
    (l l0 : list MechPart) :
  Forall2 reposed l l0 -> Forall2 reposed (map (updatePart cache g) l) l0.
Proof.
  induction 1; cbn [map]; constructor; auto using updatePart_reposed.
Qed.

Lemma updatePartPositions_frame (c : t) :
  partsArray (updatePartPositions c)
  = map (updatePart (partDataCache c) (globalFactorCurrent c)) (partsArray c)
  /\ partDataCache (updatePartPositions c) = partDataCache c
  /\ hasModel (updatePartPositions c) = hasModel c
  /\ globalFactorCurrent (updatePartPositions c) = globalFactorCurrent c
  /\ globalFactorTarget (updatePartPositions c) = globalFactorTarget c
  /\ partFactorCurrent (updatePartPositions c) = partFactorCurrent c
  /\ partFactorTarget (updatePartPositions c) = partFactorTarget c
  /\ focusRoot (updatePartPositions c) = focusRoot c
  /\ currentLevel (updatePartPositions c) = currentLevel c.
Proof.
  unfold updatePartPositions.
  destruct (partsArray c) eqn:E; [rewrite E |]; cbn; repeat split; reflexivity.
Qed.

(** What no call after [setModel] changes: the cache, and the parts up to
    the pose of their meshes. *)
Lemma step_reposed (l0 : list MechPart) (c : t) (o : Op) :
  Forall2 reposed (partsArray c) l0 ->
  Forall2 reposed (partsArray (step c o)) l0
  /\ partDataCache (step c o) = partDataCache c.
Proof.
  intros H.
  destruct o as [[f | f | a | a | a | a | | |] | [ob |] | [|] f | a | a | |];
    cbn [step call]; try (split; [exact H | reflexivity]).
  - unfold increaseCurrentExplosion.
    destruct (currentLevel c); [| destruct (focusRoot c)];
      (split; [exact H | reflexivity]).
  - unfold decreaseCurrentExplosion.
    destruct (currentLevel c); [| destruct (focusRoot c)];
      (split; [exact H | reflexivity]).
  - unfold update. destruct (hasModel c); [| split; [exact H | reflexivity]].
    match goal with
    | |- context [updatePartPositions ?a] =>
        destruct (updatePartPositions_frame a) as (P & C & _); rewrite P, C
    end.
    split; [apply map_updatePart_reposed, H | reflexivity].
  - unfold resetImmediate.
    match goal with
    | |- context [updatePartPositions ?a] =>
        destruct (updatePartPositions_frame a) as (P & C & _); rewrite P, C
    end.
    split; [apply map_updatePart_reposed, H | reflexivity].
Qed.

Lemma run_reposed (l0 : list MechPart) (l : list Op) : forall c : t,
  Forall2 reposed (partsArray c) l0 ->
  Forall2 reposed (partsArray (run c l)) l0
  /\ partDataCache (run c l) = partDataCache c.
Proof.
  induction l as [| o l IH]; intros c H; [split; [exact H | reflexivity] |].
  cbn [run fold_left].
  destruct (step_reposed l0 c o H) as (H1 & C1).
  destruct (IH (step c o) H1) as (H2 & C2).
  split; [exact H2 | unfold run in C2; rewrite C2; exact C1].
Qed.

Lemma Forall2_refl_reposed (l : list MechPart) : Forall2 reposed l l.
Proof. induction l; constructor; auto using reposed_refl. Qed.

(** The entry the cache holds for a part after the loop of [initPartData]. *)
Lemma cache_fold_get (l : list MechPart) : forall (acc : JsMap.t PartData) (p : MechPart),
  NoDup (map name l) -> In p l ->
  JsMap.get
    (fold_left
       (fun c p =>
          JsMap.set c (name p)
            (mkPartData (position (mesh p)) (rotation (mesh p))
               (scale (mesh p)) (explodeDirection p) (LoadMech.explodeDistance p)
               (isSkinnedMesh (mesh p))))
       l acc) (name p)
  = Some (dataOf p).
Proof.
  induction l as [| a l IH]; intros acc p ND Hin; [contradiction |].
  cbn [fold_left]. inversion ND as [| ? ? Hnot ND']; subst.
  destruct Hin as [-> | Hin].
  - clear IH ND.
    assert (G : forall (l : list MechPart) (acc : JsMap.t PartData),
              ~ In (name p) (map name l) ->
              JsMap.get
                (fold_left
                   (fun c p =>
                      JsMap.set c (name p)
                        (mkPartData (position (mesh p)) (rotation (mesh p))
                           (scale (mesh p)) (explodeDirection p)
                           (LoadMech.explodeDistance p) (isSkinnedMesh (mesh p))))
                   l acc) (name p)
              = JsMap.get acc (name p)).
    { clear. induction l as [| a l IH]; intros acc Hn; [reflexivity |].
      cbn [fold_left]. rewrite IH.
      - apply MapFacts.get_set_other. intros E. apply Hn. left. exact E.
      - intros E. apply Hn. right. exact E. }
    rewrite G by exact Hnot. apply MapFacts.get_set_same.
  - apply IH; assumption.
Qed.

Lemma initPartData_get (l : list MechPart) (cache : JsMap.t PartData) (p : MechPart) :
  NoDup (map name l) -> In p l ->
  JsMap.get (initPartData l cache) (name p) = Some (dataOf p).
Proof.
  intros ND Hin. unfold initPartData.
  destruct l as [| a l]; [contradiction |].
  apply cache_fold_get; assumption.
Qed.

Lemma getPartsArray_names (m : MechModel) :
  NoDup (map fst (parts m)) -> NoDup (map name (getPartsArray m)).
Proof.
  unfold getPartsArray. destruct m as [ps]. cbn [parts].
  induction ps as [| [k c] ps IH]; intros ND; [constructor |].
  cbn [map fst] in ND. inversion ND as [| ? ? Hnot ND']; subst.
  cbn [flat_map].
  assert (Hsub : forall q, In q (map name
                   (flat_map
                      (fun kc : string * PartConfig =>
                         let (partId, config) := kc in
                         match node config with
                         | Some n =>
                             [mkMechPart partId n
                                match originalPosition config with
                                | Some p => p | None => position n end
                                match originalRotation config with
                                | Some r => r | None => rotation n end
                                (explodeDir config) (MechConfig.explodeDistance config)
                                match parentId config with
                                | Some _ => 1%nat | None => 0%nat end]
                         | None => []
                         end) ps)) -> In q (map fst ps)).
  { clear. induction ps as [| [k c] ps IH]; intros q Hq; [contradiction |].
    cbn [flat_map] in Hq. rewrite map_app in Hq. apply in_app_or in Hq.
    destruct Hq as [Hq | Hq].
    - destruct (node c); [| contradiction].
      destruct Hq as [<- | []]. left. reflexivity.
    - right. apply IH, Hq. }
  destruct (node c).
  - cbn [app map name]. constructor; [| apply IH, ND'].
    intros Hq. apply Hnot, Hsub, Hq.
  - apply IH, ND'.
Qed.

(** With the factor at 0 a part is put back on its cached base. *)
Lemma updatePart_zero (cache : JsMap.t PartData) (p p0 : MechPart) :
  reposed p p0 ->
  JsMap.get cache (name p0) = Some (dataOf p0) ->
  updatePart cache 0 p = p0.
Proof.
  intros (pos & rot & ->) Hc. unfold updatePart.
  cbn [withMesh name]. rewrite Hc.
  rewrite Rltb_false by (unfold GLOBAL_SCALE; lra).
  destruct p0 as [nm [[px py pz] ro sc cc sk os] bp br [dx dy dz] edist de].
  unfold dataOf, withMesh, setRotation, setPosition, add, multiplyScalar, GLOBAL_SCALE.
  cbn.
  repeat f_equal; ring.
Qed.

Lemma map_updatePart_zero (cache : JsMap.t PartData) (l l0 : list MechPart) :
  Forall2 reposed l l0 ->
  (forall p0 : MechPart, In p0 l0 ->
     JsMap.get cache (name p0) = Some (dataOf p0)) ->
  map (updatePart cache 0) l = l0.
Proof.
  induction 1 as [| p p0 l l0 R F IH]; intros Hc; [reflexivity |].
  cbn [map]. f_equal.
  - apply updatePart_zero; [exact R | apply Hc; left; reflexivity].
  - apply IH. intros q Hq. apply Hc. right. exact Hq.
Qed.

(** X6.  [resetImmediate()] undoes the explosion at once: after [setModel]
    on a model whose part ids are distinct, and any calls of the target
    setters, the focus setter, [update] and [resetImmediate] in any order, a
    final [resetImmediate()] leaves all four factors at 0 and every part
    exactly as the model delivered it, mesh position and rotation
    included. *)
Theorem resetImmediate_round_trip (c0 : t) (m : MechModel) (l : list Op) :
  NoDup (map fst (parts m)) ->
  let c := resetImmediate (run (setModel c0 m) l) in
  partsArray c = getPartsArray m
  /\ globalFactorCurrent c = 0 /\ globalFactorTarget c = 0
  /\ partFactorCurrent c = 0 /\ partFactorTarget c = 0.
Proof.
  intros ND c. subst c. unfold resetImmediate.
  match goal with
  | |- context [updatePartPositions ?a] =>
      destruct (updatePartPositions_frame a) as (P & _ & _ & G & GT & PC & PT & _);
      rewrite P, G, GT, PC, PT
  end.
  cbn [partsArray partDataCache globalFactorCurrent globalFactorTarget
       partFactorCurrent partFactorTarget].
  split; [| repeat split; reflexivity].
  destruct (run_reposed (getPartsArray m) l (setModel c0 m)
              (Forall2_refl_reposed _)) as (H & C).
  rewrite C. cbn [setModel partDataCache].
  apply map_updatePart_zero; [exact H |].
  intros p0 Hp0. apply initPartData_get; [apply getPartsArray_names, ND | exact Hp0].
Qed.

Lemma resetImmediate_round_trip_witness :
  let n := mkObject3D (mkVector3 0 1 0) (mkVector3 0 0 0) (mkVector3 1 1 1)
             0 false None in
  let m := mkMechModel
             [("Head"%string,
               mkPartConfig "Head"%string (Some n) None (mkVector3 0 1 0) 0.5
                            (Some (mkVector3 0 1 0)) (Some (mkVector3 0 0 0)))] in
  partsArray
    (resetImmediate
       (run (setModel create m) [Target (SetGlobal 1); Update; Update]))
  = getPartsArray m.
Proof.
  intros n m.
  refine (proj1 (resetImmediate_round_trip create m
                   [Target (SetGlobal 1); Update; Update] _)).
  cbn. constructor; [intros [] | constructor].
Defined.

Lemma step_level (c : t) (o : Op) :
  (currentLevel c = part <-> focusRoot c <> None) ->
  (currentLevel (step c o) = part <-> focusRoot (step c o) <> None).
Proof.
  intros H.
  destruct o as [[f | f | a | a | a | a | | |] | [ob |] | [|] f | a | a | |];
    cbn [step call]; try exact H.
  - cbn. split; [discriminate | reflexivity].
  - cbn. split; [discriminate | congruence].
  - assert (E : currentLevel (increaseCurrentExplosion c a) = currentLevel c
                /\ focusRoot (increaseCurrentExplosion c a) = focusRoot c).
    { unfold increaseCurrentExplosion.
      destruct (currentLevel c) eqn:L; [| destruct (focusRoot c) eqn:F];
        split; cbn; congruence. }
    destruct E as (E1 & E2). rewrite E1, E2. exact H.
  - assert (E : currentLevel (decreaseCurrentExplosion c a) = currentLevel c
                /\ focusRoot (decreaseCurrentExplosion c a) = focusRoot c).
    { unfold decreaseCurrentExplosion.
      destruct (currentLevel c) eqn:L; [| destruct (focusRoot c) eqn:F];
        split; cbn; congruence. }
    destruct E as (E1 & E2). rewrite E1, E2. exact H.
  - unfold update. destruct (hasModel c); [| exact H].
    match goal with
    | |- context [updatePartPositions ?a] =>
        destruct (updatePartPositions_frame a)
          as (_ & _ & _ & _ & _ & _ & _ & F & L); rewrite F, L
    end.
    exact H.
  - unfold resetImmediate.
    match goal with
    | |- context [updatePartPositions ?a] =>
        destruct (updatePartPositions_frame a)
          as (_ & _ & _ & _ & _ & _ & _ & F & L); rewrite F, L
    end.
    exact H.
Qed.

Lemma run_level (l : list Op) : forall c : t,
  (currentLevel c = part <-> focusRoot c <> None) ->
  (currentLevel (run c l) = part <-> focusRoot (run c l) <> None).
Proof.
  induction l as [| o l IH]; intros c H; [exact H |].
  apply IH, step_level, H.
Qed.

(** X7.  The level follows the focus root: after [setModel] on a fresh
    controller and any calls, the current level is 'part' exactly when a
    focus root is set, so that [increaseCurrentExplosion] and
    [decreaseCurrentExplosion] act on the part target when a focus root is
    set and on the global target otherwise, and [getCurrentExplosionFactor]
    reads the matching factor.  Setting a focus root restarts the part
    factor and its target at 0 and leaves the global ones alone. *)
Theorem current_level_follows_focus (m : MechModel) (l : list Op) :
  let c := run (setModel create m) l in
  (currentLevel c = part <-> focusRoot c <> None)
  /\ (forall a : R,
        increaseCurrentExplosion c a
        = match focusRoot c with
          | Some _ => increasePartExplosion c a
          | None => increaseGlobalExplosion c a
          end
        /\ decreaseCurrentExplosion c a
           = match focusRoot c with
             | Some _ => decreasePartExplosion c a
             | None => decreaseGlobalExplosion c a
             end)
  /\ getCurrentExplosionFactor c
     = match focusRoot c with
       | Some _ => partFactorCurrent c
       | None => globalFactorCurrent c
       end
  /\ (forall ob : Object3D,
        let c' := setFocusRoot c (Some ob) in
        partFactorCurrent c' = 0 /\ partFactorTarget c' = 0
        /\ globalFactorCurrent c' = globalFactorCurrent c
        /\ globalFactorTarget c' = globalFactorTarget c
        /\ partsArray c' = partsArray c).
Proof.
  intros c.
  assert (H : currentLevel c = part <-> focusRoot c <> None).
  { apply run_level. cbn. split; [discriminate | congruence]. }
  split; [exact H |].
  unfold increaseCurrentExplosion, decreaseCurrentExplosion,
    getCurrentExplosionFactor.
  destruct (currentLevel c) eqn:L; destruct (focusRoot c) eqn:F.
  - exfalso. destruct H as (_ & H). discriminate H. discriminate.
  - repeat split; reflexivity.
  - repeat split; reflexivity.
  - exfalso. destruct H as (H & _). apply H; reflexivity.
Qed.

Lemma smoothValue_range (current target : R) :
  0 <= current <= 1 -> 0 <= target <= 1 ->
  0 <= smoothValue current target SMOOTHING <= 1.
Proof.
  intros Hc Ht.
  unfold smoothValue, SMOOTHING, MAX_CHANGE_PER_FRAME, CHANGE_THRESHOLD.
  real_cases; lra.
Qed.

Lemma step_in_range (c : t) (o : Op) :
  nonneg_op o -> in_range c -> in_range (step c o).
Proof.
  intros Hn (G & GT & P & PT).
  destruct o as [[f | f | a | a | a | a | | |] | [ob |] | [|] f | a | a | |];
    cbn [step call nonneg_op nonneg_call] in *.
  - unfold in_range; cbn. repeat split; try tauto; apply clamp01_range.
  - unfold in_range; cbn. repeat split; try tauto; apply clamp01_range.
  - unfold in_range; cbn. repeat split; try tauto; real_cases; lra.
  - unfold in_range; cbn. repeat split; try tauto; real_cases; lra.
  - unfold in_range; cbn. repeat split; try tauto; real_cases; lra.
  - unfold in_range; cbn. repeat split; try tauto; real_cases; lra.
  - unfold in_range; cbn. repeat split; try tauto; lra.
  - unfold in_range; cbn. repeat split; try tauto; lra.
  - unfold in_range; cbn. repeat split; try tauto; lra.
  - unfold in_range; cbn. repeat split; try tauto; lra.
  - unfold in_range; cbn. repeat split; try tauto; lra.
  - unfold in_range; cbn. repeat split; try tauto; apply clamp01_range.
  - unfold in_range; cbn. repeat split; try tauto; apply clamp01_range.
  - unfold increaseCurrentExplosion.
    destruct (currentLevel c); [| destruct (focusRoot c)];
      unfold in_range; cbn; repeat split; try tauto; real_cases; lra.
  - unfold decreaseCurrentExplosion.
    destruct (currentLevel c); [| destruct (focusRoot c)];
      unfold in_range; cbn; repeat split; try tauto; real_cases; lra.
  - unfold update. destruct (hasModel c); [| repeat split; tauto].
    unfold in_range.
    match goal with
    | |- context [updatePartPositions ?a] =>
        destruct (updatePartPositions_frame a)
          as (_ & _ & _ & E1 & E2 & E3 & E4 & _); rewrite E1, E2, E3, E4
    end.
    cbn [globalFactorCurrent globalFactorTarget partFactorCurrent partFactorTarget].
    pose proof (smoothValue_range _ _ G GT).
    pose proof (smoothValue_range _ _ P PT).
    tauto.
  - unfold resetImmediate, in_range.
    match goal with
    | |- context [updatePartPositions ?a] =>
        destruct (updatePartPositions_frame a)
          as (_ & _ & _ & E1 & E2 & E3 & E4 & _); rewrite E1, E2, E3, E4
    end.
    cbn. lra.
Qed.

(** X8.  As long as the amounts passed to the increase and decrease calls
    are not negative, the two targets and the two current factors of the
    explode controller stay in [0, 1] through any calls and updates.  The
    increase and decrease calls clamp on one side only: a negative amount is
    not caught, [increaseGlobalExplosion(-1)] on a fresh controller leaves
    the global target at -1. *)
Theorem explode_factors_in_range (m : MechModel) (l : list Op) :
  Forall nonneg_op l ->
  in_range (run (setModel create m) l).
Proof.
  intros H.
  assert (I0 : in_range (setModel create m)) by (unfold in_range; cbn; lra).
  revert I0. generalize (setModel create m).
  induction H as [| o l Ho Hl IH]; intros c I; [exact I |].
  cbn [run fold_left]. apply IH, step_in_range; assumption.
Qed.

Lemma explode_factors_in_range_witness :
  in_range (run (setModel create (mkMechModel []))
                [Target (IncGlobal 0.02); Update; IncreaseCurrent 2;
                 Target (DecPart 0.5)])
  /\ globalFactorTarget (increaseGlobalExplosion create (-1)) = -1.
Proof.
  split.
  - apply explode_factors_in_range.
    repeat constructor; cbn; lra.
  - cbn. real_cases; lra.
Defined.

Lemma updates_posed (n : nat) : forall c : t,
  hasModel c = true -> posed (updates (S n) c).
Proof.
  induction n as [| n IH]; intros c Hc.
  - apply PoseFacts.update_posed, Hc.
  - change (updates (S (S n)) c) with (updates (S n) (update c)).
    apply IH.
    destruct (SmootherFacts.updates_factors 1 c Hc) as (H & _). exact H.
Qed.

(** Frames are runs of [Update]. *)
Lemma updates_run (k : nat) : forall c : t, updates k c = run c (repeat Update k).
Proof.
  induction k as [| k IH]; intros c; [reflexivity |].
  cbn [updates repeat]. rewrite IH. reflexivity.
Qed.

(** X9.  After [reset()] on a controller with a model, from some tick on
    both current factors are exactly 0: [isFullyAssembled()] is true,
    [isFullyExploded()] and the [isAnimating] flag of [getState()] are false,
    and every part with a cache entry stands on its cached base position and
    rotation. *)
Theorem reset_reaches_assembled (c : t) :
  hasModel c = true ->
  exists N : nat, forall n : nat, (N <= n)%nat ->
    let c' := updates n (reset c) in
    globalFactorCurrent c' = 0 /\ partFactorCurrent c' = 0
    /\ isFullyAssembled c' = true
    /\ isFullyExploded c' = false
    /\ isAnimating c' = false
    /\ forall (p : MechPart) (data : PartData),
         In p (partsArray c') ->
         JsMap.get (partDataCache c') (name p) = Some data ->
         position (mesh p) = pd_basePosition data
         /\ rotation (mesh p) = pd_baseRotation data.
Proof.
  intros Hm.
  destruct (SmootherFacts.smoothN_converges (globalFactorCurrent c) 0) as (N1 & H1).
  destruct (SmootherFacts.smoothN_converges (partFactorCurrent c) 0) as (N2 & H2).
  exists (S (Nat.max N1 N2)). intros n Hn c'.
  assert (Hm' : hasModel (reset c) = true) by exact Hm.
  destruct (SmootherFacts.updates_factors n (reset c) Hm')
    as (_ & GT & PT & G & P & _).
  fold c' in GT, PT, G, P.
  cbn [reset withPartTarget withGlobalTarget globalFactorTarget partFactorTarget
       globalFactorCurrent partFactorCurrent] in GT, PT, G, P.
  rewrite H1 in G by lia. rewrite H2 in P by lia.
  split; [exact G |]. split; [exact P |].
  unfold isFullyAssembled, isFullyExploded, isAnimating.
  rewrite G, P, GT, PT.
  split; [rewrite !Rltb_true by lra; reflexivity |].
  split; [destruct (currentLevel c'); apply Rltb_false; lra |].
  split.
  { rewrite Rminus_0_r, Rabs_R0.
    rewrite Rltb_false by (unfold CHANGE_THRESHOLD; lra). reflexivity. }
  assert (Hp : posed c').
  { subst c'. destruct n as [| n]; [lia |]. apply updates_posed, Hm'. }
  intros p data Hin Hget.
  destruct (Hp p data Hin Hget) as (A & B).
  rewrite A, B, G.
  unfold explodedPosition, explodedRotation.
  rewrite Rltb_false by lra.
  split; [| reflexivity].
  destruct (pd_basePosition data) as [bx by_ bz].
  unfold add, multiplyScalar. cbn. f_equal; ring.
Qed.

Lemma reset_reaches_assembled_witness :
  let n := mkObject3D (mkVector3 0 1 0) (mkVector3 0 0 0) (mkVector3 1 1 1)
             0 false None in
  let m := mkMechModel
             [("Head"%string,
               mkPartConfig "Head"%string (Some n) None (mkVector3 0 1 0) 0.5
                            (Some (mkVector3 0 1 0)) (Some (mkVector3 0 0 0)))] in
  let c := run (setModel create m) [Target (SetGlobal 1); Update; Update] in
  globalFactorTarget c = 1
  /\ globalFactorCurrent c = 0.1
  /\ isFullyAssembled c = false
  /\ exists N : nat, forall k : nat, (N <= k)%nat ->
       let c' := updates k (reset c) in
       globalFactorCurrent c' = 0
       /\ isFullyAssembled c' = true
       /\ isAnimating c' = false
       /\ exists p : MechPart,
            partsArray c' = [p] /\ name p = "Head"%string
            /\ position (mesh p) = mkVector3 0 1 0
            /\ rotation (mesh p) = mkVector3 0 0 0.
Proof.
  intros n m c.
  set (c0 := setGlobalExplosionTarget (setModel create m) 1).
  assert (Ec : c = updates 2 c0) by reflexivity.
  assert (Hm0 : hasModel c0 = true) by reflexivity.
  destruct (SmootherFacts.updates_factors 2 c0 Hm0) as (Hm & GT & _ & G & _).
  rewrite <- Ec in Hm, GT, G.
  assert (E1 : Rmax 0 (Rmin 1 1) = 1) by (real_cases; lra).
  assert (GT' : globalFactorTarget c = 1).
  { rewrite GT. cbn. exact E1. }
  assert (G' : globalFactorCurrent c = 0.1).
  { rewrite G. unfold c0.
    cbn [setGlobalExplosionTarget withGlobalTarget globalFactorTarget
         globalFactorCurrent setModel create].
    rewrite E1. cbn [smoothN].
    assert (S1 : smoothValue 0 1 SMOOTHING = 0.05).
    { unfold smoothValue, SMOOTHING, MAX_CHANGE_PER_FRAME, CHANGE_THRESHOLD.
      real_cases; lra. }
    rewrite S1.
    unfold smoothValue, SMOOTHING, MAX_CHANGE_PER_FRAME, CHANGE_THRESHOLD.
    real_cases; lra. }
  split; [exact GT' |]. split; [exact G' |].
  split. { unfold isFullyAssembled. rewrite G'. rewrite Rltb_false by lra. reflexivity. }
  destruct (reset_reaches_assembled c Hm) as (N & H).
  exists N. intros k Hk c'.
  destruct (H k Hk) as (A & _ & B & _ & C & D).
  split; [exact A |]. split; [exact B |]. split; [exact C |].
  assert (R : Forall2 reposed (partsArray c') (getPartsArray m)
              /\ partDataCache c' = partDataCache (setModel create m)).
  { unfold c'. rewrite updates_run.
    change (run (reset c) (repeat Update k))
      with (run (setModel create m)
              ([Target (SetGlobal 1); Update; Update; Target Reset] ++ repeat Update k)).
    apply run_reposed, Forall2_refl_reposed. }
  destruct R as (R1 & R2).
  change (getPartsArray m)
    with [mkMechPart "Head"%string n (mkVector3 0 1 0) (mkVector3 0 0 0)
            (mkVector3 0 1 0) 0.5 0] in R1.
  inversion R1 as [| p p0 l l0 Hp Hl E1' E2']. subst.
  inversion Hl. subst.
  destruct Hp as (pos & rot & Ep).
  exists p. split; [reflexivity |].
  assert (Hn : name p = "Head"%string) by (rewrite Ep; reflexivity).
  split; [exact Hn |].
  apply (D p (mkPartData (mkVector3 0 1 0) (mkVector3 0 0 0) (mkVector3 1 1 1)
                (mkVector3 0 1 0) 0.5 false)).
  - fold c'. rewrite <- E1'. left. reflexivity.
  - fold c'. rewrite R2, Hn. reflexivity.
Defined.

End ExplodeProps.

(** ** The selection controller *)

Module SelectionProps.
Import Three MechConfig LoadMech SelectionController.

Lemma restoreAllParts_frame (c : t) :
  selectedPart (restoreAllParts c) = selectedPart c
  /\ focusMode (restoreAllParts c) = focusMode c
  /\ focusRoot (restoreAllParts c) = focusRoot c
  /\ navigationStack (restoreAllParts c) = navigationStack c
  /\ hasModel (restoreAllParts c) = hasModel c.
Proof. repeat split; reflexivity. Qed.

(** [goBack] with a part on the stack. *)
Lemma goBack_pop (c : t) (st : list string) (x : string) :
  navigationStack c = st ++ [x] ->
  selectedPart (goBack c) = Some x
  /\ navigationStack (goBack c) = st
  /\ focusRoot (goBack c) = hd_error (rev st)
  /\ focusMode (goBack c) = match st with [] => global | _ => focusMode c end
  /\ partsArray (goBack c) = partsArray (restoreAllParts c)
  /\ hasModel (goBack c) = hasModel c.
Proof.
  intros H. unfold goBack. rewrite H, rev_app_distr. cbn [rev app].
  destruct (rev st) as [| parent rest] eqn:E.
  - assert (st = []) as ->.
    { apply (f_equal (@rev string)) in E. rewrite rev_involutive in E. exact E. }
    cbn. repeat split; reflexivity.
  - assert (Hst : st = rev (parent :: rest)).
    { rewrite <- E. symmetry. apply rev_involutive. }
    cbn [restoreAllParts withParts selectedPart navigationStack focusRoot
         focusMode partsArray hasModel hd_error].
    rewrite <- Hst.
    destruct st as [| a st']; [destruct rest; discriminate |].
    repeat split; reflexivity.
Qed.

Lemma goBack_idle (c : t) :
  navigationStack c = [] ->
  goBack c = match focusMode c with part => clearSelection c | global => c end.
Proof. intros H. unfold goBack. rewrite H. reflexivity. Qed.

Lemma stack_cases (l : list string) :
  l = [] \/ exists (st : list string) (x : string), l = st ++ [x].
Proof.
  destruct (rev l) as [| x r] eqn:E.
  - left. apply (f_equal (@rev string)) in E. rewrite rev_involutive in E. exact E.
  - right. exists (rev r), x.
    apply (f_equal (@rev string)) in E. rewrite rev_involutive in E. exact E.
Qed.

(** X10.  The two affordance flags of [getState()] are exact.  When
    [canGoBack] is false [goBack()] changes nothing, and when it is true
    [goBack()] shortens the navigation stack or leaves the 'part' focus
    mode.  When [canDrillDown] is false [drillDown()] changes nothing, and
    when it is true it pushes the selected part on the stack, makes it the
    focus root and clears the selection. *)
Theorem selection_flags_exact (c : t) :
  (canGoBack c = false -> goBack c = c)
  /\ (canGoBack c = true ->
      (List.length (navigationStack (goBack c))
       < List.length (navigationStack c))%nat
      \/ (focusMode c = part /\ focusMode (goBack c) = global))
  /\ (canDrillDown c = false -> drillDown c = c)
  /\ (canDrillDown c = true ->
      exists p : string,
        selectedPart c = Some p
        /\ selectedPart (drillDown c) = None
        /\ focusRoot (drillDown c) = Some p
        /\ navigationStack (drillDown c) = navigationStack c ++ [p]).
Proof.
  unfold canGoBack, canDrillDown.
  split; [| split; [| split]].
  - intros H. apply orb_false_iff in H. destruct H as (H1 & H2).
    destruct (navigationStack c) eqn:E; [| discriminate].
    rewrite (goBack_idle c E). destruct (focusMode c); [reflexivity | discriminate].
  - intros H.
    destruct (stack_cases (navigationStack c)) as [E | (st & x & E)].
    + right. rewrite (goBack_idle c E). rewrite E in H. cbn in H.
      destruct (focusMode c); [discriminate |]. split; reflexivity.
    + left. destruct (goBack_pop c st x E) as (_ & S & _).
      rewrite S, E, length_app. cbn. lia.
  - intros H. unfold drillDown.
    destruct (selectedPart c); [| reflexivity]. rewrite H. reflexivity.
  - intros H. unfold drillDown.
    destruct (selectedPart c) as [p |]; [| discriminate].
    exists p. rewrite H. repeat split; reflexivity.
Qed.

(** X11.  Drilling into the selected part and going back is not a round
    trip.  [goBack()] after a successful [drillDown()] selects the part
    again and restores the navigation stack, but the focus root becomes the
    part below it on the stack, and at the top level the focus root is null
    and the focus mode is 'global' although a part is selected; from there a
    further [goBack()] changes nothing, so the selection stays. *)
Theorem drillDown_then_goBack (c : t) (x : string) :
  selectedPart c = Some x ->
  (0 < childrenLength c x)%nat ->
  let c' := goBack (drillDown c) in
  selectedPart c' = Some x
  /\ navigationStack c' = navigationStack c
  /\ focusRoot c' = hd_error (rev (navigationStack c))
  /\ (navigationStack c = [] ->
      focusRoot c' = None /\ focusMode c' = global /\ goBack c' = c').
Proof.
  intros Hsel Hch c'.
  assert (Hd : navigationStack (drillDown c) = navigationStack c ++ [x]).
  { unfold drillDown. rewrite Hsel.
    apply Nat.ltb_lt in Hch. rewrite Hch. reflexivity. }
  destruct (goBack_pop (drillDown c) (navigationStack c) x Hd)
    as (S1 & S2 & S3 & S4 & _).
  fold c' in S1, S2, S3, S4.
  split; [exact S1 |]. split; [exact S2 |]. split; [exact S3 |].
  intros E. rewrite E in S3, S4. cbn in S3.
  split; [exact S3 |]. split; [exact S4 |].
  rewrite goBack_idle by (rewrite S2; exact E).
  rewrite S4. reflexivity.
Qed.

Lemma drillDown_then_goBack_witness :
  let arm := mkMechPart "Leftarm"%string
               (mkObject3D (mkVector3 0 0 0) (mkVector3 0 0 0) (mkVector3 1 1 1)
                           3 false None)
               (mkVector3 0 0 0) (mkVector3 0 0 0) (mkVector3 1 0 0) 0.6 0 in
  let c := mkT true [arm] (Some "Leftarm"%string) part (Some "Leftarm"%string) [] in
  selectedPart (goBack (drillDown c)) = Some "Leftarm"%string
  /\ focusMode (goBack (drillDown c)) = global.
Proof.
  intros arm c.
  pose proof (drillDown_then_goBack c "Leftarm"%string eq_refl) as H.
  assert (Hch : (0 < childrenLength c "Leftarm")%nat) by (cbn; lia).
  destruct (H Hch) as (H1 & _ & _ & H4).
  split; [exact H1 |].
  exact (proj1 (proj2 (H4 eq_refl))).
Defined.

Lemma goBacks_settled (n : nat) : forall c : t,
  navigationStack c = [] -> focusMode c = global -> goBacks n c = c.
Proof.
  induction n as [| n IH]; intros c E M; [reflexivity |].
  cbn [goBacks]. rewrite goBack_idle by exact E. rewrite M. apply IH; assumption.
Qed.

Lemma goBacks_exhaust (k : nat) : forall c : t,
  List.length (navigationStack c) = k ->
  let c' := goBacks (S k) c in
  navigationStack c' = [] /\ focusMode c' = global.
Proof.
  induction k as [| k IH]; intros c Hk c'; subst c'.
  - apply length_zero_iff_nil in Hk.
    cbn [goBacks]. rewrite (goBack_idle c Hk).
    destruct (focusMode c) eqn:M.
    + split; assumption.
    + cbn. split; reflexivity.
  - destruct (stack_cases (navigationStack c)) as [E | (st & x & E)].
    + rewrite E in Hk. discriminate.
    + destruct (goBack_pop c st x E) as (_ & S2 & _).
      change (goBacks (S (S k)) c) with (goBacks (S k) (goBack c)).
      apply IH. rewrite S2. rewrite E, length_app in Hk. cbn in Hk. lia.
Qed.

Lemma goBacks_plus (n k : nat) : forall c : t,
  goBacks (n + k) c = goBacks k (goBacks n c).
Proof.
  induction n as [| n IH]; intros c; [reflexivity |].
  cbn [Nat.add goBacks]. apply IH.
Qed.

(** X12.  Going back always ends at the top level: after one [goBack()]
    more than the navigation stack is deep, the stack is empty, the focus
    mode is 'global' and [canGoBack] is false, and any further [goBack()]
    changes nothing. *)
Theorem goBack_reaches_top (c : t) (n : nat) :
  let top := goBacks (S (List.length (navigationStack c))) c in
  navigationStack top = []
  /\ focusMode top = global
  /\ canGoBack top = false
  /\ goBacks (S (List.length (navigationStack c)) + n) c = top.
Proof.
  intros top.
  destruct (goBacks_exhaust _ c eq_refl) as (E & M). fold top in E, M.
  split; [exact E |]. split; [exact M |].
  split; [unfold canGoBack; rewrite E, M; reflexivity |].
  rewrite goBacks_plus. fold top. apply goBacks_settled; assumption.
Qed.

End SelectionProps.

(** ** The hierarchy tables and the binding of the loaded model *)

Module ConfigProps.
Import Three MechConfig LoadMech Derived3.

Lemma normalize_unit (a : Vector3) :
  0 < x a * x a + y a * y a + z a * z a -> length (normalize a) = 1.
Proof.
  intros H. unfold normalize, length.
  set (S := x a * x a + y a * y a + z a * z a) in *.
  assert (Hl : 0 < sqrt S) by (apply sqrt_lt_R0, H).
  destruct (Req_dec_T (sqrt S) 0) as [E | _]; [lra |].
  unfold multiplyScalar. cbn [x y z].
  assert (Hrr : sqrt S * sqrt S = S) by (apply sqrt_sqrt; lra).
  replace (x a * (1 / sqrt S) * (x a * (1 / sqrt S))
           + y a * (1 / sqrt S) * (y a * (1 / sqrt S))
           + z a * (1 / sqrt S) * (z a * (1 / sqrt S)))
    with ((x a * x a + y a * y a + z a * z a) / (sqrt S * sqrt S))
    by (field; lra).
  fold S. rewrite Hrr.
  replace (S / S) with 1 by (field; lra).
  apply sqrt_1.
Qed.

Ltac ids_cases H :=
  cbn [getAllPartIds In] in H;
  repeat (destruct H as [<- | H]; [| ]); [.. | contradiction].

Lemma offset_of_id (k : PartId) :
  In k getAllPartIds ->
  exists e : ExplodeOffset,
    JsMap.get EXPLODE_OFFSETS k = Some e
    /\ 0 < distance e
    /\ 0 < x (direction e) * x (direction e) + y (direction e) * y (direction e)
           + z (direction e) * z (direction e).
Proof.
  intros H. ids_cases H;
    (eexists; split; [reflexivity |]; cbn [off distance direction x y z]; lra).
Qed.

Lemma offset_only_ids (k : PartId) :
  JsMap.get EXPLODE_OFFSETS k <> None -> In k getAllPartIds.
Proof.
  unfold EXPLODE_OFFSETS. cbn [JsMap.get getAllPartIds In].
  repeat match goal with
         | |- context [String.eqb ?a k] =>
             destruct (String.eqb_spec a k);
               [subst; repeat (first [left; reflexivity | right]) |]
         end.
  congruence.
Qed.

Ltac eqb_cases p :=
  repeat match goal with
         | |- context [String.eqb ?a p] =>
             destruct (String.eqb_spec a p); [subst |]
         | H : context [String.eqb ?a p] |- _ =>
             destruct (String.eqb_spec a p); [subst |]
         end.

Lemma parentOf_spec (k : PartId) (p : MajorPartId) :
  In k getAllPartIds ->
  (parentOf k = Some p <-> In k (getChildParts p)).
Proof.
  intros H. unfold getChildParts.
  cbn [MECH_HIERARCHY childrenMap JsMap.get].
  ids_cases H;
    (match goal with
     | |- parentOf ?a = _ <-> _ =>
         let v := eval vm_compute in (parentOf a) in
         change (parentOf a) with v
     end);
    eqb_cases p; cbn [In];
    (split; [intros E; first [discriminate E | injection E as E; congruence | tauto]
            | intros E; first [contradiction
                              | reflexivity
                              | exfalso; intuition congruence]]).
Qed.

Lemma major_not_child (k : PartId) (p : MajorPartId) :
  isMajorPart k = true -> ~ In k (getChildParts p).
Proof.
  intros Hk Hin.
  destruct (LayoutFacts.major_cases k Hk)
    as [-> | [-> | [-> | [-> | [-> | [-> | ->]]]]]];
    unfold getChildParts in Hin;
    cbn [MECH_HIERARCHY childrenMap JsMap.get] in Hin;
    eqb_cases p; cbn [In] in Hin; intuition discriminate.
Qed.

(** X13.  [createPartConfig] succeeds on each of the nineteen part ids and
    on no other id (reading the offset of an unknown id throws).  The
    configuration it builds has a unit explode direction and a positive
    explode distance, remembers the position and rotation of the node it is
    given, and names as parent exactly the part whose children list holds
    the id: every part has at most one parent, and a major part has none. *)
Theorem createPartConfig_wellformed (k : PartId) (n : option Object3D) :
  (createPartConfig k n <> None <-> In k getAllPartIds)
  /\ forall c : PartConfig,
       createPartConfig k n = Some c ->
       id c = k /\ node c = n
       /\ length (explodeDir c) = 1
       /\ 0 < MechConfig.explodeDistance c
       /\ originalPosition c = option_map position n
       /\ originalRotation c = option_map rotation n
       /\ (forall p : MajorPartId, parentId c = Some p <-> In k (getChildParts p))
       /\ (isMajorPart k = true -> parentId c = None).
Proof.
  assert (Hid : createPartConfig k n <> None -> In k getAllPartIds).
  { unfold createPartConfig. intros H. apply offset_only_ids.
    destruct (JsMap.get EXPLODE_OFFSETS k); congruence. }
  split.
  - split; [exact Hid |].
    intros H. destruct (offset_of_id k H) as (e & He & _).
    unfold createPartConfig. rewrite He. discriminate.
  - intros c Hc.
    assert (Hin : In k getAllPartIds) by (apply Hid; congruence).
    destruct (offset_of_id k Hin) as (e & He & Hd & Hn).
    unfold createPartConfig in Hc. rewrite He in Hc.
    injection Hc as <-. cbn [id node explodeDir MechConfig.explodeDistance
                              originalPosition originalRotation parentId].
    split; [reflexivity |]. split; [reflexivity |].
    split; [apply normalize_unit, Hn |].
    split; [exact Hd |].
    split; [reflexivity |]. split; [reflexivity |].
    split; [intros p; apply parentOf_spec, Hin |].
    intros Hmaj.
    destruct (parentOf k) as [p |] eqn:E; [| reflexivity].
    exfalso. apply (major_not_child k p Hmaj).
    apply parentOf_spec; assumption.
Qed.

Section Lowering.
Variable toLowerCase : string -> string.
Hypothesis Hlower : lowersAscii toLowerCase.

Lemma ids_ascii : Forall (fun k : PartId => isAscii k = true) getAllPartIds.
Proof. repeat constructor. Qed.

Lemma lower_ids_NoDup : NoDup (map toLowerCase getAllPartIds).
Proof.
  assert (E : map toLowerCase getAllPartIds = map asciiLowerCase getAllPartIds).
  { apply map_ext_in. intros k Hk. apply Hlower.
    exact (proj1 (Forall_forall _ _) ids_ascii k Hk). }
  rewrite E. vm_compute. repeat constructor; cbn; intuition discriminate.
Qed.

Lemma NoDup_map_inj {A B} (f : A -> B) (l : list A) (a b : A) :
  NoDup (map f l) -> In a l -> In b l -> f a = f b -> a = b.
Proof.
  induction l as [| c l IH]; intros ND Ha Hb E; [contradiction |].
  cbn [map] in ND. inversion ND as [| ? ? Hnot ND']; subst.
  destruct Ha as [-> | Ha]; destruct Hb as [-> | Hb].
  - reflexivity.
  - exfalso. apply Hnot. rewrite E. apply in_map, Hb.
  - exfalso. apply Hnot. rewrite <- E. apply in_map, Ha.
  - apply IH; assumption.
Qed.

(** The part id a node name is matched with. *)
Lemma find_id (nm : string) (k : PartId) :
  In k getAllPartIds ->
  find (fun partId => String.eqb (toLowerCase nm) (toLowerCase partId))
       getAllPartIds
  = if String.eqb (toLowerCase nm) (toLowerCase k) then Some k
    else find (fun partId => String.eqb (toLowerCase nm) (toLowerCase partId))
              getAllPartIds.
Proof.
  intros Hk. destruct (String.eqb_spec (toLowerCase nm) (toLowerCase k)) as [E | E];
    [| reflexivity].
  destruct (find (fun partId => String.eqb (toLowerCase nm) (toLowerCase partId))
                 getAllPartIds) as [k' |] eqn:F.
  - apply find_some in F. destruct F as (Hk' & E').
    apply String.eqb_eq in E'.
    f_equal. apply (NoDup_map_inj toLowerCase getAllPartIds);
      [exact lower_ids_NoDup | assumption | assumption | congruence].
  - exfalso. apply (find_none _ _ F k) in Hk.
    rewrite E, String.eqb_refl in Hk. discriminate.
Qed.

Lemma bindNode_get (acc : JsMap.t PartConfig) (nd : string * Object3D) :
  exists acc', bindNode toLowerCase acc nd = Some acc'
    /\ forall k : PartId,
         JsMap.get acc' k
         = if includes getAllPartIds k
              && String.eqb (toLowerCase (fst nd)) (toLowerCase k)
           then createPartConfig k (Some (snd nd))
           else JsMap.get acc k.
Proof.
  unfold bindNode.
  destruct (find (fun partId => String.eqb (toLowerCase (fst nd)) (toLowerCase partId))
                 getAllPartIds) as [k0 |] eqn:F.
  - pose proof (find_some _ _ F) as (Hk0 & E0). apply String.eqb_eq in E0.
    destruct (offset_of_id k0 Hk0) as (e & He & _).
    unfold createPartConfig at 1. rewrite He.
    eexists. split; [reflexivity |].
    intros k.
    destruct (includes getAllPartIds k) eqn:I; cbn [andb].
    + assert (Hk : In k getAllPartIds).
      { unfold includes in I. apply existsb_exists in I.
        destruct I as (k' & Hin & E). apply String.eqb_eq in E. subst. exact Hin. }
      rewrite (find_id (fst nd) k Hk) in F.
      destruct (String.eqb (toLowerCase (fst nd)) (toLowerCase k)) eqn:E.
      * injection F as <-. rewrite MapFacts.get_set_same.
        unfold createPartConfig. rewrite He. reflexivity.
      * apply MapFacts.get_set_other. intros Ek. subst k0.
        rewrite E0, String.eqb_refl in E. discriminate.
    + apply MapFacts.get_set_other. intros Ek. subst k0.
      unfold includes in I.
      assert (T : existsb (String.eqb k) getAllPartIds = true).
      { apply existsb_exists. exists k. split; [exact Hk0 | apply String.eqb_refl]. }
      congruence.
  - eexists. split; [reflexivity |].
    intros k.
    destruct (includes getAllPartIds k) eqn:I; cbn [andb]; [| reflexivity].
    destruct (String.eqb (toLowerCase (fst nd)) (toLowerCase k)) eqn:E;
      [| reflexivity].
    exfalso.
    unfold includes in I. apply existsb_exists in I.
    destruct I as (k' & Hin & E'). apply String.eqb_eq in E'. subst k'.
    apply (find_none _ _ F k) in Hin. congruence.
Qed.

Lemma set_keys {A} (m : JsMap.t A) (k : string) (v : A) :
  NoDup (map fst m) ->
  NoDup (map fst (JsMap.set m k v))
  /\ forall q, In q (map fst (JsMap.set m k v)) <-> q = k \/ In q (map fst m).
Proof.
  induction m as [| [k' v'] m IH]; intros ND.
  - cbn. split; [repeat constructor; intros [] | intros q; intuition].
  - cbn [JsMap.set]. cbn [map fst] in ND.
    inversion ND as [| ? ? Hnot ND']; subst.
    destruct (String.eqb_spec k' k) as [E | E].
    + subst. cbn [map fst]. split; [exact ND |].
      intros q. cbn [In]. intuition.
    + destruct (IH ND') as (N1 & I1).
      cbn [map fst]. split.
      * constructor; [| exact N1].
        intros Hin. apply I1 in Hin. destruct Hin as [-> | Hin]; [congruence | tauto].
      * intros q. cbn [In]. rewrite I1. intuition.
Qed.

Lemma bindNode_keys (acc acc' : JsMap.t PartConfig) (nd : string * Object3D) :
  bindNode toLowerCase acc nd = Some acc' ->
  NoDup (map fst acc) -> NoDup (map fst acc').
Proof.
  unfold bindNode. intros H ND.
  destruct (find (fun partId => String.eqb (toLowerCase (fst nd)) (toLowerCase partId))
                 getAllPartIds); [| injection H as <-; exact ND].
  destruct (createPartConfig _ _); [| discriminate].
  injection H as <-. apply set_keys, ND.
Qed.

Lemma bindNodes_get (nodes : list (string * Object3D)) :
  forall acc : JsMap.t PartConfig,
  NoDup (map fst acc) ->
  exists res, bindNodes toLowerCase nodes acc = Some res
    /\ NoDup (map fst res)
    /\ forall k : PartId,
         JsMap.get res k
         = match (if includes getAllPartIds k then lastMatch toLowerCase nodes k else None) with
           | Some o => createPartConfig k (Some o)
           | None => JsMap.get acc k
           end.
Proof.
  induction nodes as [| nd nodes IH]; intros acc ND.
  - exists acc. split; [reflexivity |]. split; [exact ND |].
    intros k. cbn [lastMatch]. destruct (includes _ k); reflexivity.
  - cbn [bindNodes].
    destruct (bindNode_get acc nd) as (acc' & B & G).
    rewrite B.
    destruct (IH acc' (bindNode_keys _ _ _ B ND)) as (res & R & N & H).
    exists res. split; [exact R |]. split; [exact N |].
    intros k. rewrite H, G. cbn [lastMatch].
    destruct (includes getAllPartIds k); cbn [andb]; [| reflexivity].
    destruct (lastMatch toLowerCase nodes k); [reflexivity |].
    destruct (String.eqb _ _); reflexivity.
Qed.

End Lowering.

(** What [kelvinLowerCase] does on ASCII text. *)
Lemma kelvinLowerCase_ascii : lowersAscii kelvinLowerCase.
Proof.
  assert (H : forall (n : nat) (s : string),
             (String.length s <= n)%nat -> isAscii s = true ->
             kelvinLowerCase s = asciiLowerCase s).
  { induction n as [| n IH]; intros s Hn Ha.
    - destruct s; [reflexivity | cbn in Hn; lia].
    - destruct s as [| c s1]; [reflexivity |].
      cbn [isAscii] in Ha. apply andb_true_iff in Ha. destruct Ha as (Hc & Ha).
      cbn [String.length] in Hn.
      assert (E1 : kelvinLowerCase s1 = asciiLowerCase s1) by (apply IH; [lia | exact Ha]).
      assert (Ec : Ascii.eqb c (Ascii.ascii_of_nat 226) = false).
      { apply Ascii.eqb_neq. intros E. subst c. vm_compute in Hc. discriminate. }
      cbn [kelvinLowerCase asciiLowerCase]. fold kelvinLowerCase.
      rewrite Ec. cbn [andb].
      destruct s1 as [| c2 [| c3 s3]]; rewrite <- E1; reflexivity. }
  intros s. apply (H (String.length s)). lia.
Qed.

(** X14.  Binding the loaded scene never fails, whatever [toLowerCase] does
    outside ASCII text.  The part map it builds has entries for part ids
    only, each bound to the last node of the traversal whose name equals the
    id without regard to case, that is, whose lowered name is the lowered
    id, with the configuration [createPartConfig] builds for that node (so
    its original position is the position of the node at load time); an id
    that no node matches has no entry. *)
Theorem processLoadedModel_binding (toLowerCase : string -> string)
    (nodes : list (string * Object3D)) :
  lowersAscii toLowerCase ->
  exists m : MechModel,
    processLoadedModel toLowerCase nodes = Some m
    /\ NoDup (map fst (parts m))
    /\ forall k : PartId,
         JsMap.get (parts m) k
         = if includes getAllPartIds k then
             match lastMatch toLowerCase nodes k with
             | Some o => createPartConfig k (Some o)
             | None => None
             end
           else None.
Proof.
  intros Hlower.
  destruct (bindNodes_get toLowerCase Hlower nodes JsMap.empty) as (res & R & N & H);
    [constructor |].
  exists (mkMechModel res). unfold processLoadedModel. rewrite R.
  split; [reflexivity |]. split; [exact N |].
  intros k. cbn [parts]. rewrite H.
  destruct (includes getAllPartIds k); [| reflexivity].
  destruct (lastMatch toLowerCase nodes k); reflexivity.
Qed.

Lemma processLoadedModel_binding_witness :
  let o1 := mkObject3D (mkVector3 0 1 0) (mkVector3 0 0 0) (mkVector3 1 1 1)
              0 false None in
  let o2 := mkObject3D (mkVector3 0 2 0) (mkVector3 0 0 0) (mkVector3 1 1 1)
              0 false None in
  let nodes := [(("nec" ++ kelvinSign)%string, o1); ("HEAD"%string, o2);
                ("Scene"%string, o1)] in
  exists m : MechModel,
    processLoadedModel kelvinLowerCase nodes = Some m
    /\ JsMap.get (parts m) "neck"%string = createPartConfig "neck"%string (Some o1)
    /\ JsMap.get (parts m) "Head"%string = createPartConfig "Head"%string (Some o2)
    /\ JsMap.get (parts m) "Leftarm"%string = None
    /\ JsMap.get (parts m) "Scene"%string = None.
Proof.
  intros o1 o2 nodes.
  destruct (processLoadedModel_binding kelvinLowerCase nodes kelvinLowerCase_ascii)
    as (m & E & _ & H).
  exists m. split; [exact E |].
  split; [exact (H "neck"%string) |].
  split; [exact (H "Head"%string) |].
  split; [exact (H "Leftarm"%string) | exact (H "Scene"%string)].
Defined.

End ConfigProps.

(** ** The gesture state machine *)

Module MechProps.
Import Three MechConfig LoadMech MechStateMachine Derived4.

Ltac fr := repeat split; first [assumption | reflexivity | congruence].

Lemma view_eqb_eq (a b : MechViewState) : state_eqb a b = true <-> a = b.
Proof. destruct a, b; cbn; split; congruence. Qed.

Lemma view_eqb_refl (a : MechViewState) : state_eqb a a = true.
Proof. destruct a; reflexivity. Qed.

(** What [enterState] never touches. *)
Lemma enterState_frame (s : t) (st : MechViewState) :
  state (uiState (enterState s st)) = state (uiState s)
  /\ model (enterState s st) = model s
  /\ globalExplosionFactor (enterState s st) = globalExplosionFactor s
  /\ partExplosionFactor (enterState s st) = partExplosionFactor s
  /\ lastGestureTime (enterState s st) = lastGestureTime s
  /\ lastGestureType (enterState s st) = lastGestureType s
  /\ explosionFactor (uiState (enterState s st)) = explosionFactor (uiState s).
Proof.
  unfold enterState, updateHighlight.
  destruct (model s) eqn:Hm; [| fr].
  destruct st.
  - fr.
  - fr.
  - destruct (currentMajorPart (uiState s)); [| fr].
    destruct (SimpleStateMachine.truthy _); [| fr].
    destruct (getChildParts _); fr.
  - destruct (SimpleStateMachine.truthy (currentSubPart _));
      [| fr].
    rewrite ?Hm.
    destruct (currentList s); [fr |].
    destruct (SimpleStateMachine.truthy _); [| fr].
    destruct (state_eqb _ _); fr.
Qed.

Lemma transitionTo_state (s : t) (st : MechViewState) :
  state (uiState (transitionTo s st)) = st
  /\ model (transitionTo s st) = model s
  /\ globalExplosionFactor (transitionTo s st) = globalExplosionFactor s
  /\ partExplosionFactor (transitionTo s st) = partExplosionFactor s
  /\ lastGestureTime (transitionTo s st) = lastGestureTime s
  /\ lastGestureType (transitionTo s st) = lastGestureType s.
Proof.
  unfold transitionTo.
  destruct (state_eqb (state (uiState s)) st) eqn:E.
  - apply view_eqb_eq in E. fr.
  - destruct (enterState_frame (with_ui s (ui_state (uiState s) st)) st)
      as (A & B & C & D & F & G & _).
    rewrite A, B, C, D, F, G. repeat split; reflexivity.
Qed.

(** The targets after a transition. *)
Lemma transitionTo_targets (s : t) (st : MechViewState) :
  model s <> None -> state (uiState s) <> st ->
  globalExplosionTarget (transitionTo s st)
  = match st with Assembled => 0 | _ => globalExplosionTarget s end
  /\ partExplosionTarget (transitionTo s st)
     = match st with
       | Assembled | MajorExploded => 0
       | _ => partExplosionTarget s
       end.
Proof.
  intros Hm Hs. unfold transitionTo.
  destruct (state_eqb (state (uiState s)) st) eqn:E;
    [apply view_eqb_eq in E; contradiction |].
  unfold enterState, updateHighlight.
  cbn [model with_ui].
  destruct (model s) eqn:M; [| congruence].
  destruct st.
  - split; reflexivity.
  - split; reflexivity.
  - cbn [uiState with_ui currentMajorPart ui_state].
    destruct (currentMajorPart (uiState s)); [| split; reflexivity].
    destruct (SimpleStateMachine.truthy _); [| split; reflexivity].
    destruct (getChildParts _); split; reflexivity.
  - cbn [uiState with_ui currentSubPart ui_state model currentList].
    destruct (SimpleStateMachine.truthy (currentSubPart _)); [| split; reflexivity].
    rewrite ?M.
    destruct (currentList s); [split; reflexivity |].
    destruct (SimpleStateMachine.truthy _); [| split; reflexivity].
    destruct (state_eqb _ _); split; reflexivity.
Qed.

Lemma handleFist_model (s : t) : model (handleFist s) = model s.
Proof.
  unfold handleFist.
  destruct (state (uiState s)); try reflexivity;
    destruct (Rltb _ _); try reflexivity;
    match goal with
    | |- context [transitionTo ?a ?b] =>
        destruct (transitionTo_state a b) as (_ & M & _); rewrite M; reflexivity
    end.
Qed.

(** One fist frame lowers the bound by one, outside Assembled. *)
Lemma fistsLeft_decrease (s : t) :
  model s <> None -> state (uiState s) <> Assembled ->
  fistsLeft (handleFist s) <= fistsLeft s - 1.
Proof.
  intros Hm Hs. unfold handleFist, fistsLeft at 2.
  destruct (state (uiState s)) eqn:St; [contradiction | | |].
  - set (s1 := with_globalTarget s _).
    destruct (Rltb_spec (globalExplosionTarget s1) 0.05) as [(E & L) | (E & L)];
      rewrite E.
    + unfold fistsLeft.
      destruct (transitionTo_state s1 Assembled) as (T & _). rewrite T.
      unfold fistsLeftGlobal. real_cases; lra.
    + unfold fistsLeft. subst s1.
      cbn [uiState with_globalTarget globalExplosionTarget] in *. rewrite St.
      unfold fistsLeftGlobal, EXPLOSION_SPEED in *. real_cases; lra.
  - destruct (Rltb_spec 0.01 (partExplosionTarget s)) as [(E & L) | (E & L)];
      rewrite E.
    + unfold fistsLeft.
      cbn [uiState with_partTarget globalExplosionTarget partExplosionTarget].
      rewrite St. unfold fistsLeftPart. rewrite (Rltb_true _ _ L).
      unfold EXPLOSION_SPEED. real_cases; lra.
    + unfold fistsLeft.
      destruct (transitionTo_state s MajorExploded) as (T & _). rewrite T.
      destruct (transitionTo_targets s MajorExploded Hm) as (G & _);
        [congruence |].
      rewrite G. unfold fistsLeftPart. rewrite E. lra.
  - destruct (Rltb_spec 0.01 (partExplosionTarget s)) as [(E & L) | (E & L)];
      rewrite E.
    + unfold fistsLeft.
      cbn [uiState with_partTarget globalExplosionTarget partExplosionTarget].
      rewrite St. unfold fistsLeftPart. rewrite (Rltb_true _ _ L).
      unfold EXPLOSION_SPEED. real_cases; lra.
    + unfold fistsLeft.
      destruct (transitionTo_state s PartList) as (T & _). rewrite T.
      destruct (transitionTo_targets s PartList Hm) as (G & P);
        [congruence |].
      rewrite G, P. lra.
Qed.

Lemma fistsLeft_nonneg (s : t) :
  0 <= fistsLeft s
  /\ (state (uiState s) <> Assembled -> 1 <= fistsLeft s).
Proof.
  unfold fistsLeft, fistsLeftGlobal, fistsLeftPart.
  destruct (state (uiState s)); split; intros; try congruence; real_cases; lra.
Qed.

Lemma fist_frame (s : t) (js : bool) (now : R) :
  model s <> None ->
  model (handleGesture s FIST js now) <> None
  /\ fistsLeft (handleGesture s FIST js now) = fistsLeft (handleFist s)
  /\ state (uiState (handleGesture s FIST js now)) = state (uiState (handleFist s)).
Proof.
  intros Hm. unfold handleGesture.
  destruct (model s) eqn:M; [| congruence].
  cbn [model with_lastGestureType]. rewrite handleFist_model, M.
  split; [discriminate |]. split; reflexivity.
Qed.

Lemma fistFrames_reach (frames : list (bool * R)) : forall s : t,
  model s <> None ->
  fistsLeft s <= INR (List.length frames) ->
  state (uiState (fistFrames frames s)) = Assembled.
Proof.
  induction frames as [| f frames IH]; intros s Hm Hb.
  - cbn in *. destruct (fistsLeft_nonneg s) as (_ & H).
    destruct (state (uiState s)) eqn:St; try reflexivity;
      specialize (H ltac:(discriminate)); lra.
  - cbn [fistFrames fold_left].
    destruct (fist_frame s (fst f) (snd f) Hm) as (M & F & St).
    apply IH; [exact M |].
    rewrite F.
    change (List.length (f :: frames)) with (S (List.length frames)) in Hb.
    rewrite S_INR in Hb.
    destruct (state (uiState s)) eqn:Hs.
    + unfold handleFist. rewrite Hs.
      unfold fistsLeft in *. rewrite Hs in *.
      pose proof (pos_INR (List.length frames)). lra.
    + pose proof (fistsLeft_decrease s Hm ltac:(congruence)). lra.
    + pose proof (fistsLeft_decrease s Hm ltac:(congruence)). lra.
    + pose proof (fistsLeft_decrease s Hm ltac:(congruence)). lra.
Qed.

(** X15.  A held fist always leads back to Assembled.  With a model loaded
    and the two targets at most 1, whatever the state, after 70 frames of
    the FIST gesture (and after any larger number) the machine is in
    Assembled: the part target is first taken down in steps of 0.03, the
    detail view and the part list are left one frame each, and the global
    target is taken down until it is below 0.05. *)
Theorem fist_returns_to_assembled (s : t) (frames : list (bool * R)) :
  model s <> None ->
  globalExplosionTarget s <= 1 ->
  partExplosionTarget s <= 1 ->
  (70 <= List.length frames)%nat ->
  state (uiState (fistFrames frames s)) = Assembled.
Proof.
  intros Hm Hg Hp Hn.
  apply fistFrames_reach; [exact Hm |].
  apply le_INR in Hn.
  replace (INR 70) with 70 in Hn by (cbn; lra).
  unfold fistsLeft, fistsLeftGlobal, fistsLeftPart.
  destruct (state (uiState s)); real_cases; lra.
Qed.

Lemma fist_returns_to_assembled_witness :
  let s := mkT (Some (mkMechModel []))
               (mkUI PartDetailExploded (Some "Leftarm"%string)
                     (Some "Lefthand"%string) 2 1)
               1 1 1 1 0 NONE (getChildParts "Leftarm"%string) in
  state (uiState (fistFrames (repeat (false, 0) 70) s)) = Assembled.
Proof.
  intros s.
  apply (fist_returns_to_assembled s (repeat (false, 0) 70)).
  - discriminate.
  - cbn. lra.
  - cbn. lra.
  - rewrite repeat_length. lia.
Defined.

(** *** The invariant *)

Lemma transitionTo_same (s : t) (st : MechViewState) :
  state (uiState s) = st -> transitionTo s st = s.
Proof.
  intros H. unfold transitionTo. rewrite H, view_eqb_refl. reflexivity.
Qed.

Lemma transitionTo_unloaded (s : t) (st : MechViewState) :
  model s = None -> state (uiState s) <> st ->
  transitionTo s st = with_ui s (ui_state (uiState s) st).
Proof.
  intros Hm Hs. unfold transitionTo.
  destruct (state_eqb _ st) eqn:E; [apply view_eqb_eq in E; contradiction |].
  unfold enterState. cbn [model with_ui]. rewrite Hm. reflexivity.
Qed.

Lemma transitionTo_assembled (s : t) :
  model s <> None -> state (uiState s) <> Assembled ->
  transitionTo s Assembled
  = mkT (model s) (mkUI Assembled None None 0 (explosionFactor (uiState s)))
        (globalExplosionFactor s) 0 (partExplosionFactor s) 0
        (lastGestureTime s) (lastGestureType s) [].
Proof.
  intros Hm Hs. unfold transitionTo.
  destruct (state_eqb _ Assembled) eqn:E; [apply view_eqb_eq in E; contradiction |].
  unfold enterState.
  destruct s as [m u gf gt pf pt lt lg l]. cbn in *.
  destruct m; [reflexivity | congruence].
Qed.

Lemma transitionTo_major (s : t) :
  model s <> None -> state (uiState s) <> MajorExploded ->
  transitionTo s MajorExploded
  = mkT (model s) (mkUI MajorExploded None None 0 (explosionFactor (uiState s)))
        (globalExplosionFactor s) (globalExplosionTarget s)
        (partExplosionFactor s) 0
        (lastGestureTime s) (lastGestureType s) (majorParts MECH_HIERARCHY).
Proof.
  intros Hm Hs. unfold transitionTo.
  destruct (state_eqb _ MajorExploded) eqn:E;
    [apply view_eqb_eq in E; contradiction |].
  unfold enterState.
  destruct s as [m u gf gt pf pt lt lg l]. cbn in *.
  destruct m; [reflexivity | congruence].
Qed.

Lemma children_cases (p : MajorPartId) :
  hasChildren p = true ->
  (p = "Leftarm" \/ p = "Rightarm" \/ p = "Leftleg" \/ p = "Rightleg")%string.
Proof.
  unfold hasChildren. cbn [MECH_HIERARCHY childrenMap JsMap.get].
  repeat match goal with
         | |- context [String.eqb ?a p] =>
             destruct (String.eqb_spec a p); [subst; tauto |]
         end.
  discriminate.
Qed.

Lemma children_nonempty (p : MajorPartId) :
  hasChildren p = true ->
  SimpleStateMachine.truthy (Some p) = true
  /\ exists (first : PartId) (rest : list PartId),
       getChildParts p = first :: rest
       /\ forall (i : Z) (k : PartId),
            SimpleStateMachine.at_index (getChildParts p) i = Some k ->
            SimpleStateMachine.truthy (Some k) = true.
Proof.
  intros H.
  destruct (children_cases p H) as [-> | [-> | [-> | ->]]];
    (split; [reflexivity |]);
    eexists; eexists; (split; [reflexivity |]);
    intros i k Hk; apply MachineFacts.at_index_includes in Hk;
    unfold includes in Hk; cbn in Hk;
    repeat match type of Hk with
           | (String.eqb k ?a || _)%bool = true =>
               destruct (String.eqb_spec k a); [subst; reflexivity | cbn in Hk]
           end;
    discriminate.
Qed.

Lemma transitionTo_partList (s : t) (major : MajorPartId) :
  model s <> None -> state (uiState s) <> PartList ->
  currentMajorPart (uiState s) = Some major ->
  hasChildren major = true ->
  transitionTo s PartList
  = mkT (model s)
        (mkUI PartList (Some major)
              (SimpleStateMachine.at_index (getChildParts major) 0) 0
              (explosionFactor (uiState s)))
        (globalExplosionFactor s) (globalExplosionTarget s)
        (partExplosionFactor s) (partExplosionTarget s)
        (lastGestureTime s) (lastGestureType s) (getChildParts major).
Proof.
  intros Hm Hs Hmaj Hch. unfold transitionTo.
  destruct (state_eqb _ PartList) eqn:E;
    [apply view_eqb_eq in E; contradiction |].
  unfold enterState.
  destruct (children_nonempty major Hch) as (T & first & rest & C & _).
  destruct s as [m [st mj sb ix ef] gf gt pf pt lt lg l]. cbn in *.
  destruct m; [| congruence].
  subst mj. rewrite T, C. reflexivity.
Qed.

Lemma transitionTo_detail (s : t) (k : PartId) :
  model s <> None -> state (uiState s) <> PartDetailExploded ->
  currentList s <> [] ->
  currentSubPart (uiState s) = Some k ->
  SimpleStateMachine.at_index (currentList s) (highlightedIndex (uiState s))
  = Some k ->
  transitionTo s PartDetailExploded
  = with_ui s (ui_state (uiState s) PartDetailExploded).
Proof.
  intros Hm Hs Hl Hsub Hat. unfold transitionTo.
  destruct (state_eqb _ PartDetailExploded) eqn:E;
    [apply view_eqb_eq in E; contradiction |].
  unfold enterState, updateHighlight.
  destruct s as [m [st mj sb ix ef] gf gt pf pt lt lg l]. cbn in *.
  destruct m; [| congruence].
  subst sb.
  destruct (SimpleStateMachine.truthy (Some k)) eqn:T; [| reflexivity].
  destruct l; [congruence |].
  rewrite Hat, T. reflexivity.
Qed.

(** The invariant reads the model, the targets, the factors, the list and
    the state, parts and index of the UI state only. *)
Lemma InvM_same (s s' : t) :
  model s' = model s ->
  state (uiState s') = state (uiState s) ->
  currentMajorPart (uiState s') = currentMajorPart (uiState s) ->
  currentSubPart (uiState s') = currentSubPart (uiState s) ->
  highlightedIndex (uiState s') = highlightedIndex (uiState s) ->
  globalExplosionTarget s' = globalExplosionTarget s ->
  partExplosionTarget s' = partExplosionTarget s ->
  globalExplosionFactor s' = globalExplosionFactor s ->
  partExplosionFactor s' = partExplosionFactor s ->
  currentList s' = currentList s ->
  InvM s -> InvM s'.
Proof.
  unfold InvM. intros -> -> -> -> -> -> -> -> -> ->. tauto.
Qed.

Lemma major_index_truthy (i : Z) (k : PartId) :
  SimpleStateMachine.at_index (majorParts MECH_HIERARCHY) i = Some k ->
  SimpleStateMachine.truthy (Some k) = true.
Proof.
  intros H. apply LayoutFacts.major_truthy.
  exact (MachineFacts.at_index_includes _ _ _ H).
Qed.

Lemma InvM_openPalm (s : t) :
  model s <> None -> InvM s -> InvM (handleOpenPalm s).
Proof.
  intros Hm (R1 & R2 & R3 & R4 & I & S). unfold handleOpenPalm.
  destruct (state (uiState s)) eqn:St.
  - set (s1 := with_globalTarget s _).
    assert (Hr : 0 <= globalExplosionTarget s1 <= 1).
    { subst s1. cbn. unfold EXPLOSION_SPEED. real_cases; lra. }
    destruct (_ && _).
    + rewrite transitionTo_major; [| exact Hm | subst s1; cbn; congruence].
      unfold InvM. cbn.
      repeat split; try tauto; try lra; try lia.
    + unfold InvM. subst s1. cbn in *. rewrite St. tauto.
  - unfold InvM. cbn. rewrite St.
    repeat split; try tauto; unfold EXPLOSION_SPEED; real_cases; lra.
  - unfold InvM. cbn. rewrite St.
    repeat split; try tauto; unfold EXPLOSION_SPEED; real_cases; lra.
  - unfold InvM. cbn. rewrite St.
    repeat split; try tauto; unfold EXPLOSION_SPEED; real_cases; lra.
Qed.

Lemma InvM_to_major (s : t) :
  model s <> None -> state (uiState s) <> MajorExploded ->
  0 <= globalExplosionTarget s <= 1 ->
  0 <= globalExplosionFactor s <= 1 ->
  0 <= partExplosionFactor s <= 1 ->
  InvM (transitionTo s MajorExploded).
Proof.
  intros Hm Hs R1 R3 R4. rewrite transitionTo_major by assumption.
  unfold InvM. cbn. repeat split; try tauto; try lra; try lia.
Qed.

Lemma InvM_to_assembled (s : t) :
  0 <= globalExplosionFactor s <= 1 ->
  0 <= partExplosionFactor s <= 1 ->
  InvM s ->
  state (uiState s) <> Assembled ->
  InvM (transitionTo s Assembled).
Proof.
  intros R3 R4 (R1 & R2 & _ & _ & I & S) Hs.
  destruct (model s) eqn:Hm.
  - rewrite transitionTo_assembled by congruence.
    unfold InvM. cbn. repeat split; try tauto; try lra.
  - rewrite transitionTo_unloaded by assumption.
    unfold InvM. cbn. rewrite Hm. repeat split; try tauto; try congruence.
Qed.

Lemma InvM_to_partList (s : t) (major : MajorPartId) :
  model s <> None -> state (uiState s) <> PartList ->
  currentMajorPart (uiState s) = Some major ->
  hasChildren major = true ->
  0 <= globalExplosionTarget s <= 1 ->
  0 <= partExplosionTarget s <= 1 ->
  0 <= globalExplosionFactor s <= 1 ->
  0 <= partExplosionFactor s <= 1 ->
  InvM (transitionTo s PartList).
Proof.
  intros Hm Hs Hmaj Hch R1 R2 R3 R4.
  rewrite (transitionTo_partList s major) by assumption.
  destruct (children_nonempty major Hch) as (_ & first & rest & C & _).
  unfold InvM. cbn [model uiState state currentMajorPart currentSubPart
                    highlightedIndex globalExplosionTarget partExplosionTarget
                    globalExplosionFactor partExplosionFactor currentList].
  repeat split; try tauto.
  - right. rewrite C. cbn [List.length]. lia.
  - intros _. exists major. repeat split; assumption || reflexivity.
Qed.

Lemma InvM_fist (s : t) :
  model s <> None -> InvM s -> InvM (handleFist s).
Proof.
  intros Hm HI. pose proof HI as (R1 & R2 & R3 & R4 & I & S).
  unfold handleFist.
  destruct (state (uiState s)) eqn:St.
  - exact HI.
  - set (s1 := with_globalTarget s _).
    assert (H1 : InvM s1).
    { unfold InvM. subst s1. cbn. rewrite St.
      repeat split; try tauto; unfold EXPLOSION_SPEED; real_cases; lra. }
    destruct (Rltb _ 0.05); [| exact H1].
    apply InvM_to_assembled; try assumption.
    subst s1. cbn. congruence.
  - destruct (Rltb 0.01 _).
    + unfold InvM. cbn. rewrite St.
      repeat split; try tauto; unfold EXPLOSION_SPEED; real_cases; lra.
    + apply InvM_to_major; try assumption. congruence.
  - destruct (Rltb 0.01 _).
    + unfold InvM. cbn. rewrite St.
      repeat split; try tauto; unfold EXPLOSION_SPEED; real_cases; lra.
    + try rewrite St in S. destruct (S Hm) as (major & Hmaj & Hch & _).
      apply (InvM_to_partList s major); try assumption. congruence.
Qed.

(** Selecting the highlighted entry: the body shared by [handlePinch] in
    the two list states and [selectCurrentHighlight]. *)
Lemma InvM_select_major (s : t) :
  model s <> None -> InvM s -> state (uiState s) = MajorExploded ->
  let selectedId :=
    SimpleStateMachine.at_index (currentList s) (highlightedIndex (uiState s)) in
  let s1 := with_ui s (ui_major (uiState s) selectedId) in
  InvM (if hasChildrenOpt selectedId then transitionTo s1 PartList else s1).
Proof.
  intros Hm (R1 & R2 & R3 & R4 & I & S) St sel s1.
  destruct (hasChildrenOpt sel) eqn:H.
  - destruct sel as [k |] eqn:E; [| discriminate].
    apply (InvM_to_partList s1 k);
      [exact Hm | subst s1; cbn; congruence | reflexivity | exact H
      | assumption | assumption | assumption | assumption].
  - unfold InvM. subst s1. cbn. rewrite St. try rewrite St in S.
    repeat split; try tauto.
Qed.

Lemma InvM_select_sub (s : t) :
  model s <> None -> InvM s -> state (uiState s) = PartList ->
  let selectedId :=
    SimpleStateMachine.at_index (currentList s) (highlightedIndex (uiState s)) in
  InvM (transitionTo (with_ui s (ui_sub (uiState s) selectedId))
                     PartDetailExploded).
Proof.
  intros Hm (R1 & R2 & R3 & R4 & I & S) St sel.
  try rewrite St in S. destruct (S Hm) as (major & Hmaj & Hch & Hl & Hsub).
  destruct (children_nonempty major Hch) as (_ & first & rest & C & _).
  assert (Hne : currentList s <> []) by (rewrite Hl, C; discriminate).
  destruct I as [I | I]; [contradiction |].
  destruct (MachineFacts.at_index_in_range _ _ I) as (k & Hk).
  rewrite (transitionTo_detail _ k).
  - unfold InvM. cbn. repeat split; try tauto.
    intros _. exists major. repeat split; assumption || reflexivity.
  - exact Hm.
  - cbn. congruence.
  - exact Hne.
  - exact Hk.
  - exact Hk.
Qed.

Lemma InvM_pinch (s : t) :
  model s <> None -> InvM s -> InvM (handlePinch s).
Proof.
  intros Hm HI. pose proof HI as (R1 & R2 & R3 & R4 & I & S).
  unfold handlePinch.
  destruct (state (uiState s)) eqn:St.
  - exact HI.
  - destruct (currentList s) eqn:L; [exact HI |]. rewrite <- L.
    apply InvM_select_major; assumption.
  - destruct (currentList s) eqn:L; [exact HI |]. rewrite <- L.
    apply InvM_select_sub; assumption.
  - unfold InvM. cbn. rewrite St. try rewrite St in S.
    repeat split; try tauto; destruct (Rltb 0.5 _); lra.
Qed.

Lemma InvM_selectCurrentHighlight (s : t) :
  InvM s -> InvM (selectCurrentHighlight s).
Proof.
  intros HI. pose proof HI as (R1 & R2 & R3 & R4 & I & S).
  unfold selectCurrentHighlight.
  destruct (currentList s) eqn:L; [exact HI |]. rewrite <- L.
  destruct (model s) eqn:Hm.
  - destruct (state (uiState s)) eqn:St; try exact HI.
    + apply InvM_select_major; [congruence | exact HI | exact St].
    + apply InvM_select_sub; [congruence | exact HI | exact St].
  - assert (U : forall s' : t,
              model s' = None ->
              globalExplosionTarget s' = globalExplosionTarget s ->
              partExplosionTarget s' = partExplosionTarget s ->
              globalExplosionFactor s' = globalExplosionFactor s ->
              partExplosionFactor s' = partExplosionFactor s ->
              currentList s' = currentList s ->
              highlightedIndex (uiState s') = highlightedIndex (uiState s) ->
              InvM s').
    { intros s' M A B C D E F. unfold InvM.
      rewrite M, A, B, C, D, E, F. repeat split; try tauto. congruence. }
    destruct (state (uiState s)) eqn:St; try exact HI.
    + destruct (hasChildrenOpt _).
      * rewrite transitionTo_unloaded; [| exact Hm | cbn; congruence].
        apply U; reflexivity || assumption.
      * apply U; reflexivity || assumption.
    + rewrite transitionTo_unloaded; [| exact Hm | cbn; congruence].
      apply U; reflexivity || assumption.
Qed.

Lemma list_index_truthy (s : t) (i : Z) (k : PartId) :
  model s <> None -> InvM s -> state (uiState s) <> Assembled ->
  SimpleStateMachine.at_index (currentList s) i = Some k ->
  SimpleStateMachine.truthy (Some k) = true.
Proof.
  intros Hm (_ & _ & _ & _ & _ & S) St Hk.
  specialize (S Hm).
  destruct (state (uiState s)); [congruence | | |].
  - destruct S as (L & _). rewrite L in Hk. exact (major_index_truthy _ _ Hk).
  - destruct S as (major & _ & Hch & L & _). rewrite L in Hk.
    destruct (children_nonempty major Hch) as (_ & _ & _ & _ & T).
    exact (T _ _ Hk).
  - destruct S as (major & _ & Hch & L & _). rewrite L in Hk.
    destruct (children_nonempty major Hch) as (_ & _ & _ & _ & T).
    exact (T _ _ Hk).
Qed.

(** The index a swipe moves to. *)
Lemma swipe_index (idx len delta : Z) :
  (0 <= idx < len)%Z -> (delta = 1 \/ delta = -1)%Z ->
  let n0 := (idx + delta)%Z in
  let n1 := if (n0 <? 0)%Z then (len - 1)%Z else n0 in
  let n2 := if (len <=? n1)%Z then 0%Z else n1 in
  n2 = ((idx + delta) mod len)%Z /\ (0 <= n2 < len)%Z.
Proof.
  intros Hi Hd n0 n1 n2. subst n0 n1 n2.
  destruct (Z.ltb_spec (idx + delta) 0).
  - assert (idx = 0 /\ delta = -1)%Z as (-> & ->) by lia.
    destruct (Z.leb_spec len (len - 1)); [lia |].
    split; [| lia].
    apply Z.mod_unique with (q := (-1)%Z); lia.
  - destruct (Z.leb_spec len (idx + delta)).
    + assert (idx = len - 1 /\ delta = 1)%Z as (-> & ->) by lia.
      split; [| lia].
      replace (len - 1 + 1)%Z with (1 * len)%Z by lia.
      rewrite Z.mod_mul by lia. reflexivity.
    + split; [| lia]. symmetry. apply Z.mod_small. lia.
Qed.

Lemma handleSwipe_unfold (s : t) (d : Direction) :
  currentList s <> [] ->
  handleSwipe s d
  = let len := Z.of_nat (List.length (currentList s)) in
    let n0 := (highlightedIndex (uiState s) + swipeDelta d)%Z in
    let n1 := if (n0 <? 0)%Z then (len - 1)%Z else n0 in
    let n2 := if (len <=? n1)%Z then 0%Z else n1 in
    setHighlightedIndex s n2.
Proof.
  intros Hl. unfold handleSwipe.
  destruct (currentList s); [contradiction |].
  destruct d; reflexivity.
Qed.

Lemma updateHighlight_unfold (s : t) :
  model s <> None -> currentList s <> [] ->
  updateHighlight s
  = let partId :=
      SimpleStateMachine.at_index (currentList s) (highlightedIndex (uiState s)) in
    if SimpleStateMachine.truthy partId then
      if state_eqb (state (uiState s)) MajorExploded
      then with_ui s (ui_major (uiState s) partId)
      else with_ui s (ui_sub (uiState s) partId)
    else s.
Proof.
  intros Hm Hl. unfold updateHighlight.
  destruct (model s); [| congruence].
  destruct (currentList s); [contradiction | reflexivity].
Qed.

Lemma setHighlightedIndex_unfold (s : t) (i : Z) :
  model s <> None -> currentList s <> [] ->
  (0 <= i < Z.of_nat (List.length (currentList s)))%Z ->
  setHighlightedIndex s i
  = let partId := SimpleStateMachine.at_index (currentList s) i in
    let s1 := with_ui s (ui_index (uiState s) i) in
    if SimpleStateMachine.truthy partId then
      if state_eqb (state (uiState s)) MajorExploded
      then with_ui s1 (ui_major (uiState s1) partId)
      else with_ui s1 (ui_sub (uiState s1) partId)
    else s1.
Proof.
  intros Hm Hl Hi. unfold setHighlightedIndex.
  assert (Hb : ((i <? 0) || (Z.of_nat (List.length (currentList s)) <=? i))%Z = false).
  { apply orb_false_iff. split; [apply Z.ltb_ge | apply Z.leb_gt]; lia. }
  rewrite Hb. rewrite updateHighlight_unfold by assumption. reflexivity.
Qed.

Lemma handleSwipe_spec (s : t) (d : Direction) :
  model s <> None -> InvM s -> currentList s <> [] ->
  state (uiState s) <> Assembled ->
  let len := Z.of_nat (List.length (currentList s)) in
  let i' := ((highlightedIndex (uiState s) + swipeDelta d) mod len)%Z in
  (0 <= i' < len)%Z
  /\ handleSwipe s d
     = with_ui s
         (if state_eqb (state (uiState s)) MajorExploded
          then ui_major (ui_index (uiState s) i')
                        (SimpleStateMachine.at_index (currentList s) i')
          else ui_sub (ui_index (uiState s) i')
                      (SimpleStateMachine.at_index (currentList s) i')).
Proof.
  intros Hm HI Hl Hs len i'.
  pose proof HI as (_ & _ & _ & _ & I & _).
  destruct I as [I | I]; [contradiction |].
  destruct (swipe_index (highlightedIndex (uiState s)) len (swipeDelta d) I)
    as (E & Hr); [destruct d; cbn; lia |].
  cbv zeta in E, Hr. fold i' in E.
  rewrite handleSwipe_unfold by exact Hl. cbv zeta. fold len.
  rewrite E. rewrite E in Hr.
  split; [exact Hr |].
  rewrite setHighlightedIndex_unfold by assumption. cbv zeta.
  destruct (MachineFacts.at_index_in_range (currentList s) i' Hr) as (k & Hk).
  rewrite Hk, (list_index_truthy s i' k Hm HI Hs Hk).
  destruct (state_eqb (state (uiState s)) MajorExploded); reflexivity.
Qed.

Lemma InvM_swipe (s : t) (d : Direction) :
  model s <> None -> InvM s -> InvM (handleSwipe s d).
Proof.
  intros Hm HI.
  destruct (list_eq_dec string_dec (currentList s) []) as [L | Hl].
  { unfold handleSwipe. rewrite L. exact HI. }
  pose proof HI as (R1 & R2 & R3 & R4 & I & S).
  destruct (state (uiState s)) eqn:St.
  - (* a list left over in Assembled: only the ranges and the index matter *)
    destruct I as [I | I]; [contradiction |].
    destruct (swipe_index (highlightedIndex (uiState s))
                (Z.of_nat (List.length (currentList s))) (swipeDelta d) I)
      as (E & Hr); [destruct d; cbn; lia |].
    cbv zeta in E, Hr.
    rewrite handleSwipe_unfold by exact Hl. cbv zeta.
    rewrite E. rewrite E in Hr.
    rewrite setHighlightedIndex_unfold by assumption. cbv zeta.
    rewrite St. cbn [state_eqb].
    destruct (SimpleStateMachine.truthy _);
      unfold InvM; cbn; rewrite ?St; repeat split; try tauto.
  - destruct (handleSwipe_spec s d Hm HI Hl) as (Hr & E); [congruence |].
    rewrite E, St. cbn [state_eqb].
    unfold InvM. cbn. rewrite St. try rewrite St in S.
    repeat split; try tauto.
  - destruct (handleSwipe_spec s d Hm HI Hl) as (Hr & E); [congruence |].
    rewrite E, St. cbn [state_eqb].
    unfold InvM. cbn. rewrite St. try rewrite St in S.
    repeat split; try tauto.
    intros _. destruct (S Hm) as (major & A & B & C & _).
    exists major. repeat split; assumption || reflexivity.
  - destruct (handleSwipe_spec s d Hm HI Hl) as (Hr & E); [congruence |].
    rewrite E, St. cbn [state_eqb].
    unfold InvM. cbn. rewrite St. try rewrite St in S.
    repeat split; try tauto.
    intros _. destruct (S Hm) as (major & A & B & C & _).
    exists major. repeat split; assumption || reflexivity.
Qed.

(** What the frame update changes: the nodes of the model, the two current
    factors and the factor shown in the UI state. *)
Lemma update_frame (s : t) :
  model s <> None ->
  model (update s) <> None
  /\ state (uiState (update s)) = state (uiState s)
  /\ currentMajorPart (uiState (update s)) = currentMajorPart (uiState s)
  /\ currentSubPart (uiState (update s)) = currentSubPart (uiState s)
  /\ highlightedIndex (uiState (update s)) = highlightedIndex (uiState s)
  /\ globalExplosionTarget (update s) = globalExplosionTarget s
  /\ partExplosionTarget (update s) = partExplosionTarget s
  /\ currentList (update s) = currentList s
  /\ lastGestureTime (update s) = lastGestureTime s
  /\ globalExplosionFactor (update s)
     = Derived.stepF (globalExplosionFactor s) (globalExplosionTarget s)
  /\ partExplosionFactor (update s)
     = Derived.stepF (partExplosionFactor s) (partExplosionTarget s)
  /\ explosionFactor (uiState (update s))
     = match state (uiState s) with
       | PartList | PartDetailExploded => partExplosionFactor (update s)
       | _ => globalExplosionFactor (update s)
       end.
Proof.
  intros Hm. unfold update, Derived.stepF, applyGlobalExplosion, applyPartExplosion.
  destruct s as [m [st mj sb ix ef] gf gt pf pt lt lg l].
  cbn [model uiState globalExplosionFactor globalExplosionTarget
       partExplosionFactor partExplosionTarget with_globalFactor with_partFactor
       with_model with_ui currentMajorPart state] in *.
  destruct m as [m |]; [| congruence].
  destruct (Rltb 0.001 (Rabs (gf - gt)));
    cbn [model uiState globalExplosionFactor globalExplosionTarget
         partExplosionFactor partExplosionTarget with_globalFactor with_partFactor
         with_model with_ui currentMajorPart state];
    destruct (Rltb 0.001 (Rabs (pf - pt)));
    cbn [model uiState globalExplosionFactor globalExplosionTarget
         partExplosionFactor partExplosionTarget with_globalFactor with_partFactor
         with_model with_ui currentMajorPart state];
    try (destruct mj as [major |]; [destruct (SimpleStateMachine.truthy _) |]);
    cbn [model uiState globalExplosionFactor globalExplosionTarget
         partExplosionFactor partExplosionTarget with_globalFactor with_partFactor
         with_model with_ui currentMajorPart currentSubPart highlightedIndex
         state ui_factor explosionFactor currentList lastGestureTime];
    (split; [discriminate |]); repeat split; destruct st; reflexivity.
Qed.

Lemma InvM_update (s : t) : InvM s -> InvM (update s).
Proof.
  intros HI. destruct (model s) eqn:Hm.
  - destruct (update_frame s) as (M & A & B & C & D & E & F & G & _ & H1 & H2 & _);
      [congruence |].
    destruct HI as (R1 & R2 & R3 & R4 & I & S).
    unfold InvM. rewrite A, B, C, D, E, F, G, H1, H2.
    repeat split; try tauto; try (apply MachineFacts.stepF_range; assumption).
    intros _. apply S. congruence.
  - unfold update. rewrite Hm. exact HI.
Qed.

Lemma InvM_reset (s : t) : InvM s -> InvM (reset s).
Proof.
  intros HI. pose proof HI as (R1 & R2 & R3 & R4 & I & S).
  unfold reset.
  assert (H : InvM (transitionTo s Assembled)).
  { destruct (state (uiState s)) eqn:St.
    - rewrite transitionTo_same by exact St. exact HI.
    - apply InvM_to_assembled; try assumption. congruence.
    - apply InvM_to_assembled; try assumption. congruence.
    - apply InvM_to_assembled; try assumption. congruence. }
  destruct H as (_ & _ & _ & _ & I' & S').
  unfold InvM. cbn. repeat split; try lra; assumption.
Qed.

Lemma InvM_handleGesture (s : t) (g : GestureType) (js : bool) (now : R) :
  InvM s -> InvM (handleGesture s g js now).
Proof.
  intros HI. unfold handleGesture.
  destruct (model s) eqn:Hm; [| exact HI].
  assert (Hm' : model s <> None) by congruence.
  match goal with
  | |- InvM (with_lastGestureType ?a g) =>
      apply (InvM_same a); try reflexivity; assert (H : InvM a); [| exact H]
  end.
  unfold canTriggerGesture.
  destruct g; try exact HI.
  - apply InvM_openPalm; assumption.
  - apply InvM_fist; assumption.
  - destruct (js && _); [| exact HI].
    apply (InvM_same (handlePinch s)); try reflexivity.
    apply InvM_pinch; assumption.
  - destruct (Rltb _ _); [| exact HI].
    apply (InvM_same (handleSwipe s left)); try reflexivity.
    apply InvM_swipe; assumption.
  - destruct (Rltb _ _); [| exact HI].
    apply (InvM_same (handleSwipe s right)); try reflexivity.
    apply InvM_swipe; assumption.
Qed.

Lemma InvM_create : InvM create.
Proof. unfold InvM. cbn. repeat split; try lra; tauto. Qed.

Lemma InvM_step (s : t) (o : Op) : InvM s -> InvM (step s o).
Proof.
  intros HI. destruct o as [m | g js now | | | |]; cbn [step].
  - destruct HI as (_ & _ & _ & _ & I & _).
    unfold InvM, init. cbn. repeat split; try lra; try tauto.
    destruct (currentList s); [left; reflexivity | right; cbn; lia].
  - apply InvM_handleGesture, HI.
  - apply InvM_selectCurrentHighlight, HI.
  - apply InvM_update, HI.
  - apply InvM_reset, HI.
  - destruct HI as (R1 & R2 & R3 & R4 & _ & _).
    unfold InvM, dispose. cbn. repeat split; try tauto.
Qed.

Lemma InvM_run (l : list Op) : forall s : t, InvM s -> InvM (run s l).
Proof.
  induction l as [| o l IH]; intros s HI; [exact HI |].
  apply IH, InvM_step, HI.
Qed.

Lemma at_index_In (l : list PartId) (i : Z) (k : PartId) :
  SimpleStateMachine.at_index l i = Some k -> In k l.
Proof.
  unfold SimpleStateMachine.at_index.
  destruct (i <? 0)%Z; [discriminate |]. apply nth_error_In.
Qed.

Lemma child_is_id (major : MajorPartId) (k : PartId) :
  hasChildren major = true -> In k (getChildParts major) -> In k getAllPartIds.
Proof.
  intros H Hk.
  destruct (children_cases major H) as [-> | [-> | [-> | ->]]];
    cbn in Hk; cbn; tauto.
Qed.

(** X16.  In every state the gesture state machine reaches from its
    initial state through [init], [handleGesture], [selectCurrentHighlight],
    [update], [reset] and [dispose]: both targets and both current factors
    lie in [0, 1]; the highlighted index is a valid position of the current
    list whenever the list is not empty; and, with a model loaded, in
    MajorExploded the list is the list of the major parts and no sub part is
    current, while in PartList and PartDetailExploded the current major part
    is a part with children, the list is the list of its children and the
    current sub part is the highlighted entry of that list. *)
Theorem gesture_machine_invariant (l : list Op) :
  let s := run create l in
  (0 <= globalExplosionTarget s <= 1 /\ 0 <= partExplosionTarget s <= 1
   /\ 0 <= globalExplosionFactor s <= 1 /\ 0 <= partExplosionFactor s <= 1)
  /\ (currentList s <> [] ->
      exists k : PartId,
        SimpleStateMachine.at_index (currentList s)
                                    (highlightedIndex (uiState s)) = Some k)
  /\ (model s <> None ->
      match state (uiState s) with
      | Assembled => True
      | MajorExploded =>
          currentList s = majorParts MECH_HIERARCHY
          /\ currentSubPart (uiState s) = None
      | PartList | PartDetailExploded =>
          exists (major : MajorPartId) (sub : PartId),
            currentMajorPart (uiState s) = Some major
            /\ hasChildren major = true
            /\ currentList s = getChildParts major
            /\ currentSubPart (uiState s) = Some sub
            /\ SimpleStateMachine.at_index (currentList s)
                 (highlightedIndex (uiState s)) = Some sub
            /\ parentOf sub = Some major
      end).
Proof.
  intros s.
  destruct (InvM_run l create InvM_create) as (R1 & R2 & R3 & R4 & I & S).
  fold s in R1, R2, R3, R4, I, S.
  split; [tauto |].
  assert (Hidx : currentList s <> [] ->
                 exists k : PartId,
                   SimpleStateMachine.at_index (currentList s)
                     (highlightedIndex (uiState s)) = Some k).
  { intros Hl. destruct I as [I | I]; [contradiction |].
    apply MachineFacts.at_index_in_range, I. }
  split; [exact Hidx |].
  intros Hm. specialize (S Hm).
  destruct (state (uiState s)); [trivial | tauto | |];
    destruct S as (major & A & B & C & D);
    destruct (children_nonempty major B) as (_ & first & rest & E & _);
    (destruct Hidx as (k & Hk); [rewrite C, E; discriminate |]);
    exists major, k;
    (repeat split; try assumption; try congruence);
    rewrite C in Hk; apply at_index_In in Hk;
    (apply ConfigProps.parentOf_spec; [exact (child_is_id major k B Hk) | exact Hk]).
Qed.

(** *** Cooldown *)

Lemma handlePinch_frame (s : t) :
  model (handlePinch s) = model s
  /\ lastGestureTime (handlePinch s) = lastGestureTime s.
Proof.
  unfold handlePinch.
  destruct (state (uiState s)); try (split; reflexivity);
    destruct (currentList s); try (split; reflexivity);
    try destruct (hasChildrenOpt _); try (split; reflexivity);
    match goal with
    | |- context [transitionTo ?a ?b] =>
        destruct (transitionTo_state a b) as (_ & M & _ & _ & T & _);
        rewrite M, T; split; reflexivity
    end.
Qed.

Lemma updateHighlight_frame (s : t) :
  model (updateHighlight s) = model s
  /\ lastGestureTime (updateHighlight s) = lastGestureTime s
  /\ currentList (updateHighlight s) = currentList s
  /\ state (uiState (updateHighlight s)) = state (uiState s)
  /\ highlightedIndex (uiState (updateHighlight s)) = highlightedIndex (uiState s).
Proof.
  unfold updateHighlight.
  destruct (model s) eqn:M; [| fr].
  destruct (currentList s) eqn:L; [fr |].
  destruct (SimpleStateMachine.truthy _); [| fr].
  destruct (state_eqb _ _); cbn; fr.
Qed.

Lemma handleSwipe_frame (s : t) (d : Direction) :
  model (handleSwipe s d) = model s
  /\ lastGestureTime (handleSwipe s d) = lastGestureTime s
  /\ currentList (handleSwipe s d) = currentList s
  /\ state (uiState (handleSwipe s d)) = state (uiState s).
Proof.
  unfold handleSwipe.
  destruct (currentList s) eqn:L; [fr |].
  rewrite <- L. unfold setHighlightedIndex.
  destruct (_ || _)%bool; [fr |].
  match goal with
  | |- context [updateHighlight ?a] =>
      destruct (updateHighlight_frame a) as (A & B & C & D & _);
      rewrite A, B, C, D
  end.
  fr.
Qed.

(** X17.  The cooldown of the discrete gestures.  With a model loaded, a
    PINCH or SWIPE that arrives 300 ms or less after the last one that fired
    only records the gesture type, and so does a PINCH that did not just
    start; a gesture that fires stamps its time, so that a second discrete
    gesture within 300 ms of it is ignored.  OPEN_PALM and FIST are handled
    on every frame whatever the time. *)
Theorem gesture_cooldown (s : t) :
  model s <> None ->
  (forall (g : GestureType) (js : bool) (now : R),
     discrete g -> now - lastGestureTime s <= GESTURE_COOLDOWN ->
     handleGesture s g js now = with_lastGestureType s g)
  /\ (forall now : R,
        handleGesture s PINCH false now = with_lastGestureType s PINCH)
  /\ (forall (g1 g2 : GestureType) (js1 js2 : bool) (t1 t2 : R),
        discrete g1 -> discrete g2 ->
        GESTURE_COOLDOWN < t1 - lastGestureTime s ->
        (g1 = PINCH -> js1 = true) ->
        t2 - t1 <= GESTURE_COOLDOWN ->
        lastGestureTime (handleGesture s g1 js1 t1) = t1
        /\ handleGesture (handleGesture s g1 js1 t1) g2 js2 t2
           = with_lastGestureType (handleGesture s g1 js1 t1) g2)
  /\ (forall (js : bool) (now : R),
        handleGesture s OPEN_PALM js now
        = with_lastGestureType (handleOpenPalm s) OPEN_PALM
        /\ handleGesture s FIST js now
           = with_lastGestureType (handleFist s) FIST).
Proof.
  intros Hm.
  assert (Hblocked : forall (s0 : t) (g : GestureType) (js : bool) (now : R),
            model s0 <> None -> discrete g ->
            now - lastGestureTime s0 <= GESTURE_COOLDOWN ->
            handleGesture s0 g js now = with_lastGestureType s0 g).
  { intros s0 g js now Hm0 Hg Hc. unfold handleGesture, canTriggerGesture.
    destruct (model s0); [| congruence].
    rewrite (Rltb_false _ _ Hc), andb_false_r.
    destruct Hg as [-> | [-> | ->]]; reflexivity. }
  split; [intros g js now; apply Hblocked, Hm |].
  split.
  { intros now. unfold handleGesture.
    destruct (model s); [reflexivity | congruence]. }
  split.
  - intros g1 g2 js1 js2 t1 t2 Hg1 Hg2 Hc Hjs Ht.
    assert (Hfire : model (handleGesture s g1 js1 t1) <> None
                    /\ lastGestureTime (handleGesture s g1 js1 t1) = t1).
    { unfold handleGesture, canTriggerGesture.
      destruct (model s) eqn:M; [| congruence].
      rewrite (Rltb_true _ _ Hc), andb_true_r.
      destruct Hg1 as [-> | [-> | ->]].
      - rewrite (Hjs eq_refl).
        destruct (handlePinch_frame s) as (A & _).
        cbn [with_lastGestureType with_lastGestureTime model lastGestureTime].
        rewrite A, M. split; [discriminate | reflexivity].
      - destruct (handleSwipe_frame s left) as (A & _).
        cbn [with_lastGestureType with_lastGestureTime model lastGestureTime].
        rewrite A, M. split; [discriminate | reflexivity].
      - destruct (handleSwipe_frame s right) as (A & _).
        cbn [with_lastGestureType with_lastGestureTime model lastGestureTime].
        rewrite A, M. split; [discriminate | reflexivity]. }
    destruct Hfire as (M1 & T1).
    split; [exact T1 |].
    apply Hblocked; [exact M1 | exact Hg2 | rewrite T1; exact Ht].
  - intros js now. unfold handleGesture.
    destruct (model s); [split; reflexivity | congruence].
Qed.

Lemma gesture_cooldown_witness :
  let s := mkT (Some (mkMechModel []))
               (mkUI MajorExploded None None 0 0.5)
               0.5 0.5 0 0 1000 NONE (majorParts MECH_HIERARCHY) in
  highlightedIndex
    (uiState (handleGesture (handleGesture s SWIPE_RIGHT false 1400)
                            SWIPE_RIGHT false 1600))
  = highlightedIndex (uiState (handleGesture s SWIPE_RIGHT false 1400)).
Proof.
  intros s.
  assert (Hm : model s <> None) by discriminate.
  destruct (gesture_cooldown s Hm) as (_ & _ & H & _).
  destruct (H SWIPE_RIGHT SWIPE_RIGHT false false 1400 1600) as (_ & E).
  - right. right. reflexivity.
  - right. right. reflexivity.
  - cbn. unfold GESTURE_COOLDOWN. lra.
  - discriminate.
  - unfold GESTURE_COOLDOWN. lra.
  - rewrite E. reflexivity.
Defined.

(** *** Swipes *)

Lemma handleSwipe_index (s : t) (d : Direction) :
  currentList s <> [] ->
  (0 <= highlightedIndex (uiState s)
   < Z.of_nat (List.length (currentList s)))%Z ->
  highlightedIndex (uiState (handleSwipe s d))
  = ((highlightedIndex (uiState s) + swipeDelta d)
     mod Z.of_nat (List.length (currentList s)))%Z.
Proof.
  intros Hl I.
  destruct (swipe_index (highlightedIndex (uiState s))
              (Z.of_nat (List.length (currentList s))) (swipeDelta d) I)
    as (E & Hr); [destruct d; cbn; lia |].
  cbv zeta in E, Hr.
  rewrite handleSwipe_unfold by exact Hl. cbv zeta.
  rewrite E. rewrite E in Hr.
  unfold setHighlightedIndex.
  assert (Hb : forall i, (0 <= i < Z.of_nat (List.length (currentList s)))%Z ->
               ((i <? 0) || (Z.of_nat (List.length (currentList s)) <=? i))%Z = false).
  { intros i Hi. apply orb_false_iff.
    split; [apply Z.ltb_ge | apply Z.leb_gt]; lia. }
  rewrite (Hb _ Hr).
  match goal with
  | |- context [updateHighlight ?a] =>
      destruct (updateHighlight_frame a) as (_ & _ & _ & _ & A); rewrite A
  end.
  reflexivity.
Qed.

Lemma swipes_index (n : nat) (d : Direction) : forall s : t,
  currentList s <> [] ->
  (0 <= highlightedIndex (uiState s)
   < Z.of_nat (List.length (currentList s)))%Z ->
  currentList (swipes n d s) = currentList s
  /\ highlightedIndex (uiState (swipes n d s))
     = ((highlightedIndex (uiState s) + Z.of_nat n * swipeDelta d)
        mod Z.of_nat (List.length (currentList s)))%Z.
Proof.
  induction n as [| n IH]; intros s Hl I.
  - cbn [swipes]. split; [reflexivity |].
    rewrite Z.mul_0_l, Z.add_0_r. symmetry. apply Z.mod_small, I.
  - cbn [swipes].
    destruct (handleSwipe_frame s d) as (_ & _ & L & _).
    pose proof (handleSwipe_index s d Hl I) as E.
    destruct (IH (handleSwipe s d)) as (L' & E').
    + rewrite L. exact Hl.
    + rewrite L, E. apply Z.mod_pos_bound. lia.
    + split; [rewrite L', L; reflexivity |].
      rewrite E', L, E.
      rewrite Zplus_mod_idemp_l. f_equal. lia.
Qed.

(** X18.  Swiping moves the highlight cyclically.  When the highlighted
    index is a position of the non-empty current list, a swipe moves it one
    step to the right or left modulo the length of the list (from the last
    entry to the first and back), and keeps the list; a swipe right followed
    by a swipe left restores the index, and as many swipes in one direction
    as the list is long bring it back to where it was. *)
Theorem swipe_wraps_around (s : t) (d : Direction) :
  currentList s <> [] ->
  (0 <= highlightedIndex (uiState s)
   < Z.of_nat (List.length (currentList s)))%Z ->
  let len := Z.of_nat (List.length (currentList s)) in
  highlightedIndex (uiState (handleSwipe s d))
  = ((highlightedIndex (uiState s) + swipeDelta d) mod len)%Z
  /\ currentList (handleSwipe s d) = currentList s
  /\ highlightedIndex (uiState (handleSwipe (handleSwipe s right) left))
     = highlightedIndex (uiState s)
  /\ highlightedIndex
       (uiState (swipes (List.length (currentList s)) d s))
     = highlightedIndex (uiState s).
Proof.
  intros Hl I len.
  split; [apply handleSwipe_index; assumption |].
  split; [apply handleSwipe_frame |].
  split.
  - destruct (swipes_index 2 right s Hl I) as (_ & E).
    destruct (handleSwipe_frame s right) as (_ & _ & L & _).
    rewrite handleSwipe_index.
    + rewrite L, handleSwipe_index by assumption.
      rewrite Zplus_mod_idemp_l. cbn [swipeDelta].
      replace (highlightedIndex (uiState s) + 1 + -1)%Z
        with (highlightedIndex (uiState s)) by lia.
      apply Z.mod_small, I.
    + rewrite L. exact Hl.
    + rewrite L, handleSwipe_index by assumption.
      apply Z.mod_pos_bound. lia.
  - destruct (swipes_index (List.length (currentList s)) d s Hl I) as (_ & E).
    rewrite E.
    rewrite Z.mul_comm, Z_mod_plus_full. apply Z.mod_small, I.
Qed.

Lemma swipe_wraps_around_witness :
  let s := mkT (Some (mkMechModel []))
               (mkUI MajorExploded None None 6 0.5)
               0.5 0.5 0 0 0 NONE (majorParts MECH_HIERARCHY) in
  highlightedIndex (uiState (handleSwipe s right)) = 0%Z.
Proof.
  intros s.
  refine (eq_trans (proj1 (swipe_wraps_around s right _ _)) _).
  - discriminate.
  - cbn. lia.
  - reflexivity.
Defined.

(** *** Poses *)

Lemma update_model (s : t) (m : MechModel) :
  model s = Some m ->
  let gf' := Derived.stepF (globalExplosionFactor s) (globalExplosionTarget s) in
  let pf' := Derived.stepF (partExplosionFactor s) (partExplosionTarget s) in
  let m1 :=
    if Rltb 0.001 (Rabs (globalExplosionFactor s - globalExplosionTarget s))
    then SimpleStateMachine.forEachNode (majorParts MECH_HIERARCHY)
           (explodeGlobal gf') m
    else m in
  model (update s)
  = Some (if Rltb 0.001 (Rabs (partExplosionFactor s - partExplosionTarget s))
          then match currentMajorPart (uiState s) with
               | Some major =>
                   if SimpleStateMachine.truthy (Some major)
                   then SimpleStateMachine.forEachNode (getChildParts major)
                          (explodePart pf') m1
                   else m1
               | None => m1
               end
          else m1).
Proof.
  intros Hm. unfold update, Derived.stepF, applyGlobalExplosion, applyPartExplosion.
  destruct s as [m0 [st mj sb ix ef] gf gt pf pt lt lg l].
  cbn [model uiState globalExplosionFactor globalExplosionTarget
       partExplosionFactor partExplosionTarget with_globalFactor with_partFactor
       with_model with_ui currentMajorPart state] in *.
  subst m0.
  destruct (Rltb 0.001 (Rabs (gf - gt)));
    cbn [model uiState globalExplosionFactor globalExplosionTarget
         partExplosionFactor partExplosionTarget with_globalFactor with_partFactor
         with_model with_ui currentMajorPart state];
    destruct (Rltb 0.001 (Rabs (pf - pt)));
    cbn [model uiState globalExplosionFactor globalExplosionTarget
         partExplosionFactor partExplosionTarget with_globalFactor with_partFactor
         with_model with_ui currentMajorPart state];
    try (destruct mj as [major |]; [destruct (SimpleStateMachine.truthy _) |]);
    reflexivity.
Qed.

(** X19.  The poses the gesture state machine gives.  In a frame in which
    the global factor moves, the node of every major part that has an
    original position is put at that position plus its explode direction
    times its explode distance times the new global factor times 1.2, and
    turned from its original rotation by the direction times the factor
    times 0.02; its scale is kept.  In a frame in which the part factor moves,
    the node of every child of the current major part is put at its original
    position plus direction times distance times the new part factor times
    1.5. *)
Theorem gesture_update_pose (s : t) (m : MechModel) (k : PartId)
    (c : PartConfig) (n : Object3D) (o : Vector3) :
  model s = Some m ->
  JsMap.get (parts m) k = Some c ->
  node c = Some n ->
  originalPosition c = Some o ->
  let s' := update s in
  (0.001 < Rabs (globalExplosionFactor s - globalExplosionTarget s) ->
   isMajorPart k = true ->
   let f := globalExplosionFactor s' in
   f = globalExplosionFactor s
       + (globalExplosionTarget s - globalExplosionFactor s) * 0.1
   /\ exists (m' : MechModel) (c' : PartConfig) (n' : Object3D),
        model s' = Some m'
        /\ JsMap.get (parts m') k = Some c'
        /\ node c' = Some n'
        /\ position n'
           = add o (multiplyScalar (explodeDir c)
                                   (MechConfig.explodeDistance c * f * 1.2))
        /\ scale n' = scale n
        /\ rotation n'
           = match originalRotation c with
             | Some r =>
                 mkVector3 (x r + x (explodeDir c) * f * 0.02)
                           (y r + y (explodeDir c) * f * 0.02)
                           (z r + z (explodeDir c) * f * 0.02)
             | None => rotation n
             end)
  /\ (0.001 < Rabs (partExplosionFactor s - partExplosionTarget s) ->
      forall major : MajorPartId,
      currentMajorPart (uiState s) = Some major ->
      In k (getChildParts major) ->
      let f := partExplosionFactor s' in
      f = partExplosionFactor s
          + (partExplosionTarget s - partExplosionFactor s) * 0.1
      /\ exists (m' : MechModel) (c' : PartConfig) (n' : Object3D),
           model s' = Some m'
           /\ JsMap.get (parts m') k = Some c'
           /\ node c' = Some n'
           /\ position n'
              = add o (multiplyScalar (explodeDir c)
                                      (MechConfig.explodeDistance c * f * 1.5))
           /\ scale n' = scale n
           /\ rotation n' = rotation n).
Proof.
  intros Hm Hc Hn Ho s'.
  assert (Hm' : model s <> None) by congruence.
  destruct (update_frame s Hm') as (_ & _ & _ & _ & _ & _ & _ & _ & _ & G & P & _).
  pose proof (update_model s m Hm) as M. cbv zeta in M.
  fold s' in G, P, M.
  split.
  - intros Hg Hmaj f.
    assert (Hf : f = globalExplosionFactor s
                     + (globalExplosionTarget s - globalExplosionFactor s) * 0.1).
    { subst f. rewrite G. unfold Derived.stepF.
      rewrite (Rltb_true _ _ Hg). reflexivity. }
    split; [exact Hf |].
    rewrite (Rltb_true _ _ Hg) in M.
    fold f in G. rewrite <- G in M.
    set (m1 := SimpleStateMachine.forEachNode (majorParts MECH_HIERARCHY)
                 (explodeGlobal f) m) in *.
    assert (H1 : JsMap.get (parts m1) k
                 = Some (MechConfig.withNode c (explodeGlobal f k c n))).
    { subst m1.
      rewrite (MapFacts.forEachNode_get_in _ _ k MachineFacts.majorParts_NoDup)
        by (apply MachineProps.major_in, Hmaj).
      rewrite Hc. cbn [option_map]. unfold Derived.onConfig. rewrite Hn.
      reflexivity. }
    assert (H2 : forall major : MajorPartId,
              JsMap.get
                (parts (SimpleStateMachine.forEachNode (getChildParts major)
                          (explodePart (partExplosionFactor s')) m1)) k
              = JsMap.get (parts m1) k).
    { intros major. apply MapFacts.forEachNode_get_notin.
      apply ConfigProps.major_not_child, Hmaj. }
    eexists. exists (MechConfig.withNode c (explodeGlobal f k c n)).
    exists (explodeGlobal f k c n).
    split; [exact M |].
    split.
    { rewrite <- P.
      destruct (Rltb 0.001 _); [| exact H1].
      destruct (currentMajorPart (uiState s)) as [major |]; [| exact H1].
      destruct (SimpleStateMachine.truthy _); [| exact H1].
      rewrite H2. exact H1. }
    split; [reflexivity |].
    unfold explodeGlobal. rewrite Ho.
    destruct (originalRotation c); repeat split; reflexivity.
  - intros Hp major Hmaj Hin f.
    assert (Hf : f = partExplosionFactor s
                     + (partExplosionTarget s - partExplosionFactor s) * 0.1).
    { subst f. rewrite P. unfold Derived.stepF.
      rewrite (Rltb_true _ _ Hp). reflexivity. }
    split; [exact Hf |].
    rewrite (Rltb_true _ _ Hp), Hmaj in M.
    fold f in P. rewrite <- P in M.
    assert (Hch : hasChildren major = true).
    { unfold hasChildren. unfold getChildParts in Hin.
      destruct (JsMap.get (childrenMap MECH_HIERARCHY) major) as [l |];
        [| contradiction].
      destruct l; [contradiction | reflexivity]. }
    destruct (children_nonempty major Hch) as (T & _).
    rewrite T in M.
    assert (Hkm : ~ In k (majorParts MECH_HIERARCHY)).
    { intros Hk. apply MachineProps.major_in in Hk.
      exact (ConfigProps.major_not_child k major Hk Hin). }
    assert (ND : NoDup (getChildParts major)).
    { destruct (children_cases major Hch) as [-> | [-> | [-> | ->]]];
        cbn; repeat constructor; cbn; intuition discriminate. }
    set (m1 := if Rltb 0.001 _ then _ else m) in M.
    assert (H1 : JsMap.get (parts m1) k = Some c).
    { subst m1. destruct (Rltb 0.001 _); [| exact Hc].
      rewrite MapFacts.forEachNode_get_notin by exact Hkm. exact Hc. }
    eexists. exists (MechConfig.withNode c (explodePart f k c n)).
    exists (explodePart f k c n).
    split; [exact M |].
    split.
    { rewrite (MapFacts.forEachNode_get_in _ _ k ND Hin), H1.
      cbn [option_map]. unfold Derived.onConfig. rewrite Hn. reflexivity. }
    split; [reflexivity |].
    unfold explodePart. rewrite Ho. repeat split; reflexivity.
Qed.

Lemma gesture_update_pose_witness :
  let n := mkObject3D (mkVector3 0 1 0) (mkVector3 0 0 0) (mkVector3 1 1 1)
             0 false None in
  let c := mkPartConfig "Head"%string (Some n) None (mkVector3 0 1 0) 0.5
             (Some (mkVector3 0 1 0)) (Some (mkVector3 0 0 0)) in
  let s := mkT (Some (mkMechModel [("Head"%string, c)]))
               (mkUI MajorExploded None None 0 0)
               0 1 0 0 0 NONE (majorParts MECH_HIERARCHY) in
  globalExplosionFactor (update s) = 0 + (1 - 0) * 0.1.
Proof.
  intros n c s.
  refine (proj1 (proj1 (gesture_update_pose s (mkMechModel [("Head"%string, c)])
                          "Head"%string c n (mkVector3 0 1 0)
                          eq_refl eq_refl eq_refl eq_refl) _ eq_refl)).
  cbn. unfold Rabs. destruct (Rcase_abs _); lra.
Defined.

End MechProps.

(** ** The keyboard and the mouse *)

Module InputProps.
Import LoadMech KeyboardController.

Lemma has_add (keys : list string) (key : string) : has (add keys key) key = true.
Proof.
  unfold add. destruct (has keys key) eqn:E; [exact E |].
  unfold has. rewrite existsb_app. cbn. rewrite String.eqb_refl.
  apply orb_true_iff. right. reflexivity.
Qed.

Lemma has_delete (keys : list string) (key : string) :
  has (delete keys key) key = false.
Proof.
  unfold has, delete. induction keys as [| k keys IH]; [reflexivity |].
  cbn [filter]. destruct (String.eqb key k) eqn:E; cbn [negb]; [exact IH |].
  cbn [existsb]. rewrite E. exact IH.
Qed.

Lemma add_held (keys : list string) (key : string) :
  has keys key = true -> add keys key = keys.
Proof. intros H. unfold add. rewrite H. reflexivity. Qed.

(** X20.  Key repeat.  While a key is held, the repeated keydown events of
    the browser fire nothing, except for A and S, which send their explosion
    step of three times the speed on every keydown; the arrow keys, Escape
    and Enter fire once per press, whatever the case of the key name, and
    fire again after the key has been released.  A key that is down stays
    registered until its keyup.  The first keydown of a press fires the
    callback of its key.  This holds whatever [toLowerCase] does to the key
    name. *)
Theorem key_repeat_fires_once (toLowerCase : string -> string) (s : t)
    (eventKey : string) :
  enabled s = true ->
  let key := toLowerCase eventKey in
  let r1 := onKeyDown toLowerCase s eventKey in
  let r2 := onKeyDown toLowerCase (fst r1) eventKey in
  has (keysPressed (fst r1)) key = true
  /\ fst r2 = fst r1
  /\ snd r2
     = (if String.eqb key "a" then [OnExplosionChange (explosionSpeed * 3)]
        else if String.eqb key "s" then [OnExplosionChange (- explosionSpeed * 3)]
        else [])
  /\ has (keysPressed (onKeyUp toLowerCase (fst r1) eventKey)) key = false
  /\ snd (onKeyDown toLowerCase (onKeyUp toLowerCase (fst r1) eventKey) eventKey)
     = snd (onKeyDown toLowerCase (mkT [] true) eventKey)
  /\ snd (onKeyDown toLowerCase (mkT [] true) eventKey)
     = (if String.eqb key "a" then [OnExplosionChange (explosionSpeed * 3)]
        else if String.eqb key "s" then [OnExplosionChange (- explosionSpeed * 3)]
        else if String.eqb key "arrowup"
          then [OnMaterialModeChange SimpleStateMachine.up]
        else if String.eqb key "arrowdown"
          then [OnMaterialModeChange SimpleStateMachine.down]
        else if String.eqb key "arrowleft"
          then [OnNavigateLeftRight SimpleStateMachine.left]
        else if String.eqb key "arrowright"
          then [OnNavigateLeftRight SimpleStateMachine.right]
        else if String.eqb key "escape" then [OnEscape]
        else if String.eqb key "enter" then [OnEnter]
        else []).
Proof.
  intros He key r1 r2.
  assert (H1 : fst r1 = mkT (add (keysPressed s) key) true
               /\ has (keysPressed (fst r1)) key = true).
  { subst r1. unfold onKeyDown. rewrite He. cbn [negb fst keysPressed].
    fold key. split; [reflexivity | apply has_add]. }
  destruct H1 as (E1 & Hh).
  split; [exact Hh |].
  assert (E2 : r2 = (fst r1,
                     if String.eqb key "a" then [OnExplosionChange (explosionSpeed * 3)]
                     else if String.eqb key "s"
                       then [OnExplosionChange (- explosionSpeed * 3)]
                     else [])).
  { subst r2. rewrite E1. unfold onKeyDown.
    cbn [enabled negb keysPressed]. fold key.
    rewrite has_add. cbn [negb].
    rewrite (add_held _ _ (has_add _ _)).
    repeat (destruct (String.eqb key _); [reflexivity |]). reflexivity. }
  rewrite E2. cbn [fst snd].
  split; [reflexivity |]. split; [reflexivity |].
  split; [unfold onKeyUp; cbn [keysPressed]; fold key; apply has_delete |].
  split.
  - unfold onKeyDown. rewrite E1. cbn [onKeyUp enabled negb keysPressed snd].
    fold key. rewrite has_delete. reflexivity.
  - unfold onKeyDown. cbn [enabled negb keysPressed has existsb snd]. fold key.
    reflexivity.
Qed.

Lemma key_repeat_fires_once_witness :
  let lower := Derived3.kelvinLowerCase in
  snd (onKeyDown lower (fst (onKeyDown lower create "ArrowRight")) "ArrowRight") = []
  /\ snd (onKeyDown lower create "ArrowRight")
     = [OnNavigateLeftRight SimpleStateMachine.right]
  /\ snd (onKeyDown lower
            (onKeyUp lower (fst (onKeyDown lower create "ArrowRight")) "ArrowRight")
            "ArrowRight")
     = [OnNavigateLeftRight SimpleStateMachine.right].
Proof.
  intros lower.
  destruct (key_repeat_fires_once lower create "ArrowRight" eq_refl)
    as (_ & _ & A & _ & B & _).
  split; [exact A |]. split; [reflexivity |]. exact B.
Defined.

(** *** Holding a key *)

(** The effect of [adjustExplosion] outside PartView on the tag. *)
Lemma adjust_tag (sm : SimpleStateMachine.t) (delta : R) :
  SimpleStateMachine.state (SimpleStateMachine.uiState sm)
  <> SimpleStateMachine.PartView ->
  let target :=
    Rmax 0 (Rmin 1 (SimpleStateMachine.globalExplosionTarget sm + delta)) in
  let sm' := SimpleStateMachine.adjustExplosion sm delta in
  SimpleStateMachine.globalExplosionTarget sm' = target
  /\ SimpleStateMachine.state (SimpleStateMachine.uiState sm')
     <> SimpleStateMachine.PartView
  /\ (0.1 < target ->
      SimpleStateMachine.state (SimpleStateMachine.uiState sm')
      = SimpleStateMachine.Exploded)
  /\ (target < 0.05 ->
      SimpleStateMachine.state (SimpleStateMachine.uiState sm')
      = SimpleStateMachine.Assembled).
Proof.
  intros Hs target sm'.
  destruct (MachineFacts.adjustExplosion_global sm delta Hs) as (U & G & _).
  fold sm' in U, G. fold target in U, G.
  rewrite U, G. cbn [SimpleStateMachine.state SimpleStateMachine.ui_state].
  split; [reflexivity |].
  destruct (SimpleStateMachine.state (SimpleStateMachine.uiState sm)) eqn:St;
    [| | contradiction];
    cbn [SimpleStateMachine.state_eqb andb];
    rewrite ?andb_true_r, ?andb_false_r;
    (split; [destruct (Rltb 0.1 target); try destruct (Rltb target 0.05);
             discriminate |]);
    split; intros H.
  - rewrite (Rltb_true _ _ H). reflexivity.
  - rewrite (Rltb_false 0.1 target) by lra. reflexivity.
  - destruct (Rltb target 0.05) eqn:E; [| reflexivity].
    destruct (Rltb_spec target 0.05) as [(_ & L) | (F & _)]; [lra | congruence].
  - rewrite (Rltb_true _ _ H). reflexivity.
Qed.

Lemma update_tag (sm : SimpleStateMachine.t) :
  SimpleStateMachine.state (SimpleStateMachine.uiState (SimpleStateMachine.update sm))
  = SimpleStateMachine.state (SimpleStateMachine.uiState sm)
  /\ SimpleStateMachine.globalExplosionTarget (SimpleStateMachine.update sm)
     = SimpleStateMachine.globalExplosionTarget sm.
Proof.
  destruct (SimpleStateMachine.model sm) eqn:M.
  - destruct (MachineFacts.update_loaded sm) as (U & G & _); [congruence |].
    rewrite U, G. split; reflexivity.
  - rewrite MachineFacts.update_unloaded by exact M. split; reflexivity.
Qed.

(** One frame with a single explosion key held. *)
Lemma animate_held (k : t) (sm : SimpleStateMachine.t) (delta : R) :
  update k = [OnExplosionChange delta] ->
  SimpleStateMachine.state (SimpleStateMachine.uiState sm)
  <> SimpleStateMachine.PartView ->
  let target :=
    Rmax 0 (Rmin 1 (SimpleStateMachine.globalExplosionTarget sm + delta)) in
  let sm' := Main.animate k sm in
  SimpleStateMachine.globalExplosionTarget sm' = target
  /\ SimpleStateMachine.state (SimpleStateMachine.uiState sm')
     <> SimpleStateMachine.PartView
  /\ (0.1 < target ->
      SimpleStateMachine.state (SimpleStateMachine.uiState sm')
      = SimpleStateMachine.Exploded)
  /\ (target < 0.05 ->
      SimpleStateMachine.state (SimpleStateMachine.uiState sm')
      = SimpleStateMachine.Assembled).
Proof.
  intros Hu Hs target sm'. subst sm'. unfold Main.animate. rewrite Hu.
  cbn [Main.onKeyboardAll fold_left Main.onKeyboard].
  destruct (adjust_tag sm delta Hs) as (A & B & C & D).
  destruct (update_tag (SimpleStateMachine.adjustExplosion sm delta)) as (E & F).
  rewrite E, F. auto.
Qed.

Lemma frames_up (n : nat) (k : t) : forall sm : SimpleStateMachine.t,
  update k = [OnExplosionChange explosionSpeed] ->
  SimpleStateMachine.state (SimpleStateMachine.uiState sm)
  <> SimpleStateMachine.PartView ->
  0 <= SimpleStateMachine.globalExplosionTarget sm ->
  SimpleStateMachine.state (SimpleStateMachine.uiState (Derived5.frames (S n) k sm))
  <> SimpleStateMachine.PartView
  /\ Rmin 1 (SimpleStateMachine.globalExplosionTarget sm + INR (S n) * 0.02)
     = SimpleStateMachine.globalExplosionTarget (Derived5.frames (S n) k sm)
  /\ (0.1 < SimpleStateMachine.globalExplosionTarget (Derived5.frames (S n) k sm) ->
      SimpleStateMachine.state
        (SimpleStateMachine.uiState (Derived5.frames (S n) k sm))
      = SimpleStateMachine.Exploded).
Proof.
  induction n as [| n IH]; intros sm Hu Hs Hg.
  - cbn [Derived5.frames].
    destruct (animate_held k sm explosionSpeed Hu Hs) as (A & B & C & _).
    rewrite A. split; [exact B |].
    split; [| exact C].
    unfold explosionSpeed. cbn [INR]. real_cases; lra.
  - change (Derived5.frames (S (S n)) k sm)
      with (Derived5.frames (S n) k (Main.animate k sm)).
    destruct (animate_held k sm explosionSpeed Hu Hs) as (A & B & _).
    destruct (IH (Main.animate k sm) Hu B) as (P & Q & R0).
    { rewrite A. unfold explosionSpeed. real_cases; lra. }
    split; [exact P |]. split; [| exact R0].
    rewrite <- Q, A. rewrite (S_INR (S n)).
    unfold explosionSpeed.
    pose proof (pos_INR (S n)). real_cases; lra.
Qed.

Lemma frames_down (n : nat) (k : t) : forall sm : SimpleStateMachine.t,
  update k = [OnExplosionChange (- explosionSpeed)] ->
  SimpleStateMachine.state (SimpleStateMachine.uiState sm)
  <> SimpleStateMachine.PartView ->
  SimpleStateMachine.globalExplosionTarget sm <= 1 ->
  SimpleStateMachine.state (SimpleStateMachine.uiState (Derived5.frames (S n) k sm))
  <> SimpleStateMachine.PartView
  /\ Rmax 0 (SimpleStateMachine.globalExplosionTarget sm - INR (S n) * 0.02)
     = SimpleStateMachine.globalExplosionTarget (Derived5.frames (S n) k sm)
  /\ (SimpleStateMachine.globalExplosionTarget (Derived5.frames (S n) k sm) < 0.05 ->
      SimpleStateMachine.state
        (SimpleStateMachine.uiState (Derived5.frames (S n) k sm))
      = SimpleStateMachine.Assembled).
Proof.
  induction n as [| n IH]; intros sm Hu Hs Hg.
  - cbn [Derived5.frames].
    destruct (animate_held k sm (- explosionSpeed) Hu Hs) as (A & B & _ & D).
    rewrite A. split; [exact B |].
    split; [| exact D].
    unfold explosionSpeed. cbn [INR]. real_cases; lra.
  - change (Derived5.frames (S (S n)) k sm)
      with (Derived5.frames (S n) k (Main.animate k sm)).
    destruct (animate_held k sm (- explosionSpeed) Hu Hs) as (A & B & _).
    destruct (IH (Main.animate k sm) Hu B) as (P & Q & R0).
    { rewrite A. unfold explosionSpeed. real_cases; lra. }
    split; [exact P |]. split; [| exact R0].
    rewrite <- Q, A. rewrite (S_INR (S n)).
    unfold explosionSpeed.
    pose proof (pos_INR (S n)). real_cases; lra.
Qed.

(** X21.  Holding an explosion key, through the wiring of main.ts.  With
    the keyboard enabled and the machine outside PartView with its global
    target in [0, 1]: while A alone is held, every frame raises the global
    target by 0.02 up to 1, and after 50 frames or more the target is 1 and
    the machine is Exploded; while S alone is held, every frame lowers it by
    0.02 down to 0, and after 50 frames or more the target is 0 and the
    machine is Assembled. *)
Theorem holding_key_explodes (k : t) (sm : SimpleStateMachine.t) (n : nat) :
  enabled k = true ->
  SimpleStateMachine.state (SimpleStateMachine.uiState sm)
  <> SimpleStateMachine.PartView ->
  0 <= SimpleStateMachine.globalExplosionTarget sm <= 1 ->
  (50 <= n)%nat ->
  let sm' := Derived5.frames n k sm in
  (has (keysPressed k) "a" = true -> has (keysPressed k) "s" = false ->
   SimpleStateMachine.globalExplosionTarget sm' = 1
   /\ SimpleStateMachine.state (SimpleStateMachine.uiState sm')
      = SimpleStateMachine.Exploded)
  /\ (has (keysPressed k) "s" = true -> has (keysPressed k) "a" = false ->
      SimpleStateMachine.globalExplosionTarget sm' = 0
      /\ SimpleStateMachine.state (SimpleStateMachine.uiState sm')
         = SimpleStateMachine.Assembled).
Proof.
  intros He Hs Hg Hn sm'.
  destruct n as [| n]; [lia |].
  assert (Hr : 50 <= INR (S n)).
  { apply le_INR in Hn. replace (INR 50) with 50 in Hn by (cbn; lra). exact Hn. }
  split.
  - intros Ha Hns.
    assert (Hu : update k = [OnExplosionChange explosionSpeed]).
    { unfold update. rewrite He, Ha, Hns. reflexivity. }
    destruct (frames_up n k sm Hu Hs) as (_ & Q & R0); [lra |].
    fold sm' in Q, R0.
    assert (E : SimpleStateMachine.globalExplosionTarget sm' = 1).
    { rewrite <- Q. real_cases; lra. }
    split; [exact E | apply R0; lra].
  - intros Hss Hna.
    assert (Hu : update k = [OnExplosionChange (- explosionSpeed)]).
    { unfold update. rewrite He, Hss, Hna. reflexivity. }
    destruct (frames_down n k sm Hu Hs) as (_ & Q & R0); [lra |].
    fold sm' in Q, R0.
    assert (E : SimpleStateMachine.globalExplosionTarget sm' = 0).
    { rewrite <- Q. real_cases; lra. }
    split; [exact E | apply R0; lra].
Qed.

Lemma holding_key_explodes_witness :
  let k := fst (onKeyDown Derived3.kelvinLowerCase create "a") in
  SimpleStateMachine.state
    (SimpleStateMachine.uiState
       (Derived5.frames 50 k
          (SimpleStateMachine.init SimpleStateMachine.create
             (mkMechModel []))))
  = SimpleStateMachine.Exploded.
Proof.
  intros k.
  refine (proj2 (proj1 (holding_key_explodes k
                          (SimpleStateMachine.init SimpleStateMachine.create
                             (mkMechModel []))
                          50 eq_refl _ _ (le_n 50)) eq_refl eq_refl)).
  - cbn. discriminate.
  - cbn. lra.
Defined.

(** *** Double click *)

Lemma onClick_first (s : SimpleMouseController.t) (now : Z) :
  SimpleMouseController.enabled s = true ->
  (SimpleMouseController.doubleClickThreshold
   <= now - SimpleMouseController.lastClickTime s)%Z ->
  SimpleMouseController.onClick s now
  = (SimpleMouseController.mkT (SimpleMouseController.hoveredPartId s) true now,
     None).
Proof.
  intros He Ht. unfold SimpleMouseController.onClick. rewrite He. cbn [negb].
  replace (now - SimpleMouseController.lastClickTime s
           <? SimpleMouseController.doubleClickThreshold)%Z with false
    by (symmetry; apply Z.ltb_ge; exact Ht).
  reflexivity.
Qed.

Lemma onClick_second (s : SimpleMouseController.t) (p : MechConfig.PartId)
    (now : Z) :
  SimpleMouseController.enabled s = true ->
  SimpleMouseController.hoveredPartId s = Some p ->
  SimpleStateMachine.truthy (Some p) = true ->
  (now - SimpleMouseController.lastClickTime s
   < SimpleMouseController.doubleClickThreshold)%Z ->
  SimpleMouseController.onClick s now
  = (SimpleMouseController.mkT (Some p) true 0, Some p).
Proof.
  intros He Hh Ht Hd. unfold SimpleMouseController.onClick.
  rewrite He, Hh, Ht. cbn [negb].
  replace (now - SimpleMouseController.lastClickTime s
           <? SimpleMouseController.doubleClickThreshold)%Z with true
    by (symmetry; apply Z.ltb_lt; exact Hd).
  reflexivity.
Qed.

(** X22.  Double click.  With a part hovered, a click that follows the
    previous one by less than 300 ms calls [onDoubleClick] with the hovered
    part and clears the click time, so that the third click of a triple
    click starts a new pair instead of selecting again, and a fourth click
    within 300 ms of the third selects a second time.  With nothing hovered
    no sequence of clicks calls [onDoubleClick]. *)
Theorem triple_click_selects_once (s : SimpleMouseController.t)
    (p : MechConfig.PartId) (t1 t2 t3 t4 : Z) :
  SimpleMouseController.enabled s = true ->
  SimpleMouseController.hoveredPartId s = Some p ->
  SimpleStateMachine.truthy (Some p) = true ->
  (300 <= t1 - SimpleMouseController.lastClickTime s)%Z ->
  (t2 - t1 < 300)%Z -> (300 <= t3)%Z -> (t4 - t3 < 300)%Z ->
  snd (Derived5.clicks [t1; t2] s) = [p]
  /\ snd (Derived5.clicks [t1; t2; t3] s) = [p]
  /\ snd (Derived5.clicks [t1; t2; t3; t4] s) = [p; p]
  /\ forall times : list Z,
       snd (Derived5.clicks times
              (SimpleMouseController.mkT None true
                 (SimpleMouseController.lastClickTime s))) = [].
Proof.
  intros He Hh Ht H1 H2 H3 H4.
  assert (C1 := onClick_first s t1 He H1). rewrite Hh in C1.
  set (s1 := SimpleMouseController.mkT (Some p) true t1) in *.
  assert (C2 : SimpleMouseController.onClick s1 t2
               = (SimpleMouseController.mkT (Some p) true 0, Some p)).
  { apply onClick_second; try reflexivity; assumption. }
  set (s2 := SimpleMouseController.mkT (Some p) true 0) in *.
  assert (C3 : SimpleMouseController.onClick s2 t3
               = (SimpleMouseController.mkT (Some p) true t3, None)).
  { apply (onClick_first s2 t3 eq_refl). cbn.
    unfold SimpleMouseController.doubleClickThreshold. lia. }
  set (s3 := SimpleMouseController.mkT (Some p) true t3) in *.
  assert (C4 : SimpleMouseController.onClick s3 t4
               = (SimpleMouseController.mkT (Some p) true 0, Some p)).
  { apply onClick_second; try reflexivity; assumption. }
  repeat split.
  - cbn [Derived5.clicks]. rewrite C1, C2. reflexivity.
  - cbn [Derived5.clicks]. rewrite C1, C2, C3. reflexivity.
  - cbn [Derived5.clicks]. rewrite C1, C2, C3, C4. reflexivity.
  - intros times. generalize (SimpleMouseController.lastClickTime s).
    induction times as [| now times IH]; intros last; [reflexivity |].
    cbn [Derived5.clicks]. unfold SimpleMouseController.onClick.
    cbn [SimpleMouseController.enabled negb SimpleMouseController.hoveredPartId
         SimpleStateMachine.truthy].
    rewrite andb_false_r.
    specialize (IH now).
    destruct (Derived5.clicks times _) as [s' more]. exact IH.
Qed.

Lemma triple_click_selects_once_witness :
  snd (Derived5.clicks [1000; 1200; 1350]%Z
         (SimpleMouseController.mkT (Some "Head"%string) true 0))
  = ["Head"%string].
Proof.
  refine (proj1 (proj2 (triple_click_selects_once
                          (SimpleMouseController.mkT (Some "Head"%string) true 0)
                          "Head"%string 1000 1200 1350 1400
                          eq_refl eq_refl eq_refl _ _ _ _))); cbn; lia.
Defined.

End InputProps.

Module GestureProps.
Import GestureController Derived6.

Lemma shapeOf_never_three_four (ie me re pe ic mc rc pc : bool) :
  shapeOf ie me re pe ic mc rc pc <> three
  /\ shapeOf ie me re pe ic mc rc pc <> four.
Proof.
  destruct ie, me, re, pe, ic, mc, rc, pc; cbv; split; discriminate.
Qed.

Lemma drawn_landmark (landmarks : list NormalizedLandmark) (i : nat) :
  drawHand landmarks = true -> (i <= 20)%nat ->
  exists a, landmark landmarks i = Some a.
Proof.
  intros H Hi. unfold landmark, drawHand in *.
  apply Nat.leb_le in H.
  destruct (nth_error landmarks i) eqn:E; [eauto |].
  apply nth_error_None in E. lia.
Qed.

Ltac lm H i :=
  let a := fresh "a" in
  let E := fresh "E" in
  destruct (drawn_landmark _ i H) as (a & E);
  [unfold WRIST, THUMB_TIP, INDEX_MCP, INDEX_TIP, MIDDLE_MCP, MIDDLE_TIP,
     RING_TIP, PINKY_MCP, PINKY_TIP; lia |];
  rewrite ?E; cbn [bind].

Lemma getPalmWidth_total (landmarks : list NormalizedLandmark) :
  drawHand landmarks = true -> exists w, getPalmWidth landmarks = Some w.
Proof.
  intros H. unfold getPalmWidth.
  lm H WRIST. lm H MIDDLE_MCP. eauto.
Qed.

Lemma getPalmCenter_total (landmarks : list NormalizedLandmark) :
  drawHand landmarks = true -> exists c, getPalmCenter landmarks = Some c.
Proof.
  intros H. unfold getPalmCenter.
  lm H WRIST. lm H INDEX_MCP. lm H MIDDLE_MCP. lm H PINKY_MCP. eauto.
Qed.

Lemma getFingerTipRatio_total (landmarks : list NormalizedLandmark) (i : nat) :
  drawHand landmarks = true -> (i <= 20)%nat ->
  exists r, getFingerTipRatio landmarks i = Some r.
Proof.
  intros H Hi. unfold getFingerTipRatio.
  destruct (getPalmWidth_total _ H) as (w & ->). cbn [bind].
  destruct (Rltb w 0.01); [eauto |].
  destruct (drawn_landmark _ i H Hi) as (a & ->). cbn [bind].
  lm H WRIST. eauto.
Qed.

Lemma getPinchRatio_total (landmarks : list NormalizedLandmark) :
  drawHand landmarks = true -> exists r, getPinchRatio landmarks = Some r.
Proof.
  intros H. unfold getPinchRatio.
  destruct (getPalmWidth_total _ H) as (w & ->). cbn [bind].
  destruct (Rltb w 0.01); [eauto |].
  lm H THUMB_TIP. lm H INDEX_TIP. eauto.
Qed.

Lemma isFingerExtended_total (landmarks : list NormalizedLandmark) (i : nat) :
  drawHand landmarks = true -> (i <= 20)%nat ->
  exists b, isFingerExtended landmarks i = Some b.
Proof.
  intros H Hi. unfold isFingerExtended.
  destruct (getFingerTipRatio_total _ i H Hi) as (r & ->). cbn [bind]. eauto.
Qed.

Lemma isFingerCurled_total (landmarks : list NormalizedLandmark) (i : nat) :
  drawHand landmarks = true -> (i <= 20)%nat ->
  exists b, isFingerCurled landmarks i = Some b.
Proof.
  intros H Hi. unfold isFingerCurled.
  destruct (getFingerTipRatio_total _ i H Hi) as (r & ->). cbn [bind]. eauto.
Qed.

Ltac finger H f i :=
  let b := fresh "b" in
  let E := fresh "E" in
  destruct (f _ i H) as (b & E);
  [unfold INDEX_TIP, MIDDLE_TIP, RING_TIP, PINKY_TIP; lia |];
  rewrite ?E; cbn [bind].

Lemma getHandShape_total (landmarks : list NormalizedLandmark) :
  drawHand landmarks = true -> exists sh, getHandShape landmarks = Some sh.
Proof.
  intros H. unfold getHandShape.
  destruct (getPalmWidth_total _ H) as (w & ->). cbn [bind].
  destruct (Rltb w 0.01); [eauto |].
  finger H isFingerExtended_total INDEX_TIP.
  finger H isFingerExtended_total MIDDLE_TIP.
  finger H isFingerExtended_total RING_TIP.
  finger H isFingerExtended_total PINKY_TIP.
  finger H isFingerCurled_total INDEX_TIP.
  finger H isFingerCurled_total MIDDLE_TIP.
  finger H isFingerCurled_total RING_TIP.
  finger H isFingerCurled_total PINKY_TIP.
  eauto.
Qed.

Lemma isLooseFist_total (landmarks : list NormalizedLandmark) :
  drawHand landmarks = true -> exists b, isLooseFist landmarks = Some b.
Proof.
  intros H. unfold isLooseFist.
  finger H isFingerExtended_total INDEX_TIP.
  finger H isFingerExtended_total MIDDLE_TIP.
  finger H isFingerExtended_total RING_TIP.
  finger H isFingerExtended_total PINKY_TIP.
  eauto.
Qed.

Lemma bind_some {A B} (o : option A) (f : A -> option B) (b : B) :
  bind o f = Some b -> exists a, o = Some a /\ f a = Some b.
Proof. destruct o; cbn; [eauto | discriminate]. Qed.

Lemma getHandShape_classes (landmarks : list NormalizedLandmark)
    (sh : HandShape) :
  getHandShape landmarks = Some sh -> sh <> three /\ sh <> four.
Proof.
  unfold getHandShape. intros H.
  apply bind_some in H. destruct H as (w & _ & H).
  destruct (Rltb w 0.01).
  { injection H as <-. split; discriminate. }
  repeat (apply bind_some in H; destruct H as (? & _ & H)).
  injection H as <-. apply shapeOf_never_three_four.
Qed.

(** X23.  The shapes of a hand.  [getHandShape] classifies every hand that
    has its 21 landmarks, and never as 'three' or 'four': a hand with three
    fingers or more extended is 'open' before these shapes are looked
    at. *)
Theorem hand_shape_never_three_or_four (landmarks : list NormalizedLandmark) :
  (drawHand landmarks = true -> exists sh, getHandShape landmarks = Some sh)
  /\ getHandShape landmarks <> Some three
  /\ getHandShape landmarks <> Some four
  /\ forall ie me re pe ic mc rc pc : bool,
       (3 <= countTrue [ie; me; re; pe])%nat ->
       shapeOf ie me re pe ic mc rc pc = open.
Proof.
  split; [apply getHandShape_total |].
  split; [| split].
  - intros H. apply getHandShape_classes in H. tauto.
  - intros H. apply getHandShape_classes in H. tauto.
  - intros ie me re pe ic mc rc pc H. unfold shapeOf.
    apply Nat.leb_le in H. rewrite H. reflexivity.
Qed.

(** *** Modes *)

Lemma mode_eqb_eq (a b : GestureMode) : mode_eqb a b = true <-> a = b.
Proof. destruct a, b; cbn; split; congruence. Qed.

Lemma shape_eqb_eq (a b : HandShape) : shape_eqb a b = true <-> a = b.
Proof. destruct a, b; cbn; split; congruence. Qed.

Lemma setMode_cases (s : t) (m : GestureMode) (b : bool) (now : R) :
  setMode s m b now = (s, [])
  \/ (setMode s m b now
      = (switched s m b now,
         [OnModeChange m; OnGestureChange (mode_ m) leftHand])
      /\ mode s <> m
      /\ (b && Rltb (now - lastModeChangeTime (core s)) MODE_LOCK_DURATION
          && modeSwitchByGesture (core s) = false)).
Proof.
  unfold setMode, switched, mode.
  destruct (b && Rltb (now - lastModeChangeTime (core s)) MODE_LOCK_DURATION
            && modeSwitchByGesture (core s)); [left; reflexivity |].
  destruct (mode_eqb (currentMode (core s)) m) eqn:E; cbn [negb].
  - left; reflexivity.
  - right. repeat split. intros H. apply mode_eqb_eq in H. congruence.
Qed.

Lemma setMode_view (s : t) (m : GestureMode) (b : bool) (now : R) :
  viewMode (mode s) = true -> viewMode m = true ->
  viewMode (mode (fst (setMode s m b now))) = true
  /\ forallb viewCallback (snd (setMode s m b now)) = true.
Proof.
  intros Hs Hm.
  destruct (setMode_cases s m b now) as [-> | (-> & _)]; cbn [fst snd].
  - split; [exact Hs | reflexivity].
  - split; [exact Hm |]. cbn. rewrite Hm. reflexivity.
Qed.

Lemma checkAutoReset_view (s : t) (now nowSet : R) :
  viewMode (mode s) = true ->
  viewMode (mode (fst (checkAutoReset s now nowSet))) = true
  /\ forallb viewCallback (snd (checkAutoReset s now nowSet)) = true.
Proof.
  intros Hs. unfold checkAutoReset.
  destruct (_ && _).
  - apply setMode_view; [exact Hs | reflexivity].
  - split; [exact Hs | reflexivity].
Qed.

Lemma checkAutoReset_left (s : t) (now nowSet : R) :
  left (fst (checkAutoReset s now nowSet)) = left s.
Proof.
  unfold checkAutoReset. destruct (_ && _); [| reflexivity].
  destruct (setMode_cases s watch false nowSet) as [-> | (-> & _)];
    reflexivity.
Qed.

Lemma checkLeftHandModeSwitch_cases (s : t) (now nowSet : R) :
  checkLeftHandModeSwitch s now nowSet = (s, [])
  \/ (exists start pending,
        checkLeftHandModeSwitch s now nowSet
        = (with_pending s start pending, []))
  \/ (exists m,
        checkLeftHandModeSwitch s now nowSet
        = (with_pending (fst (setMode s m true nowSet)) 0 None,
           snd (setMode s m true nowSet))).
Proof.
  unfold checkLeftHandModeSwitch.
  destruct (_ && _); [right; left; eauto |].
  match goal with
  | |- context [fst ?x] => generalize x
  end.
  intros [[m |] req]; cbn [fst snd]; [| right; left; eauto].
  destruct (negb _); [| right; left; eauto].
  destruct (leftPendingMode (left s)); [| right; left; eauto].
  destruct (mode_eqb _ _); [| right; left; eauto].
  destruct (Rltb _ _); [left; reflexivity |].
  right; right. exists m. destruct (setMode s m true nowSet). reflexivity.
Qed.

Lemma checkLeftHandModeSwitch_view (s : t) (now nowSet : R) :
  leftShape (left s) <> three -> leftShape (left s) <> four ->
  viewMode (mode s) = true ->
  viewMode (mode (fst (checkLeftHandModeSwitch s now nowSet))) = true
  /\ forallb viewCallback (snd (checkLeftHandModeSwitch s now nowSet)) = true.
Proof.
  intros H3 H4 Hs. unfold checkLeftHandModeSwitch.
  destruct (_ && _); [split; [exact Hs | reflexivity] |].
  assert (E3 : shape_eqb (leftShape (left s)) three = false).
  { destruct (shape_eqb (leftShape (left s)) three) eqn:E; [| reflexivity].
    apply shape_eqb_eq in E. contradiction. }
  assert (E4 : shape_eqb (leftShape (left s)) four = false).
  { destruct (shape_eqb (leftShape (left s)) four) eqn:E; [| reflexivity].
    apply shape_eqb_eq in E. contradiction. }
  rewrite E3, E4. cbn [andb].
  assert (K : forall m req,
             viewMode m = true ->
             let r :=
               if negb (mode_eqb m (currentMode (core s))) then
                 match leftPendingMode (left s) with
                 | Some pending =>
                     if mode_eqb pending m then
                       if Rltb (now - leftModeGestureStartTime (left s)) req
                       then (s, [])
                       else
                         let (s1, cbs) := setMode s m true nowSet in
                         (with_pending s1 0 None, cbs)
                     else (with_pending s now (Some m), [])
                 | None => (with_pending s now (Some m), [])
                 end
               else (with_pending s 0 None, []) in
             viewMode (mode (fst r)) = true
             /\ forallb viewCallback (snd r) = true).
  { intros m req Hm. cbv zeta.
    destruct (negb _); [| split; [exact Hs | reflexivity]].
    destruct (leftPendingMode (left s)); [| split; [exact Hs | reflexivity]].
    destruct (mode_eqb _ _); [| split; [exact Hs | reflexivity]].
    destruct (Rltb _ _); [split; [exact Hs | reflexivity] |].
    pose proof (setMode_view s m true nowSet Hs Hm) as V.
    destruct (setMode s m true nowSet) as [s1 cbs]. exact V. }
  destruct (shape_eqb (leftShape (left s)) one
            && isShapeStable (leftShapeStableCount (left s))).
  { cbn [fst snd]. apply (K watch); reflexivity. }
  destruct (shape_eqb (leftShape (left s)) two
            && isShapeStable (leftShapeStableCount (left s))).
  { cbn [fst snd]. apply (K zoom); reflexivity. }
  cbn [fst snd]. split; [exact Hs | reflexivity].
Qed.

Lemma updateHandShapes_core (s s1 : t)
    (l r : option (list NormalizedLandmark)) :
  updateHandShapes s l r = Some s1 ->
  core s1 = core s
  /\ zoomSt s1 = zoomSt s /\ explodeSt s1 = explodeSt s
  /\ componentSt s1 = componentSt s /\ isRotating s1 = isRotating s
  /\ leftShape (left s1) <> three /\ leftShape (left s1) <> four
  /\ leftModeGestureStartTime (left s1) = leftModeGestureStartTime (left s)
  /\ leftPendingMode (left s1) = leftPendingMode (left s).
Proof.
  unfold updateHandShapes. intros H.
  apply bind_some in H. destruct H as (s0 & H0 & H).
  assert (A : core s0 = core s
              /\ zoomSt s0 = zoomSt s /\ explodeSt s0 = explodeSt s
              /\ componentSt s0 = componentSt s
              /\ isRotating s0 = isRotating s
              /\ leftShape (left s0) <> three
              /\ leftShape (left s0) <> four
              /\ leftModeGestureStartTime (left s0)
                 = leftModeGestureStartTime (left s)
              /\ leftPendingMode (left s0) = leftPendingMode (left s)).
  { destruct l as [landmarks |].
    - apply bind_some in H0. destruct H0 as (sh & Hsh & H0).
      injection H0 as <-. apply getHandShape_classes in Hsh.
      unfold updateShapeStability.
      destruct (shape_eqb sh (lastLeftShape (left s))); cbn; tauto.
    - injection H0 as <-. cbn. repeat split; discriminate. }
  assert (B : core s1 = core s0 /\ left s1 = left s0
              /\ zoomSt s1 = zoomSt s0 /\ explodeSt s1 = explodeSt s0
              /\ componentSt s1 = componentSt s0
              /\ isRotating s1 = isRotating s0).
  { destruct r as [landmarks |].
    - apply bind_some in H. destruct H as (sh & _ & H).
      apply bind_some in H. destruct H as (c & _ & H).
      injection H as <-. cbn. tauto.
    - injection H as <-. cbn. tauto. }
  destruct A as (A1 & A2 & A3 & A4 & A5 & A6 & A7 & A8 & A9).
  destruct B as (B1 & B2 & B3 & B4 & B5 & B6).
  rewrite B1, B2, B3, B4, B5, B6. tauto.
Qed.

Lemma processWatchMode_view (s : t) (landmarks : list NormalizedLandmark)
    (now : R) (r : t * list Callback) :
  processWatchMode s landmarks now = Some r ->
  mode (fst r) = mode s /\ forallb viewCallback (snd r) = true.
Proof.
  unfold processWatchMode. destruct (rightOpenStable s).
  - intros H. apply bind_some in H. destruct H as (cbs & Hc & H).
    injection H as <-. split; [reflexivity |]. cbn [snd].
    unfold processRotation in Hc.
    apply bind_some in Hc. destruct Hc as (palm & _ & Hc).
    destruct (Rltb _ _); injection Hc as <-; reflexivity.
  - intros H. injection H as <-. split; reflexivity.
Qed.

Lemma processZoomMode_view (s : t) (landmarks : list NormalizedLandmark)
    (now : R) (r : t * list Callback) :
  processZoomMode s landmarks now = Some r ->
  mode (fst r) = mode s /\ forallb viewCallback (snd r) = true.
Proof.
  unfold processZoomMode. intros H.
  apply bind_some in H. destruct H as (d & _ & H).
  destruct (_ && _); injection H as <-; split; reflexivity.
Qed.

Lemma onResults_view (s : t) (hands : list (bool * list NormalizedLandmark))
    (now nowReset nowSwitch : R) (r : t * list Callback) :
  viewMode (mode s) = true ->
  onResults s hands now nowReset nowSwitch = Some r ->
  viewMode (mode (fst r)) = true /\ forallb viewCallback (snd r) = true.
Proof.
  intros Hs. unfold onResults.
  destruct (forallb drawHand (map snd hands)); [| discriminate].
  intros H. apply bind_some in H. destruct H as (s1 & H1 & H).
  apply updateHandShapes_core in H1.
  destruct H1 as (C1 & _ & _ & _ & _ & L3 & L4 & _).
  assert (Hs1 : viewMode (mode s1) = true).
  { unfold mode. rewrite C1. exact Hs. }
  pose proof (checkAutoReset_view s1 now nowReset Hs1) as (V2 & W2).
  pose proof (checkAutoReset_left s1 now nowReset) as L2.
  destruct (checkAutoReset s1 now nowReset) as [s2 cbs2].
  cbn [fst snd] in V2, W2, L2.
  assert (V3 : viewMode
                 (mode (fst (match fst (resolveHands hands None None) with
                             | Some _ => checkLeftHandModeSwitch s2 now nowSwitch
                             | None => (s2, [])
                             end))) = true
               /\ forallb viewCallback
                    (snd (match fst (resolveHands hands None None) with
                          | Some _ => checkLeftHandModeSwitch s2 now nowSwitch
                          | None => (s2, [])
                          end)) = true).
  { destruct (fst (resolveHands hands None None)).
    - apply checkLeftHandModeSwitch_view; [rewrite L2 .. |]; assumption.
    - split; [exact V2 | reflexivity]. }
  destruct (match fst (resolveHands hands None None) with
            | Some _ => checkLeftHandModeSwitch s2 now nowSwitch
            | None => (s2, [])
            end) as [s3 cbs3].
  cbn [fst snd] in V3. destruct V3 as (V3 & W3).
  destruct (snd (resolveHands hands None None)) as [landmarks |].
  - apply bind_some in H. destruct H as (r3 & H3 & H).
    injection H as <-. cbn [fst snd].
    assert (P : mode (fst r3) = mode s3
                /\ forallb viewCallback (snd r3) = true).
    { unfold processRightHandByMode in H3. unfold mode in V3.
      destruct (currentMode (core s3)) eqn:M; try discriminate.
      - apply processWatchMode_view in H3. unfold mode at 2 in H3.
        rewrite M in H3. unfold mode at 2. rewrite M. exact H3.
      - apply processZoomMode_view in H3. unfold mode at 2 in H3.
        rewrite M in H3. unfold mode at 2. rewrite M. exact H3. }
    destruct P as (P1 & P2). rewrite P1. split; [exact V3 |].
    rewrite !forallb_app, W2, W3, P2. reflexivity.
  - injection H as <-. cbn [fst snd]. split; [exact V3 |].
    rewrite forallb_app, W2, W3. reflexivity.
Qed.

Lemma step_view (s : t) (o : Op) :
  viewMode (mode s) = true -> gestureOp o = true ->
  viewMode (mode (fst (step s o))) = true
  /\ forallb viewCallback (snd (step s o)) = true.
Proof.
  intros Hs Ho. destruct o as [hands now nr nw | now | m b now | e];
    cbn [step].
  - destruct (onResults s hands now nr nw) as [r |] eqn:E.
    + eapply onResults_view; eassumption.
    + split; [exact Hs | reflexivity].
  - apply setMode_view; [exact Hs | reflexivity].
  - apply setMode_view; [exact Hs | exact Ho].
  - split; [| reflexivity]. cbn [fst]. destruct e; exact Hs.
Qed.

(** *** Hands that show a shape *)

Lemma flat_ratio (h : list NormalizedLandmark) (y : R) (i : nat) (v : R) :
  landmark h WRIST = Some (mkLandmark 0 y None) ->
  landmark h MIDDLE_MCP = Some (mkLandmark 1 y None) ->
  landmark h i = Some (mkLandmark v y None) ->
  v = 0 \/ v = 1 ->
  getFingerTipRatio h i = Some v.
Proof.
  intros Hw Hm Hi Hv. unfold getFingerTipRatio, getPalmWidth.
  rewrite Hw, Hm. cbn [bind].
  assert (D : forall a : R, a = 0 \/ a = 1 ->
                dist2D (mkLandmark a y None) (mkLandmark 0 y None) = a).
  { intros a Ha. unfold dist2D. cbn [lx ly].
    replace ((a - 0) * (a - 0) + (y - y) * (y - y)) with (a * a) by ring.
    destruct Ha as [-> | ->].
    - rewrite Rmult_0_l. apply sqrt_0.
    - rewrite Rmult_1_l. apply sqrt_1. }
  assert (D1 : dist2D (mkLandmark 0 y None) (mkLandmark 1 y None) = 1).
  { unfold dist2D. cbn [lx ly].
    replace ((0 - 1) * (0 - 1) + (y - y) * (y - y)) with 1 by ring.
    apply sqrt_1. }
  rewrite D1, (Rltb_false 1 0.01) by lra. rewrite Hi. cbn [bind].
  rewrite (D v Hv). f_equal. field.
Qed.

Lemma flat_shape (h : list NormalizedLandmark) (y vi vm vr vp : R) :
  landmark h WRIST = Some (mkLandmark 0 y None) ->
  landmark h MIDDLE_MCP = Some (mkLandmark 1 y None) ->
  landmark h INDEX_TIP = Some (mkLandmark vi y None) ->
  landmark h MIDDLE_TIP = Some (mkLandmark vm y None) ->
  landmark h RING_TIP = Some (mkLandmark vr y None) ->
  landmark h PINKY_TIP = Some (mkLandmark vp y None) ->
  (vi = 0 \/ vi = 1) -> (vm = 0 \/ vm = 1) ->
  (vr = 0 \/ vr = 1) -> (vp = 0 \/ vp = 1) ->
  getHandShape h
  = Some (shapeOf (Rltb FINGER_EXTENDED_RATIO vi) (Rltb FINGER_EXTENDED_RATIO vm)
                  (Rltb FINGER_EXTENDED_RATIO vr) (Rltb FINGER_EXTENDED_RATIO vp)
                  (Rltb vi FINGER_CURLED_RATIO) (Rltb vm FINGER_CURLED_RATIO)
                  (Rltb vr FINGER_CURLED_RATIO) (Rltb vp FINGER_CURLED_RATIO)).
Proof.
  intros Hw Hm Hi Hmi Hr Hp Vi Vm Vr Vp.
  unfold getHandShape, isFingerExtended, isFingerCurled.
  rewrite (flat_ratio h y INDEX_TIP vi Hw Hm Hi Vi).
  rewrite (flat_ratio h y MIDDLE_TIP vm Hw Hm Hmi Vm).
  rewrite (flat_ratio h y RING_TIP vr Hw Hm Hr Vr).
  rewrite (flat_ratio h y PINKY_TIP vp Hw Hm Hp Vp).
  unfold getPalmWidth. rewrite Hw, Hm. cbn [bind].
  assert (D1 : dist2D (mkLandmark 0 y None) (mkLandmark 1 y None) = 1).
  { unfold dist2D. cbn [lx ly].
    replace ((0 - 1) * (0 - 1) + (y - y) * (y - y)) with 1 by ring.
    apply sqrt_1. }
  rewrite D1, (Rltb_false 1 0.01) by lra. reflexivity.
Qed.

Lemma shownOpen_shape : getHandShape shownOpen = Some open.
Proof.
  rewrite (flat_shape shownOpen 0.5 1 1 1 1);
    try reflexivity; try (right; reflexivity).
  unfold FINGER_EXTENDED_RATIO, FINGER_CURLED_RATIO.
  rewrite !Rltb_true by lra. reflexivity.
Qed.

Lemma shownFist_shape : getHandShape shownFist = Some fist.
Proof.
  rewrite (flat_shape shownFist 0.5 0 0 0 0);
    try reflexivity; try (left; reflexivity).
  unfold FINGER_EXTENDED_RATIO, FINGER_CURLED_RATIO.
  rewrite !(Rltb_false 0.75 0) by lra. rewrite !(Rltb_true 0 0.55) by lra.
  reflexivity.
Qed.

(** The palm of the open hand lies to the side of the middle of the image:
    the rotation it asks for. *)
Lemma shownOpen_rotation :
  processRotation shownOpen = Some [OnRotateView (273 / 3800) 0].
Proof.
  unfold processRotation, getPalmCenter.
  change (landmark shownOpen WRIST) with (Some (mkLandmark 0 0.5 None)).
  change (landmark shownOpen INDEX_MCP) with (Some (mkLandmark 0 0.5 None)).
  change (landmark shownOpen MIDDLE_MCP) with (Some (mkLandmark 1 0.5 None)).
  change (landmark shownOpen PINKY_MCP) with (Some (mkLandmark 0 0.5 None)).
  cbn [bind px py lx ly].
  assert (D : sqrt ((1 - (0 + 0 + 1 + 0) / 4 - 0.5) * (1 - (0 + 0 + 1 + 0) / 4 - 0.5)
                    + ((0.5 + 0.5 + 0.5 + 0.5) / 4 - 0.5)
                      * ((0.5 + 0.5 + 0.5 + 0.5) / 4 - 0.5)) = 0.25).
  { replace ((1 - (0 + 0 + 1 + 0) / 4 - 0.5) * (1 - (0 + 0 + 1 + 0) / 4 - 0.5)
             + ((0.5 + 0.5 + 0.5 + 0.5) / 4 - 0.5)
               * ((0.5 + 0.5 + 0.5 + 0.5) / 4 - 0.5))
      with (0.25 * 0.25) by lra.
    apply sqrt_square. lra. }
  rewrite D. unfold NEUTRAL_ZONE_RATIO, ROTATION_SENSITIVITY, ROTATION_MAX_SPEED.
  rewrite Rltb_true by lra.
  assert (M : Rmin ((0.25 - 0.12) / (0.5 - 0.12)) 1 = 13 / 38).
  { unfold Rmin. destruct (Rle_dec _ _) as [L | L]; lra. }
  rewrite M. f_equal. f_equal. f_equal; lra.
Qed.

Lemma fst_run_cons (s : t) (o : Op) (ops : list Op) :
  fst (run s (o :: ops)) = fst (run (fst (step s o)) ops).
Proof.
  cbn [run]. destruct (step s o) as [s1 cbs]. cbn [fst].
  destruct (run s1 ops) as [s2 more]. reflexivity.
Qed.

Lemma snd_run_cons (s : t) (o : Op) (ops : list Op) :
  snd (run s (o :: ops)) = snd (step s o) ++ snd (run (fst (step s o)) ops).
Proof.
  cbn [run]. destruct (step s o) as [s1 cbs]. cbn [fst snd].
  destruct (run s1 ops) as [s2 more]. reflexivity.
Qed.

(** A frame with the open right hand alone: up to the work of the mode,
    the frame sets the clock and the shape of the right hand. *)
Lemma open_frame_parts (s : t) (now nr nw : R) :
  0 <= lastInteractionTime (core s) -> 0 <= now <= AUTO_RESET_TIMEOUT ->
  exists s3 : t,
    onResults s [(true, shownOpen)] now nr nw
    = bind (processRightHandByMode s3 shownOpen now)
           (fun r => Some (fst r, snd r))
    /\ currentMode (core s3) = currentMode (core s)
    /\ lastInteractionTime (core s3) = lastInteractionTime (core s)
    /\ rightShape (right s3) = open
    /\ lastRightShape (right s3) = open
    /\ rightShapeStableCount (right s3)
       = snd (updateShapeStability open (lastRightShape (right s))
                (rightShapeStableCount (right s)))
    /\ zoomSt s3 = zoomSt s
    /\ explodeSt s3 = explodeSt s.
Proof.
  intros I (N0 & N1). unfold onResults.
  change (forallb drawHand (map snd [(true, shownOpen)])) with true.
  cbv iota.
  change (resolveHands [(true, shownOpen)] None None) with
    (@None (list NormalizedLandmark), Some shownOpen).
  cbn [fst snd]. unfold updateHandShapes. cbn [bind].
  rewrite shownOpen_shape. cbn [bind].
  destruct (getPalmCenter shownOpen) as [center |] eqn:Ec;
    [| discriminate Ec].
  cbn [bind with_left with_right frameClock with_core right left core
       lastRightShape rightShapeStableCount].
  unfold checkAutoReset.
  cbn [core with_right with_left].
  change (lastInteractionTime (core (frameClock s now)))
    with (lastInteractionTime (core s)).
  rewrite (Rltb_false AUTO_RESET_TIMEOUT) by lra.
  rewrite andb_false_r. cbn [app].
  eexists. split; [reflexivity |].
  cbn [core right with_right with_left frameClock with_core currentMode
       lastInteractionTime rightShape lastRightShape rightShapeStableCount
       zoomSt explodeSt].
  repeat split; try reflexivity.
  unfold updateShapeStability. destruct (shape_eqb _ _); reflexivity.
Qed.

(** Three frames with the open right hand in the mode 'watch': the hand
    has been seen open. *)
Lemma open_warm (s : t) (t1 r1 w1 t2 r2 w2 t3 r3 w3 : R) :
  currentMode (core s) = watch ->
  (0 <= rightShapeStableCount (right s))%Z ->
  0 <= lastInteractionTime (core s) ->
  0 <= t1 <= AUTO_RESET_TIMEOUT -> 0 <= t2 <= AUTO_RESET_TIMEOUT ->
  0 <= t3 <= AUTO_RESET_TIMEOUT ->
  let s1 := fst (step s (Results [(true, shownOpen)] t1 r1 w1)) in
  let s2 := fst (step s1 (Results [(true, shownOpen)] t2 r2 w2)) in
  let s3 := fst (step s2 (Results [(true, shownOpen)] t3 r3 w3)) in
  openSeen s3 /\ currentMode (core s3) = watch.
Proof.
  intros Hm Hc Hi T1 T2 T3.
  assert (Step : forall (s0 : t) (now nr nw : R) (k : Z),
             currentMode (core s0) = watch ->
             0 <= lastInteractionTime (core s0) ->
             0 <= now <= AUTO_RESET_TIMEOUT ->
             (k <= rightShapeStableCount (right s0))%Z -> (0 <= k < 12)%Z ->
             (lastRightShape (right s0) = open \/ k = 0%Z) ->
             let x := fst (step s0 (Results [(true, shownOpen)] now nr nw)) in
             currentMode (core x) = watch
             /\ 0 <= lastInteractionTime (core x)
             /\ (k + 1 <= rightShapeStableCount (right x))%Z
             /\ lastRightShape (right x) = open).
  { intros s0 now nr nw k M I N K K12 L x.
    destruct (open_frame_parts s0 now nr nw I N)
      as (s3 & E & M3 & I3 & RS & LS & C3 & _).
    assert (C : (k + 1 <= rightShapeStableCount (right s3))%Z).
    { rewrite C3. unfold updateShapeStability.
      change (STABLE_FRAMES * 3)%Z with 12%Z.
      destruct L as [L | L].
      - rewrite L. cbn [shape_eqb snd]. lia.
      - destruct (shape_eqb _ _); cbn [snd]; lia. }
    subst x. cbn [step]. rewrite E. unfold processRightHandByMode.
    rewrite M3, M. unfold processWatchMode.
    destruct (rightOpenStable s3).
    - rewrite shownOpen_rotation. cbn [bind fst snd].
      cbn [with_lastInteractionTime with_isRotating with_core core right
           currentMode lastInteractionTime].
      rewrite M3, M. repeat split; try assumption. lra.
    - cbn [bind fst snd with_isRotating core right].
      rewrite M3, M, I3. repeat split; assumption. }
  intros s1 s2 s3.
  destruct (Step s t1 r1 w1 0%Z Hm Hi T1 Hc ltac:(lia) (or_intror eq_refl))
    as (M1 & I1 & C1 & L1).
  fold s1 in M1, I1, C1, L1.
  destruct (Step s1 t2 r2 w2 1%Z M1 I1 T2 C1 ltac:(lia) (or_introl L1))
    as (M2 & I2 & C2 & L2).
  fold s2 in M2, I2, C2, L2.
  destruct (Step s2 t3 r3 w3 2%Z M2 I2 T3 C2 ltac:(lia) (or_introl L2))
    as (M3 & I3 & C3 & L3).
  fold s3 in M3, I3, C3, L3.
  split; [| exact M3]. repeat split; assumption.
Qed.

(** A frame with the open right hand alone, once the hand has been seen
    open: the shape is stable. *)
Lemma open_frame_seen (s : t) (now nr nw : R) :
  openSeen s -> 0 <= now <= AUTO_RESET_TIMEOUT ->
  exists s3 : t,
    onResults s [(true, shownOpen)] now nr nw
    = bind (processRightHandByMode s3 shownOpen now)
           (fun r => Some (fst r, snd r))
    /\ currentMode (core s3) = currentMode (core s)
    /\ lastInteractionTime (core s3) = lastInteractionTime (core s)
    /\ rightShape (right s3) = open
    /\ lastRightShape (right s3) = open
    /\ (4 <= rightShapeStableCount (right s3))%Z
    /\ zoomSt s3 = zoomSt s
    /\ explodeSt s3 = explodeSt s.
Proof.
  intros (L & C & I) N.
  destruct (open_frame_parts s now nr nw I N)
    as (s3 & E & M3 & I3 & RS & LS & C3 & Z3 & X3).
  exists s3. repeat split; try assumption.
  rewrite C3, L. unfold updateShapeStability. cbn [shape_eqb snd].
  change (STABLE_FRAMES * 3)%Z with 12%Z. lia.
Qed.

(** What the frame asks for, by the mode. *)
Lemma open_step (s : t) (now nr nw : R) :
  openSeen s -> 0 <= now <= AUTO_RESET_TIMEOUT ->
  currentMode (core s) <> component ->
  let r := step s (Results [(true, shownOpen)] now nr nw) in
  openSeen (fst r)
  /\ currentMode (core (fst r)) = currentMode (core s)
  /\ match currentMode (core s) with
     | watch => snd r = [OnRotateView (273 / 3800) 0]
     | zoom =>
         (zoomDirection (zoomSt s) = 0%Z ->
          zoomSt (fst r) = mkZoom true now 1)
         /\ (forall t0 : R,
               zoomSt s = mkZoom true t0 1 ->
               zoomSt (fst r) = mkZoom true t0 1
               /\ snd r
                  = [OnZoom (- IZR 1
                             * (ZOOM_SPEED
                                * Rmin 1 ((now - t0) / ZOOM_ACCELERATION_TIME)))])
     | explode => In (OnExplosionChange EXPLOSION_SPEED) (snd r)
     | component => True
     end.
Proof.
  intros O N Hc r.
  destruct (open_frame_seen s now nr nw O N)
    as (s3 & E & M & I3 & RS & LS & C3 & Z3 & X3).
  destruct O as (_ & _ & I). destruct N as (N0 & N1).
  assert (St : rightOpenStable s3 = true).
  { unfold rightOpenStable, isShapeStable. rewrite RS. cbn [shape_eqb andb].
    change STABLE_FRAMES with 4%Z. apply Z.leb_le. exact C3. }
  assert (K : forall x : t,
             right x = right s3 -> 0 <= lastInteractionTime (core x) ->
             openSeen x).
  { intros x Hr Hi. unfold openSeen. rewrite Hr.
    split; [exact LS |]. split; [lia | exact Hi]. }
  subst r. cbn [step]. rewrite E. unfold processRightHandByMode. rewrite M.
  destruct (currentMode (core s)) eqn:Md; [| | | contradiction].
  - unfold processWatchMode. rewrite St, shownOpen_rotation. cbn [bind fst snd].
    split; [apply K; [reflexivity | exact N0] |].
    split; [cbn; exact M | reflexivity].
  - unfold processZoomMode. rewrite St. cbn [bind]. rewrite Z3.
    destruct (1 =? zoomDirection (zoomSt s))%Z eqn:D; cbn [negb].
    + destruct (isZooming (zoomSt s) && negb (zoomDirection (zoomSt s) =? 0)%Z)
        eqn:Z; cbn [with_zoom zoomSt isZooming zoomDirection fst snd];
        (split; [apply K; [reflexivity | cbn; lra] |]);
        (split; [cbn; exact M |]);
        (split; [intros D0; rewrite D0 in D; discriminate D |]);
        intros t0 Ez; rewrite Ez in Z |- *; cbn in Z; [| discriminate Z].
      split; reflexivity.
    + cbn [Z.eqb negb isZooming zoomDirection andb zoomStartTime fst snd].
      split; [apply K; [reflexivity | exact N0] |].
      split; [cbn; exact M |].
      split; [intros _; reflexivity |].
      intros t0 Ez. rewrite Ez in D. cbn in D. discriminate D.
  - unfold processExplodeMode. rewrite RS.
    unfold isShapeStable. change STABLE_FRAMES with 4%Z.
    replace (4 <=? rightShapeStableCount (right s3))%Z with true
      by (symmetry; apply Z.leb_le; exact C3).
    cbn [shape_eqb andb fst snd].
    split; [apply K; [reflexivity | exact N0] |].
    split; [cbn; exact M |].
    apply in_or_app. right. left. reflexivity.
Qed.

(** A [setMode] by a click keeps what the right hand has shown, and starts
    the new mode with no zoom under way. *)
Lemma setMode_openSeen (s : t) (m : GestureMode) (now : R) :
  openSeen s -> 0 <= now ->
  let r := setMode s m false now in
  openSeen (fst r)
  /\ (currentMode (core s) <> m ->
      currentMode (core (fst r)) = m /\ zoomDirection (zoomSt (fst r)) = 0%Z).
Proof.
  intros (L & C & I) N r. subst r. unfold setMode. cbn [andb].
  destruct (mode_eqb (currentMode (core s)) m) eqn:E; cbn [negb fst].
  - split; [repeat split; assumption |].
    intros H. exfalso. apply H. apply mode_eqb_eq. exact E.
  - split; [| intros _; split; reflexivity].
    repeat split; [exact L | exact C | exact N].
Qed.

(** A frame with the fist of the right hand alone in the mode 'explode',
    outside the click mode and with no explosion under way: the count of
    the shape goes up, and the stable fist aggregates when the block and
    the cooldown are over, and does nothing when not. *)
Lemma fist_step (s : t) (now nr nw : R) :
  currentMode (core s) = explode ->
  0 <= lastInteractionTime (core s) -> 0 <= now <= AUTO_RESET_TIMEOUT ->
  isInClickMode (explodeSt s) = false ->
  isExploding (explodeSt s) = false ->
  let r := step s (Results [(true, shownFist)] now nr nw) in
  let c := snd (updateShapeStability fist (lastRightShape (right s))
                  (rightShapeStableCount (right s))) in
  (currentMode (core (fst r)) = explode
   /\ 0 <= lastInteractionTime (core (fst r))
   /\ isInClickMode (explodeSt (fst r)) = false
   /\ isExploding (explodeSt (fst r)) = false
   /\ aggregationBlockedUntil (explodeSt (fst r))
      = aggregationBlockedUntil (explodeSt s))
  /\ (lastRightShape (right (fst r)) = fist
      /\ rightShapeStableCount (right (fst r)) = c)
  /\ (isShapeStable c = false ->
      lastAggregationTime (explodeSt (fst r)) = lastAggregationTime (explodeSt s)
      /\ snd r = [])
  /\ (isShapeStable c = true ->
      snd r
      = if afterBlock now (aggregationBlockedUntil (explodeSt s))
           && Rltb EXPLOSION_COOLDOWN (now - lastAggregationTime (explodeSt s))
        then [OnAggregation; OnEscape; OnGestureChange aggregation rightHand]
        else []).
Proof.
  intros M I (N0 & N1) Ck Ex r c. subst r.
  destruct s as [co l rt ir z [ex let_ lat cm bu ip pst scx scy hst lhx lhy] cp].
  cbn [explodeSt isInClickMode isExploding core right aggregationBlockedUntil
       lastAggregationTime] in *.
  subst cm ex.
  cbn [step]. unfold onResults.
  change (forallb drawHand (map snd [(true, shownFist)])) with true.
  cbv iota.
  change (resolveHands [(true, shownFist)] None None) with
    (@None (list NormalizedLandmark), Some shownFist).
  cbn [fst snd]. unfold updateHandShapes. cbn [bind].
  rewrite shownFist_shape. cbn [bind].
  destruct (getPalmCenter shownFist) as [center |] eqn:Ec;
    [| discriminate Ec].
  cbn [bind with_left with_right frameClock with_core right left core
       lastRightShape rightShapeStableCount].
  fold c.
  assert (F : fst (updateShapeStability fist (lastRightShape rt)
                     (rightShapeStableCount rt)) = fist).
  { unfold updateShapeStability. destruct (shape_eqb _ _); reflexivity. }
  rewrite F.
  unfold checkAutoReset, frameClock.
  cbn [core with_right with_left with_core lastInteractionTime currentMode].
  rewrite (Rltb_false AUTO_RESET_TIMEOUT) by lra.
  rewrite andb_false_r. cbn [app].
  unfold processRightHandByMode.
  cbn [core with_right with_left currentMode].
  rewrite M.
  unfold processExplodeMode.
  cbn [right rightShape rightShapeStableCount with_right shape_eqb andb orb
       explodeSt with_left frameClock with_core hideCursor with_explode
       ex_hoverStartTime isExploding isInClickMode aggregationBlockedUntil
       lastAggregationTime].
  destruct (isShapeStable c) eqn:S.
  - destruct (afterBlock now bu && Rltb EXPLOSION_COOLDOWN (now - lat)) eqn:A;
      cbn; rewrite ?M; repeat split; try assumption; try reflexivity;
      try discriminate; try lra.
  - cbn. rewrite ?M. repeat split; try assumption; try reflexivity;
      try discriminate; try lra.
Qed.

(** Four frames with the fist from a state in the mode 'explode' whose
    right hand has shown nothing yet, outside the click mode: when the block
    is over at the fourth, it aggregates. *)
Lemma fist_frames_aggregate (s : t) (t1 t2 t3 t4 : R) (rest : list Op) :
  currentMode (core s) = explode ->
  0 <= lastInteractionTime (core s) ->
  isInClickMode (explodeSt s) = false ->
  isExploding (explodeSt s) = false ->
  rightShapeStableCount (right s) = 0%Z ->
  0 <= t1 <= AUTO_RESET_TIMEOUT -> 0 <= t2 <= AUTO_RESET_TIMEOUT ->
  0 <= t3 <= AUTO_RESET_TIMEOUT -> 0 <= t4 <= AUTO_RESET_TIMEOUT ->
  afterBlock t4 (aggregationBlockedUntil (explodeSt s))
  && Rltb EXPLOSION_COOLDOWN (t4 - lastAggregationTime (explodeSt s)) = true ->
  In OnAggregation
     (snd (run s (Results [(true, shownFist)] t1 t1 t1
                  :: Results [(true, shownFist)] t2 t2 t2
                  :: Results [(true, shownFist)] t3 t3 t3
                  :: Results [(true, shownFist)] t4 t4 t4 :: rest))).
Proof.
  intros M I Ck Ex C T1 T2 T3 T4 A.
  destruct (fist_step s t1 t1 t1 M I T1 Ck Ex)
    as ((M1 & I1 & Ck1 & Ex1 & B1) & (L1 & C1) & N1 & _).
  set (s1 := fst (step s (Results [(true, shownFist)] t1 t1 t1))) in *.
  assert (C1' : rightShapeStableCount (right s1) = 1%Z).
  { rewrite C1, C. unfold updateShapeStability.
    destruct (shape_eqb _ _); reflexivity. }
  destruct (N1 ltac:(rewrite <- C1, C1'; reflexivity)) as (A1 & _).
  destruct (fist_step s1 t2 t2 t2 M1 I1 T2 Ck1 Ex1)
    as ((M2 & I2 & Ck2 & Ex2 & B2) & (L2 & C2) & N2 & _).
  set (s2 := fst (step s1 (Results [(true, shownFist)] t2 t2 t2))) in *.
  rewrite L1, C1' in C2. change (snd (updateShapeStability fist fist 1))
    with 2%Z in C2.
  destruct (N2 ltac:(rewrite L1, C1'; reflexivity)) as (A2 & _).
  destruct (fist_step s2 t3 t3 t3 M2 I2 T3 Ck2 Ex2)
    as ((M3 & I3 & Ck3 & Ex3 & B3) & (L3 & C3) & N3 & _).
  set (s3 := fst (step s2 (Results [(true, shownFist)] t3 t3 t3))) in *.
  rewrite L2, C2 in C3. change (snd (updateShapeStability fist fist 2))
    with 3%Z in C3.
  destruct (N3 ltac:(rewrite L2, C2; reflexivity)) as (A3 & _).
  destruct (fist_step s3 t4 t4 t4 M3 I3 T4 Ck3 Ex3) as (_ & _ & _ & E4).
  rewrite L3, C3 in E4. specialize (E4 eq_refl).
  rewrite B3, B2, B1, A3, A2, A1, A in E4.
  rewrite !snd_run_cons. fold s1 s2 s3.
  do 3 (apply in_or_app; right). apply in_or_app. left.
  rewrite E4. left. reflexivity.
Qed.

Lemma snd_run_app (s : t) (a b : list Op) :
  snd (run s (a ++ b)) = snd (run s a) ++ snd (run (fst (run s a)) b).
Proof.
  revert s. induction a as [| o a IH]; intros s; [reflexivity |].
  cbn [app]. rewrite !snd_run_cons, IH, app_assoc.
  f_equal. f_equal. cbn [run]. destruct (step s o) as [s1 cbs]. cbn [fst].
  destruct (run s1 a) as [s2 more]. reflexivity.
Qed.

(** A [setMode] by a click to another mode makes its two calls. *)
Lemma setMode_click_calls (s : t) (m : GestureMode) (now : R) :
  currentMode (core s) <> m ->
  snd (setMode s m false now)
  = [OnModeChange m; OnGestureChange (mode_ m) leftHand].
Proof.
  intros H. unfold setMode. cbn [andb].
  destruct (mode_eqb (currentMode (core s)) m) eqn:E; [| reflexivity].
  exfalso. apply H. apply mode_eqb_eq. exact E.
Qed.

(** A session of the open right hand from the start: four frames in the
    mode 'watch', a click on the mode 'zoom', two frames there.  The fourth
    frame asks for a rotation, the click changes the mode, and the second
    frame in 'zoom' asks for a zoom step. *)
Lemma open_session :
  let frame now := Results [(true, shownOpen)] now now now in
  let pre := [frame 16; frame 33; frame 50; frame 66;
              SetMode zoom false 70; frame 83; frame 100] in
  (openSeen (fst (run create pre))
   /\ currentMode (core (fst (run create pre))) = zoom)
  /\ In (OnRotateView (273 / 3800) 0) (snd (run create pre))
  /\ In (OnModeChange zoom) (snd (run create pre))
  /\ In (OnZoom (- 0.0017)) (snd (run create pre)).
Proof.
  intros frame pre.
  assert (T : forall x : R, 0 <= x <= 200 -> 0 <= x <= AUTO_RESET_TIMEOUT)
    by (unfold AUTO_RESET_TIMEOUT; intros x; lra).
  destruct (open_warm create 16 16 16 33 33 33 50 50 50)
    as (O3 & M3); try reflexivity; try (cbn; lia); try (cbn; lra);
    try (apply T; lra).
  unfold pre, frame.
  rewrite !snd_run_cons, !fst_run_cons.
  set (s1 := fst (step create (Results [(true, shownOpen)] 16 16 16))) in *.
  set (s2 := fst (step s1 (Results [(true, shownOpen)] 33 33 33))) in *.
  set (s3 := fst (step s2 (Results [(true, shownOpen)] 50 50 50))) in *.
  destruct (open_step s3 66 66 66 O3 (T 66 ltac:(lra))) as (O4 & M4 & E4);
    [rewrite M3; discriminate |].
  rewrite M3 in M4, E4.
  set (s4 := fst (step s3 (Results [(true, shownOpen)] 66 66 66))) in *.
  destruct (setMode_openSeen s4 zoom 70 O4 ltac:(lra)) as (O5 & H5).
  destruct H5 as (M5 & Z5); [rewrite M4; discriminate |].
  assert (E5 : snd (step s4 (SetMode zoom false 70))
               = [OnModeChange zoom; OnGestureChange (mode_ zoom) leftHand]).
  { apply setMode_click_calls. rewrite M4. discriminate. }
  change (setMode s4 zoom false 70) with (step s4 (SetMode zoom false 70))
    in O5, M5, Z5.
  set (s5 := fst (step s4 (SetMode zoom false 70))) in *.
  destruct (open_step s5 83 83 83 O5 (T 83 ltac:(lra))) as (O6 & M6 & E6);
    [rewrite M5; discriminate |].
  rewrite M5 in M6, E6. destruct E6 as (E6 & _). specialize (E6 Z5).
  set (s6 := fst (step s5 (Results [(true, shownOpen)] 83 83 83))) in *.
  destruct (open_step s6 100 100 100 O6 (T 100 ltac:(lra))) as (O7 & M7 & E7);
    [rewrite M6; discriminate |].
  rewrite M6 in M7, E7. destruct E7 as (_ & E7).
  destruct (E7 83 E6) as (_ & E7').
  set (s7 := fst (step s6 (Results [(true, shownOpen)] 100 100 100))) in *.
  rewrite E4, E5, E7'.
  assert (Z : - IZR 1 * (ZOOM_SPEED * Rmin 1 ((100 - 83) / ZOOM_ACCELERATION_TIME))
              = - 0.0017).
  { unfold ZOOM_SPEED, ZOOM_ACCELERATION_TIME, Rmin.
    destruct (Rle_dec _ _); lra. }
  rewrite Z. cbn [run fst].
  split; [split; assumption |].
  split; [| split].
  - do 3 (apply in_or_app; right). apply in_or_app. left. left. reflexivity.
  - do 4 (apply in_or_app; right). apply in_or_app. left. left. reflexivity.
  - do 6 (apply in_or_app; right). apply in_or_app. left. left. reflexivity.
Qed.

(** X24.  The gestures reach the modes of the camera only.  From a state in
    the mode 'watch' or 'zoom' (the controller starts in 'watch'), whatever
    the frames, the timers and the enabling calls are, the mode stays
    'watch' or 'zoom', and the only callbacks are those of a change to such
    a mode, of a rotation of the view and of a zoom: as long as the page
    does not call [setMode] with 'explode' or 'component', no hand can
    explode the model, aggregate it, move the cursor, click or navigate. *)
Theorem gestures_reach_view_modes_only (s : t) (ops : list Op) :
  viewMode (currentMode (core s)) = true ->
  forallb gestureOp ops = true ->
  viewMode (currentMode (core (fst (run s ops)))) = true
  /\ forallb viewCallback (snd (run s ops)) = true.
Proof.
  revert s. induction ops as [| o ops IH]; intros s Hs Ho.
  - split; [exact Hs | reflexivity].
  - cbn [forallb] in Ho. apply andb_prop in Ho. destruct Ho as (Ho & Hops).
    cbn [run].
    pose proof (step_view s o Hs Ho) as (V & W).
    destruct (step s o) as [s1 cbs]. cbn [fst snd] in V, W.
    specialize (IH s1 V Hops).
    destruct (run s1 ops) as [s2 more]. cbn [fst snd] in *.
    destruct IH as (V2 & W2). split; [exact V2 |].
    rewrite forallb_app, W, W2. reflexivity.
Qed.

Lemma gestures_reach_view_modes_only_witness :
  let frame now := Results [(true, shownOpen)] now now now in
  let both now := Results [(true, shownFist); (false, shownTwo)] now now now in
  let ops := [frame 16; frame 33; frame 50; frame 66;
              SetMode zoom false 70; frame 83; frame 100]
             ++ [both 5000; both 5100; both 5200; both 5300; both 5800;
                 Timeout 6000; SetMode watch true 6100; SetEnabled false] in
  (viewMode (currentMode (core (fst (run create ops)))) = true
   /\ forallb viewCallback (snd (run create ops)) = true)
  /\ In (OnRotateView (273 / 3800) 0) (snd (run create ops))
  /\ In (OnModeChange zoom) (snd (run create ops))
  /\ In (OnZoom (- 0.0017)) (snd (run create ops)).
Proof.
  intros frame both ops. split.
  - apply (gestures_reach_view_modes_only create ops); reflexivity.
  - destruct open_session as (_ & A & B & C).
    unfold ops. rewrite snd_run_app.
    split; [| split]; apply in_or_app; left; assumption.
Defined.

(** *** What the right hand leaves alone *)

Ltac unbind :=
  repeat match goal with
         | H : bind _ _ = Some _ |- _ =>
             apply bind_some in H; destruct H as (? & ? & H)
         | H : Some _ = Some _ |- _ => injection H as <-
         | H : (if ?b then _ else _) = Some _ |- _ => destruct b eqn:?
         | H : None = Some _ |- _ => discriminate H
         end.

Lemma processClickMode_core (s : t) (landmarks : list NormalizedLandmark)
    (now : R) (r : t * list Callback) :
  processClickMode s landmarks now = Some r ->
  (core (fst r) = core s \/ core (fst r) = touched (core s) now)
  /\ left (fst r) = left s
  /\ forallb (fun c => negb (modeCallback c)) (snd r) = true.
Proof.
  unfold processClickMode. intros H. unbind; cbn; auto.
Qed.

Lemma processExplodeMode_core (s : t) (landmarks : list NormalizedLandmark)
    (now : R) (r : t * list Callback) :
  processExplodeMode s landmarks now = Some r ->
  (core (fst r) = core s \/ core (fst r) = touched (core s) now)
  /\ left (fst r) = left s
  /\ forallb (fun c => negb (modeCallback c)) (snd r) = true.
Proof.
  unfold processExplodeMode. intros H.
  destruct (shape_eqb (rightShape (right s)) open && _).
  { injection H as <-. cbn [fst snd]. split; [right; reflexivity |].
    split; [reflexivity |].
    destruct (negb _); reflexivity. }
  destruct ((shape_eqb (rightShape (right s)) one || _) && _).
  { apply bind_some in H. destruct H as (r1 & H1 & H).
    injection H as <-. apply processClickMode_core in H1.
    destruct H1 as (C & L & Q). cbn [fst snd].
    split; [right; destruct C as [C | C]; cbn; rewrite C; reflexivity |].
    split; [exact L |].
    rewrite forallb_app, Q. destruct (negb _); reflexivity. }
  destruct (shape_eqb (rightShape (right s)) fist && _).
  { destruct (afterBlock _ _ && _); injection H as <-; cbn; auto. }
  injection H as <-. cbn. auto.
Qed.

Lemma processComponentMode_core (s : t) (landmarks : list NormalizedLandmark)
    (now : R) (r : t * list Callback) :
  processComponentMode s landmarks now = Some r ->
  (core (fst r) = core s \/ core (fst r) = touched (core s) now)
  /\ left (fst r) = left s
  /\ forallb (fun c => negb (modeCallback c)) (snd r) = true.
Proof.
  unfold processComponentMode. intros H.
  destruct (negb (rightOpenStable s)).
  { injection H as <-. cbn. auto. }
  apply bind_some in H. destruct H as (palm & _ & H).
  destruct (Req_dec_T _ _).
  { injection H as <-. cbn. auto. }
  injection H as <-. cbn [fst snd].
  repeat match goal with
         | |- context [if ?b then _ else _] => destruct b
         end; cbn; auto.
Qed.

Lemma processWatchMode_core (s : t) (landmarks : list NormalizedLandmark)
    (now : R) (r : t * list Callback) :
  processWatchMode s landmarks now = Some r ->
  (core (fst r) = core s \/ core (fst r) = touched (core s) now)
  /\ left (fst r) = left s
  /\ forallb (fun c => negb (modeCallback c)) (snd r) = true.
Proof.
  unfold processWatchMode, processRotation. intros H. unbind; cbn; auto.
Qed.

Lemma processZoomMode_core (s : t) (landmarks : list NormalizedLandmark)
    (now : R) (r : t * list Callback) :
  processZoomMode s landmarks now = Some r ->
  (core (fst r) = core s \/ core (fst r) = touched (core s) now)
  /\ left (fst r) = left s
  /\ forallb (fun c => negb (modeCallback c)) (snd r) = true.
Proof.
  unfold processZoomMode. intros H. unbind; cbn; auto.
Qed.

Lemma processRightHandByMode_core (s : t)
    (landmarks : list NormalizedLandmark) (now : R) (r : t * list Callback) :
  processRightHandByMode s landmarks now = Some r ->
  (core (fst r) = core s \/ core (fst r) = touched (core s) now)
  /\ left (fst r) = left s
  /\ forallb (fun c => negb (modeCallback c)) (snd r) = true.
Proof.
  unfold processRightHandByMode. destruct (currentMode (core s)).
  - apply processWatchMode_core.
  - apply processZoomMode_core.
  - apply processExplodeMode_core.
  - apply processComponentMode_core.
Qed.

(** *** The lock of the mode *)

Lemma Locked_core (T : R) (m : GestureMode) (s s1 : t) :
  core s1 = core s -> Locked T m s -> Locked T m s1.
Proof. unfold Locked, mode. intros ->. tauto. Qed.

Lemma onResults_locked (T : R) (m : GestureMode) (s : t)
    (hands : list (bool * list NormalizedLandmark))
    (now nowReset nowSwitch : R) (r : t * list Callback) :
  Locked T m s -> T <= now < T + MODE_LOCK_DURATION ->
  onResults s hands now nowReset nowSwitch = Some r ->
  Locked T m (fst r)
  /\ forallb (fun c => negb (modeCallback c)) (snd r) = true.
Proof.
  intros L Hn. unfold onResults.
  destruct (forallb drawHand (map snd hands)); [| discriminate].
  intros H. apply bind_some in H. destruct H as (s1 & H1 & H).
  apply updateHandShapes_core in H1. destruct H1 as (C1 & _).
  assert (L1 : Locked T m s1).
  { destruct L as (A & B & C & D). unfold Locked, mode. rewrite C1.
    cbn. tauto. }
  assert (E2 : checkAutoReset s1 now nowReset = (s1, [])).
  { unfold checkAutoReset. destruct L1 as (_ & _ & C & _).
    rewrite (Rltb_false AUTO_RESET_TIMEOUT).
    - rewrite andb_false_r. reflexivity.
    - unfold AUTO_RESET_TIMEOUT, MODE_LOCK_DURATION in *. lra. }
  rewrite E2 in H.
  assert (E3 : exists s3,
             match fst (resolveHands hands None None) with
             | Some _ => checkLeftHandModeSwitch s1 now nowSwitch
             | None => (s1, [])
             end = (s3, []) /\ core s3 = core s1).
  { destruct (fst (resolveHands hands None None)); [| eauto].
    unfold checkLeftHandModeSwitch. destruct L1 as (A & B & _).
    rewrite A, B, (Rltb_true (now - T)) by lra. cbn [andb]. eauto. }
  destruct E3 as (s3 & E3 & C3). rewrite E3 in H.
  assert (L3 : Locked T m s3) by (eapply Locked_core; eassumption).
  destruct (snd (resolveHands hands None None)) as [landmarks |].
  - apply bind_some in H. destruct H as (r3 & H3 & H).
    injection H as <-. cbn [fst snd app].
    apply processRightHandByMode_core in H3.
    destruct H3 as (C & _ & Q). split; [| exact Q].
    destruct C as [C | C].
    + eapply Locked_core; eassumption.
    + destruct L3 as (A & B & D & E). unfold Locked, mode. rewrite C.
      cbn. repeat split; try assumption. lra.
  - injection H as <-. cbn [fst snd app]. split; [| reflexivity].
    eapply Locked_core; [| exact L3]. reflexivity.
Qed.

Lemma step_locked (T : R) (m : GestureMode) (s : t) (o : Op) :
  Locked T m s -> inLock T o ->
  Locked T m (fst (step s o))
  /\ forallb (fun c => negb (modeCallback c)) (snd (step s o)) = true.
Proof.
  intros L Ho. destruct o as [hands now nr nw | now | m' b now | e];
    cbn [inLock] in Ho; cbn [step].
  - destruct (onResults s hands now nr nw) as [r |] eqn:E.
    + eapply onResults_locked; eassumption.
    + cbn [fst snd forallb]. split; [| reflexivity].
      destruct L as (A & B & C & D). repeat split; assumption.
  - contradiction.
  - destruct Ho as (-> & Hn). unfold setMode.
    destruct L as (A & B & C & D).
    rewrite A, B, (Rltb_true (now - T)) by lra. cbn [andb fst snd forallb].
    split; [| reflexivity]. repeat split; assumption.
  - cbn [fst snd forallb]. split; [| reflexivity].
    eapply Locked_core; [| exact L]. destruct e; reflexivity.
Qed.

Lemma run_locked (T : R) (m : GestureMode) (ops : list Op) (s : t) :
  Locked T m s -> Forall (inLock T) ops ->
  Locked T m (fst (run s ops))
  /\ forallb (fun c => negb (modeCallback c)) (snd (run s ops)) = true.
Proof.
  revert s. induction ops as [| o ops IH]; intros s L F.
  - split; [exact L | reflexivity].
  - inversion F as [| ? ? Ho Hops]; subst. cbn [run].
    pose proof (step_locked T m s o L Ho) as (L1 & Q1).
    destruct (step s o) as [s1 cbs]. cbn [fst snd] in L1, Q1.
    specialize (IH s1 L1 Hops).
    destruct (run s1 ops) as [s2 more]. cbn [fst snd] in *.
    destruct IH as (L2 & Q2). split; [exact L2 |].
    rewrite forallb_app, Q1, Q2. reflexivity.
Qed.

(** X25.  The lock of the mode.  After a change of mode made by a gesture
    (and after the start), for the 5 seconds that follow no frame and no
    [setMode] by gesture changes the mode or calls [onModeChange], whatever
    the hands show.  A [setMode] by a click is never locked: it always
    ends in the mode asked for, and clears the lock for the gestures. *)
Theorem mode_lock (s : t) (ops : list Op) :
  modeSwitchByGesture (core s) = true ->
  lastModeChangeTime (core s) <= lastInteractionTime (core s) ->
  Forall (inLock (lastModeChangeTime (core s))) ops ->
  (currentMode (core (fst (run s ops))) = currentMode (core s)
   /\ forallb (fun c => negb (modeCallback c)) (snd (run s ops)) = true)
  /\ forall (m : GestureMode) (now : R),
       let s1 := fst (setMode (fst (run s ops)) m false now) in
       currentMode (core s1) = m
       /\ (currentMode (core (fst (run s ops))) <> m ->
           modeSwitchByGesture (core s1) = false).
Proof.
  intros A C F.
  assert (L : Locked (lastModeChangeTime (core s)) (mode s) s).
  { repeat split; assumption. }
  pose proof (run_locked _ _ ops s L F) as ((_ & _ & _ & M) & Q).
  split; [split; [exact M | exact Q] |].
  intros m now s1. subst s1.
  set (s2 := fst (run s ops)).
  destruct (setMode_cases s2 m false now) as [E | (E & N & _)].
  - assert (K : currentMode (core s2) = m).
    { unfold setMode in E. cbn [andb] in E.
      destruct (mode_eqb (currentMode (core s2)) m) eqn:Em.
      - apply mode_eqb_eq. exact Em.
      - cbn [negb] in E. discriminate E. }
    rewrite E. cbn [fst]. split; [exact K | intros N; contradiction].
  - rewrite E. cbn. split; reflexivity.
Qed.

Lemma mode_lock_witness :
  let s := switched create zoom true 1000 in
  let one := shown [INDEX_TIP] in
  let ops := [Results [(false, one); (true, shownOpen)] 1016 1016 1016;
              Results [(false, one); (true, shownOpen)] 1033 1033 1033;
              Results [(false, one); (true, shownOpen)] 1050 1050 1050;
              Results [(false, one); (true, shownOpen)] 1066 1066 1066;
              Results [(false, one)] 1600 1600 1600;
              SetMode explode true 2000; SetEnabled false;
              Results [(false, one)] 5900 5900 5900] in
  (currentMode (core (fst (run s ops))) = currentMode (core s)
   /\ forallb (fun c => negb (modeCallback c)) (snd (run s ops)) = true)
  /\ forall (m : GestureMode) (now : R),
       let s1 := fst (setMode (fst (run s ops)) m false now) in
       currentMode (core s1) = m
       /\ (currentMode (core (fst (run s ops))) <> m ->
           modeSwitchByGesture (core s1) = false).
Proof.
  intros s one ops. apply (mode_lock s ops).
  - reflexivity.
  - cbn. lra.
  - unfold ops. repeat constructor; cbn; unfold MODE_LOCK_DURATION; lra.
Defined.

(** *** The steps of the camera *)

Lemma processRotation_bounded (landmarks : list NormalizedLandmark)
    (cbs : list Callback) :
  processRotation landmarks = Some cbs -> Forall bounded cbs.
Proof.
  unfold processRotation. intros H.
  apply bind_some in H. destruct H as (palm & _ & H).
  set (ox := 1 - px palm - 0.5) in *.
  set (oy := py palm - 0.5) in *.
  set (D := sqrt (ox * ox + oy * oy)) in *.
  destruct (Rltb_spec NEUTRAL_ZONE_RATIO D) as [(E & HD) | (E & HD)];
    rewrite E in H; injection H as <-; [| constructor].
  constructor; [| constructor]. cbn [bounded].
  unfold NEUTRAL_ZONE_RATIO, ROTATION_SENSITIVITY, ROTATION_MAX_SPEED in *.
  set (k := Rmin ((D - 0.12) / (0.5 - 0.12)) 1 * 3.5 * 0.06).
  assert (Hk : 0 <= k <= 3.5 * 0.06).
  { unfold k.
    assert (0 <= (D - 0.12) / (0.5 - 0.12)).
    { apply Rmult_le_pos; [lra |]. apply Rlt_le, Rinv_0_lt_compat. lra. }
    unfold Rmin. destruct (Rle_dec _ _); lra. }
  assert (HQ : D * D = ox * ox + oy * oy).
  { unfold D. apply sqrt_sqrt. nra. }
  replace (ox / D * (Rmin ((D - 0.12) / (0.5 - 0.12)) 1 * 3.5) * 0.06
           * (ox / D * (Rmin ((D - 0.12) / (0.5 - 0.12)) 1 * 3.5) * 0.06)
           + oy / D * (Rmin ((D - 0.12) / (0.5 - 0.12)) 1 * 3.5) * 0.06
             * (oy / D * (Rmin ((D - 0.12) / (0.5 - 0.12)) 1 * 3.5) * 0.06))
    with ((ox * ox + oy * oy) / (D * D) * (k * k))
    by (unfold k; field; lra).
  rewrite <- HQ.
  replace (D * D / (D * D) * (k * k)) with (k * k) by (field; lra).
  nra.
Qed.

Lemma processZoomMode_bounded (s : t) (landmarks : list NormalizedLandmark)
    (now : R) (r : t * list Callback) :
  zoomStartTime (zoomSt s) <= now ->
  processZoomMode s landmarks now = Some r ->
  zoomStartTime (zoomSt (fst r)) <= now /\ Forall bounded (snd r).
Proof.
  intros Hz. unfold processZoomMode. intros H.
  apply bind_some in H. destruct H as (d & Hd & H).
  assert (Dd : d = 1%Z \/ d = (-1)%Z \/ d = 0%Z).
  { destruct (rightOpenStable s).
    - injection Hd as <-. auto.
    - apply bind_some in Hd. destruct Hd as (loose & _ & Hd).
      injection Hd as <-. destruct (loose && _); auto. }
  set (z1 := if negb (d =? zoomDirection (zoomSt s))%Z
             then if negb (d =? 0)%Z then mkZoom true now d
                  else mkZoom false (zoomStartTime (zoomSt s)) d
             else zoomSt s) in *.
  assert (Z1 : zoomStartTime z1 <= now /\ zoomDirection z1 = d).
  { unfold z1. destruct (d =? zoomDirection (zoomSt s))%Z eqn:E; cbn [negb].
    - apply Z.eqb_eq in E. split; [exact Hz | congruence].
    - destruct (negb (d =? 0)%Z); cbn; split; try reflexivity; lra. }
  destruct Z1 as (Z1 & Z2).
  destruct (isZooming z1 && negb (zoomDirection z1 =? 0)%Z);
    injection H as <-; cbn [fst snd zoomSt with_zoom with_lastInteractionTime
                            with_core]; (split; [exact Z1 |]).
  - constructor; [| constructor]. cbn [bounded]. rewrite Z2.
    unfold ZOOM_SPEED, ZOOM_ACCELERATION_TIME.
    assert (A : 0 <= Rmin 1 ((now - zoomStartTime z1) / 250) <= 1).
    { assert (0 <= (now - zoomStartTime z1) / 250).
      { apply Rmult_le_pos; [lra |]. apply Rlt_le, Rinv_0_lt_compat. lra. }
      unfold Rmin. destruct (Rle_dec _ _); lra. }
    destruct Dd as [-> | [-> | ->]]; cbn [IZR IPR IPR_2]; lra.
  - constructor.
Qed.

Lemma processWatchMode_bounded (s : t) (landmarks : list NormalizedLandmark)
    (now : R) (r : t * list Callback) :
  processWatchMode s landmarks now = Some r ->
  zoomSt (fst r) = zoomSt s /\ Forall bounded (snd r).
Proof.
  unfold processWatchMode. destruct (rightOpenStable s); intros H.
  - apply bind_some in H. destruct H as (cbs & Hc & H).
    injection H as <-. split; [reflexivity |].
    apply processRotation_bounded in Hc. exact Hc.
  - injection H as <-. split; [reflexivity | constructor].
Qed.

Lemma processClickMode_bounded (s : t) (landmarks : list NormalizedLandmark)
    (now : R) (r : t * list Callback) :
  processClickMode s landmarks now = Some r ->
  zoomSt (fst r) = zoomSt s /\ Forall bounded (snd r).
Proof.
  unfold processClickMode. intros H.
  unbind; cbn; (split; [reflexivity | repeat constructor]).
Qed.

Lemma processExplodeMode_bounded (s : t) (landmarks : list NormalizedLandmark)
    (now : R) (r : t * list Callback) :
  processExplodeMode s landmarks now = Some r ->
  zoomSt (fst r) = zoomSt s /\ Forall bounded (snd r).
Proof.
  unfold processExplodeMode. intros H.
  destruct (shape_eqb (rightShape (right s)) open && _).
  { injection H as <-. cbn [fst snd]. split; [reflexivity |].
    destruct (negb _); repeat constructor. }
  destruct ((shape_eqb (rightShape (right s)) one || _) && _).
  { apply bind_some in H. destruct H as (r1 & H1 & H).
    injection H as <-. apply processClickMode_bounded in H1.
    destruct H1 as (Z & B). cbn [fst snd]. split; [exact Z |].
    apply Forall_app. split; [| exact B].
    destruct (negb _); repeat constructor. }
  destruct (shape_eqb (rightShape (right s)) fist && _).
  { destruct (afterBlock _ _ && _); injection H as <-; cbn;
      (split; [reflexivity | repeat constructor]). }
  injection H as <-. cbn. split; [reflexivity | constructor].
Qed.

Lemma processComponentMode_bounded (s : t)
    (landmarks : list NormalizedLandmark) (now : R) (r : t * list Callback) :
  processComponentMode s landmarks now = Some r ->
  zoomSt (fst r) = zoomSt s /\ Forall bounded (snd r).
Proof.
  unfold processComponentMode. intros H.
  destruct (negb (rightOpenStable s)).
  { injection H as <-. cbn. split; [reflexivity | constructor]. }
  apply bind_some in H. destruct H as (palm & _ & H).
  destruct (Req_dec_T _ _).
  { injection H as <-. cbn. split; [reflexivity | constructor]. }
  injection H as <-. cbn [fst snd].
  repeat match goal with
         | |- context [if ?b then _ else _] => destruct b
         end; cbn; (split; [reflexivity | repeat constructor]).
Qed.

Lemma setMode_bounded (s : t) (m : GestureMode) (b : bool) (now : R) :
  zoomStartTime (zoomSt (fst (setMode s m b now))) = zoomStartTime (zoomSt s)
  /\ Forall bounded (snd (setMode s m b now)).
Proof.
  destruct (setMode_cases s m b now) as [-> | (-> & _)]; cbn;
    (split; [reflexivity | repeat constructor]).
Qed.

Lemma onResults_bounded (s : t)
    (hands : list (bool * list NormalizedLandmark))
    (now nowReset nowSwitch : R) (r : t * list Callback) :
  zoomStartTime (zoomSt s) <= now ->
  onResults s hands now nowReset nowSwitch = Some r ->
  zoomStartTime (zoomSt (fst r)) <= now /\ Forall bounded (snd r).
Proof.
  intros Hz. unfold onResults.
  destruct (forallb drawHand (map snd hands)); [| discriminate].
  intros H. apply bind_some in H. destruct H as (s1 & H1 & H).
  apply updateHandShapes_core in H1. destruct H1 as (_ & Z1 & _).
  cbn in Z1.
  assert (B2 : zoomStartTime (zoomSt (fst (checkAutoReset s1 now nowReset)))
               = zoomStartTime (zoomSt s1)
               /\ Forall bounded (snd (checkAutoReset s1 now nowReset))).
  { unfold checkAutoReset. destruct (_ && _).
    - apply setMode_bounded.
    - split; [reflexivity | constructor]. }
  destruct (checkAutoReset s1 now nowReset) as [s2 cbs2].
  cbn [fst snd] in B2. destruct B2 as (Z2 & B2).
  assert (B3 : forall x,
             x = match fst (resolveHands hands None None) with
                 | Some _ => checkLeftHandModeSwitch s2 now nowSwitch
                 | None => (s2, [])
                 end ->
             zoomStartTime (zoomSt (fst x)) = zoomStartTime (zoomSt s2)
             /\ Forall bounded (snd x)).
  { intros x ->. destruct (fst (resolveHands hands None None));
      [| split; [reflexivity | constructor]].
    destruct (checkLeftHandModeSwitch_cases s2 now nowSwitch)
      as [-> | [(st & pe & ->) | (m & ->)]];
      try (split; [reflexivity | constructor]).
    cbn [fst snd]. apply (setMode_bounded s2 m true nowSwitch). }
  specialize (B3 _ eq_refl).
  destruct (match fst (resolveHands hands None None) with
            | Some _ => checkLeftHandModeSwitch s2 now nowSwitch
            | None => (s2, [])
            end) as [s3 cbs3].
  cbn [fst snd] in B3. destruct B3 as (Z3 & B3).
  assert (Hz3 : zoomStartTime (zoomSt s3) <= now).
  { rewrite Z3, Z2, Z1. exact Hz. }
  destruct (snd (resolveHands hands None None)) as [landmarks |].
  - apply bind_some in H. destruct H as (r3 & H3 & H).
    injection H as <-. cbn [fst snd].
    assert (P : zoomStartTime (zoomSt (fst r3)) <= now
                /\ Forall bounded (snd r3)).
    { unfold processRightHandByMode in H3.
      destruct (currentMode (core s3)).
      - apply processWatchMode_bounded in H3. destruct H3 as (-> & B).
        split; assumption.
      - eapply processZoomMode_bounded; eassumption.
      - apply processExplodeMode_bounded in H3. destruct H3 as (-> & B).
        split; assumption.
      - apply processComponentMode_bounded in H3. destruct H3 as (-> & B).
        split; assumption. }
    destruct P as (P1 & P2). split; [exact P1 |].
    repeat (apply Forall_app; split); assumption.
  - injection H as <-. cbn [fst snd]. split; [exact Hz3 |].
    apply Forall_app; split; assumption.
Qed.

(** X26.  The steps the callbacks carry are bounded.  When the frames come
    at times that do not decrease (and not before the start of the current
    zoom), whatever the hands show and whatever else is called: every
    rotation of the view [onRotateView] asks for has a length of at most
    3.5 * 0.06 = 0.21, every [onZoom] a step between -0.025 and 0.025, and
    every [onExplosionChange] the step 0.008. *)
Theorem callback_steps_bounded (s : t) (ops : list Op) (t0 : R) :
  zoomStartTime (zoomSt s) <= t0 -> ticking t0 ops ->
  Forall bounded (snd (run s ops)).
Proof.
  revert s t0. induction ops as [| o ops IH]; intros s t0 Hz Ht.
  - constructor.
  - cbn [run].
    assert (K : exists t1,
               zoomStartTime (zoomSt (fst (step s o))) <= t1
               /\ ticking t1 ops /\ Forall bounded (snd (step s o))).
    { destruct o as [hands now nr nw | now | m b now | e];
        cbn [ticking] in Ht; cbn [step].
      - destruct Ht as (Hn & Ht). exists now.
        destruct (onResults s hands now nr nw) as [r |] eqn:E.
        + apply onResults_bounded in E; [| lra]. tauto.
        + cbn. repeat split; [lra | exact Ht | constructor].
      - exists t0. unfold timeoutWatch.
        destruct (setMode_bounded s watch false now) as (-> & B). tauto.
      - exists t0. destruct (setMode_bounded s m b now) as (-> & B). tauto.
      - exists t0. cbn [fst snd]. repeat split; [| exact Ht | constructor].
        destruct e; cbn; exact Hz. }
    destruct K as (t1 & Hz1 & Ht1 & B1).
    destruct (step s o) as [s1 cbs]. cbn [fst snd] in Hz1, B1.
    specialize (IH s1 t1 Hz1 Ht1).
    destruct (run s1 ops) as [s2 more]. cbn [snd] in *.
    apply Forall_app. split; assumption.
Qed.

Lemma callback_steps_bounded_witness :
  let frame now := Results [(true, shownOpen)] now now now in
  let ops := [frame 16; frame 33; frame 50; frame 66;
              SetMode zoom false 70; frame 83; frame 100]
             ++ [SetMode explode false 110; frame 116;
                 Results [(true, shownFist); (false, shownTwo)] 130 130 130;
                 Timeout 140] in
  Forall bounded (snd (run create ops))
  /\ In (OnRotateView (273 / 3800) 0) (snd (run create ops))
  /\ In (OnZoom (- 0.0017)) (snd (run create ops))
  /\ In (OnExplosionChange 0.008) (snd (run create ops)).
Proof.
  intros frame ops.
  split; [apply (callback_steps_bounded create ops 0); cbn; lra |].
  destruct open_session as ((O7 & M7) & A & _ & C).
  unfold ops. rewrite snd_run_app.
  split; [apply in_or_app; left; exact A |].
  split; [apply in_or_app; left; exact C |].
  apply in_or_app. right.
  match type of O7 with openSeen ?x => set (s7 := x) in * end.
  rewrite !snd_run_cons.
  destruct (setMode_openSeen s7 explode 110 O7 ltac:(lra)) as (O8 & H8).
  destruct H8 as (M8 & _); [rewrite M7; discriminate |].
  change (setMode s7 explode false 110)
    with (step s7 (SetMode explode false 110)) in O8, M8.
  set (s8 := fst (step s7 (SetMode explode false 110))) in *.
  destruct (open_step s8 116 116 116 O8) as (_ & _ & E9);
    [unfold AUTO_RESET_TIMEOUT; lra | rewrite M8; discriminate |].
  rewrite M8 in E9.
  apply in_or_app. right. apply in_or_app. left. exact E9.
Defined.

(** *** The block of the aggregation *)

Lemma updateHandShapes_right (s s1 : t)
    (l r : option (list NormalizedLandmark)) :
  updateHandShapes s l r = Some s1 ->
  match r with
  | Some landmarks => getHandShape landmarks = Some (rightShape (right s1))
  | None => rightShape (right s1) = other
  end.
Proof.
  unfold updateHandShapes. intros H.
  apply bind_some in H. destruct H as (s0 & _ & H).
  destruct r as [landmarks |].
  - apply bind_some in H. destruct H as (sh & Hsh & H).
    apply bind_some in H. destruct H as (c & _ & H).
    injection H as <-. rewrite Hsh. unfold updateShapeStability.
    destruct (shape_eqb _ _); reflexivity.
  - injection H as <-. reflexivity.
Qed.

Lemma setMode_blocked (s : t) (m : GestureMode) (b : bool) (now : R) :
  Blocked s ->
  Blocked (fst (setMode s m b now))
  /\ right (fst (setMode s m b now)) = right s
  /\ forallb (fun c => negb (aggregationCallback c))
       (snd (setMode s m b now)) = true.
Proof.
  intros B.
  destruct (setMode_cases s m b now) as [-> | (-> & _)]; cbn [fst snd].
  - repeat split; try apply B.
  - destruct B as (B1 & B2). repeat split; cbn; assumption.
Qed.

Lemma processExplodeMode_blocked (s : t)
    (landmarks : list NormalizedLandmark) (now : R) (r : t * list Callback) :
  Blocked s -> quietShape (rightShape (right s)) = true ->
  processExplodeMode s landmarks now = Some r ->
  Blocked (fst r) /\ snd r = [].
Proof.
  intros (B1 & B2) Q. unfold processExplodeMode.
  assert (E1 : shape_eqb (rightShape (right s)) open = false)
    by (destruct (rightShape (right s)); cbn in *; congruence).
  assert (E2 : shape_eqb (rightShape (right s)) one = false)
    by (destruct (rightShape (right s)); cbn in *; congruence).
  assert (E3 : shape_eqb (rightShape (right s)) pointer = false)
    by (destruct (rightShape (right s)); cbn in *; congruence).
  rewrite E1, E2, E3. cbn [andb orb]. clear E1 E2 E3 Q.
  destruct s as [c l rt ir z [ex let_ lat cm bu ip pst scx scy hst lhx lhy] cp].
  cbn in B1, B2. subst cm bu.
  destruct (shape_eqb _ fist && _); destruct ex; cbn; intros H;
    injection H as <-; cbn; repeat split; reflexivity.
Qed.

Lemma processWatchMode_explodeSt (s : t) (landmarks : list NormalizedLandmark)
    (now : R) (r : t * list Callback) :
  processWatchMode s landmarks now = Some r ->
  explodeSt (fst r) = explodeSt s
  /\ forallb (fun c => negb (aggregationCallback c)) (snd r) = true.
Proof.
  unfold processWatchMode, processRotation. intros H. unbind; cbn; auto.
Qed.

Lemma processZoomMode_explodeSt (s : t) (landmarks : list NormalizedLandmark)
    (now : R) (r : t * list Callback) :
  processZoomMode s landmarks now = Some r ->
  explodeSt (fst r) = explodeSt s
  /\ forallb (fun c => negb (aggregationCallback c)) (snd r) = true.
Proof.
  unfold processZoomMode. intros H. unbind; cbn; auto.
Qed.

Lemma processComponentMode_explodeSt (s : t)
    (landmarks : list NormalizedLandmark) (now : R) (r : t * list Callback) :
  processComponentMode s landmarks now = Some r ->
  explodeSt (fst r) = explodeSt s
  /\ forallb (fun c => negb (aggregationCallback c)) (snd r) = true.
Proof.
  unfold processComponentMode. intros H.
  destruct (negb (rightOpenStable s)).
  { injection H as <-. cbn. auto. }
  apply bind_some in H. destruct H as (palm & _ & H).
  destruct (Req_dec_T _ _).
  { injection H as <-. cbn. auto. }
  injection H as <-. cbn [fst snd].
  repeat match goal with
         | |- context [if ?b then _ else _] => destruct b
         end; cbn; auto.
Qed.

Lemma onResults_blocked (s : t)
    (hands : list (bool * list NormalizedLandmark))
    (now nowReset nowSwitch : R) (r : t * list Callback) :
  Blocked s -> quietShape' (rightShapeOf hands) = true ->
  onResults s hands now nowReset nowSwitch = Some r ->
  Blocked (fst r)
  /\ forallb (fun c => negb (aggregationCallback c)) (snd r) = true.
Proof.
  intros B Q. unfold onResults.
  destruct (forallb drawHand (map snd hands)); [| discriminate].
  intros H. apply bind_some in H. destruct H as (s1 & H1 & H).
  pose proof (updateHandShapes_right _ _ _ _ H1) as R1.
  apply updateHandShapes_core in H1.
  destruct H1 as (_ & _ & X1 & _).
  assert (B1 : Blocked s1) by (unfold Blocked; rewrite X1; exact B).
  assert (Q1 : quietShape (rightShape (right s1)) = true).
  { unfold rightShapeOf in Q.
    destruct (snd (resolveHands hands None None)).
    - rewrite R1 in Q. exact Q.
    - rewrite R1. reflexivity. }
  assert (B2 : Blocked (fst (checkAutoReset s1 now nowReset))
               /\ right (fst (checkAutoReset s1 now nowReset)) = right s1
               /\ forallb (fun c => negb (aggregationCallback c))
                    (snd (checkAutoReset s1 now nowReset)) = true).
  { unfold checkAutoReset. destruct (_ && _).
    - apply setMode_blocked. exact B1.
    - repeat split; apply B1. }
  destruct (checkAutoReset s1 now nowReset) as [s2 cbs2].
  cbn [fst snd] in B2. destruct B2 as (B2 & R2 & A2).
  assert (B3 : forall x,
             x = match fst (resolveHands hands None None) with
                 | Some _ => checkLeftHandModeSwitch s2 now nowSwitch
                 | None => (s2, [])
                 end ->
             Blocked (fst x) /\ right (fst x) = right s2
             /\ forallb (fun c => negb (aggregationCallback c)) (snd x)
                = true).
  { intros x ->. destruct (fst (resolveHands hands None None));
      [| repeat split; apply B2].
    destruct (checkLeftHandModeSwitch_cases s2 now nowSwitch)
      as [-> | [(st & pe & ->) | (m & ->)]]; cbn [fst snd];
      try (repeat split; apply B2).
    destruct (setMode_blocked s2 m true nowSwitch B2) as (K1 & K2 & K3).
    repeat split; try apply K1; assumption. }
  specialize (B3 _ eq_refl).
  destruct (match fst (resolveHands hands None None) with
            | Some _ => checkLeftHandModeSwitch s2 now nowSwitch
            | None => (s2, [])
            end) as [s3 cbs3].
  cbn [fst snd] in B3. destruct B3 as (B3 & R3 & A3).
  assert (Q3 : quietShape (rightShape (right s3)) = true).
  { rewrite R3, R2. exact Q1. }
  destruct (snd (resolveHands hands None None)) as [landmarks |].
  - apply bind_some in H. destruct H as (r3 & H3 & H).
    injection H as <-. cbn [fst snd].
    assert (P : Blocked (fst r3)
                /\ forallb (fun c => negb (aggregationCallback c)) (snd r3)
                   = true).
    { unfold processRightHandByMode in H3.
      destruct (currentMode (core s3)).
      - apply processWatchMode_explodeSt in H3. destruct H3 as (E & A).
        unfold Blocked. rewrite E. split; [exact B3 | exact A].
      - apply processZoomMode_explodeSt in H3. destruct H3 as (E & A).
        unfold Blocked. rewrite E. split; [exact B3 | exact A].
      - apply processExplodeMode_blocked in H3; try assumption.
        destruct H3 as (E & ->). split; [exact E | reflexivity].
      - apply processComponentMode_explodeSt in H3. destruct H3 as (E & A).
        unfold Blocked. rewrite E. split; [exact B3 | exact A]. }
    destruct P as (P1 & P2). split; [exact P1 |].
    rewrite !forallb_app, A2, A3, P2. reflexivity.
  - injection H as <-. cbn [fst snd]. split.
    + destruct B3 as (K1 & K2). split; cbn; assumption.
    + rewrite forallb_app, A2, A3. reflexivity.
Qed.

Lemma run_blocked (ops : list Op) (s : t) :
  Blocked s -> forallb closedOp ops = true ->
  Blocked (fst (run s ops))
  /\ forallb (fun c => negb (aggregationCallback c)) (snd (run s ops)) = true.
Proof.
  revert s. induction ops as [| o ops IH]; intros s B F.
  - split; [exact B | reflexivity].
  - cbn [forallb] in F. apply andb_prop in F. destruct F as (Ho & F).
    cbn [run].
    assert (K : Blocked (fst (step s o))
                /\ forallb (fun c => negb (aggregationCallback c))
                     (snd (step s o)) = true).
    { destruct o as [hands now nr nw | now | m b now | e];
        cbn [closedOp] in Ho; cbn [step].
      - destruct (onResults s hands now nr nw) as [r |] eqn:E.
        + eapply onResults_blocked; eassumption.
        + split; [exact B | reflexivity].
      - unfold timeoutWatch.
        destruct (setMode_blocked s watch false now B) as (K1 & _ & K3).
        split; assumption.
      - destruct (setMode_blocked s m b now B) as (K1 & _ & K3).
        split; assumption.
      - split; [| reflexivity]. cbn [fst].
        destruct e; [exact B |]. destruct B as (K1 & K2).
        split; cbn; assumption. }
    destruct K as (B1 & A1).
    destruct (step s o) as [s1 cbs]. cbn [fst snd] in B1, A1.
    specialize (IH s1 B1 F).
    destruct (run s1 ops) as [s2 more]. cbn [fst snd] in *.
    destruct IH as (B2 & A2). split; [exact B2 |].
    rewrite forallb_app, A1, A2. reflexivity.
Qed.

Lemma processClickMode_flags (s : t) (landmarks : list NormalizedLandmark)
    (now : R) (r : t * list Callback) :
  processClickMode s landmarks now = Some r ->
  isInClickMode (explodeSt (fst r)) = isInClickMode (explodeSt s)
  /\ aggregationBlockedUntil (explodeSt (fst r))
     = aggregationBlockedUntil (explodeSt s).
Proof.
  unfold processClickMode. intros H. unbind; cbn; auto.
Qed.

Lemma processExplodeMode_clickBlocks (s : t)
    (landmarks : list NormalizedLandmark) (now : R) (r : t * list Callback) :
  clickBlocks s = true ->
  processExplodeMode s landmarks now = Some r ->
  clickBlocks (fst r) = true.
Proof.
  unfold processExplodeMode, clickBlocks. intros B H.
  destruct s as [c l rt ir z [ex let_ lat cm bu ip pst scx scy hst lhx lhy] cp].
  cbn [explodeSt right isInClickMode aggregationBlockedUntil] in *.
  destruct (shape_eqb (rightShape rt) open && _).
  { injection H as <-. destruct ex, cm; reflexivity. }
  destruct ((shape_eqb (rightShape rt) one || _) && _).
  { apply bind_some in H. destruct H as (r1 & H1 & H).
    injection H as <-. apply processClickMode_flags in H1.
    destruct H1 as (F1 & F2). cbn [fst]. cbn in F1, F2 |- *.
    rewrite F1, F2. clear F1 F2.
    destruct ex, cm; cbn in *; try reflexivity; exact B. }
  destruct (shape_eqb _ fist && _).
  - destruct ex, cm; cbn in H |- *;
      repeat match type of H with
             | context [if ?b then _ else _] => destruct b
             end; injection H as <-; cbn; try reflexivity; exact B.
  - destruct ex, cm; cbn in H |- *; injection H as <-; cbn;
      try reflexivity; exact B.
Qed.

Lemma setMode_clickBlocks (s : t) (m : GestureMode) (b : bool) (now : R) :
  clickBlocks s = true -> clickBlocks (fst (setMode s m b now)) = true.
Proof.
  intros B.
  destruct (setMode_cases s m b now) as [-> | (-> & _)]; cbn [fst];
    [exact B | reflexivity].
Qed.

Lemma onResults_clickBlocks (s : t)
    (hands : list (bool * list NormalizedLandmark))
    (now nowReset nowSwitch : R) (r : t * list Callback) :
  clickBlocks s = true ->
  onResults s hands now nowReset nowSwitch = Some r ->
  clickBlocks (fst r) = true.
Proof.
  intros B. unfold onResults.
  destruct (forallb drawHand (map snd hands)); [| discriminate].
  intros H. apply bind_some in H. destruct H as (s1 & H1 & H).
  apply updateHandShapes_core in H1.
  destruct H1 as (_ & _ & X1 & _).
  assert (B1 : clickBlocks s1 = true).
  { unfold clickBlocks. rewrite X1. exact B. }
  assert (B2 : clickBlocks (fst (checkAutoReset s1 now nowReset)) = true).
  { unfold checkAutoReset. destruct (_ && _); [| exact B1].
    apply setMode_clickBlocks. exact B1. }
  destruct (checkAutoReset s1 now nowReset) as [s2 cbs2]. cbn [fst] in B2.
  assert (B3 : forall x,
             x = match fst (resolveHands hands None None) with
                 | Some _ => checkLeftHandModeSwitch s2 now nowSwitch
                 | None => (s2, [])
                 end ->
             clickBlocks (fst x) = true).
  { intros x ->. destruct (fst (resolveHands hands None None)); [| exact B2].
    destruct (checkLeftHandModeSwitch_cases s2 now nowSwitch)
      as [-> | [(st & pe & ->) | (m & ->)]]; cbn [fst]; try exact B2.
    pose proof (setMode_clickBlocks s2 m true nowSwitch B2) as K.
    exact K. }
  specialize (B3 _ eq_refl).
  destruct (match fst (resolveHands hands None None) with
            | Some _ => checkLeftHandModeSwitch s2 now nowSwitch
            | None => (s2, [])
            end) as [s3 cbs3].
  cbn [fst] in B3.
  destruct (snd (resolveHands hands None None)) as [landmarks |].
  - apply bind_some in H. destruct H as (r3 & H3 & H).
    injection H as <-. cbn [fst].
    unfold processRightHandByMode in H3.
    destruct (currentMode (core s3)).
    + apply processWatchMode_explodeSt in H3. destruct H3 as (E & _).
      unfold clickBlocks. rewrite E. exact B3.
    + apply processZoomMode_explodeSt in H3. destruct H3 as (E & _).
      unfold clickBlocks. rewrite E. exact B3.
    + eapply processExplodeMode_clickBlocks; eassumption.
    + apply processComponentMode_explodeSt in H3. destruct H3 as (E & _).
      unfold clickBlocks. rewrite E. exact B3.
  - injection H as <-. cbn [fst]. exact B3.
Qed.

Lemma run_clickBlocks (ops : list Op) (s : t) :
  clickBlocks s = true -> clickBlocks (fst (run s ops)) = true.
Proof.
  revert s. induction ops as [| o ops IH]; intros s B; [exact B |].
  cbn [run].
  assert (K : clickBlocks (fst (step s o)) = true).
  { destruct o as [hands now nr nw | now | m b now | e]; cbn [step].
    - destruct (onResults s hands now nr nw) as [r |] eqn:E.
      + eapply onResults_clickBlocks; eassumption.
      + exact B.
    - apply setMode_clickBlocks. exact B.
    - apply setMode_clickBlocks. exact B.
    - cbn [fst]. destruct e; exact B. }
  destruct (step s o) as [s1 cbs]. cbn [fst] in K.
  specialize (IH s1 K). destruct (run s1 ops) as [s2 more]. exact IH.
Qed.

(** X27.  Leaving the explode mode from its click mode blocks the
    aggregation.  Entering the click mode blocks the aggregation without
    end ([Infinity]) and only a hand that leaves the click mode inside the
    explode mode lifts the block: in every state the controller reaches,
    the click mode has the aggregation blocked.  So when the mode changes
    while the click mode is on (as the timer set by every click does, 100
    ms after it), and the explode mode is entered again, the fist
    aggregates nothing, however long it is held: no frame calls
    [onAggregation] or [onEscape] until the right hand has opened or
    pointed. *)
Theorem leaving_click_mode_blocks_aggregation (s : t) (m : GestureMode)
    (t1 t2 : R) (ops : list Op) :
  currentMode (core s) = explode ->
  isInClickMode (explodeSt s) = true ->
  aggregationBlockedUntil (explodeSt s) = None ->
  m <> explode ->
  forallb closedOp ops = true ->
  let s2 := fst (setMode (fst (setMode s m false t1)) explode false t2) in
  (currentMode (core s2) = explode
   /\ forallb (fun c => negb (aggregationCallback c)) (snd (run s2 ops))
      = true)
  /\ forall history : list Op, clickBlocks (fst (run create history)) = true.
Proof.
  intros M C A Hm F s2. split; [| intros history; apply run_clickBlocks;
                                  reflexivity].
  assert (E1 : setMode s m false t1
               = (switched s m false t1,
                  [OnModeChange m; OnGestureChange (mode_ m) leftHand])).
  { destruct (setMode_cases s m false t1) as [E | (E & _)]; [| exact E].
    exfalso. unfold setMode in E. cbn [andb] in E.
    destruct (mode_eqb (currentMode (core s)) m) eqn:Em.
    - apply mode_eqb_eq in Em. congruence.
    - cbn [negb] in E. injection E as E _.
      apply (f_equal (fun x => isInClickMode (explodeSt x))) in E.
      cbn in E. congruence. }
  set (s1 := switched s m false t1) in *.
  assert (E2 : setMode s1 explode false t2
               = (switched s1 explode false t2,
                  [OnModeChange explode;
                   OnGestureChange (mode_ explode) leftHand])).
  { unfold setMode. cbn [andb].
    replace (mode_eqb (currentMode (core s1)) explode) with false.
    - reflexivity.
    - symmetry. destruct (mode_eqb (currentMode (core s1)) explode) eqn:Em;
        [| reflexivity].
      apply mode_eqb_eq in Em. cbn in Em. contradiction. }
  subst s2. rewrite E1. cbn [fst]. rewrite E2. cbn [fst].
  split; [reflexivity |].
  apply run_blocked; [| exact F].
  split; cbn; [reflexivity | exact A].
Qed.

Lemma leaving_click_mode_blocks_aggregation_witness :
  let clicking := mkExplode false 0 0 true None false 0 0.5 0.5 0 0 0 in
  let s := mkT (mkCore explode 0 0 0 0 false) (left create) (right create)
               false (zoomSt create) clicking (componentSt create) in
  let fistFrame now := Results [(true, shownFist)] now now now in
  let ops := [fistFrame 5000; fistFrame 5100; fistFrame 5200; fistFrame 5300;
              fistFrame 5400; SetEnabled true;
              Results [(true, shownFist); (false, shownTwo)] 9000 9000 9000;
              fistFrame 20000] in
  let s2 := fst (setMode (fst (setMode s watch false 100)) explode false 200) in
  let free := mkT (mkCore explode 0 0 0 0 false) (left create) (right create)
                  false (zoomSt create) (explodeSt create)
                  (componentSt create) in
  let free2 :=
    fst (setMode (fst (setMode free watch false 100)) explode false 200) in
  ((currentMode (core s2) = explode
    /\ forallb (fun c => negb (aggregationCallback c)) (snd (run s2 ops))
       = true)
   /\ forall history : list Op, clickBlocks (fst (run create history)) = true)
  /\ rightShapeOf [(true, shownFist)] = Some fist
  /\ In OnAggregation (snd (run free2 ops)).
Proof.
  intros clicking s fistFrame ops s2 free free2.
  assert (F : rightShapeOf [(true, shownFist)] = Some fist)
    by exact shownFist_shape.
  assert (F2 : rightShapeOf [(true, shownFist); (false, shownTwo)] = Some fist)
    by exact shownFist_shape.
  split; [| split; [exact F |]].
  - apply (leaving_click_mode_blocks_aggregation s watch 100 200 ops);
      try reflexivity.
    + discriminate.
    + unfold ops, fistFrame. cbn [forallb closedOp]. rewrite F, F2. reflexivity.
  - unfold ops, fistFrame.
    assert (T : forall x : R, 0 <= x <= 6000 -> 0 <= x <= AUTO_RESET_TIMEOUT)
      by (unfold AUTO_RESET_TIMEOUT; intros x; lra).
    apply fist_frames_aggregate; try reflexivity; try (apply T; lra).
    + cbn. lra.
    + cbn [free2 free setMode]. cbn.
      unfold EXPLOSION_COOLDOWN. rewrite !Rltb_true by lra. reflexivity.
Defined.

(** *** Frames that throw *)

Lemma resolveHands_drawn (hands : list (bool * list NormalizedLandmark))
    (l r : option (list NormalizedLandmark)) :
  forallb drawHand (map snd hands) = true ->
  (forall x, l = Some x -> drawHand x = true) ->
  (forall x, r = Some x -> drawHand x = true) ->
  (forall x, fst (resolveHands hands l r) = Some x -> drawHand x = true)
  /\ (forall x, snd (resolveHands hands l r) = Some x -> drawHand x = true).
Proof.
  revert l r. induction hands as [| [b landmarks] hands IH]; intros l r F Hl Hr.
  - split; assumption.
  - cbn [map snd forallb] in F. apply andb_prop in F. destruct F as (F1 & F).
    cbn [resolveHands]. destruct b; apply IH; try assumption;
      intros x Hx; injection Hx as <-; exact F1.
Qed.

Lemma updateHandShapes_total (s : t)
    (l r : option (list NormalizedLandmark)) :
  (forall x, l = Some x -> drawHand x = true) ->
  (forall x, r = Some x -> drawHand x = true) ->
  exists s1, updateHandShapes s l r = Some s1.
Proof.
  intros Hl Hr. unfold updateHandShapes.
  destruct l as [x |].
  - destruct (getHandShape_total x (Hl x eq_refl)) as (sh & ->). cbn [bind].
    destruct r as [y |]; [| eauto].
    destruct (getHandShape_total y (Hr y eq_refl)) as (sh' & ->).
    destruct (getPalmCenter_total y (Hr y eq_refl)) as (c & ->).
    cbn [bind]. eauto.
  - cbn [bind]. destruct r as [y |]; [| eauto].
    destruct (getHandShape_total y (Hr y eq_refl)) as (sh' & ->).
    destruct (getPalmCenter_total y (Hr y eq_refl)) as (c & ->).
    cbn [bind]. eauto.
Qed.

Lemma processClickMode_total (s : t) (landmarks : list NormalizedLandmark)
    (now : R) :
  drawHand landmarks = true ->
  exists r, processClickMode s landmarks now = Some r.
Proof.
  intros H. unfold processClickMode.
  lm H INDEX_TIP.
  destruct (getPinchRatio_total _ H) as (p & ->). cbn [bind].
  repeat match goal with
         | |- context [if ?b then _ else _] => destruct b
         end; eauto.
Qed.

Lemma processRightHandByMode_total (s : t)
    (landmarks : list NormalizedLandmark) (now : R) :
  drawHand landmarks = true ->
  exists r, processRightHandByMode s landmarks now = Some r.
Proof.
  intros H. unfold processRightHandByMode.
  destruct (currentMode (core s)).
  - unfold processWatchMode, processRotation.
    destruct (getPalmCenter_total _ H) as (c & ->). cbn [bind].
    destruct (rightOpenStable s); [| eauto].
    destruct (Rltb _ _); cbn [bind]; eauto.
  - unfold processZoomMode.
    destruct (isLooseFist_total _ H) as (b & ->). cbn [bind].
    destruct (rightOpenStable s); cbn [bind];
      match goal with
      | |- context [if ?b then Some _ else Some _] => destruct b
      end; eauto.
  - unfold processExplodeMode.
    destruct (_ && _); [eauto |].
    destruct (_ && _).
    { match goal with
      | |- context [processClickMode ?s1 landmarks now] =>
          destruct (processClickMode_total s1 landmarks now H) as (r1 & ->)
      end.
      cbn [bind]. eauto. }
    destruct (_ && _); [| eauto].
    match goal with
    | |- context [if ?b then Some _ else Some _] => destruct b
    end; eauto.
  - unfold processComponentMode.
    destruct (negb _); [eauto |].
    destruct (getPalmCenter_total _ H) as (c & ->). cbn [bind].
    destruct (Req_dec_T _ _); eauto.
Qed.

Lemma onResults_total (s : t) (hands : list (bool * list NormalizedLandmark))
    (now nowReset nowSwitch : R) :
  forallb drawHand (map snd hands) = true ->
  exists r, onResults s hands now nowReset nowSwitch = Some r.
Proof.
  intros F. unfold onResults. rewrite F.
  destruct (resolveHands_drawn hands None None F) as (Hl & Hr);
    try discriminate.
  destruct (updateHandShapes_total (frameClock s now) _ _ Hl Hr) as (s1 & ->).
  cbn [bind].
  destruct (checkAutoReset s1 now nowReset) as [s2 cbs2].
  destruct (match fst (resolveHands hands None None) with
            | Some _ => checkLeftHandModeSwitch s2 now nowSwitch
            | None => (s2, [])
            end) as [s3 cbs3].
  destruct (snd (resolveHands hands None None)) as [landmarks |]; [| eauto].
  destruct (processRightHandByMode_total s3 landmarks now (Hr _ eq_refl))
    as (r & ->).
  cbn [bind]. eauto.
Qed.

(** X28.  The frames that throw.  [onResults] throws exactly on a result
    that holds a hand with fewer than 21 landmarks ([drawHand] reads the
    landmarks 0 to 20): on every other result the frame is processed to its
    end, whatever the state and the coordinates are.  A frame that throws
    has set the frame time and nothing else, and has called nothing. *)
Theorem frame_throws_iff_short_hand (s : t)
    (hands : list (bool * list NormalizedLandmark))
    (now nowReset nowSwitch : R) :
  (onResults s hands now nowReset nowSwitch = None
   <-> exists h, In h hands /\ (List.length (snd h) < 21)%nat)
  /\ (onResults s hands now nowReset nowSwitch = None ->
      step s (Results hands now nowReset nowSwitch)
      = (with_core s
           (mkCore (currentMode (core s)) (lastModeChangeTime (core s))
                   (lastInteractionTime (core s)) now
                   (now - lastFrameTime (core s))
                   (modeSwitchByGesture (core s))), [])).
Proof.
  split.
  - destruct (forallb drawHand (map snd hands)) eqn:F.
    + destruct (onResults_total s hands now nowReset nowSwitch F) as (r & E).
      rewrite E. split; [discriminate |].
      intros (h & Hin & Hlen). exfalso.
      rewrite forallb_forall in F.
      specialize (F (snd h) (in_map snd _ _ Hin)).
      unfold drawHand in F. apply Nat.leb_le in F. lia.
    + split.
      * intros _.
        assert (K : exists x, In x (map snd hands) /\ drawHand x = false).
        { clear - F. induction (map snd hands) as [| x l IH];
            [discriminate |].
          cbn [forallb] in F. destruct (drawHand x) eqn:D.
          - destruct (IH F) as (y & Hy & Dy). exists y. split;
              [right; exact Hy | exact Dy].
          - exists x. split; [left; reflexivity | exact D]. }
        destruct K as (x & Hx & D). apply in_map_iff in Hx.
        destruct Hx as (h & <- & Hin). exists h. split; [exact Hin |].
        unfold drawHand in D. apply Nat.leb_gt in D. exact D.
      * intros _. unfold onResults. rewrite F. reflexivity.
  - intros E. cbn [step]. rewrite E. reflexivity.
Qed.

(** *** Cooldowns *)

Lemma setMode_lastOf (k : Kind) (s : t) (m : GestureMode) (b : bool)
    (now : R) :
  lastOf k (fst (setMode s m b now)) = lastOf k s
  /\ existsb (isKind k) (snd (setMode s m b now)) = false.
Proof.
  destruct (setMode_cases s m b now) as [-> | (-> & _)]; destruct k;
    split; reflexivity.
Qed.

Lemma processClickMode_lastOf (k : Kind) (s : t)
    (landmarks : list NormalizedLandmark) (now : R) (r : t * list Callback) :
  processClickMode s landmarks now = Some r ->
  lastOf k (fst r) = lastOf k s /\ existsb (isKind k) (snd r) = false.
Proof.
  unfold processClickMode. intros H. unbind; destruct k; cbn; auto.
Qed.

Lemma processExplodeMode_lastOf (k : Kind) (s : t)
    (landmarks : list NormalizedLandmark) (now : R) (r : t * list Callback) :
  processExplodeMode s landmarks now = Some r -> kindStep k s now r.
Proof.
  unfold processExplodeMode, kindStep. intros H.
  destruct (shape_eqb (rightShape (right s)) open && _).
  { injection H as <-. cbn [fst snd].
    destruct (negb _); destruct k; cbn;
      repeat match goal with
             | |- context [if ?b then _ else _] => destruct b
             end; reflexivity. }
  destruct ((shape_eqb (rightShape (right s)) one || _) && _).
  { apply bind_some in H. destruct H as (r1 & H1 & H).
    injection H as <-. apply (processClickMode_lastOf k) in H1.
    destruct H1 as (L & E). cbn [fst snd].
    rewrite existsb_app, E, orb_false_r.
    assert (L1 : lastOf k (with_lastInteractionTime (fst r1) now)
                 = lastOf k (fst r1)) by (destruct k; reflexivity).
    rewrite L1, L.
    destruct (negb _); destruct k; cbn;
      repeat match goal with
             | |- context [if ?b then _ else _] => destruct b
             end; reflexivity. }
  destruct s as [c l rt ir z [ex let_ lat cm bu ip pst scx scy hst lhx lhy] cp].
  cbn in H |- *.
  destruct (shape_eqb _ fist && _).
  - destruct ex, cm; cbn in H |- *;
      match type of H with
      | context [Rltb EXPLOSION_COOLDOWN ?d] =>
          destruct (Rltb_spec EXPLOSION_COOLDOWN d) as [(E & HE) | (E & HE)];
          rewrite E in H
      end;
      repeat match type of H with
             | context [if ?b then _ else _] => destruct b eqn:?
             end;
      cbn in H; injection H as <-; destruct k; cbn; try reflexivity;
      split; try reflexivity; unfold EXPLOSION_COOLDOWN in *; lra.
  - destruct ex, cm; cbn in H |- *; injection H as <-; destruct k;
      reflexivity.
Qed.

Lemma processComponentMode_lastOf (k : Kind) (s : t)
    (landmarks : list NormalizedLandmark) (now : R) (r : t * list Callback) :
  processComponentMode s landmarks now = Some r -> kindStep k s now r.
Proof.
  unfold processComponentMode, kindStep. intros H.
  destruct (negb (rightOpenStable s)).
  { injection H as <-. destruct k; reflexivity. }
  apply bind_some in H. destruct H as (palm & _ & H).
  destruct (Req_dec_T _ _).
  { injection H as <-. destruct k; reflexivity. }
  injection H as <-. cbn [fst snd].
  assert (F : forall (c : Core) (cp : ComponentState) (b : bool)
                (cp' : ComponentState),
             lastMaterialSwipeTime cp' = lastMaterialSwipeTime cp ->
             lastComponentSwipeTime cp' = lastComponentSwipeTime cp ->
             lastOf k (with_component (with_core s c)
                         (if b then cp' else cp))
             = match k with
               | Aggregate => lastAggregationTime (explodeSt s)
               | MaterialSwipe => lastMaterialSwipeTime cp
               | ComponentSwipe => lastComponentSwipeTime cp
               end).
  { intros c cp b cp' E1 E2. destruct b, k; cbn; congruence. }
  destruct (Rltb SWIPE_DISTANCE_THRESHOLD _ && Rltb SWIPE_SPEED_THRESHOLD _).
  - destruct (Rltb (Rabs _ * 1.5) (Rabs _)).
    + cbn [lastMaterialSwipeTime lastComponentSwipeTime].
      destruct (Rltb_spec MATERIAL_SWIPE_COOLDOWN
                  (now - lastMaterialSwipeTime (componentSt s)))
        as [(E & HE) | (E & HE)]; rewrite E.
      * destruct (Rltb _ 0); cbn [fst snd]; rewrite F by reflexivity;
          destruct k; cbn; try reflexivity;
          (split; [unfold MATERIAL_SWIPE_COOLDOWN in *; lra | reflexivity]).
      * cbn [fst snd]. rewrite F by reflexivity. destruct k; reflexivity.
    + destruct (Rltb (Rabs _ * 1.5) (Rabs _)).
      * cbn [lastMaterialSwipeTime lastComponentSwipeTime].
        destruct (Rltb_spec COMPONENT_SWIPE_COOLDOWN
                    (now - lastComponentSwipeTime (componentSt s)))
          as [(E & HE) | (E & HE)]; rewrite E.
        -- destruct (Rltb _ 0); cbn [fst snd]; rewrite F by reflexivity;
             destruct k; cbn; try reflexivity;
             (split; [unfold COMPONENT_SWIPE_COOLDOWN in *; lra
                     | reflexivity]).
        -- cbn [fst snd]. rewrite F by reflexivity. destruct k; reflexivity.
      * cbn [fst snd]. rewrite F by reflexivity. destruct k; reflexivity.
  - cbn [fst snd]. rewrite F by reflexivity. destruct k; reflexivity.
Qed.

Lemma processWatchMode_lastOf (k : Kind) (s : t)
    (landmarks : list NormalizedLandmark) (now : R) (r : t * list Callback) :
  processWatchMode s landmarks now = Some r -> kindStep k s now r.
Proof.
  unfold processWatchMode, processRotation, kindStep. intros H.
  unbind; destruct k; reflexivity.
Qed.

Lemma processZoomMode_lastOf (k : Kind) (s : t)
    (landmarks : list NormalizedLandmark) (now : R) (r : t * list Callback) :
  processZoomMode s landmarks now = Some r -> kindStep k s now r.
Proof.
  unfold processZoomMode, kindStep. intros H.
  unbind; destruct k; reflexivity.
Qed.

Lemma onResults_lastOf (k : Kind) (s : t)
    (hands : list (bool * list NormalizedLandmark))
    (now nowReset nowSwitch : R) (r : t * list Callback) :
  onResults s hands now nowReset nowSwitch = Some r -> kindStep k s now r.
Proof.
  unfold onResults.
  destruct (forallb drawHand (map snd hands)); [| discriminate].
  intros H. apply bind_some in H. destruct H as (s1 & H1 & H).
  apply updateHandShapes_core in H1.
  destruct H1 as (_ & _ & X1 & X2 & _).
  assert (L1 : lastOf k s1 = lastOf k s).
  { destruct k; cbn; rewrite ?X1, ?X2; reflexivity. }
  assert (B2 : lastOf k (fst (checkAutoReset s1 now nowReset)) = lastOf k s1
               /\ existsb (isKind k) (snd (checkAutoReset s1 now nowReset))
                  = false).
  { unfold checkAutoReset. destruct (_ && _).
    - apply setMode_lastOf.
    - split; reflexivity. }
  destruct (checkAutoReset s1 now nowReset) as [s2 cbs2].
  cbn [fst snd] in B2. destruct B2 as (L2 & E2).
  assert (B3 : forall x,
             x = match fst (resolveHands hands None None) with
                 | Some _ => checkLeftHandModeSwitch s2 now nowSwitch
                 | None => (s2, [])
                 end ->
             lastOf k (fst x) = lastOf k s2
             /\ existsb (isKind k) (snd x) = false).
  { intros x ->. destruct (fst (resolveHands hands None None));
      [| split; reflexivity].
    destruct (checkLeftHandModeSwitch_cases s2 now nowSwitch)
      as [-> | [(st & pe & ->) | (m & ->)]]; cbn [fst snd];
      try (split; [destruct k |]; reflexivity).
    destruct (setMode_lastOf k s2 m true nowSwitch) as (K1 & K2).
    split; [| exact K2]. rewrite <- K1. destruct k; reflexivity. }
  specialize (B3 _ eq_refl).
  destruct (match fst (resolveHands hands None None) with
            | Some _ => checkLeftHandModeSwitch s2 now nowSwitch
            | None => (s2, [])
            end) as [s3 cbs3].
  cbn [fst snd] in B3. destruct B3 as (L3 & E3).
  assert (L : lastOf k s3 = lastOf k s) by congruence.
  destruct (snd (resolveHands hands None None)) as [landmarks |].
  - apply bind_some in H. destruct H as (r3 & H3 & H).
    injection H as <-. unfold kindStep. cbn [fst snd].
    rewrite !existsb_app, E2, E3. cbn [orb]. rewrite <- L.
    unfold processRightHandByMode in H3.
    destruct (currentMode (core s3)).
    + exact (processWatchMode_lastOf k _ _ _ _ H3).
    + exact (processZoomMode_lastOf k _ _ _ _ H3).
    + exact (processExplodeMode_lastOf k _ _ _ _ H3).
    + exact (processComponentMode_lastOf k _ _ _ _ H3).
  - injection H as <-. unfold kindStep. cbn [fst snd].
    rewrite existsb_app, E2, E3. cbn [orb]. rewrite <- L.
    destruct k; reflexivity.
Qed.

Lemma step_lastOf (k : Kind) (s : t) (o : Op) :
  match o with
  | Results _ now _ _ => kindStep k s now (step s o)
  | _ => lastOf k (fst (step s o)) = lastOf k s
  end.
Proof.
  destruct o as [hands now nr nw | now | m b now | e]; cbn [step].
  - destruct (onResults s hands now nr nw) as [r |] eqn:E.
    + eapply onResults_lastOf. exact E.
    + unfold kindStep. cbn. destruct k; reflexivity.
  - apply setMode_lastOf.
  - apply setMode_lastOf.
  - destruct e, k; reflexivity.
Qed.

(** X29.  The cooldowns.  Whatever the hands do, by the clock of the
    frames every call of [onAggregation] comes more than 1.5 s after the
    one before, every call of [onNavigateUpDown] (the material) more than
    3 s and every call of [onNavigateLeftRight] (the component) more than
    1 s after the one before, the first one as long after the time the
    controller starts with. *)
Theorem callbacks_respect_cooldown (k : Kind) (s : t) (ops : list Op) :
  spaced (cooldown k) (lastOf k s) (emissions k s ops).
Proof.
  revert s. induction ops as [| o ops IH]; intros s; [exact I |].
  cbn [emissions].
  pose proof (step_lastOf k s o) as K.
  destruct (step s o) as [s1 cbs] eqn:E.
  destruct o as [hands now nr nw | now | m b now | e]; cbn [fst] in K.
  - unfold kindStep in K. cbn [fst snd] in K.
    destruct (existsb (isKind k) cbs).
    + destruct K as (K1 & K2). cbn [spaced]. split; [exact K1 |].
      rewrite <- K2. apply IH.
    + rewrite <- K. apply IH.
  - rewrite <- K. apply IH.
  - rewrite <- K. apply IH.
  - rewrite <- K. apply IH.
Qed.

(** *** Holding a shape with the left hand *)

Lemma updateHandShapes_left (s s1 : t) (landmarks : list NormalizedLandmark)
    (r : option (list NormalizedLandmark)) (sh : HandShape) :
  updateHandShapes s (Some landmarks) r = Some s1 ->
  getHandShape landmarks = Some sh ->
  left s1
  = mkLeft sh
      (if shape_eqb sh (lastLeftShape (left s))
       then Z.min (leftShapeStableCount (left s) + 1) (STABLE_FRAMES * 3)
       else 1%Z)
      sh (leftModeGestureStartTime (left s)) (leftPendingMode (left s)).
Proof.
  unfold updateHandShapes. intros H Hsh. rewrite Hsh in H. cbn [bind] in H.
  destruct r as [y |].
  - apply bind_some in H. destruct H as (sh' & _ & H).
    apply bind_some in H. destruct H as (c & _ & H).
    injection H as <-. cbn. unfold updateShapeStability.
    destruct (shape_eqb _ _); reflexivity.
  - injection H as <-. cbn. unfold updateShapeStability.
    destruct (shape_eqb _ _); reflexivity.
Qed.

Lemma Unlocked_later (s : t) (t1 t2 : R) :
  Unlocked s t1 -> t1 <= t2 -> Unlocked s t2.
Proof. unfold Unlocked. intros [H | H] Ht; [left; exact H | right; lra]. Qed.

Lemma Unlocked_check (s : t) (now : R) :
  Unlocked s now ->
  modeSwitchByGesture (core s)
  && Rltb (now - lastModeChangeTime (core s)) MODE_LOCK_DURATION = false.
Proof.
  intros [H | H].
  - rewrite H. reflexivity.
  - rewrite (Rltb_false (now - lastModeChangeTime (core s))) by lra.
    apply andb_false_r.
Qed.

Lemma setMode_unlocked (s : t) (m : GestureMode) (now : R) :
  Unlocked s now -> mode s <> m ->
  setMode s m true now
  = (switched s m true now,
     [OnModeChange m; OnGestureChange (mode_ m) leftHand]).
Proof.
  intros U Hm. unfold setMode, switched.
  assert (E : true && Rltb (now - lastModeChangeTime (core s)) MODE_LOCK_DURATION
              && modeSwitchByGesture (core s) = false).
  { cbn [andb]. rewrite andb_comm. apply Unlocked_check. exact U. }
  rewrite E.
  destruct (mode_eqb (currentMode (core s)) m) eqn:Em.
  - apply mode_eqb_eq in Em. contradiction.
  - reflexivity.
Qed.

Lemma checkLeftHandModeSwitch_holding (s : t) (now nowSet : R)
    (sh : HandShape) (m : GestureMode) :
  modeOfShape sh = Some m -> Unlocked s now -> leftShape (left s) = sh ->
  checkLeftHandModeSwitch s now nowSet
  = if isShapeStable (leftShapeStableCount (left s))
       && negb (mode_eqb m (currentMode (core s)))
    then
      match leftPendingMode (left s) with
      | Some pending =>
          if mode_eqb pending m then
            if Rltb (now - leftModeGestureStartTime (left s))
                    MODE_SWITCH_STABLE_TIME
            then (s, [])
            else
              let (s1, cbs) := setMode s m true nowSet in
              (with_pending s1 0 None, cbs)
          else (with_pending s now (Some m), [])
      | None => (with_pending s now (Some m), [])
      end
    else (with_pending s 0 None, []).
Proof.
  intros Hm U Hs. unfold checkLeftHandModeSwitch.
  rewrite (Unlocked_check s now U), Hs.
  destruct sh; try discriminate Hm; injection Hm as <-;
    destruct (isShapeStable _); cbn [shape_eqb andb fst snd];
    try reflexivity;
    destruct (negb (mode_eqb _ (currentMode (core s)))); reflexivity.
Qed.

Lemma onResults_split (s : t) (hands : list (bool * list NormalizedLandmark))
    (now nowReset nowSwitch : R) (r : t * list Callback) :
  onResults s hands now nowReset nowSwitch = Some r ->
  exists s1 s3,
    updateHandShapes (frameClock s now) (fst (resolveHands hands None None))
                     (snd (resolveHands hands None None)) = Some s1
    /\ s3 = fst (match fst (resolveHands hands None None) with
                 | Some _ =>
                     checkLeftHandModeSwitch
                       (fst (checkAutoReset s1 now nowReset)) now nowSwitch
                 | None => checkAutoReset s1 now nowReset
                 end)
    /\ left (fst r) = left s3
    /\ currentMode (core (fst r)) = currentMode (core s3)
    /\ modeSwitchByGesture (core (fst r)) = modeSwitchByGesture (core s3)
    /\ lastModeChangeTime (core (fst r)) = lastModeChangeTime (core s3).
Proof.
  unfold onResults.
  destruct (forallb drawHand (map snd hands)); [| discriminate].
  intros H. apply bind_some in H. destruct H as (s1 & H1 & H).
  exists s1.
  destruct (checkAutoReset s1 now nowReset) as [s2 cbs2]. cbn [fst].
  assert (K : exists s3 cbs3,
             match fst (resolveHands hands None None) with
             | Some _ => checkLeftHandModeSwitch s2 now nowSwitch
             | None => (s2, [])
             end = (s3, cbs3)
             /\ s3 = fst (match fst (resolveHands hands None None) with
                          | Some _ => checkLeftHandModeSwitch s2 now nowSwitch
                          | None => (s2, cbs2)
                          end)).
  { destruct (fst (resolveHands hands None None)).
    - destruct (checkLeftHandModeSwitch s2 now nowSwitch) as [s3 cbs3]. eauto.
    - eauto. }
  destruct K as (s3 & cbs3 & E3 & D3). rewrite E3 in H. exists s3.
  split; [exact H1 |]. split; [exact D3 |].
  destruct (snd (resolveHands hands None None)) as [landmarks |].
  - apply bind_some in H. destruct H as (r3 & H3 & H).
    injection H as <-. cbn [fst].
    apply processRightHandByMode_core in H3. destruct H3 as (C & L & _).
    split; [exact L |]. destruct C as [C | C]; rewrite C; repeat split.
  - injection H as <-. repeat split.
Qed.

Lemma checkAutoReset_holding (s : t) (now nowSet : R) :
  left (fst (checkAutoReset s now nowSet)) = left s
  /\ (core (fst (checkAutoReset s now nowSet)) = core s
      \/ (currentMode (core (fst (checkAutoReset s now nowSet))) = watch
          /\ modeSwitchByGesture (core (fst (checkAutoReset s now nowSet)))
             = false)).
Proof.
  split; [apply checkAutoReset_left |].
  unfold checkAutoReset. destruct (_ && _); [| left; reflexivity].
  destruct (setMode_cases s watch false nowSet) as [-> | (-> & _)].
  - left; reflexivity.
  - right. split; reflexivity.
Qed.

Lemma hold_frame (m : GestureMode) (sh : HandShape) (s : t)
    (hands : list (bool * list NormalizedLandmark))
    (now nowReset nowSwitch t0 : R) (c : Z) :
  modeOfShape sh = Some m ->
  forallb drawHand (map snd hands) = true ->
  leftShapeOf hands = Some sh ->
  t0 <= now -> now <= nowSwitch -> (0 <= c)%Z ->
  Ready m sh s t0 c ->
  let s' := fst (step s (Results hands now nowReset nowSwitch)) in
  mode s' = m
  \/ (Ready m sh s' now (Z.min (c + 1) 12)
      /\ ((3 <= c)%Z ->
          leftPendingMode (left s') = Some m
          /\ (leftPendingMode (left s) = Some m ->
              leftModeGestureStartTime (left s')
              = leftModeGestureStartTime (left s)
              /\ now < leftModeGestureStartTime (left s)
                       + MODE_SWITCH_STABLE_TIME))).
Proof.
  intros Hm F Hsh Ht Hw Hc (R1 & R2 & R3 & R4 & R5) s'. subst s'.
  cbn [step].
  destruct (onResults_total s hands now nowReset nowSwitch F) as (r & E).
  rewrite E. apply onResults_split in E.
  destruct E as (s1 & s3 & H1 & D3 & EL & EM & EG & ET).
  unfold leftShapeOf in Hsh.
  destruct (fst (resolveHands hands None None)) as [landmarks |];
    [| discriminate].
  pose proof (updateHandShapes_left _ _ _ _ _ H1 Hsh) as L1.
  apply updateHandShapes_core in H1. destruct H1 as (C1 & _).
  cbn [left frameClock with_core] in L1.
  destruct (checkAutoReset_holding s1 now nowReset) as (L2 & C2).
  set (s2 := fst (checkAutoReset s1 now nowReset)) in *.
  set (cnt := if shape_eqb sh (lastLeftShape (left s))
              then Z.min (leftShapeStableCount (left s) + 1)
                         (STABLE_FRAMES * 3)
              else 1%Z) in *.
  assert (Hcnt : (Z.min (c + 1) 12 <= cnt)%Z).
  { unfold cnt, STABLE_FRAMES.
    destruct (shape_eqb sh (lastLeftShape (left s))) eqn:Es; [lia |].
    assert (c = 0%Z).
    { destruct (Z.eq_dec c 0) as [| N]; [assumption |].
      assert (P : (0 < c)%Z) by lia. apply R5 in P.
      assert (shape_eqb sh (lastLeftShape (left s)) = true)
        by (apply shape_eqb_eq; congruence).
      congruence. }
    lia. }
  assert (U2 : Unlocked s2 now).
  { destruct C2 as [C2 | (_ & C2)]; [| left; exact C2].
    unfold Unlocked. rewrite C2, C1. cbn.
    destruct R2 as [R2 | R2]; [left; exact R2 | right; lra]. }
  assert (LS2 : leftShape (left s2) = sh) by (rewrite L2, L1; reflexivity).
  rewrite (checkLeftHandModeSwitch_holding s2 now nowSwitch sh m Hm U2 LS2)
    in D3.
  unfold mode in *.
  assert (M2 : currentMode (core s2) = m
               \/ (currentMode (core s2) <> m
                   /\ mode_eqb m (currentMode (core s2)) = false)).
  { destruct (mode_eqb m (currentMode (core s2))) eqn:Em.
    - left. apply mode_eqb_eq in Em. congruence.
    - right. split; [| reflexivity]. intros K.
      assert (mode_eqb m (currentMode (core s2)) = true)
        by (apply mode_eqb_eq; congruence).
      congruence. }
  destruct M2 as [M2 | (M2 & Em)].
  { left. rewrite EM, D3.
    assert (Em : mode_eqb m (currentMode (core s2)) = true)
      by (apply mode_eqb_eq; congruence).
    rewrite Em, andb_false_r. cbn. exact M2. }
  rewrite Em in D3. cbn [negb] in D3. rewrite andb_true_r in D3.
  assert (CNT2 : leftShapeStableCount (left s2) = cnt)
    by (rewrite L2, L1; reflexivity).
  assert (LL2 : lastLeftShape (left s2) = sh)
    by (rewrite L2, L1; reflexivity).
  assert (P2 : leftPendingMode (left s2) = leftPendingMode (left s))
    by (rewrite L2, L1; reflexivity).
  assert (T2 : leftModeGestureStartTime (left s2)
               = leftModeGestureStartTime (left s))
    by (rewrite L2, L1; reflexivity).
  assert (RD : forall st pe,
             s3 = s2 \/ s3 = with_pending s2 st pe ->
             left s3 = mkLeft sh cnt sh st pe ->
             (pe = Some m -> st <= now) ->
             Ready m sh (fst r) now (Z.min (c + 1) 12)).
  { intros st pe D Ls Hst. unfold Ready, mode, Unlocked.
    assert (Cs : core s3 = core s2) by (destruct D as [-> | ->]; reflexivity).
    rewrite EM, EG, ET, EL, Cs, Ls. cbn.
    repeat split; try assumption. }
  assert (LF : left s2
               = mkLeft sh cnt sh (leftModeGestureStartTime (left s))
                        (leftPendingMode (left s)))
    by (rewrite L2; exact L1).
  destruct (isShapeStable (leftShapeStableCount (left s2))) eqn:St.
  - (* stable *)
    destruct (leftPendingMode (left s2)) as [pending |] eqn:P.
    + destruct (mode_eqb pending m) eqn:Ep.
      * apply mode_eqb_eq in Ep. subst pending.
        destruct (Rltb_spec (now - leftModeGestureStartTime (left s2))
                    MODE_SWITCH_STABLE_TIME) as [(Er & Hr) | (Er & Hr)];
          rewrite Er in D3.
        -- right. cbn [fst] in D3. split.
           ++ apply (RD (leftModeGestureStartTime (left s))
                        (leftPendingMode (left s))).
              ** left; exact D3.
              ** rewrite D3. exact LF.
              ** intros K. apply R3 in K. lra.
           ++ intros _. rewrite EL, D3. split; [exact P |].
              intros _. split; [exact T2 |]. rewrite <- T2. lra.
        -- left. rewrite EM, D3.
           rewrite (setMode_unlocked s2 m nowSwitch).
           ++ reflexivity.
           ++ eapply Unlocked_later; eassumption.
           ++ exact M2.
      * right. cbn [fst] in D3. split.
        -- apply (RD now (Some m)).
           ++ right; exact D3.
           ++ rewrite D3. cbn. rewrite LL2, CNT2, LS2. reflexivity.
           ++ intros _. lra.
        -- intros _. rewrite EL, D3. split; [reflexivity |].
           intros K. exfalso. assert (Q : pending = m) by congruence.
           subst pending.
           rewrite (proj2 (mode_eqb_eq m m) eq_refl) in Ep. discriminate Ep.
    + right. cbn [fst] in D3. split.
      * apply (RD now (Some m)).
        -- right; exact D3.
        -- rewrite D3. cbn. rewrite LL2, CNT2, LS2. reflexivity.
        -- intros _. lra.
      * intros _. rewrite EL, D3. split; [reflexivity |].
        intros K. congruence.
  - (* not stable yet *)
    right. cbn [andb fst] in D3. split.
    + apply (RD 0 None).
      * right; exact D3.
      * rewrite D3. cbn. rewrite LL2, CNT2, LS2. reflexivity.
      * discriminate.
    + intros H3. exfalso. unfold isShapeStable, STABLE_FRAMES in St.
      rewrite CNT2 in St. apply Z.leb_gt in St. lia.
Qed.

Lemma fst_run_app (a b : list Op) (s : t) :
  fst (run s (a ++ b)) = fst (run (fst (run s a)) b).
Proof.
  revert s. induction a as [| o a IH]; intros s; [reflexivity |].
  rewrite <- app_comm_cons, !fst_run_cons. apply IH.
Qed.

Lemma reaches_now (m : GestureMode) (s : t) (ops : list Op) :
  mode s = m -> reaches m s ops.
Proof. intros H. exists 0%nat. exact H. Qed.

Lemma reaches_cons (m : GestureMode) (s : t) (o : Op) (ops : list Op) :
  reaches m (fst (step s o)) ops -> reaches m s (o :: ops).
Proof.
  intros (k & H). exists (S k). cbn [firstn]. rewrite fst_run_cons. exact H.
Qed.

Lemma reaches_app_l (m : GestureMode) (s : t) (a b : list Op) :
  reaches m s a -> reaches m s (a ++ b).
Proof.
  intros (k & H). exists (Nat.min k (List.length a)).
  rewrite firstn_app.
  replace (Nat.min k (List.length a) - List.length a)%nat with 0%nat by lia.
  cbn [firstn]. rewrite app_nil_r.
  destruct (Nat.le_ge_cases k (List.length a)) as [L | L].
  - rewrite Nat.min_l by exact L. exact H.
  - rewrite Nat.min_r by exact L. rewrite firstn_all.
    rewrite firstn_all2 in H by exact L. exact H.
Qed.

Lemma reaches_app_r (m : GestureMode) (s : t) (a b : list Op) :
  reaches m (fst (run s a)) b -> reaches m s (a ++ b).
Proof.
  intros (k & H). exists (List.length a + k)%nat.
  rewrite firstn_app_2, fst_run_app. exact H.
Qed.

Lemma holding_app (sh : HandShape) (a b : list Op) (t0 : R) :
  holding sh t0 (a ++ b) ->
  holding sh t0 a /\ holding sh (endTime t0 a) b.
Proof.
  revert t0. induction a as [| o a IH]; intros t0 H; [split; [exact I | exact H] |].
  destruct o as [hands now nr nw | | |]; cbn [holding app] in H;
    try contradiction.
  destruct H as (H1 & H2 & H3 & H4 & H5).
  apply IH in H5. destruct H5 as (H5 & H6).
  cbn [holding endTime]. tauto.
Qed.

Lemma warm_up (m : GestureMode) (sh : HandShape) (ops : list Op) (s : t)
    (t0 : R) (c : Z) :
  modeOfShape sh = Some m -> holding sh t0 ops -> (0 <= c)%Z ->
  Ready m sh s t0 c ->
  reaches m s ops
  \/ Ready m sh (fst (run s ops)) (endTime t0 ops)
       (Z.min (c + Z.of_nat (List.length ops)) 12).
Proof.
  intros Hm. revert s t0 c. induction ops as [| o ops IH]; intros s t0 c H Hc R.
  - right. cbn [run fst endTime List.length].
    destruct R as (R1 & R2 & R3 & R4 & R5).
    repeat split; try assumption; try lia.
    intros P. apply R5. lia.
  - destruct o as [hands now nr nw | | |]; cbn [holding] in H;
      try contradiction.
    destruct H as (H1 & H2 & H3 & H4 & H5).
    destruct (hold_frame m sh s hands now nr nw t0 c Hm H1 H2 H3 H4 Hc R)
      as [M | (R' & _)].
    + left. apply reaches_cons. apply reaches_now. exact M.
    + assert (Hc' : (0 <= Z.min (c + 1) 12)%Z) by lia.
      destruct (IH _ now _ H5 Hc' R') as [Q | Q].
      * left. apply reaches_cons. exact Q.
      * right. rewrite fst_run_cons. cbn [endTime List.length].
        destruct Q as (Q1 & Q2 & Q3 & Q4 & Q5).
        repeat split; try assumption; try lia.
        intros P. apply Q5. lia.
Qed.

Lemma stable_phase (m : GestureMode) (sh : HandShape) (ops : list Op) (s : t)
    (t0 T : R) (c : Z) :
  modeOfShape sh = Some m -> holding sh t0 ops -> ops <> [] -> (3 <= c)%Z ->
  Ready m sh s t0 c ->
  leftPendingMode (left s) = Some m ->
  leftModeGestureStartTime (left s) <= T ->
  T + MODE_SWITCH_STABLE_TIME <= endTime t0 ops ->
  reaches m s ops.
Proof.
  intros Hm. revert s t0 c.
  induction ops as [| o ops IH]; intros s t0 c H Hne Hc R P S E;
    [contradiction |].
  destruct o as [hands now nr nw | | |]; cbn [holding] in H;
    try contradiction.
  destruct H as (H1 & H2 & H3 & H4 & H5).
  assert (Hc0 : (0 <= c)%Z) by lia.
  destruct (hold_frame m sh s hands now nr nw t0 c Hm H1 H2 H3 H4 Hc0 R)
    as [M | (R' & K)].
  - apply reaches_cons. apply reaches_now. exact M.
  - destruct (K Hc) as (P' & K'). destruct (K' P) as (S' & Lt).
    apply reaches_cons. cbn [endTime] in E.
    destruct ops as [| o' ops'].
    + exfalso. cbn [endTime] in E. lra.
    + apply (IH _ now (Z.min (c + 1) 12)); try assumption.
      * discriminate.
      * lia.
      * rewrite S'. exact S.
Qed.

Lemma shownTwo_ratio (i : nat) (a : NormalizedLandmark) (v : R) :
  landmark shownTwo i = Some a -> lx a = v -> ly a = 0 ->
  (v = 0 \/ v = 1) ->
  getFingerTipRatio shownTwo i = Some (v / 1).
Proof.
  intros Ha Hx Hy Hv. unfold getFingerTipRatio, getPalmWidth.
  change (landmark shownTwo WRIST) with (Some (mkLandmark 0 0 None)).
  change (landmark shownTwo MIDDLE_MCP) with (Some (mkLandmark 1 0 None)).
  cbn [bind].
  assert (D1 : dist2D (mkLandmark 0 0 None) (mkLandmark 1 0 None) = 1).
  { unfold dist2D. cbn [lx ly].
    replace ((0 - 1) * (0 - 1) + (0 - 0) * (0 - 0)) with 1 by lra.
    apply sqrt_1. }
  rewrite D1, (Rltb_false 1 0.01) by lra. rewrite Ha. cbn [bind].
  f_equal. f_equal. unfold dist2D. cbn [lx ly]. rewrite Hx, Hy.
  destruct Hv as [-> | ->].
  - replace ((0 - 0) * (0 - 0) + (0 - 0) * (0 - 0)) with 0 by lra.
    apply sqrt_0.
  - replace ((1 - 0) * (1 - 0) + (0 - 0) * (0 - 0)) with 1 by lra.
    apply sqrt_1.
Qed.

Lemma shownTwo_shape : getHandShape shownTwo = Some two.
Proof.
  assert (E : forall i, i = INDEX_TIP \/ i = MIDDLE_TIP ->
              isFingerExtended shownTwo i = Some true
              /\ isFingerCurled shownTwo i = Some false).
  { intros i Hi. unfold isFingerExtended, isFingerCurled.
    rewrite (shownTwo_ratio i (mkLandmark 1 0 None) 1);
      [| destruct Hi as [-> | ->]; reflexivity | reflexivity | reflexivity
       | right; reflexivity].
    cbn [bind]. unfold FINGER_EXTENDED_RATIO, FINGER_CURLED_RATIO.
    rewrite Rltb_true by lra. rewrite Rltb_false by lra. split; reflexivity. }
  assert (C : forall i, i = RING_TIP \/ i = PINKY_TIP ->
              isFingerExtended shownTwo i = Some false
              /\ isFingerCurled shownTwo i = Some true).
  { intros i Hi. unfold isFingerExtended, isFingerCurled.
    rewrite (shownTwo_ratio i (mkLandmark 0 0 None) 0);
      [| destruct Hi as [-> | ->]; reflexivity | reflexivity | reflexivity
       | left; reflexivity].
    cbn [bind]. unfold FINGER_EXTENDED_RATIO, FINGER_CURLED_RATIO.
    rewrite Rltb_false by lra. rewrite Rltb_true by lra. split; reflexivity. }
  unfold getHandShape, getPalmWidth.
  change (landmark shownTwo WRIST) with (Some (mkLandmark 0 0 None)).
  change (landmark shownTwo MIDDLE_MCP) with (Some (mkLandmark 1 0 None)).
  cbn [bind].
  assert (D1 : dist2D (mkLandmark 0 0 None) (mkLandmark 1 0 None) = 1).
  { unfold dist2D. cbn [lx ly].
    replace ((0 - 1) * (0 - 1) + (0 - 0) * (0 - 0)) with 1 by lra.
    apply sqrt_1. }
  rewrite D1, (Rltb_false 1 0.01) by lra.
  destruct (E INDEX_TIP (or_introl eq_refl)) as (-> & ->).
  destruct (E MIDDLE_TIP (or_intror eq_refl)) as (-> & ->).
  destruct (C RING_TIP (or_introl eq_refl)) as (-> & ->).
  destruct (C PINKY_TIP (or_intror eq_refl)) as (-> & ->).
  reflexivity.
Qed.

(** X30.  Holding a shape with the left hand changes the mode.  Once the
    lock of the mode is over, when the left hand shows a one (for 'watch')
    or a two (for 'zoom') in every frame, the frames coming with complete
    hands at times that do not decrease: the shape is stable from the
    fourth frame on, and a frame that comes 500 ms or more after the
    fourth finds the mode changed or changes it, whatever the right hand
    does in the meantime. *)
Theorem holding_shape_switches_mode (sh : HandShape) (m : GestureMode)
    (s : t) (t0 : R) (warm : list Op)
    (hands4 : list (bool * list NormalizedLandmark)) (t4 r4 w4 : R)
    (more : list Op)
    (handsn : list (bool * list NormalizedLandmark)) (tn rn wn : R) :
  modeOfShape sh = Some m ->
  (0 <= leftShapeStableCount (left s))%Z ->
  (modeSwitchByGesture (core s) = false
   \/ lastModeChangeTime (core s) + MODE_LOCK_DURATION <= t0) ->
  (leftPendingMode (left s) = Some m ->
   leftModeGestureStartTime (left s) <= t0) ->
  List.length warm = 3%nat ->
  holding sh t0
    (warm ++ Results hands4 t4 r4 w4 :: more ++ [Results handsn tn rn wn]) ->
  t4 + MODE_SWITCH_STABLE_TIME <= tn ->
  exists k : nat,
    currentMode
      (core (fst (run s (firstn k
                           (warm ++ Results hands4 t4 r4 w4
                                 :: more ++ [Results handsn tn rn wn])))))
    = m.
Proof.
  intros Hm Hc U P Lw H Ht.
  change (reaches m s
            (warm ++ Results hands4 t4 r4 w4
                  :: more ++ [Results handsn tn rn wn])).
  destruct (mode_eqb (mode s) m) eqn:Em.
  { apply reaches_now. apply mode_eqb_eq. exact Em. }
  assert (R0 : Ready m sh s t0 0).
  { repeat split; try assumption; try lia.
    intros K. apply mode_eqb_eq in K. congruence. }
  apply holding_app in H. destruct H as (Hw & H).
  destruct (warm_up m sh warm s t0 0 Hm Hw (Z.le_refl 0) R0) as [Q | R3].
  { apply reaches_app_l. exact Q. }
  rewrite Lw in R3. change (Z.min (0 + Z.of_nat 3) 12) with 3%Z in R3.
  apply reaches_app_r.
  set (s3 := fst (run s warm)) in *.
  set (t3 := endTime t0 warm) in *.
  cbn [holding] in H. destruct H as (H1 & H2 & H3 & H4 & H5).
  assert (Hc3 : (0 <= 3)%Z) by lia.
  destruct (hold_frame m sh s3 hands4 t4 r4 w4 t3 3 Hm H1 H2 H3 H4 Hc3 R3)
    as [M | (R4 & K)].
  { apply reaches_cons. apply reaches_now. exact M. }
  apply reaches_cons.
  destruct (K (Z.le_refl 3)) as (P4 & _).
  change (Z.min (3 + 1) 12) with 4%Z in R4.
  apply (stable_phase m sh _ _ t4 t4 4 Hm H5).
  - destruct more; discriminate.
  - lia.
  - exact R4.
  - exact P4.
  - destruct R4 as (_ & _ & R43 & _). apply R43. exact P4.
  - assert (E : forall l t1, endTime t1 (l ++ [Results handsn tn rn wn]) = tn).
    { induction l as [| o l IH]; intros t1; [reflexivity |].
      destruct o; cbn [app endTime]; apply IH. }
    rewrite E. exact Ht.
Qed.

Lemma holding_shape_switches_mode_witness :
  exists k : nat,
    currentMode
      (core (fst (run create
                    (firstn k
                       ([Results [(false, shownTwo)] 5000 5000 5000;
                         Results [(false, shownTwo)] 5100 5100 5100;
                         Results [(false, shownTwo)] 5200 5200 5200]
                        ++ Results [(false, shownTwo)] 5300 5300 5300
                           :: [] ++ [Results [(false, shownTwo)]
                                             5800 5800 5800])))))
    = zoom.
Proof.
  apply (holding_shape_switches_mode two zoom create 5000).
  - reflexivity.
  - cbn. lia.
  - right. cbn. unfold MODE_LOCK_DURATION. lra.
  - cbn. discriminate.
  - reflexivity.
  - assert (L : leftShapeOf [(false, shownTwo)] = Some two)
      by exact shownTwo_shape.
    cbn [holding app]. repeat split; try exact L; try reflexivity; lra.
  - unfold MODE_SWITCH_STABLE_TIME. lra.
Defined.

End GestureProps.
